(** * ApplyRidersToGraph: ridership apportionment over the TNET street graph

    A shallow embedding of [ApplyRidersToGraph.py].  The script builds a
    NetworkX [MultiDiGraph] from street rows, derives one subgraph per
    route, routes between consecutive stops and accumulates rider volumes
    in the [total] attribute of the graph's edges.

    Conventions of the embedding:
    - a Python dict that the script iterates over is an association list
      whose order is the iteration order; a dict that is only looked up is
      a [gmap];
    - numbers that the script computes with [float] are rationals ([Q]),
      and the definitions of the run compute with them exactly; the
      module [Rounded] repeats the apportionment with every float
      operation rounded to the nearest double.  Counts read from the
      query are integers ([Z]);
    - a raised Python exception is a value of [Exn]; the handlers of the
      script are pattern matches on it;
    - the graph library is NetworkX 1.x, the line that the script runs on
      (Python 2, [subgraph] returning a graph that can be edited, [edges]
      returning a list); the cursors and the CSV reader hand over rows
      that are already read. *)

From Stdlib Require Import ZArith QArith Qround Qpower Qabs SpecFloat Lia Lqa List
  Permutation Bool.
From stdpp Require Import gmap.
Import ListNotations.

(** ** Exceptions *)

(** The exceptions that the script and the library calls can raise.
    [OutOfFuel] is none of Python's: it marks the end of the fuel of the
    path search, which is never reached ([nx_shortest_path_fuel]). *)
Inductive Exn : Type :=
| IndexError
| KeyError
| NetworkXNoPath
| NetworkXError
| AttributeError
| ValueError
| ZeroDivisionError
| UnboundLocalError
| SystemExit
| OutOfFuel.

Inductive result (A : Type) : Type :=
| Ok (a : A)
| Raise (e : Exn).
Arguments Ok {A} a.
Arguments Raise {A} e.

#[global] Instance result_ret : MRet result := fun _ a => Ok a.
#[global] Instance result_bind : MBind result := fun _ _ k r =>
  match r with
  | Ok a => k a
  | Raise e => Raise e
  end.

(** [except: ... raise SystemExit()] around a function body. *)
Definition or_exit {A} (r : result A) : result A :=
  match r with
  | Ok a => Ok a
  | Raise _ => Raise SystemExit
  end.

Definition of_option {A} (e : Exn) (o : option A) : result A :=
  match o with
  | Some a => Ok a
  | None => Raise e
  end.

(** A [for] loop whose body may raise: the state is threaded through the
    items in order and the first exception ends the loop. *)
Fixpoint for_each {A S : Type} (body : S -> A -> result S) (l : list A) (s : S)
  : result S :=
  match l with
  | [] => Ok s
  | x :: l' => s' ← body s x; for_each body l' s'
  end.

(** ** Ordered dictionaries *)

Section OrderedDict.
Context {K V : Type} (eqb : K -> K -> bool).

Fixpoint odict_get (k : K) (d : list (K * V)) : option V :=
  match d with
  | [] => None
  | (k', v) :: d' => if eqb k k' then Some v else odict_get k d'
  end.

(** [d[k] = v]: an existing key keeps its place, a new key goes last. *)
Fixpoint odict_set (k : K) (v : V) (d : list (K * V)) : list (K * V) :=
  match d with
  | [] => [(k, v)]
  | (k', v') :: d' =>
      if eqb k k' then (k, v) :: d' else (k', v') :: odict_set k v d'
  end.

(** [del d[k]] *)
Fixpoint odict_del (k : K) (d : list (K * V)) : list (K * V) :=
  match d with
  | [] => []
  | (k', v') :: d' =>
      if eqb k k' then d' else (k', v') :: odict_del k d'
  end.

Definition odict_mem (k : K) (d : list (K * V)) : bool :=
  match odict_get k d with Some _ => true | None => false end.
End OrderedDict.

(** ** The directed multigraph *)

Definition Node := Z.

(** The attribute dict of one edge: [link], [cost], [total]. *)
Record EdgeData : Type := mkEdge { link : Z; cost : Q; total : Q }.

(** [G.adj[u][v]] maps edge keys to attribute dicts; [G.adj[u]] maps
    successors to key dicts; [G.adj] maps nodes to adjacency dicts. *)
Definition KeyDict := list (nat * EdgeData).
Definition AdjDict := list (Node * KeyDict).
Definition MultiDiGraph := list (Node * AdjDict).

Definition has_node (G : MultiDiGraph) (n : Node) : bool := odict_mem Z.eqb n G.

Definition add_node (G : MultiDiGraph) (n : Node) : MultiDiGraph :=
  if has_node G n then G else G ++ [(n, [])].

(** [key = len(keydict); while key in keydict: key += 1].  The loop ends
    within [len(keydict) + 1] steps; in the graphs that the script builds
    the first candidate is free ([fresh_key_from_zero]). *)
Fixpoint find_free (fuel key : nat) (kd : KeyDict) : nat :=
  match fuel with
  | O => key
  | S fuel' => if odict_mem Nat.eqb key kd then find_free fuel' (S key) kd else key
  end.

Definition fresh_key (kd : KeyDict) : nat :=
  find_free (S (length kd)) (length kd) kd.

(** [G.add_edge(u, v, link=.., cost=.., total=..)] with no explicit key. *)
Definition add_edge (G : MultiDiGraph) (u v : Node) (d : EdgeData) : MultiDiGraph :=
  let G1 := add_node (add_node G u) v in
  let adj := default [] (odict_get Z.eqb u G1) in
  match odict_get Z.eqb v adj with
  | Some kd => odict_set Z.eqb u (odict_set Z.eqb v (kd ++ [(fresh_key kd, d)]) adj) G1
  | None => odict_set Z.eqb u (odict_set Z.eqb v [(O, d)] adj) G1
  end.

(** [G.edges(keys=True, data=True)]: every edge once, by node, then by
    successor, then by key. *)
Definition adj_edges (u : Node) (adj : AdjDict) : list (Node * Node * nat * EdgeData) :=
  flat_map (fun vk => map (fun kd => (u, fst vk, fst kd, snd kd)) (snd vk)) adj.

Definition edges (G : MultiDiGraph) : list (Node * Node * nat * EdgeData) :=
  flat_map (fun ua => adj_edges (fst ua) (snd ua)) G.

(** [G.get_edge_data(u, v)]: the key dict of the pair, [None] when there
    is no edge. *)
Definition get_edge_data (G : MultiDiGraph) (u v : Node) : option KeyDict :=
  adj ← odict_get Z.eqb u G; odict_get Z.eqb v adj.

(** ** GraphBuilder: [CreateDirectedMultiGraph] *)

(** One row of the street cursor:
    [FR_TPOINT, TO_TPOINT, TLINK_ID, CAR_FLOW, ROLL_LEN]. *)
Record StreetRow : Type := mkStreet {
  FR_TPOINT : option Node;
  TO_TPOINT : option Node;
  TLINK_ID : Z;
  CAR_FLOW : Z;
  ROLL_LEN : Q
}.

Definition add_street (G : MultiDiGraph) (row : StreetRow) : MultiDiGraph :=
  match FR_TPOINT row, TO_TPOINT row with
  | Some ifrom, Some to =>
      let d := mkEdge (TLINK_ID row) (ROLL_LEN row) 0 in
      if (CAR_FLOW row =? 2)%Z then add_edge G to ifrom d
      else if (CAR_FLOW row =? 1)%Z then add_edge G ifrom to d
      else add_edge (add_edge G ifrom to d) to ifrom d
  | _, _ => G
  end.

Definition CreateDirectedMultiGraph (fcStreets : list StreetRow) : MultiDiGraph :=
  fold_left add_street fcStreets [].

(** The loop header shared by [NodeLookup], [CreateSubgraph] and [main]:
<<
    for edge in G.edges(data=('link', 'total')):
        data = G.get_edge_data( *edge )
        for k in data.keys():
>>
    The tuple passed as [data] names no attribute, so the third component
    of [edge] is [None] and [get_edge_data] returns the whole key dict of
    the pair.  The result lists [(edge[0], edge[1], data[k])] in the order
    in which the loop body sees them; a pair with [m] parallel edges is
    met [m] times, each time with all of its [m] attribute dicts. *)
Definition edge_data_scan (G : MultiDiGraph) : result (list (Node * Node * EdgeData)) :=
  visits ← mapM (fun e : Node * Node * nat * EdgeData =>
    let '(u, v, _, _) := e in
    data ← of_option AttributeError (get_edge_data G u v);
    Ok (map (fun kd : nat * EdgeData => (u, v, snd kd)) data)) (edges G);
  Ok (List.concat visits).

(** ** RouteSegmentIndex: [SubgraphDataLookup] *)

Definition SubgraphDataLookup (fcRoutes : list (Z * Z)) : list (Z * list Z) :=
  fold_left (fun d (row : Z * Z) =>
    let '(route, tlink) := row in
    odict_set Z.eqb route (default [] (odict_get Z.eqb route d) ++ [tlink]) d)
    fcRoutes [].

(** ** RouteMetricsLoader: [RouteDataLookup] *)

Inductive Direction : Type := inbound | outbound.

#[global] Instance Direction_eq_dec : EqDecision Direction.
Proof. solve_decision. Defined.

(** A dict with exactly the keys ['inbound'] and ['outbound']. *)
Record ByDir (A : Type) : Type := mkByDir { at_inbound : A; at_outbound : A }.
Arguments mkByDir {A} _ _.
Arguments at_inbound {A} _.
Arguments at_outbound {A} _.

Definition dir_get {A} (dir : Direction) (d : ByDir A) : A :=
  match dir with inbound => at_inbound d | outbound => at_outbound d end.

Definition dir_set {A} (dir : Direction) (a : A) (d : ByDir A) : ByDir A :=
  match dir with
  | inbound => mkByDir a (at_outbound d)
  | outbound => mkByDir (at_inbound d) a
  end.

(** One parsed row of the MetroTool query: [int(row[0])],
    [row[1].lower()], [float(row[3])], [int(row[6])], [int(row[7])] and
    [int(row[8])], which is [None] when it does not parse. *)
Record MetroRow : Type := mkMetro {
  m_route : Z;
  m_dir : Direction;
  m_seq : Q;
  m_ons : Z;
  m_offs : Z;
  m_tlink : option Z
}.

(** [[tlink, ons, offs]] *)
Definition StopData : Type := option Z * Z * Z.
(** [seq -> [tlink, ons, offs]]; keys are floats, compared by value. *)
Definition StopDict : Type := list (Q * StopData).

(** [dictRouteTotals[dir][route]]: the counters ['ons'] and ['offs']. *)
Definition Totals : Type := Z * Z.

Definition add_metro (acc : ByDir (gmap Z StopDict) * ByDir (gmap Z Totals)) (row : MetroRow)
  : ByDir (gmap Z StopDict) * ByDir (gmap Z Totals) :=
  let '(dictRouteMetrics, dictRouteTotals) := acc in
  let route := m_route row in
  let dir := m_dir row in
  let stops := default [] (dir_get dir dictRouteMetrics !! route) in
  let '(t_on, t_off) := default (0, 0)%Z (dir_get dir dictRouteTotals !! route) in
  (dir_set dir (<[route := odict_set Qeq_bool (m_seq row)
                              (m_tlink row, m_ons row, m_offs row) stops]>
                  (dir_get dir dictRouteMetrics)) dictRouteMetrics,
   dir_set dir (<[route := (t_on + m_ons row, t_off + m_offs row)%Z]>
                  (dir_get dir dictRouteTotals)) dictRouteTotals).

Definition RouteDataLookup (csvMetroQuery : list MetroRow)
  : ByDir (gmap Z StopDict) * ByDir (gmap Z Totals) :=
  fold_left add_metro csvMetroQuery (mkByDir ∅ ∅, mkByDir ∅ ∅).

(** ** NodeIndex: [NodeLookup] *)

(** A [defaultdict(tuple)]: an absent key reads as the empty tuple, which
    is [None] here. *)
Abbreviation NodeDict := (gmap Z (Node * Node)).

Definition NodeLookup (G : MultiDiGraph) : result NodeDict :=
  or_exit (
    visited ← edge_data_scan G;
    Ok (fold_left (fun (dictAllNodes : NodeDict) (e : Node * Node * EdgeData) =>
          let '(u, v, d) := e in <[link d := (u, v)]> dictAllNodes) visited ∅)).

(** ** SubgraphExtractor: [CreateSubgraph] *)

(** [G.subgraph(nbunch)]: a new graph on the nodes of [nbunch] that are in
    [G], with a copy of every key dict between two such nodes. *)
Definition subgraph (G : MultiDiGraph) (nbunch : list Node) : MultiDiGraph :=
  map (fun ua : Node * AdjDict =>
         (fst ua, filter (fun vk : Node * KeyDict => bool_decide (fst vk ∈ nbunch)) (snd ua)))
      (filter (fun ua : Node * AdjDict => bool_decide (fst ua ∈ nbunch)) G).

(** [d.popitem()] removes one entry of the dict [d]; which one depends
    on the interpreter, not on the values stored.  A policy tells, from
    the keys in dict order, the position of the entry that goes. *)
Definition pop_at (choose : list nat -> nat) (d : KeyDict) : KeyDict :=
  let i := choose (map fst d) in take i d ++ drop (S i) d.

(** CPython 2, which the script is written for: the keys of a key dict
    are the integers [0, 1, ...] that [add_edge] handed out, each stored
    in the hash slot of its own value, and [popitem] takes the first used
    slot, so the lowest key goes. *)
Definition popitem : KeyDict -> KeyDict := pop_at (fun _ => O).

Section Removal.
Variable pop : KeyDict -> KeyDict.

(** [subgraph.remove_edge(u, v)] with no key: one edge of the pair, the
    one [popitem] picks, is removed; the pair is dropped from the
    adjacency when no edge is left. *)
Definition remove_edge_with (H : MultiDiGraph) (u v : Node) : result MultiDiGraph :=
  adj ← of_option NetworkXError (odict_get Z.eqb u H);
  d ← of_option NetworkXError (odict_get Z.eqb v adj);
  let d' := pop d in
  Ok (odict_set Z.eqb u
        (match d' with
         | [] => odict_del Z.eqb v adj
         | _ => odict_set Z.eqb v d' adj
         end) H).

(** [for edge in subgraph.edges(data='link'):
       if edge[2] not in dictRouteLinks: subgraph.remove_edge(edge[0], edge[1])]
    over the list of edges taken before the first removal. *)
Fixpoint remove_extraneous_with (dictRouteLinks : list Z)
    (es : list (Node * Node * nat * EdgeData)) (H : MultiDiGraph)
  : result MultiDiGraph :=
  match es with
  | [] => Ok H
  | (u, v, _, d) :: es' =>
      if bool_decide (link d ∈ dictRouteLinks)
      then remove_extraneous_with dictRouteLinks es' H
      else H' ← remove_edge_with H u v; remove_extraneous_with dictRouteLinks es' H'
  end.

Definition CreateSubgraph_with (G : MultiDiGraph) (r : Z)
    (dictRouteSegments : list (Z * list Z))
  : result (list Z * NodeDict * MultiDiGraph) :=
  or_exit (
    let dictRouteLinks := default [] (odict_get Z.eqb r dictRouteSegments) in
    visited ← edge_data_scan G;
    let dictRouteNodes : NodeDict :=
      fold_left (fun (acc : NodeDict) (e : Node * Node * EdgeData) =>
        let '(u, v, d) := e in
        if bool_decide (link d ∈ dictRouteLinks) then <[link d := (u, v)]> acc else acc)
        visited ∅ in
    let lstNodes :=
      flat_map (fun kv : Z * (Node * Node) => [fst (snd kv); snd (snd kv)])
               (map_to_list dictRouteNodes) in
    let H := subgraph G lstNodes in
    H' ← remove_extraneous_with dictRouteLinks (edges H) H;
    Ok (dictRouteLinks, dictRouteNodes, H')).
End Removal.

Definition remove_edge := remove_edge_with popitem.
Definition remove_extraneous := remove_extraneous_with popitem.
Definition CreateSubgraph := CreateSubgraph_with popitem.

(** ** [AdjustRidership] *)

Definition AdjustRidership (ons offs total_on total_off : Z) : result (Q * Q) :=
  if (total_on >? total_off)%Z then
    let diff := (total_on - total_off)%Z in
    if (total_off =? 0)%Z then Raise ZeroDivisionError
    else Ok (inject_Z ons,
             (inject_Z offs + inject_Z diff * (inject_Z offs / inject_Z total_off))%Q)
  else
    let diff := (total_off - total_on)%Z in
    if (total_on =? 0)%Z then Raise ZeroDivisionError
    else Ok ((inject_Z ons + inject_Z diff * (inject_Z ons / inject_Z total_on))%Q,
             inject_Z offs).

(** ** PathResolver: [GetTLINK] *)

(** First loop of the body: the link of the last parallel edge that is in
    [dictRouteLinks], [0] when there is none. *)
Definition route_tlink (dictRouteLinks : list Z) (data : KeyDict) : Z :=
  fold_left (fun (tlink : Z) (kd : nat * EdgeData) =>
    if bool_decide (link (snd kd) ∈ dictRouteLinks) then link (snd kd) else tlink) data 0%Z.

(** Second loop: the running minimum of [cost], started at [data[0]]. *)
Definition cheapest_tlink (data : KeyDict) (cost0 : Q) (tlink0 : Z) : Q * Z :=
  fold_left (fun (acc : Q * Z) (kd : nat * EdgeData) =>
    if Qle_bool (cost (snd kd)) (fst acc) then (cost (snd kd), link (snd kd)) else acc)
    data (cost0, tlink0).

Definition pair_tlink (G : MultiDiGraph) (dictRouteLinks : list Z) (p : Node * Node)
  : result Z :=
  data ← of_option AttributeError (get_edge_data G (fst p) (snd p));
  let tlink := route_tlink dictRouteLinks data in
  if (tlink =? 0)%Z then
    d0 ← of_option KeyError (odict_get Nat.eqb O data);
    Ok (snd (cheapest_tlink data (cost d0) tlink))
  else Ok tlink.

Definition GetTLINK (G : MultiDiGraph) (path : list Node) (dictRouteLinks : list Z)
  : result (list Z) :=
  let lstSource := removelast path in
  let lstTarget := tail path in
  let lstPath := combine lstSource lstTarget in
  mapM (pair_tlink G dictRouteLinks) lstPath.

(** ** PathResolver: [nx.shortest_path(G, source, target, weight='cost')]

    NetworkX 1.x dispatches to [dijkstra_path], which runs
    [single_source_dijkstra] with a binary heap of
    [(distance, counter, node)] entries and raises [NetworkXNoPath] when
    the target got no path. *)

Definition Qlt_bool (x y : Q) : bool := negb (Qle_bool y x).

(** [min(eattr.get('cost', 1) for eattr in data.values())] *)
Definition get_weight (data : KeyDict) : result Q :=
  match data with
  | [] => Raise ValueError
  | kd :: data' =>
      Ok (fold_left (fun (m : Q) (kd' : nat * EdgeData) =>
            if Qlt_bool (cost (snd kd')) m then cost (snd kd') else m)
          data' (cost (snd kd)))
  end.

Definition HeapEntry : Type := Q * nat * Node.

Definition entry_lt (a b : HeapEntry) : bool :=
  Qlt_bool (fst (fst a)) (fst (fst b))
  || (Qeq_bool (fst (fst a)) (fst (fst b)) && (snd (fst a) <? snd (fst b))%nat).

(** [heappop]: the least entry and the remaining ones. *)
Fixpoint heappop (fringe : list HeapEntry) : option (HeapEntry * list HeapEntry) :=
  match fringe with
  | [] => None
  | x :: fringe' =>
      match heappop fringe' with
      | None => Some (x, [])
      | Some (m, rest) => if entry_lt m x then Some (m, x :: rest) else Some (x, fringe')
      end
  end.

Record Search : Type := mkSearch {
  s_dist : list (Node * Q);
  s_seen : list (Node * Q);
  s_paths : list (Node * list Node);
  s_fringe : list HeapEntry;
  s_count : nat
}.

(** [seen[u] = vu_dist; push(...); paths[u] = paths[v] + [u]] *)
Definition discover (v u : Node) (vu_dist : Q) (s : Search) : result Search :=
  pv ← of_option KeyError (odict_get Z.eqb v (s_paths s));
  Ok (mkSearch (s_dist s)
        (odict_set Z.eqb u vu_dist (s_seen s))
        (odict_set Z.eqb u (pv ++ [u]) (s_paths s))
        ((vu_dist, s_count s, u) :: s_fringe s)
        (S (s_count s))).

(** The body of [for u, e in G_succ[v].items()]. *)
Definition relax (v : Node) (d : Q) (s : Search) (ue : Node * KeyDict) : result Search :=
  w ← get_weight (snd ue);
  let vu_dist := (d + w)%Q in
  match odict_get Z.eqb (fst ue) (s_dist s) with
  | Some du => if Qlt_bool vu_dist du then Raise ValueError else Ok s
  | None =>
      match odict_get Z.eqb (fst ue) (s_seen s) with
      | Some su => if Qlt_bool vu_dist su then discover v (fst ue) vu_dist s else Ok s
      | None => discover v (fst ue) vu_dist s
      end
  end.

Fixpoint dijkstra_loop (fuel : nat) (G : MultiDiGraph) (target : Node) (s : Search)
  : result Search :=
  match fuel with
  | O => Raise OutOfFuel
  | S fuel' =>
      match heappop (s_fringe s) with
      | None => Ok s
      | Some ((d, _, v), rest) =>
          let s1 := mkSearch (s_dist s) (s_seen s) (s_paths s) rest (s_count s) in
          if odict_mem Z.eqb v (s_dist s1) then dijkstra_loop fuel' G target s1
          else
            let s2 := mkSearch ((v, d) :: s_dist s1) (s_seen s1) (s_paths s1)
                               (s_fringe s1) (s_count s1) in
            if (v =? target)%Z then Ok s2
            else
              adj ← of_option KeyError (odict_get Z.eqb v G);
              s3 ← for_each (relax v d) adj s2;
              dijkstra_loop fuel' G target s3
      end
  end.

(** Every pop uses up a push, and a node pushes at most once per
    successor, when it is settled: one more than the number of adjacency
    entries bounds the pops. *)
Definition search_fuel (G : MultiDiGraph) : nat :=
  2 + list_sum (map (fun ua : Node * AdjDict => length (snd ua)) G).

Definition nx_shortest_path (G : MultiDiGraph) (source target : Node) : result (list Node) :=
  if (source =? target)%Z then Ok [source]
  else
    s ← dijkstra_loop (search_fuel G) G target
          (mkSearch [] [(source, 0%Q)] [(source, [source])] [(0%Q, O, source)] 1);
    of_option NetworkXNoPath (odict_get Z.eqb target (s_paths s)).

(** ** RidershipApportioner: [RidershipAlgorithm] *)

(** [G[u][v][0]['total'] += x] *)
Definition add_total (G : MultiDiGraph) (u v : Node) (x : Q) : result MultiDiGraph :=
  adj ← of_option KeyError (odict_get Z.eqb u G);
  kd ← of_option KeyError (odict_get Z.eqb v adj);
  d ← of_option KeyError (odict_get Nat.eqb O kd);
  Ok (odict_set Z.eqb u
        (odict_set Z.eqb v
           (odict_set Nat.eqb O (mkEdge (link d) (cost d) (total d + x)) kd) adj) G).

(** [sorted(dictStops.keys())] *)
Fixpoint insert_sorted (x : Q) (l : list Q) : list Q :=
  match l with
  | [] => [x]
  | y :: l' => if Qle_bool x y then x :: l else y :: insert_sorted x l'
  end.

Definition sorted (l : list Q) : list Q := fold_right insert_sorted [] l.

Definition enumerate {A} (l : list A) : list (nat * A) := combine (seq 0 (length l)) l.

(** The local variables of [RidershipAlgorithm] that outlive one pass of
    the innermost loop.  [st_tlinks] is [None] while [tlinks] is unbound;
    a stop without a link has [None] as its link, so the list holds
    optional link ids. *)
Record State : Type := mkState {
  st_G : MultiDiGraph;
  st_dictRouteNodes : NodeDict;
  st_tlinks : option (list (option Z));
  st_total : Q;
  st_lstBadData : list (Z * Direction);
  st_lstMissingLink : list (Z * Direction)
}.

Definition set_G (G : MultiDiGraph) (st : State) : State :=
  mkState G (st_dictRouteNodes st) (st_tlinks st) (st_total st)
          (st_lstBadData st) (st_lstMissingLink st).
Definition set_dictRouteNodes (d : NodeDict) (st : State) : State :=
  mkState (st_G st) d (st_tlinks st) (st_total st)
          (st_lstBadData st) (st_lstMissingLink st).
Definition set_tlinks (t : list (option Z)) (st : State) : State :=
  mkState (st_G st) (st_dictRouteNodes st) (Some t) (st_total st)
          (st_lstBadData st) (st_lstMissingLink st).
Definition set_total (x : Q) (st : State) : State :=
  mkState (st_G st) (st_dictRouteNodes st) (st_tlinks st) x
          (st_lstBadData st) (st_lstMissingLink st).
Definition append_BadData (rd : Z * Direction) (st : State) : State :=
  mkState (st_G st) (st_dictRouteNodes st) (st_tlinks st) (st_total st)
          (st_lstBadData st ++ [rd]) (st_lstMissingLink st).
Definition append_MissingLink (rd : Z * Direction) (st : State) : State :=
  mkState (st_G st) (st_dictRouteNodes st) (st_tlinks st) (st_total st)
          (st_lstBadData st) (st_lstMissingLink st ++ [rd]).

(** [d[e]] on a [defaultdict(tuple)], and [t[0]] on its value. *)
Definition node_tuple (d : NodeDict) (e : option Z) : option (Node * Node) :=
  match e with
  | Some k => d !! k
  | None => None
  end.

Definition tuple_0 (t : option (Node * Node)) : result Node :=
  of_option IndexError (fst <$> t).

(** [for p in ps: G[p[0]][p[1]][0]['total'] += x] *)
Fixpoint spread (ps : list (option (Node * Node))) (x : Q) (G : MultiDiGraph)
  : result MultiDiGraph :=
  match ps with
  | [] => Ok G
  | p :: ps' =>
      uv ← of_option IndexError p;
      G' ← add_total G (fst uv) (snd uv) x;
      spread ps' x G'
  end.

(** The loop over the stops of one direction; the body's flag is [true]
    when it leaves the loop with [break]. *)
Fixpoint for_stops {A} (body : A -> State -> result (State * bool)) (items : list A)
    (st : State) : result State :=
  match items with
  | [] => Ok st
  | x :: items' =>
      '(st', stop) ← body x st;
      if stop : bool then Ok st' else for_stops body items' st'
  end.

Section Apportioner.
(** [nx.shortest_path(_, source, target, weight='cost')] *)
Variable shortest_path : MultiDiGraph -> Node -> Node -> result (list Node).

(** Set once, before the loop over the routes. *)
Variable dictRouteSegments : list (Z * list Z).
Variable dictRouteMetrics : ByDir (gmap Z StopDict).
Variable dictRouteTotals : ByDir (gmap Z Totals).
Variable dictAllNodes : NodeDict.

(** The innermost [try]: a path that is not found leaves [tlinks] as it
    was. *)
Definition find_tlinks (view : MultiDiGraph) (dictRouteLinks : list Z)
    (source target : Node) (st : State) : result State :=
  match (path ← shortest_path view source target;
         GetTLINK (st_G st) path dictRouteLinks) with
  | Ok tl => Ok (set_tlinks (Some <$> tl) st)
  | Raise NetworkXNoPath => Ok st
  | Raise e => Raise e
  end.

(** The handler of [(IndexError, KeyError)]: the whole graph and its
    node index take the place of the subgraph and the route's index. *)
Definition whole_graph_fallback (dictRouteLinks : list Z) (r : Z) (dir : Direction)
    (eSource eTarget : option Z) (st : State) : result (State * bool) :=
  let st1 := set_dictRouteNodes dictAllNodes st in
  match (source ← tuple_0 (node_tuple (st_dictRouteNodes st1) eSource);
         target ← tuple_0 (node_tuple (st_dictRouteNodes st1) eTarget);
         find_tlinks (st_G st1) dictRouteLinks source target st1) with
  | Ok st2 => Ok (st2, false)
  | Raise IndexError => Ok (append_MissingLink (r, dir) st1, true)
  | Raise e => Raise e
  end.

Definition locate (subgraph : MultiDiGraph) (dictRouteLinks : list Z) (r : Z)
    (dir : Direction) (eSource eTarget : option Z) (st : State)
  : result (State * bool) :=
  match (source ← tuple_0 (node_tuple (st_dictRouteNodes st) eSource);
         target ← tuple_0 (node_tuple (st_dictRouteNodes st) eTarget);
         find_tlinks subgraph dictRouteLinks source target st) with
  | Ok st1 => Ok (st1, false)
  | Raise IndexError | Raise KeyError =>
      whole_graph_fallback dictRouteLinks r dir eSource eTarget st
  | Raise e => Raise e
  end.

(** From [# include the source edge and exclude the target edge] to the
    end of the loop body. *)
Definition apportion (r : Z) (dir : Direction) (total_on total_off : Z) (i : nat)
    (eSource eTarget : option Z) (ons offs : Z) (st : State) : result State :=
  tlinks ← of_option UnboundLocalError (st_tlinks st);
  let tlinks := if bool_decide (eSource ∈ tlinks) then tlinks else eSource :: tlinks in
  let tlinks := if bool_decide (eTarget ∈ tlinks) then removelast tlinks else tlinks in
  let st := set_tlinks tlinks st in
  let path_nodes := map (node_tuple dictAllNodes) tlinks in
  adjusted ← AdjustRidership ons offs total_on total_off;
  let adjusted_ons := fst adjusted in
  let adjusted_offs := snd adjusted in
  let total :=
    match i with
    | O => (st_total st + adjusted_ons + adjusted_offs)%Q
    | S _ => (st_total st + adjusted_ons)%Q
    end in
  src ← of_option IndexError (node_tuple (st_dictRouteNodes st) eSource);
  G1 ← add_total (st_G st) (fst src) (snd src) total;
  if Qlt_bool total adjusted_offs then
    let st := append_BadData (r, dir) st in
    let total := if (total_on >? total_off)%Z then inject_Z total_on
                 else inject_Z total_off in
    G2 ← spread (tail path_nodes) total G1;
    Ok (set_total total (set_G G2 st))
  else
    let total := (total - adjusted_offs)%Q in
    G2 ← spread (tail path_nodes) total G1;
    Ok (set_total total (set_G G2 st)).

(** The body of [for i, s in enumerate(lstStops[0:len(lstStops) - 1])]. *)
Definition stop_pair (subgraph : MultiDiGraph) (dictRouteLinks : list Z) (r : Z)
    (dir : Direction) (dictStops : StopDict) (lstStops : list Q)
    (total_on total_off : Z) (item : nat * Q) (st : State) : result (State * bool) :=
  let '(i, s) := item in
  lstSourceData ← of_option IndexError (odict_get Qeq_bool s dictStops);
  let '(eSource, ons, offs) := lstSourceData in
  s' ← of_option IndexError (lstStops !! (i + 1)%nat);
  lstTargetData ← of_option IndexError (odict_get Qeq_bool s' dictStops);
  let '(eTarget, _, _) := lstTargetData in
  '(st1, stop) ← locate subgraph dictRouteLinks r dir eSource eTarget st;
  if stop : bool then Ok (st1, true)
  else
    st2 ← apportion r dir total_on total_off i eSource eTarget ons offs st1;
    Ok (st2, false).

(** The body of [for dir in dictRouteMetrics.keys()]. *)
Definition direction (subgraph : MultiDiGraph) (dictRouteLinks : list Z) (r : Z)
    (st : State) (dir : Direction) : result State :=
  let dictStops := default [] (dir_get dir dictRouteMetrics !! r) in
  let lstStops := sorted (map fst dictStops) in
  let st := set_total 0 st in
  let totals := default (0, 0)%Z (dir_get dir dictRouteTotals !! r) in
  let total_on := fst totals in
  let total_off := snd totals in
  for_stops
    (stop_pair subgraph dictRouteLinks r dir dictStops lstStops total_on total_off)
    (enumerate (removelast lstStops)) st.

(** The body of [for r in dictRouteSegments.keys()]. *)
Definition route (st : State) (r : Z) : result State :=
  created ← CreateSubgraph (st_G st) r dictRouteSegments;
  let '(dictRouteLinks, dictRouteNodes, subgraph) := created in
  let st := set_dictRouteNodes dictRouteNodes st in
  for_each (direction subgraph dictRouteLinks r) [inbound; outbound] st.
End Apportioner.

Definition RidershipAlgorithm
    (shortest_path : MultiDiGraph -> Node -> Node -> result (list Node))
    (fcStreets : list StreetRow) (fcRoutes : list (Z * Z)) (csvMetroQuery : list MetroRow)
  : result (MultiDiGraph * list (Z * Direction) * list (Z * Direction)) :=
  or_exit (
    let G := CreateDirectedMultiGraph fcStreets in
    let dictRouteSegments := SubgraphDataLookup fcRoutes in
    let '(dictRouteMetrics, dictRouteTotals) := RouteDataLookup csvMetroQuery in
    dictAllNodes ← NodeLookup G;
    st ← for_each
           (route shortest_path dictRouteSegments dictRouteMetrics dictRouteTotals
                  dictAllNodes)
           (map fst dictRouteSegments)
           (mkState G ∅ None 0 [] []);
    Ok (st_G st, st_lstBadData st, st_lstMissingLink st)).

(** ** ResultAggregator: the ledger of [main] *)

(** [dd[data[k]['link']] = data[k]['total']] for every visited edge. *)
Definition ledger (G : MultiDiGraph) : result (gmap Z Q) :=
  visited ← edge_data_scan G;
  Ok (fold_left (fun (dd : gmap Z Q) (e : Node * Node * EdgeData) =>
        <[link (snd e) := total (snd e)]> dd) visited ∅).

(** The value written to [RIDERS] for a street row. *)
Definition riders (dd : gmap Z Q) (tlink : Z) : Q := default 0%Q (dd !! tlink).

Definition main
    (shortest_path : MultiDiGraph -> Node -> Node -> result (list Node))
    (fcStreets : list StreetRow) (fcRoutes : list (Z * Z)) (csvMetroQuery : list MetroRow)
  : result (gmap Z Q) :=
  run ← RidershipAlgorithm shortest_path fcStreets fcRoutes csvMetroQuery;
  ledger (fst (fst run)).

(** * Statements

    What the specification says, and the invariants of the proofs, as
    definitions over the embedding. *)

(** ** The specification *)

(** An edge without its key: source, target and attributes. *)
Definition edge_triple (e : Node * Node * nat * EdgeData) : Node * Node * EdgeData :=
  (fst (fst (fst e)), snd (fst (fst e)), snd e).

(** Section 4.1 of the specification: the edges a segment record stands
    for.  Flow code 2 is reverse-only, 1 is forward-only, anything else is
    bidirectional; a record with a null endpoint stands for no edge. *)
Definition spec_segment_edges (row : StreetRow) : list (Node * Node * EdgeData) :=
  match FR_TPOINT row, TO_TPOINT row with
  | Some a, Some b =>
      let d := mkEdge (TLINK_ID row) (ROLL_LEN row) 0 in
      if (CAR_FLOW row =? 2)%Z then [(b, a, d)]
      else if (CAR_FLOW row =? 1)%Z then [(a, b, d)]
      else [(a, b, d); (b, a, d)]
  | _, _ => []
  end.

(** Section 4.6 of the specification, [resolveLinks], for one pair of
    consecutive nodes: among the parallel edges of the pair an edge of the
    route's link set is taken whenever there is one, and an edge of least
    cost when there is none. *)
Definition spec_resolves (G : MultiDiGraph) (routeLinkSet : list Z) (p : Node * Node)
    (tlink : Z) : Prop :=
  exists data, get_edge_data G (fst p) (snd p) = Some data /\
    ((exists kd, kd ∈ data /\ link (snd kd) ∈ routeLinkSet) ->
       tlink ∈ routeLinkSet /\ exists kd, kd ∈ data /\ link (snd kd) = tlink) /\
    ((forall kd, kd ∈ data -> link (snd kd) ∉ routeLinkSet) ->
       exists kd, kd ∈ data /\ link (snd kd) = tlink /\
         forall kd', kd' ∈ data -> (cost (snd kd) <= cost (snd kd'))%Q).

(** Section 3 of the specification, the ledger entry of a link: the sum of
    the loads of all edges that carry it. *)
Definition spec_link_load (G : MultiDiGraph) (l : Z) : Q :=
  fold_right (fun (e : Node * Node * nat * EdgeData) (acc : Q) =>
                if (link (snd e) =? l)%Z then (total (snd e) + acc)%Q else acc)
             0%Q (edges G).

(** ** Graphs *)

(** A dict holds a key once: the nodes of a graph are distinct, and so are
    the successors of each node. *)
Definition graph_wf (G : MultiDiGraph) : Prop :=
  NoDup (map fst G) /\ Forall (fun ua : Node * AdjDict => NoDup (map fst (snd ua))) G.

#[global] Instance graph_wf_dec (G : MultiDiGraph) : Decision (graph_wf G).
Proof. unfold graph_wf. apply _. Defined.

(** The keys of the parallel edges of every pair are [0, 1, ...] in this
    order, and no pair is listed without an edge. *)
Definition keys_from_zero (G : MultiDiGraph) : Prop :=
  Forall (fun ua : Node * AdjDict =>
            Forall (fun vk : Node * KeyDict =>
                      snd vk <> [] /\ map fst (snd vk) = seq 0 (length (snd vk)))
                   (snd ua)) G.

(** The attributes of the last edge, in the order of a list of edges, that
    carries the link [l]. *)
Fixpoint last_with_link (l : Z) (ds : list EdgeData) : option EdgeData :=
  match ds with
  | [] => None
  | d :: ds' =>
      match last_with_link l ds' with
      | Some d' => Some d'
      | None => if (link d =? l)%Z then Some d else None
      end
  end.

(** What the body of the scan sees at the edge [e]: the attribute dicts of
    all parallel edges of [e]. *)
Definition seen_at (G : MultiDiGraph) (e : Node * Node * nat * EdgeData)
  : list (Node * Node * EdgeData) :=
  map (fun kd : nat * EdgeData => (fst (fst (fst e)), snd (fst (fst e)), snd kd))
      (default [] (get_edge_data G (fst (fst (fst e))) (snd (fst (fst e))))).

(** The edges of a graph, one list per pair of nodes. *)
Definition edge_blocks (G : MultiDiGraph) : list (list (Node * Node * nat * EdgeData)) :=
  flat_map (fun ua : Node * AdjDict =>
    map (fun vk : Node * KeyDict =>
           map (fun kd : nat * EdgeData => (fst ua, fst vk, fst kd, snd kd)) (snd vk))
        (snd ua)) G.

(** The adjacency entries of the nodes that the search has not settled
    yet: a bound on the pushes still to come. *)
Definition unsettled_degree (G : MultiDiGraph) (dist : list (Node * Q)) : nat :=
  list_sum (map (fun ua : Node * AdjDict =>
                   if odict_mem Z.eqb (fst ua) dist then O else length (snd ua)) G).

(** ** Loads *)

(** [accumulates P G G']: the graph [G'] comes from [G] by a sequence of
    updates [G[u][v][0]['total'] += x], each with an increment [x] that
    satisfies [P]. *)
Inductive accumulates (P : Q -> Prop) : MultiDiGraph -> MultiDiGraph -> Prop :=
| accumulates_refl (G : MultiDiGraph) : accumulates P G G
| accumulates_step (G : MultiDiGraph) (u v : Node) (x : Q) (G1 G2 : MultiDiGraph) :
    P x -> add_total G u v x = Ok G1 -> accumulates P G1 G2 -> accumulates P G G2.

(** The same dict with related values under the same keys. *)
Definition odict_rel {K V : Type} (R : V -> V -> Prop) (d d' : list (K * V)) : Prop :=
  Forall2 (fun a b : K * V => fst a = fst b /\ R (snd a) (snd b)) d d'.

(** The same edge with a load that is no smaller. *)
Definition edge_le (d d' : EdgeData) : Prop :=
  link d = link d' /\ cost d = cost d' /\ (total d <= total d')%Q.

(** The same graph, every edge with a load that is no smaller. *)
Definition loads_le (G G' : MultiDiGraph) : Prop :=
  odict_rel (odict_rel (odict_rel edge_le)) G G'.

(** The counts of the query are not negative. *)
Definition row_nonneg (row : MetroRow) : Prop := (0 <= m_ons row)%Z /\ (0 <= m_offs row)%Z.

Definition stops_nonneg (dictStops : StopDict) : Prop :=
  Forall (fun kv : Q * StopData => (0 <= snd (fst (snd kv)))%Z /\ (0 <= snd (snd kv))%Z)
         dictStops.

Definition metrics_nonneg (dictRouteMetrics : ByDir (gmap Z StopDict)) : Prop :=
  forall dir r dictStops,
    dir_get dir dictRouteMetrics !! r = Some dictStops -> stops_nonneg dictStops.

Definition totals_nonneg (dictRouteTotals : ByDir (gmap Z Totals)) : Prop :=
  forall dir r (t : Totals),
    dir_get dir dictRouteTotals !! r = Some t -> (0 <= fst t)%Z /\ (0 <= snd t)%Z.

(** An increment is admissible when it is not negative, as far as the
    assumption [D] about the input holds. *)
Definition nonneg_if (D : Prop) (x : Q) : Prop := D -> (0 <= x)%Q.

(** ** The loop over the stops *)

(** [passes body items st st']: the loop body handles all of [items]
    from the state [st] without an exception and without [break], and
    leaves the state [st']. *)
Inductive passes {A : Type} (body : A -> State -> result (State * bool))
  : list A -> State -> State -> Prop :=
| passes_nil (st : State) : passes body [] st st
| passes_cons (x : A) (items : list A) (st st1 st2 : State) :
    body x st = Ok (st1, false) -> passes body items st1 st2 ->
    passes body (x :: items) st st2.

(** The link [e] of a stop is in neither node index. *)
Definition absent_both (dictRouteNodes dictAllNodes : NodeDict) (e : option Z) : Prop :=
  node_tuple dictRouteNodes e = None /\ node_tuple dictAllNodes e = None.

(** ** Fixtures *)

(** Section 8 of the specification, end to end: the path 1 -> 2 -> 3 of
    two one-way streets of cost 1, link 101 from 1 to 2 and link 102 from
    2 to 3, route 7 over both, and two stops in one direction: 10 riders
    board on link 101 and 10 alight on link 102. *)
Definition path_streets : list StreetRow :=
  [mkStreet (Some 1%Z) (Some 2%Z) 101 1 1; mkStreet (Some 2%Z) (Some 3%Z) 102 1 1].
Definition path_routes : list (Z * Z) := [(7, 101); (7, 102)]%Z.
Definition path_query (dir : Direction) : list MetroRow :=
  [mkMetro 7 dir 1 10 0 (Some 101%Z); mkMetro 7 dir 2 0 10 (Some 102%Z)].

(** Two parallel one-way streets from 1 to 2: link 101, which is on route
    7, and link 202, which is not. *)
Definition parallel_streets : list StreetRow :=
  [mkStreet (Some 1%Z) (Some 2%Z) 101 1 1; mkStreet (Some 1%Z) (Some 2%Z) 202 1 1].
Definition parallel_routes : list (Z * Z) := [(7, 101)]%Z.

(** The same between 1 and 2, and between 3 and 4 the other way round:
    link 203, which is not on the route, comes before link 102, which is. *)
Definition mirrored_streets : list StreetRow :=
  [mkStreet (Some 1%Z) (Some 2%Z) 101 1 1; mkStreet (Some 1%Z) (Some 2%Z) 202 1 1;
   mkStreet (Some 3%Z) (Some 4%Z) 203 1 1; mkStreet (Some 3%Z) (Some 4%Z) 102 1 1].
Definition mirrored_routes : list (Z * Z) := [(7, 101); (7, 102)]%Z.

(** Two one-way streets that do not meet, 1 -> 2 (link 101) and 3 -> 4
    (link 102), both on route 7, with one stop on each. *)
Definition gap_streets : list StreetRow :=
  [mkStreet (Some 1%Z) (Some 2%Z) 101 1 1; mkStreet (Some 3%Z) (Some 4%Z) 102 1 1].
Definition gap_routes : list (Z * Z) := [(7, 101); (7, 102)]%Z.
Definition gap_query : list MetroRow :=
  [mkMetro 7 inbound 1 10 0 (Some 101%Z); mkMetro 7 inbound 2 0 10 (Some 102%Z)].

(** Two parallel edges from 1 to 2: link 0 at cost 5, link 7 at cost 1. *)
Definition sentinel_streets : list StreetRow :=
  [mkStreet (Some 1%Z) (Some 2%Z) 0 1 5; mkStreet (Some 1%Z) (Some 2%Z) 7 1 1].

(** A two-way street 1 <-> 2 with link 5 and a one-way street 1 -> 2 with
    link 6; route 7 runs over both, with stops on link 6, on link 5 and
    again on link 6. *)
Definition shared_streets : list StreetRow :=
  [mkStreet (Some 1%Z) (Some 2%Z) 5 0 1; mkStreet (Some 1%Z) (Some 2%Z) 6 1 1].
Definition shared_routes : list (Z * Z) := [(7, 5); (7, 6)]%Z.
Definition shared_query : list MetroRow :=
  [mkMetro 7 inbound 1 10 0 (Some 6%Z);
   mkMetro 7 inbound 2 5 0 (Some 5%Z);
   mkMetro 7 inbound 3 0 15 (Some 6%Z)].

(** Route 7 over link 101 of [gap_streets]; its third stop is on link
    999, which no street carries.  Route 8 runs over link 102. *)
Definition missing_routes : list (Z * Z) := [(7, 101); (8, 102)]%Z.
Definition missing_query : list MetroRow :=
  [mkMetro 7 inbound 1 10 0 (Some 101%Z); mkMetro 7 inbound 2 0 5 (Some 101%Z);
   mkMetro 7 inbound 3 0 5 (Some 999%Z); mkMetro 7 inbound 4 0 0 (Some 101%Z);
   mkMetro 8 outbound 1 4 0 (Some 102%Z); mkMetro 8 outbound 2 0 4 (Some 102%Z)].

(** Route 7 over link 101 of [path_streets] only; its stops are on link
    101 and on link 102, which is a street but not one of the route. *)
Definition detour_routes : list (Z * Z) := [(7, 101)]%Z.
Definition detour_query : list MetroRow :=
  [mkMetro 7 inbound 1 10 0 (Some 101%Z); mkMetro 7 inbound 2 0 10 (Some 102%Z);
   mkMetro 7 inbound 3 0 0 (Some 101%Z)].

(** * Further statements *)

(** An edge without its load: source, target, key, link and cost. *)
Definition edge_shape (e : Node * Node * nat * EdgeData) : Node * Node * nat * Z * Q :=
  (fst (fst (fst e)), snd (fst (fst e)), snd (fst e), link (snd e), cost (snd e)).

(** The same edge up to its load. *)
Definition same_edge (d d' : EdgeData) : Prop := link d = link d' /\ cost d = cost d'.

(** The same graph up to the loads of its edges. *)
Definition same_shape (G G' : MultiDiGraph) : Prop :=
  odict_rel (odict_rel (odict_rel same_edge)) G G'.

(** The last element of a list that passes a test. *)
Fixpoint last_where {A : Type} (p : A -> bool) (l : list A) : option A :=
  match l with
  | [] => None
  | x :: l' =>
      match last_where p l' with
      | Some y => Some y
      | None => if p x then Some x else None
      end
  end.

(** How [apportion] rewrites [tlinks] before it reads it: the source link
    goes in front when it is missing, the last link goes when the target
    link is in the list. *)
Definition normalised (eSource eTarget : option Z) (tlinks : list (option Z))
  : list (option Z) :=
  let tlinks1 := if bool_decide (eSource ∈ tlinks) then tlinks else eSource :: tlinks in
  if bool_decide (eTarget ∈ tlinks1) then removelast tlinks1 else tlinks1.

Definition Zsum (l : list Z) : Z := fold_right Z.add 0%Z l.
Definition Qsum (l : list Q) : Q := fold_right Qplus 0%Q l.

(** The link ids of the rows of [fcRoutes] with the route number [r], in
    the order of the rows. *)
Definition route_rows (r : Z) (fcRoutes : list (Z * Z)) : list Z :=
  map snd (filter (fun row : Z * Z => (fst row =? r)%Z) fcRoutes).

(** The rows of the query for one direction and route, in the order of the
    rows. *)
Definition rows_of (dir : Direction) (r : Z) (csvMetroQuery : list MetroRow)
  : list MetroRow :=
  filter (fun row : MetroRow => bool_decide (m_dir row = dir) && (m_route row =? r)%Z)
         csvMetroQuery.

(** The pair of nodes that an edge joins. *)
Definition endpoints (e : Node * Node * nat * EdgeData) : Node * Node :=
  (fst (fst (fst e)), snd (fst (fst e))).

(** A node that the index of a route names as an end of one of its
    links. *)
Definition route_node (dictRouteNodes : NodeDict) (n : Node) : Prop :=
  exists l uv, dictRouteNodes !! l = Some uv /\ (n = fst uv \/ n = snd uv).

(** A [popitem] policy that picks one of the keys that are there. *)
Definition picks_a_key (choose : list nat -> nat) : Prop :=
  forall ks : list nat, ks <> [] -> (choose ks < length ks)%nat.

(** The edges of a list that join [u] to [v] and whose link is not in
    [dictRouteLinks]. *)
Definition extraneous_between (dictRouteLinks : list Z) (u v : Node)
    (es : list (Node * Node * nat * EdgeData)) : list (Node * Node * nat * EdgeData) :=
  List.filter (fun e => (fst (fst (fst e)) =? u)%Z && (snd (fst (fst e)) =? v)%Z
                        && negb (bool_decide (link (snd e) ∈ dictRouteLinks))) es.

(** The number of parallel edges from [u] to [v]. *)
Definition multiplicity (G : MultiDiGraph) (u v : Node) : nat :=
  length (default [] (get_edge_data G u v)).

(** Every pair of nodes has at least as many parallel edges in [H] as the
    list [es] has extraneous edges between them. *)
Definition covered (dictRouteLinks : list Z) (es : list (Node * Node * nat * EdgeData))
    (H : MultiDiGraph) : Prop :=
  forall u v : Node,
    (length (extraneous_between dictRouteLinks u v es) <= multiplicity H u v)%nat.

(** A street row that stands for an edge: both of its endpoints are
    there. *)
Definition has_endpoints (row : StreetRow) : Prop :=
  is_Some (FR_TPOINT row) /\ is_Some (TO_TPOINT row).

(** The stops that the query gives a route in a direction, by sequence
    number. *)
Definition stops_of (csvMetroQuery : list MetroRow) (dir : Direction) (r : Z) : StopDict :=
  default [] (dir_get dir (fst (RouteDataLookup csvMetroQuery)) !! r).

(** A query with one stop, on route 7. *)
Definition lone_query : list MetroRow := [mkMetro 7 inbound 1 10 0 (Some 101%Z)].

(** Two stops of route 7 over [path_streets] at which riders board and
    nobody alights. *)
Definition silent_query : list MetroRow :=
  [mkMetro 7 inbound 1 10 0 (Some 101%Z); mkMetro 7 inbound 2 5 0 (Some 102%Z)].

(** A list of sequence numbers in which no number is followed by a smaller
    one. *)
Fixpoint ascending (l : list Q) : Prop :=
  match l with
  | [] => True
  | x :: l' => match l' with [] => True | y :: _ => (x <= y)%Q end /\ ascending l'
  end.

(** Two nodes that an edge of the graph joins, in this direction. *)
Definition joined (G : MultiDiGraph) (u v : Node) : Prop :=
  exists (k : nat) (d : EdgeData), (u, v, k, d) ∈ edges G.

(** A list of nodes that leads from [source] to [target] along edges of
    the graph. *)
Definition is_walk (G : MultiDiGraph) (source target : Node) (path : list Node) : Prop :=
  head path = Some source /\ last path = Some target /\
  Forall (fun p : Node * Node => joined G (fst p) (snd p))
         (combine (removelast path) (tail path)).

(** Every path that the search has stored is a walk from the source to
    the node it is stored for. *)
Definition paths_are_walks (G : MultiDiGraph) (source : Node) (s : Search) : Prop :=
  forall (n : Node) (p : list Node),
    odict_get Z.eqb n (s_paths s) = Some p -> is_walk G source n p.

(** Every key dict of the graph holds an edge, and no cost is negative. *)
Definition view_ok (V : MultiDiGraph) : Prop :=
  forall (u : Node) (adj : AdjDict) (v : Node) (kd : KeyDict),
    (u, adj) ∈ V -> (v, kd) ∈ adj ->
    kd <> [] /\ Forall (fun x : nat * EdgeData => (0 <= cost (snd x))%Q) kd.

(** Every successor is a node of the graph. *)
Definition closed (V : MultiDiGraph) : Prop :=
  forall (u : Node) (adj : AdjDict) (v : Node) (kd : KeyDict),
    (u, adj) ∈ V -> (v, kd) ∈ adj -> is_Some (odict_get Z.eqb v V).

(** No settled distance exceeds the distance of an entry of the fringe. *)
Definition settled_first (s : Search) : Prop :=
  forall (u : Node) (du : Q) (e : HeapEntry),
    (u, du) ∈ s_dist s -> e ∈ s_fringe s -> (du <= fst (fst e))%Q.

(** Every node of the fringe is a node of the graph and has a path. *)
Definition fringe_known (V : MultiDiGraph) (s : Search) : Prop :=
  forall e : HeapEntry, e ∈ s_fringe s ->
    is_Some (odict_get Z.eqb (snd e) V) /\ is_Some (odict_get Z.eqb (snd e) (s_paths s)).

(** Every key dict of the graph passes a test. *)
Definition all_key_dicts (P : KeyDict -> Prop) (G : MultiDiGraph) : Prop :=
  Forall (fun ua : Node * AdjDict => Forall (fun vk : Node * KeyDict => P (snd vk)) (snd ua)) G.

(** Every successor is one of the nodes [K]. *)
Definition successors_in (K : list Node) (G : MultiDiGraph) : Prop :=
  Forall (fun ua : Node * AdjDict => Forall (fun vk : Node * KeyDict => fst vk ∈ K) (snd ua)) G.

(** No street has a negative cost. *)
Definition costs_nonneg (fcStreets : list StreetRow) : Prop :=
  Forall (fun row : StreetRow => (0 <= ROLL_LEN row)%Q) fcStreets.

(** The key dict holds an edge and no edge of a negative cost. *)
Definition key_dict_ok (kd : KeyDict) : Prop :=
  kd <> [] /\ Forall (fun x : nat * EdgeData => (0 <= cost (snd x))%Q) kd.

(** What the script needs of the node index of the graph: every pair in
    it is joined by an edge, and the link of every edge is a key. *)
Definition index_of (G : MultiDiGraph) (dictAllNodes : NodeDict) : Prop :=
  (forall l uv, dictAllNodes !! l = Some uv -> joined G (fst uv) (snd uv)) /\
  (forall e, e ∈ edges G -> is_Some (dictAllNodes !! link (snd e))).

(** The state of the loops at a point of a run over the graph [G0]: the
    graph is [G0] with loads added, the route's index holds pairs that
    [G0] joins under links that the whole index knows, and the links of
    [tlinks], when it is bound, are links that the whole index knows. *)
Definition run_state (G0 : MultiDiGraph) (dictAllNodes : NodeDict) (st : State) : Prop :=
  accumulates (fun _ => True) G0 (st_G st) /\
  (forall l uv, st_dictRouteNodes st !! l = Some uv ->
     joined G0 (fst uv) (snd uv) /\ is_Some (dictAllNodes !! l)) /\
  (forall tl, st_tlinks st = Some tl ->
     Forall (fun t => is_Some (node_tuple dictAllNodes t)) tl).

(** The two exceptions that end the apportionment. *)
Definition abort_cause (e : Exn) : Prop := e = UnboundLocalError \/ e = ZeroDivisionError.

(** * The arithmetic of the doubles

    Python's [float] is the IEEE 754 double: 53 significant bits, the
    least exponent -1074 for the unit in the last place, and every
    operation rounded to the nearest double, to the even one of two that
    are as near.  A finite double is a rational number, and an operation
    on doubles is the exact operation followed by [binary64].  The range
    of the doubles ends below 2^1024: beyond it [float(n)] raises
    [OverflowError] and an operation gives [inf]; here such a number
    stays a number, so the definitions are the script's as long as no
    count, total or load comes near 2^1024. *)

(** 2^e *)
Definition pow2 (e : Z) : Q := (2 ^ e)%Q.

(** The integer nearest to [y], the even one when two are as near. *)
Definition round_half_even (y : Q) : Z :=
  let f := Qfloor y in
  match (y - inject_Z f ?= 1 # 2)%Q with
  | Lt => f
  | Gt => (f + 1)%Z
  | Eq => if Z.even f then f else (f + 1)%Z
  end.

(** The exponent of the leading bit of [x], for [0 < x]:
    [2^(ilog2 x) <= x < 2^(ilog2 x + 1)]. *)
Definition ilog2 (x : Q) : Z :=
  let k := (Z.log2 (Qnum x) - Z.log2 (Zpos (Qden x)))%Z in
  if Qle_bool (pow2 k) x then k else (k - 1)%Z.

(** The exponent of the unit in the last place of the doubles next to
    [x], for [0 < x]. *)
Definition ulp_exp (x : Q) : Z := Z.max (ilog2 x - 52) (-1074).

Definition round_pos (x : Q) : Q :=
  (inject_Z (round_half_even (x / pow2 (ulp_exp x))) * pow2 (ulp_exp x))%Q.

(** The double nearest to [x]. *)
Definition binary64 (x : Q) : Q :=
  match (x ?= 0)%Q with
  | Eq => 0%Q
  | Gt => round_pos x
  | Lt => (- round_pos (- x))%Q
  end.

(** * The apportionment in the arithmetic of the doubles

    [AdjustRidership] and the loop body of [RidershipAlgorithm] once more,
    with every operation on floats rounded by [fl]: [binary64] gives the
    numbers of the script, the identity gives the definitions above
    ([exact_arithmetic]).  An operation that has a float among its
    operands converts the other operand and rounds the result; a double is
    left as it is by the conversion.  Python adds two ints exactly and
    converts the sum when it meets a float (the running total and a load
    are ints as long as only ints went into them); below 2^53, where
    every int is a double, this is the same number. *)
Module Rounded.
Section Arithmetic.
Variable fl : Q -> Q.

Definition add (x y : Q) : Q := fl (fl x + fl y).
Definition sub (x y : Q) : Q := fl (fl x - fl y).
Definition mul (x y : Q) : Q := fl (fl x * fl y).
Definition div (x y : Q) : Q := fl (fl x / fl y).

(** The count that is not adjusted is returned as the int it is. *)
Definition AdjustRidership (ons offs total_on total_off : Z) : result (Q * Q) :=
  if (total_on >? total_off)%Z then
    let diff := (total_on - total_off)%Z in
    if (total_off =? 0)%Z then Raise ZeroDivisionError
    else Ok (inject_Z ons,
             add (inject_Z offs)
                 (mul (inject_Z diff) (div (fl (inject_Z offs)) (inject_Z total_off))))
  else
    let diff := (total_off - total_on)%Z in
    if (total_on =? 0)%Z then Raise ZeroDivisionError
    else Ok (add (inject_Z ons)
                 (mul (inject_Z diff) (div (fl (inject_Z ons)) (inject_Z total_on))),
             inject_Z offs).

(** [G[u][v][0]['total'] += x] *)
Definition add_total (G : MultiDiGraph) (u v : Node) (x : Q) : result MultiDiGraph :=
  adj ← of_option KeyError (odict_get Z.eqb u G);
  kd ← of_option KeyError (odict_get Z.eqb v adj);
  d ← of_option KeyError (odict_get Nat.eqb O kd);
  Ok (odict_set Z.eqb u
        (odict_set Z.eqb v
           (odict_set Nat.eqb O (mkEdge (link d) (cost d) (add (total d) x)) kd) adj) G).

(** [for p in ps: G[p[0]][p[1]][0]['total'] += x] *)
Fixpoint spread (ps : list (option (Node * Node))) (x : Q) (G : MultiDiGraph)
  : result MultiDiGraph :=
  match ps with
  | [] => Ok G
  | p :: ps' =>
      uv ← of_option IndexError p;
      G' ← add_total G (fst uv) (snd uv) x;
      spread ps' x G'
  end.

(** One update [G[u][v][0]['total'] += x]: the pair of nodes and the
    increment. *)
Definition Update : Type := Node * Node * Q.

Definition increment (up : Update) : Q := snd up.

Definition apply_update (G : MultiDiGraph) (up : Update) : result MultiDiGraph :=
  add_total G (fst (fst up)) (snd (fst up)) (snd up).

(** The updates that [spread] makes, in order, up to the first entry of
    [ps] that is the empty tuple. *)
Fixpoint spread_updates (ps : list (option (Node * Node))) (x : Q) : list Update :=
  match ps with
  | Some uv :: ps' => (fst uv, snd uv, x) :: spread_updates ps' x
  | _ => []
  end.

Section Apportioner.
Variable shortest_path : MultiDiGraph -> Node -> Node -> result (list Node).
Variable dictRouteSegments : list (Z * list Z).
Variable dictRouteMetrics : ByDir (gmap Z StopDict).
Variable dictRouteTotals : ByDir (gmap Z Totals).
Variable dictAllNodes : NodeDict.

(** From [# include the source edge and exclude the target edge] to the
    end of the loop body. *)
Definition apportion (r : Z) (dir : Direction) (total_on total_off : Z) (i : nat)
    (eSource eTarget : option Z) (ons offs : Z) (st : State) : result State :=
  tlinks ← of_option UnboundLocalError (st_tlinks st);
  let tlinks := if bool_decide (eSource ∈ tlinks) then tlinks else eSource :: tlinks in
  let tlinks := if bool_decide (eTarget ∈ tlinks) then removelast tlinks else tlinks in
  let st := set_tlinks tlinks st in
  let path_nodes := map (node_tuple dictAllNodes) tlinks in
  adjusted ← AdjustRidership ons offs total_on total_off;
  let adjusted_ons := fst adjusted in
  let adjusted_offs := snd adjusted in
  let total :=
    match i with
    | O => add (add (st_total st) adjusted_ons) adjusted_offs
    | S _ => add (st_total st) adjusted_ons
    end in
  src ← of_option IndexError (node_tuple (st_dictRouteNodes st) eSource);
  G1 ← add_total (st_G st) (fst src) (snd src) total;
  if Qlt_bool total adjusted_offs then
    let st := append_BadData (r, dir) st in
    let total := if (total_on >? total_off)%Z then inject_Z total_on
                 else inject_Z total_off in
    G2 ← spread (tail path_nodes) total G1;
    Ok (set_total total (set_G G2 st))
  else
    let total := sub total adjusted_offs in
    G2 ← spread (tail path_nodes) total G1;
    Ok (set_total total (set_G G2 st)).

(** The updates that [apportion] makes, in order: the running total goes
    to the edge of the source stop, and what is left of it after the
    alightings, or the larger total of the direction after bad data, goes
    to the edges of the path. *)
Definition apportion_updates (total_on total_off : Z) (i : nat)
    (eSource eTarget : option Z) (ons offs : Z) (st : State) : list Update :=
  match st_tlinks st, AdjustRidership ons offs total_on total_off,
        node_tuple (st_dictRouteNodes st) eSource with
  | Some tlinks, Ok adjusted, Some src =>
      let tlinks := if bool_decide (eSource ∈ tlinks) then tlinks else eSource :: tlinks in
      let tlinks := if bool_decide (eTarget ∈ tlinks) then removelast tlinks else tlinks in
      let path_nodes := map (node_tuple dictAllNodes) tlinks in
      let adjusted_ons := fst adjusted in
      let adjusted_offs := snd adjusted in
      let total :=
        match i with
        | O => add (add (st_total st) adjusted_ons) adjusted_offs
        | S _ => add (st_total st) adjusted_ons
        end in
      (fst src, snd src, total) ::
      spread_updates (tail path_nodes)
        (if Qlt_bool total adjusted_offs
         then if (total_on >? total_off)%Z then inject_Z total_on else inject_Z total_off
         else sub total adjusted_offs)
  | _, _, _ => []
  end.

(** The body of [for i, s in enumerate(lstStops[0:len(lstStops) - 1])]. *)
Definition stop_pair (subgraph : MultiDiGraph) (dictRouteLinks : list Z) (r : Z)
    (dir : Direction) (dictStops : StopDict) (lstStops : list Q)
    (total_on total_off : Z) (item : nat * Q) (st : State) : result (State * bool) :=
  let '(i, s) := item in
  lstSourceData ← of_option IndexError (odict_get Qeq_bool s dictStops);
  let '(eSource, ons, offs) := lstSourceData in
  s' ← of_option IndexError (lstStops !! (i + 1)%nat);
  lstTargetData ← of_option IndexError (odict_get Qeq_bool s' dictStops);
  let '(eTarget, _, _) := lstTargetData in
  '(st1, stop) ← locate shortest_path dictAllNodes subgraph dictRouteLinks r dir
                    eSource eTarget st;
  if stop : bool then Ok (st1, true)
  else
    st2 ← apportion r dir total_on total_off i eSource eTarget ons offs st1;
    Ok (st2, false).

Definition stop_pair_updates (subgraph : MultiDiGraph) (dictRouteLinks : list Z) (r : Z)
    (dir : Direction) (dictStops : StopDict) (lstStops : list Q)
    (total_on total_off : Z) (item : nat * Q) (st : State) : list Update :=
  let '(i, s) := item in
  match odict_get Qeq_bool s dictStops, lstStops !! (i + 1)%nat with
  | Some (eSource, ons, offs), Some s' =>
      match odict_get Qeq_bool s' dictStops with
      | Some (eTarget, _, _) =>
          match locate shortest_path dictAllNodes subgraph dictRouteLinks r dir
                       eSource eTarget st with
          | Ok (st1, false) =>
              apportion_updates total_on total_off i eSource eTarget ons offs st1
          | _ => []
          end
      | None => []
      end
  | _, _ => []
  end.

(** The updates of a loop over the stops: those of each pass, up to the
    pass that raises or leaves the loop. *)
Fixpoint for_stops_updates {A} (body : A -> State -> result (State * bool))
    (ups : A -> State -> list Update) (items : list A) (st : State) : list Update :=
  match items with
  | [] => []
  | x :: items' =>
      ups x st ++
      match body x st with
      | Ok (st', false) => for_stops_updates body ups items' st'
      | _ => []
      end
  end.

(** The body of [for dir in dictRouteMetrics.keys()]. *)
Definition direction (subgraph : MultiDiGraph) (dictRouteLinks : list Z) (r : Z)
    (st : State) (dir : Direction) : result State :=
  let dictStops := default [] (dir_get dir dictRouteMetrics !! r) in
  let lstStops := sorted (map fst dictStops) in
  let st := set_total 0 st in
  let totals := default (0, 0)%Z (dir_get dir dictRouteTotals !! r) in
  let total_on := fst totals in
  let total_off := snd totals in
  for_stops
    (stop_pair subgraph dictRouteLinks r dir dictStops lstStops total_on total_off)
    (enumerate (removelast lstStops)) st.

Definition direction_updates (subgraph : MultiDiGraph) (dictRouteLinks : list Z) (r : Z)
    (st : State) (dir : Direction) : list Update :=
  let dictStops := default [] (dir_get dir dictRouteMetrics !! r) in
  let lstStops := sorted (map fst dictStops) in
  let st := set_total 0 st in
  let totals := default (0, 0)%Z (dir_get dir dictRouteTotals !! r) in
  let total_on := fst totals in
  let total_off := snd totals in
  for_stops_updates
    (stop_pair subgraph dictRouteLinks r dir dictStops lstStops total_on total_off)
    (stop_pair_updates subgraph dictRouteLinks r dir dictStops lstStops total_on total_off)
    (enumerate (removelast lstStops)) st.

(** The updates of a [for] loop: those of each pass, up to the pass that
    raises. *)
Fixpoint for_each_updates {A S : Type} (body : S -> A -> result S)
    (ups : S -> A -> list Update) (l : list A) (s : S) : list Update :=
  match l with
  | [] => []
  | x :: l' =>
      ups s x ++
      match body s x with
      | Ok s' => for_each_updates body ups l' s'
      | Raise _ => []
      end
  end.

(** The body of [for r in dictRouteSegments.keys()]. *)
Definition route (st : State) (r : Z) : result State :=
  created ← CreateSubgraph (st_G st) r dictRouteSegments;
  let '(dictRouteLinks, dictRouteNodes, subgraph) := created in
  let st := set_dictRouteNodes dictRouteNodes st in
  for_each (direction subgraph dictRouteLinks r) [inbound; outbound] st.

Definition route_updates (st : State) (r : Z) : list Update :=
  match CreateSubgraph (st_G st) r dictRouteSegments with
  | Ok (dictRouteLinks, dictRouteNodes, subgraph) =>
      for_each_updates (direction subgraph dictRouteLinks r)
                       (direction_updates subgraph dictRouteLinks r)
                       [inbound; outbound] (set_dictRouteNodes dictRouteNodes st)
  | Raise _ => []
  end.
End Apportioner.

Definition RidershipAlgorithm
    (shortest_path : MultiDiGraph -> Node -> Node -> result (list Node))
    (fcStreets : list StreetRow) (fcRoutes : list (Z * Z)) (csvMetroQuery : list MetroRow)
  : result (MultiDiGraph * list (Z * Direction) * list (Z * Direction)) :=
  or_exit (
    let G := CreateDirectedMultiGraph fcStreets in
    let dictRouteSegments := SubgraphDataLookup fcRoutes in
    let '(dictRouteMetrics, dictRouteTotals) := RouteDataLookup csvMetroQuery in
    dictAllNodes ← NodeLookup G;
    st ← for_each
           (route shortest_path dictRouteSegments dictRouteMetrics dictRouteTotals
                  dictAllNodes)
           (map fst dictRouteSegments)
           (mkState G ∅ None 0 [] []);
    Ok (st_G st, st_lstBadData st, st_lstMissingLink st)).

(** Every update [G[u][v][0]['total'] += x] of a run, in the order in
    which the script makes them. *)
Definition updates
    (shortest_path : MultiDiGraph -> Node -> Node -> result (list Node))
    (fcStreets : list StreetRow) (fcRoutes : list (Z * Z)) (csvMetroQuery : list MetroRow)
  : list Update :=
  let G := CreateDirectedMultiGraph fcStreets in
  let dictRouteSegments := SubgraphDataLookup fcRoutes in
  let '(dictRouteMetrics, dictRouteTotals) := RouteDataLookup csvMetroQuery in
  match NodeLookup G with
  | Ok dictAllNodes =>
      for_each_updates
        (route shortest_path dictRouteSegments dictRouteMetrics dictRouteTotals
               dictAllNodes)
        (route_updates shortest_path dictRouteSegments dictRouteMetrics dictRouteTotals
                       dictAllNodes)
        (map fst dictRouteSegments)
        (mkState G ∅ None 0 [] [])
  | Raise _ => []
  end.
End Arithmetic.
End Rounded.

(** ** What [AdjustRidership] adds to a count

    The formula of the specification for the count [x] of a stop, the
    difference [diff] of the totals and the smaller total [t], in exact
    arithmetic, and the value that the script computes for it: [float(x)]
    and the ints that meet a float are converted, and the quotient, the
    product and the sum are rounded. *)
Definition exact_share (x diff t : Z) : Q :=
  (inject_Z x + inject_Z diff * (inject_Z x / inject_Z t))%Q.

Definition double_share (x diff t : Z) : Q :=
  binary64 (binary64 (inject_Z x)
            + binary64 (binary64 (inject_Z diff)
                        * binary64 (binary64 (inject_Z x) / binary64 (inject_Z t)))).

(** The same value with the operations of the Standard Library's
    specification of IEEE 754 ([SpecFloat], 53 bits of precision and the
    exponents of the doubles), to compare [binary64] with. *)
Definition Z2SF (n : Z) : spec_float := binary_normalize 53 1024 n 0 false.

Definition SF2Q (f : spec_float) : option Q :=
  match f with
  | S754_zero _ => Some 0%Q
  | S754_finite s m e => Some ((if s then -1 else 1) * inject_Z (Zpos m) * pow2 e)%Q
  | _ => None
  end.

Definition SF_share (x diff t : Z) : spec_float :=
  SFadd 53 1024 (Z2SF x) (SFmul 53 1024 (Z2SF diff) (SFdiv 53 1024 (Z2SF x) (Z2SF t))).

(** Counts and differences from 0 to 12 with totals from 1 to 12, and
    some numbers beyond 2^53. *)
Definition share_samples : list (Z * Z * Z) :=
  flat_map (fun x : nat =>
    flat_map (fun diff : nat =>
      map (fun t : nat => (Z.of_nat x, Z.of_nat diff, Z.of_nat t)) (seq 1 12))
      (seq 0 13)) (seq 0 13)
  ++ [(2 ^ 53 + 1, 0, 7); (2 ^ 53 + 1, 3, 7); (2 ^ 60 + 12345, 2 ^ 70 + 1, 2 ^ 80 + 3);
      (1, 10 ^ 30, 10 ^ 30 + 1); (10 ^ 100, 10 ^ 150, 3)]%Z.

(** [v] is [exact] up to a relative error of 2^-51. *)
Definition within_rounding (exact v : Q) : Prop :=
  (exact * (1 - (1 # 2251799813685248)) <= v <= exact * (1 + (1 # 2251799813685248)))%Q.

(** A rounding that the proofs can work with: it keeps the order, it
    leaves 0 and its own results as they are. *)
Record rounding (fl : Q -> Q) : Prop := mkRounding {
  rounding_mono : forall x y : Q, (x <= y)%Q -> (fl x <= fl y)%Q;
  rounding_zero : (fl 0 == 0)%Q;
  rounding_idem : forall x : Q, (fl (fl x) == fl x)%Q
}.

(** Every load of the graph is a result of the rounding. *)
Definition loads_rounded (fl : Q -> Q) (G : MultiDiGraph) : Prop :=
  all_key_dicts
    (Forall (fun kd : nat * EdgeData => (fl (total (snd kd)) == total (snd kd))%Q)) G.

(** Five one-way streets in a row, 1 -> 2 -> ... -> 6 (links 101 to 105),
    all on route 7, and three stops, on the links 101, 103 and 105, with
    6 boardings and 8 alightings in all: the adjusted boardings are
    thirds, which no double is. *)
Definition thirds_streets : list StreetRow :=
  [mkStreet (Some 1%Z) (Some 2%Z) 101 1 1; mkStreet (Some 2%Z) (Some 3%Z) 102 1 1;
   mkStreet (Some 3%Z) (Some 4%Z) 103 1 1; mkStreet (Some 4%Z) (Some 5%Z) 104 1 1;
   mkStreet (Some 5%Z) (Some 6%Z) 105 1 1].
Definition thirds_routes : list (Z * Z) :=
  [(7, 101); (7, 102); (7, 103); (7, 104); (7, 105)]%Z.
Definition thirds_query : list MetroRow :=
  [mkMetro 7 inbound 1 1 1 (Some 101%Z); mkMetro 7 inbound 2 2 4 (Some 103%Z);
   mkMetro 7 inbound 3 3 3 (Some 105%Z)].

(** * Properties *)

(** ** Ordered dictionaries *)

Lemma flat_map_cons_eq {A B : Type} (f : A -> list B) (x : A) (l : list A) :
  flat_map f (x :: l) = f x ++ flat_map f l.
Proof. reflexivity. Qed.

Lemma flat_map_odict_set {K V B : Type} (eqb : K -> K -> bool) (f : K * V -> list B)
    (k : K) (v : V) (d : list (K * V)) :
  (forall k', eqb k k' = true -> k = k') ->
  exists rest,
    Permutation (flat_map f (odict_set eqb k v d)) (f (k, v) ++ rest) /\
    Permutation (flat_map f d)
      (match odict_get eqb k d with Some v0 => f (k, v0) | None => [] end ++ rest).
Proof.
  intros Heqb. induction d as [|[k' v'] d IH]; simpl.
  - exists []. split; [rewrite ?flat_map_cons_eq, ?app_nil_r|]; reflexivity.
  - destruct (eqb k k') eqn:E; rewrite ?flat_map_cons_eq.
    + apply Heqb in E as <-. exists (flat_map f d). split; reflexivity.
    + destruct IH as (rest & H1 & H2). exists (f (k', v') ++ rest). split.
      * rewrite H1. rewrite !app_assoc. apply Permutation_app_tail, Permutation_app_comm.
      * rewrite H2. rewrite !app_assoc. apply Permutation_app_tail, Permutation_app_comm.
Qed.

Lemma Zeqb_true_eq (k k' : Z) : (k =? k')%Z = true -> k = k'.
Proof. apply Z.eqb_eq. Qed.

(** ** GraphBuilder *)

Lemma edges_app (G1 G2 : MultiDiGraph) : edges (G1 ++ G2) = edges G1 ++ edges G2.
Proof. unfold edges. apply flat_map_app. Qed.

Lemma edges_add_node (G : MultiDiGraph) (n : Node) : edges (add_node G n) = edges G.
Proof.
  unfold add_node. destruct (has_node G n); [reflexivity|].
  rewrite edges_app. simpl. apply app_nil_r.
Qed.

Lemma adj_edges_set (u v : Node) (kd : KeyDict) (x : nat * EdgeData) (adj : AdjDict) :
  odict_get Z.eqb v adj = Some kd ->
  Permutation (adj_edges u (odict_set Z.eqb v (kd ++ [x]) adj))
              ((u, v, fst x, snd x) :: adj_edges u adj).
Proof.
  intros Hget. unfold adj_edges.
  destruct (flat_map_odict_set Z.eqb
    (fun vk : Node * KeyDict =>
       map (fun kd : nat * EdgeData => (u, fst vk, fst kd, snd kd)) (snd vk))
    v (kd ++ [x]) adj (Zeqb_true_eq _)) as (rest & H1 & H2).
  rewrite H1, H2, Hget. simpl. rewrite map_app. simpl.
  rewrite <- app_assoc. simpl. symmetry. apply Permutation_middle.
Qed.

Lemma adj_edges_new (u v : Node) (x : nat * EdgeData) (adj : AdjDict) :
  odict_get Z.eqb v adj = None ->
  Permutation (adj_edges u (odict_set Z.eqb v [x] adj))
              ((u, v, fst x, snd x) :: adj_edges u adj).
Proof.
  intros Hget. unfold adj_edges.
  destruct (flat_map_odict_set Z.eqb
    (fun vk : Node * KeyDict =>
       map (fun kd : nat * EdgeData => (u, fst vk, fst kd, snd kd)) (snd vk))
    v [x] adj (Zeqb_true_eq _)) as (rest & H1 & H2).
  rewrite H1, H2, Hget. reflexivity.
Qed.

Lemma edges_set_adj (G : MultiDiGraph) (u : Node) (adj' : AdjDict)
    (e : Node * Node * nat * EdgeData) :
  Permutation (adj_edges u adj') (e :: adj_edges u (default [] (odict_get Z.eqb u G))) ->
  Permutation (edges (odict_set Z.eqb u adj' G)) (e :: edges G).
Proof.
  intros Hadj. unfold edges.
  destruct (flat_map_odict_set Z.eqb
    (fun ua : Node * AdjDict => adj_edges (fst ua) (snd ua)) u adj' G (Zeqb_true_eq _))
    as (rest & H1 & H2).
  rewrite H1, H2. simpl. rewrite Hadj.
  destruct (odict_get Z.eqb u G); reflexivity.
Qed.

(** [add_edge] adds one edge from [u] to [v] with the given attributes and
    leaves every other edge in place. *)
Lemma edges_add_edge (G : MultiDiGraph) (u v : Node) (d : EdgeData) :
  Permutation (map edge_triple (edges (add_edge G u v d)))
              ((u, v, d) :: map edge_triple (edges G)).
Proof.
  unfold add_edge.
  set (G1 := add_node (add_node G u) v).
  assert (HG1 : edges G1 = edges G) by (unfold G1; rewrite !edges_add_node; reflexivity).
  rewrite <- HG1.
  destruct (odict_get Z.eqb v (default [] (odict_get Z.eqb u G1))) as [kd|] eqn:Hv.
  - rewrite (edges_set_adj G1 u _ (u, v, fresh_key kd, d)); [reflexivity|].
    apply (adj_edges_set u v kd (fresh_key kd, d)), Hv.
  - rewrite (edges_set_adj G1 u _ (u, v, O, d)); [reflexivity|].
    apply (adj_edges_new u v (O, d)), Hv.
Qed.

Lemma edges_add_street (G : MultiDiGraph) (row : StreetRow) :
  Permutation (map edge_triple (edges (add_street G row)))
              (map edge_triple (edges G) ++ spec_segment_edges row).
Proof.
  unfold add_street, spec_segment_edges.
  destruct (FR_TPOINT row) as [a|], (TO_TPOINT row) as [b|];
    try (rewrite app_nil_r; reflexivity).
  destruct (CAR_FLOW row =? 2)%Z; [|destruct (CAR_FLOW row =? 1)%Z].
  - rewrite edges_add_edge. apply Permutation_cons_append.
  - rewrite edges_add_edge. apply Permutation_cons_append.
  - rewrite !edges_add_edge.
    rewrite (Permutation_app_comm (map edge_triple (edges G))). simpl.
    apply perm_swap.
Qed.

Lemma edges_fold_add_street (rows : list StreetRow) (G : MultiDiGraph) :
  Permutation (map edge_triple (edges (fold_left add_street rows G)))
              (map edge_triple (edges G) ++ flat_map spec_segment_edges rows).
Proof.
  revert G. induction rows as [|row rows IH]; intros G; simpl.
  - rewrite app_nil_r. reflexivity.
  - rewrite IH, edges_add_street, <- app_assoc. reflexivity.
Qed.

(** C4.  Graph construction skips the records with a null endpoint and
    turns every other record into exactly the edges of its flow code: one
    edge [toNode -> fromNode] for reverse-only, one edge
    [fromNode -> toNode] for forward-only, both for any other code, each
    with the record's link id and cost and a load of 0.  The edges of the
    built graph are, as a multiset, the edges the records stand for. *)
Theorem CreateDirectedMultiGraph_edges (fcStreets : list StreetRow) :
  Permutation (map edge_triple (edges (CreateDirectedMultiGraph fcStreets)))
              (flat_map spec_segment_edges fcStreets).
Proof.
  unfold CreateDirectedMultiGraph. rewrite edges_fold_add_street. reflexivity.
Qed.

(** ** PathResolver: link resolution *)

Lemma mapM_result_Forall2 {A B : Type} (f : A -> result B) (P : A -> B -> Prop)
    (l : list A) :
  Forall (fun x => exists y, f x = Ok y /\ P x y) l ->
  exists k, mapM f l = Ok k /\ Forall2 P l k.
Proof.
  induction 1 as [|x l (y & Hy & HP) _ (k & Hk & HF)].
  - exists []. split; [reflexivity|constructor].
  - exists (y :: k). split; [|constructor; assumption].
    simpl. rewrite Hy. simpl. rewrite Hk. reflexivity.
Qed.

(** The first loop of [GetTLINK] ends with the start value, when no
    parallel edge is on the route, or with the link of a parallel edge that
    is on the route. *)
Lemma route_tlink_fold (dictRouteLinks : list Z) (data : KeyDict) (t0 : Z) :
  let t := fold_left (fun (tlink : Z) (kd : nat * EdgeData) =>
             if bool_decide (link (snd kd) ∈ dictRouteLinks) then link (snd kd) else tlink)
             data t0 in
  (t = t0 /\ forall kd, kd ∈ data -> link (snd kd) ∉ dictRouteLinks) \/
  (t ∈ dictRouteLinks /\ exists kd, kd ∈ data /\ link (snd kd) = t).
Proof.
  revert t0. induction data as [|kd data IH]; intros t0; simpl.
  - left. split; [reflexivity|]. intros kd Hkd. inversion Hkd.
  - destruct (bool_decide_reflect (link (snd kd) ∈ dictRouteLinks)) as [Hin|Hout].
    + destruct (IH (link (snd kd))) as [[Ht _]|[Ht (kd' & Hkd' & Hl)]].
      * right. rewrite Ht. split; [assumption|]. exists kd. split; [left|reflexivity].
      * right. split; [assumption|]. exists kd'. split; [right; assumption|assumption].
    + destruct (IH t0) as [[Ht Hno]|[Ht (kd' & Hkd' & Hl)]].
      * left. split; [assumption|]. intros kd' Hkd'.
        apply elem_of_cons in Hkd' as [->|Hkd']; [assumption|apply Hno, Hkd'].
      * right. split; [assumption|]. exists kd'. split; [right; assumption|assumption].
Qed.

(** The second loop keeps a running minimum. *)
Lemma cheapest_tlink_fold (data : KeyDict) (c0 : Q) (t0 : Z) :
  let r := cheapest_tlink data c0 t0 in
  (fst r <= c0)%Q /\
  (forall kd, kd ∈ data -> (fst r <= cost (snd kd))%Q) /\
  ((r = (c0, t0) /\ forall kd, kd ∈ data -> ~ (cost (snd kd) <= c0)%Q) \/
   (exists kd, kd ∈ data /\ cost (snd kd) = fst r /\ link (snd kd) = snd r)).
Proof.
  unfold cheapest_tlink. revert c0 t0.
  induction data as [|kd data IH]; intros c0 t0; simpl.
  - split; [apply Qle_refl|]. split; [intros kd Hkd; inversion Hkd|].
    left. split; [reflexivity|]. intros kd Hkd. inversion Hkd.
  - destruct (Qle_bool (cost (snd kd)) c0) eqn:E.
    + apply Qle_bool_iff in E.
      destruct (IH (cost (snd kd)) (link (snd kd))) as (Hle & Hmin & Hsrc).
      split; [eapply Qle_trans; eassumption|]. split.
      * intros kd' Hkd'. apply elem_of_cons in Hkd' as [->|Hkd']; [assumption|].
        apply Hmin, Hkd'.
      * right. destruct Hsrc as [[Hr _]|(kd' & Hkd' & Hc & Hl)].
        -- exists kd. rewrite Hr. split; [left|split; reflexivity].
        -- exists kd'. split; [right; assumption|split; assumption].
    + assert (Hnle : ~ (cost (snd kd) <= c0)%Q).
      { intros H. apply Qle_bool_iff in H. congruence. }
      destruct (IH c0 t0) as (Hle & Hmin & Hsrc).
      split; [assumption|]. split.
      * intros kd' Hkd'. apply elem_of_cons in Hkd' as [->|Hkd']; [|apply Hmin, Hkd'].
        apply Qlt_le_weak. eapply Qle_lt_trans; [exact Hle|].
        apply Qnot_le_lt, Hnle.
      * destruct Hsrc as [[Hr Hno]|(kd' & Hkd' & Hc & Hl)].
        -- left. split; [assumption|]. intros kd' Hkd'.
           apply elem_of_cons in Hkd' as [->|Hkd']; [assumption|apply Hno, Hkd'].
        -- right. exists kd'. split; [right; assumption|split; assumption].
Qed.

Lemma odict_get_elem_of {K V : Type} (eqb : K -> K -> bool) (k : K) (v : V)
    (d : list (K * V)) :
  odict_get eqb k d = Some v -> exists k', (k', v) ∈ d /\ eqb k k' = true.
Proof.
  induction d as [|[k' v'] d IH]; simpl; [discriminate|].
  destruct (eqb k k') eqn:E.
  - intros [= ->]. exists k'. split; [left|assumption].
  - intros H. destruct (IH H) as (k'' & Hin & Hk). exists k''. split; [right|]; assumption.
Qed.

(** One pair of consecutive nodes: when no parallel edge that is on the
    route carries link id 0, the link [GetTLINK] picks is the one the
    specification asks for. *)
Lemma pair_tlink_resolves (G : MultiDiGraph) (dictRouteLinks : list Z) (p : Node * Node)
    (data : KeyDict) :
  get_edge_data G (fst p) (snd p) = Some data ->
  is_Some (odict_get Nat.eqb O data) ->
  exists tlink, pair_tlink G dictRouteLinks p = Ok tlink /\
    ((forall kd, kd ∈ data -> link (snd kd) ∈ dictRouteLinks -> link (snd kd) <> 0%Z) ->
     spec_resolves G dictRouteLinks p tlink).
Proof.
  intros Hdata [d0 Hd0]. unfold pair_tlink. rewrite Hdata. simpl.
  pose proof (route_tlink_fold dictRouteLinks data 0%Z) as Hroute.
  fold (route_tlink dictRouteLinks data) in Hroute. simpl in Hroute.
  destruct (Z.eqb_spec (route_tlink dictRouteLinks data) 0) as [Hz|Hnz].
  - rewrite Hd0. simpl. eexists. split; [reflexivity|].
    intros Hsentinel. exists data. split; [assumption|].
    assert (Hnone : forall kd, kd ∈ data -> link (snd kd) ∉ dictRouteLinks).
    { destruct Hroute as [[_ Hno]|[Hin (kd & Hkd & Hl)]]; [assumption|].
      exfalso. apply (Hsentinel kd Hkd); [rewrite Hl; assumption|congruence]. }
    split.
    + intros (kd & Hkd & Hin). exfalso. exact (Hnone kd Hkd Hin).
    + intros _.
      destruct (cheapest_tlink_fold data (cost d0) (route_tlink dictRouteLinks data))
        as (_ & Hmin & Hsrc).
      destruct Hsrc as [[_ Hno]|(kd & Hkd & Hc & Hl)].
      * exfalso. apply odict_get_elem_of in Hd0 as (k0 & Hin0 & _).
        apply (Hno _ Hin0). apply Qle_refl.
      * exists kd. split; [assumption|]. split; [assumption|].
        intros kd' Hkd'. rewrite Hc. apply Hmin, Hkd'.
  - eexists. split; [reflexivity|]. intros _. exists data. split; [assumption|].
    destruct Hroute as [[Ht _]|[Hin Hsrc]]; [congruence|].
    split.
    + intros _. split; assumption.
    + intros Hnone. exfalso. destruct Hsrc as (kd & Hkd & Hl).
      apply (Hnone kd Hkd). rewrite Hl. assumption.
Qed.

(** C6, as the code has it.  Along a node path whose consecutive nodes are
    joined by edges, link resolution takes, among the parallel edges of a
    pair, an edge of the route's link set whenever there is one, whatever
    the costs, and an edge of least cost when there is none -- provided no
    parallel edge of the pair that is on the route carries link id 0, the
    value [GetTLINK] uses for "nothing found yet". *)
Theorem GetTLINK_resolves (G : MultiDiGraph) (path : list Node) (dictRouteLinks : list Z) :
  Forall (fun p : Node * Node => exists data,
            get_edge_data G (fst p) (snd p) = Some data /\
            is_Some (odict_get Nat.eqb O data))
         (combine (removelast path) (tail path)) ->
  exists tlinks, GetTLINK G path dictRouteLinks = Ok tlinks /\
    Forall2 (fun (p : Node * Node) (tlink : Z) =>
               (forall data kd, get_edge_data G (fst p) (snd p) = Some data ->
                  kd ∈ data -> link (snd kd) ∈ dictRouteLinks -> link (snd kd) <> 0%Z) ->
               spec_resolves G dictRouteLinks p tlink)
            (combine (removelast path) (tail path)) tlinks.
Proof.
  intros Hpath. unfold GetTLINK. apply mapM_result_Forall2.
  eapply Forall_impl; [exact Hpath|]. intros p (data & Hdata & H0).
  destruct (pair_tlink_resolves G dictRouteLinks p data Hdata H0) as (tlink & Hok & Hspec).
  exists tlink. split; [assumption|]. intros Hsentinel. apply Hspec.
  intros kd. apply Hsentinel. assumption.
Qed.

Lemma GetTLINK_resolves_witness :
  let G := CreateDirectedMultiGraph sentinel_streets in
  Forall (fun p : Node * Node => exists data,
            get_edge_data G (fst p) (snd p) = Some data /\
            is_Some (odict_get Nat.eqb O data))
         (combine (removelast [1; 2]%Z) (tail [1; 2]%Z)) /\
  exists tlinks, GetTLINK G [1; 2]%Z [7%Z] = Ok tlinks /\
    Forall2 (fun (p : Node * Node) (tlink : Z) =>
               (forall data kd, get_edge_data G (fst p) (snd p) = Some data ->
                  kd ∈ data -> link (snd kd) ∈ [7%Z] -> link (snd kd) <> 0%Z) ->
               spec_resolves G [7%Z] p tlink)
            (combine (removelast [1; 2]%Z) (tail [1; 2]%Z)) tlinks.
Proof.
  intros G.
  assert (Hpath : Forall (fun p : Node * Node => exists data,
                            get_edge_data G (fst p) (snd p) = Some data /\
                            is_Some (odict_get Nat.eqb O data))
                         (combine (removelast [1; 2]%Z) (tail [1; 2]%Z))).
  { repeat constructor. eexists. split; [reflexivity|]. eexists. reflexivity. }
  split; [exact Hpath|].
  exact (GetTLINK_resolves G [1; 2]%Z [7%Z] Hpath).
Defined.

(** C6 as stated fails when the route's link carries id 0: between nodes 1
    and 2 run link 0 (cost 5), which is on the route, and link 7 (cost 1),
    which is not; link 7 is resolved. *)
Lemma GetTLINK_sentinel_counterexample :
  GetTLINK (CreateDirectedMultiGraph sentinel_streets) [1; 2]%Z [0%Z] = Ok [7%Z] /\
  ~ spec_resolves (CreateDirectedMultiGraph sentinel_streets) [0%Z] (1, 2)%Z 7.
Proof.
  split; [reflexivity|].
  intros (data & Hdata & Hin & _).
  vm_compute in Hdata. injection Hdata as <-.
  destruct Hin as [Hin _].
  - exists (O, mkEdge 0 5 0). split; [left|]. simpl. left.
  - apply list_elem_of_singleton in Hin. discriminate.
Qed.

(** ** ResultAggregator *)

Lemma odict_get_NoDup {V : Type} (k : Z) (v : V) (d : list (Z * V)) :
  NoDup (map fst d) -> (k, v) ∈ d -> odict_get Z.eqb k d = Some v.
Proof.
  induction d as [|[k' v'] d IH]; simpl; intros Hnd Hin.
  - inversion Hin.
  - apply NoDup_cons in Hnd as [Hk' Hnd].
    apply elem_of_cons in Hin as [[= <- <-]|Hin].
    + rewrite Z.eqb_refl. reflexivity.
    + destruct (Z.eqb_spec k k') as [->|_]; [|apply IH; assumption].
      exfalso. apply Hk'. apply list_elem_of_fmap. exists (k', v). split; [reflexivity|assumption].
Qed.

Lemma get_edge_data_wf (G : MultiDiGraph) (u v : Node) (adj : AdjDict) (kd : KeyDict) :
  graph_wf G -> (u, adj) ∈ G -> (v, kd) ∈ adj -> get_edge_data G u v = Some kd.
Proof.
  intros [Hnodes Hadj] Hu Hv. unfold get_edge_data.
  rewrite (odict_get_NoDup u adj G Hnodes Hu). simpl.
  apply odict_get_NoDup; [|assumption].
  rewrite Forall_forall in Hadj. apply (Hadj (u, adj)), Hu.
Qed.

Lemma mapM_result_map {A B : Type} (f : A -> result B) (g : A -> B) (l : list A) :
  Forall (fun x => f x = Ok (g x)) l -> mapM f l = Ok (map g l).
Proof.
  induction 1 as [|x l Hx _ IH]; [reflexivity|].
  simpl. rewrite Hx. simpl. rewrite IH. reflexivity.
Qed.

Lemma elem_of_edges (G : MultiDiGraph) (e : Node * Node * nat * EdgeData) :
  e ∈ edges G ->
  exists adj kd, (fst (fst (fst e)), adj) ∈ G /\ (snd (fst (fst e)), kd) ∈ adj /\
                 (snd (fst e), snd e) ∈ kd.
Proof.
  unfold edges, adj_edges. intros He.
  apply list_elem_of_In, in_flat_map in He as ([u adj] & Hu & He).
  apply in_flat_map in He as ([v kd] & Hv & He).
  apply in_map_iff in He as ([k d] & <- & Hk). simpl in *.
  exists adj, kd. rewrite !list_elem_of_In. auto.
Qed.

Lemma edge_data_scan_wf (G : MultiDiGraph) :
  graph_wf G -> edge_data_scan G = Ok (flat_map (seen_at G) (edges G)).
Proof.
  intros Hwf. unfold edge_data_scan.
  rewrite (mapM_result_map _ (seen_at G)).
  - simpl. rewrite flat_map_concat_map. reflexivity.
  - apply Forall_forall. intros [[[u v] k] d] He.
    apply elem_of_edges in He as (adj & kd & Hu & Hv & _). simpl in *.
    unfold seen_at. simpl. rewrite (get_edge_data_wf G u v adj kd Hwf Hu Hv). reflexivity.
Qed.

Lemma last_with_link_app (l : Z) (a b : list EdgeData) :
  last_with_link l (a ++ b) =
  match last_with_link l b with
  | Some d => Some d
  | None => last_with_link l a
  end.
Proof.
  induction a as [|d a IH]; simpl.
  - destruct (last_with_link l b); reflexivity.
  - rewrite IH. destruct (last_with_link l b); reflexivity.
Qed.

(** Writing [dd[link] = total] for a list of visited edges leaves, for
    every link, the load of the last visited edge that carries it. *)
Lemma ledger_fold_lookup (visited : list (Node * Node * EdgeData)) (dd : gmap Z Q) (l : Z) :
  fold_left (fun (dd : gmap Z Q) (e : Node * Node * EdgeData) =>
               <[link (snd e) := total (snd e)]> dd) visited dd !! l =
  match last_with_link l (map snd visited) with
  | Some d => Some (total d)
  | None => dd !! l
  end.
Proof.
  revert dd. induction visited as [|e visited IH]; intros dd; simpl; [reflexivity|].
  rewrite IH. destruct (last_with_link l (map snd visited)); [reflexivity|].
  destruct (Z.eqb_spec (link (snd e)) l) as [<-|Hne].
  - apply lookup_insert_eq.
  - apply lookup_insert_ne. assumption.
Qed.

(** Seeing a block of parallel edges once per edge of the block changes
    nothing about which edge of a link comes last. *)
Lemma last_with_link_repeat {A : Type} (l : Z) (block : list EdgeData) (b : list A) :
  last_with_link l (flat_map (fun _ => block) b) =
  match b with [] => None | _ => last_with_link l block end.
Proof.
  induction b as [|x b IH]; [reflexivity|].
  rewrite flat_map_cons_eq, last_with_link_app, IH.
  destruct b; [reflexivity|]. destruct (last_with_link l block); reflexivity.
Qed.

Lemma last_with_link_blocks {A : Type} (l : Z) (g : A -> list EdgeData) (h : A -> EdgeData)
    (blocks : list (list A)) :
  Forall (fun b => Forall (fun e => g e = map h b) b) blocks ->
  last_with_link l (flat_map g (concat blocks)) = last_with_link l (map h (concat blocks)).
Proof.
  induction 1 as [|b blocks Hb _ IH]; [reflexivity|].
  simpl. rewrite flat_map_app, map_app, !last_with_link_app, IH.
  destruct (last_with_link l (map h (concat blocks))); [reflexivity|].
  assert (Hflat : flat_map g b = flat_map (fun _ => map h b) b).
  { clear -Hb. revert Hb. generalize (map h b) as block.
    induction b as [|x b IH]; intros block Hb; [reflexivity|].
    apply Forall_cons in Hb as [Hx Hb]. rewrite !flat_map_cons_eq, Hx, (IH block Hb).
    reflexivity. }
  rewrite Hflat, last_with_link_repeat. destruct b; reflexivity.
Qed.

Lemma concat_edge_blocks (G : MultiDiGraph) : concat (edge_blocks G) = edges G.
Proof.
  unfold edge_blocks, edges, adj_edges.
  induction G as [|[u adj] G IH]; [reflexivity|].
  rewrite !flat_map_cons_eq, concat_app, IH. f_equal. simpl.
  rewrite flat_map_concat_map. reflexivity.
Qed.

Lemma seen_at_block (G : MultiDiGraph) :
  graph_wf G ->
  Forall (fun b => Forall (fun e => map snd (seen_at G e) = map snd b) b) (edge_blocks G).
Proof.
  intros Hwf. apply Forall_forall. intros b Hb. apply Forall_forall. intros e He.
  unfold edge_blocks in Hb.
  apply list_elem_of_In, in_flat_map in Hb as ([u adj] & Hu & Hb).
  apply in_map_iff in Hb as ([v kd] & <- & Hv). simpl in *.
  apply list_elem_of_In, in_map_iff in He as ([k d] & <- & _).
  unfold seen_at. simpl.
  rewrite (get_edge_data_wf G u v adj kd Hwf); [|apply list_elem_of_In; assumption..].
  simpl. rewrite !map_map. reflexivity.
Qed.

(** On a well-formed graph the scan does not fail, and the ledger maps
    each link id to the load of the last edge, in the order of
    [G.edges()], that carries it. *)
Lemma ledger_of_wf_graph (G : MultiDiGraph) :
  graph_wf G ->
  exists dd, ledger G = Ok dd /\
    forall l, dd !! l = total <$> last_with_link l (map snd (edges G)).
Proof.
  intros Hwf. unfold ledger. rewrite (edge_data_scan_wf G Hwf). simpl.
  eexists. split; [reflexivity|]. intros l.
  rewrite ledger_fold_lookup, lookup_empty.
  assert (Hlast : last_with_link l (map snd (flat_map (seen_at G) (edges G))) =
                  last_with_link l (map snd (edges G))).
  { rewrite <- (concat_edge_blocks G).
    rewrite <- (last_with_link_blocks l (fun e => map snd (seen_at G e)) snd
                  (edge_blocks G) (seen_at_block G Hwf)).
    f_equal. generalize (concat (edge_blocks G)) as es.
    induction es as [|e es IH]; [reflexivity|].
    rewrite !flat_map_cons_eq, map_app, IH. reflexivity. }
  rewrite Hlast. destruct (last_with_link l (map snd (edges G))); reflexivity.
Qed.


(** ** Well-formed graphs *)

Lemma odict_get_None_keys {V : Type} (k : Z) (d : list (Z * V)) :
  odict_get Z.eqb k d = None -> k ∉ map fst d.
Proof.
  induction d as [|[k' v'] d IH]; simpl.
  - intros _ H. inversion H.
  - destruct (Z.eqb_spec k k') as [->|Hne]; [discriminate|].
    intros Hget Hin. apply elem_of_cons in Hin as [->|Hin]; [congruence|].
    exact (IH Hget Hin).
Qed.

Lemma odict_set_keys {V : Type} (k : Z) (v : V) (d : list (Z * V)) :
  map fst (odict_set Z.eqb k v d) =
  match odict_get Z.eqb k d with
  | Some _ => map fst d
  | None => map fst d ++ [k]
  end.
Proof.
  induction d as [|[k' v'] d IH]; simpl; [reflexivity|].
  destruct (Z.eqb_spec k k') as [->|Hne]; simpl; [reflexivity|].
  rewrite IH. destruct (odict_get Z.eqb k d); reflexivity.
Qed.

Lemma odict_set_NoDup {V : Type} (k : Z) (v : V) (d : list (Z * V)) :
  NoDup (map fst d) -> NoDup (map fst (odict_set Z.eqb k v d)).
Proof.
  intros Hnd. rewrite odict_set_keys.
  destruct (odict_get Z.eqb k d) eqn:Hget; [assumption|].
  apply NoDup_app. split; [assumption|]. split.
  - intros x Hx Hk. apply list_elem_of_singleton in Hk as ->.
    exact (odict_get_None_keys k d Hget Hx).
  - apply NoDup_singleton.
Qed.

Lemma odict_set_Forall {K V : Type} (eqb : K -> K -> bool) (P : K * V -> Prop) (k : K)
    (v : V) (d : list (K * V)) :
  Forall P d -> P (k, v) -> Forall P (odict_set eqb k v d).
Proof.
  intros Hd Hkv. induction Hd as [|[k' v'] d Hx Hd IH]; simpl.
  - repeat constructor. assumption.
  - destruct (eqb k k'); constructor; assumption.
Qed.

Lemma odict_get_Forall {K V : Type} (eqb : K -> K -> bool) (P : K * V -> Prop) (k : K)
    (v : V) (d : list (K * V)) :
  Forall P d -> odict_get eqb k d = Some v -> exists k', P (k', v).
Proof.
  intros Hd Hget. apply odict_get_elem_of in Hget as (k' & Hin & _).
  exists k'. rewrite Forall_forall in Hd. apply Hd, Hin.
Qed.

Lemma adj_NoDup (G : MultiDiGraph) (u : Node) :
  graph_wf G -> NoDup (map fst (default [] (odict_get Z.eqb u G))).
Proof.
  intros [_ Hadj]. destruct (odict_get Z.eqb u G) as [adj|] eqn:Hget; simpl.
  - destruct (odict_get_Forall Z.eqb _ u adj G Hadj Hget) as (k' & H). exact H.
  - apply NoDup_nil_2.
Qed.

Lemma graph_wf_set_adj (G : MultiDiGraph) (u : Node) (adj : AdjDict) :
  graph_wf G -> NoDup (map fst adj) -> graph_wf (odict_set Z.eqb u adj G).
Proof.
  intros [Hnodes Hadj] Hnd. split.
  - apply odict_set_NoDup, Hnodes.
  - apply odict_set_Forall; assumption.
Qed.

Lemma add_node_wf (G : MultiDiGraph) (n : Node) : graph_wf G -> graph_wf (add_node G n).
Proof.
  intros Hwf. unfold add_node, has_node, odict_mem.
  destruct (odict_get Z.eqb n G) eqn:Hget; [assumption|].
  destruct Hwf as [Hnodes Hadj]. split.
  - rewrite map_app. apply NoDup_app. split; [assumption|]. split.
    + intros x Hx Hk. apply list_elem_of_singleton in Hk as ->.
      exact (odict_get_None_keys n G Hget Hx).
    + apply NoDup_singleton.
  - apply Forall_app. split; [assumption|]. repeat constructor.
Qed.

Lemma add_edge_wf (G : MultiDiGraph) (u v : Node) (d : EdgeData) :
  graph_wf G -> graph_wf (add_edge G u v d).
Proof.
  intros Hwf. unfold add_edge.
  assert (Hwf1 : graph_wf (add_node (add_node G u) v)) by (apply add_node_wf, add_node_wf, Hwf).
  pose proof (adj_NoDup _ u Hwf1) as Hadj.
  destruct (odict_get Z.eqb v _);
    apply graph_wf_set_adj; try assumption; apply odict_set_NoDup, Hadj.
Qed.

Lemma add_street_wf (G : MultiDiGraph) (row : StreetRow) :
  graph_wf G -> graph_wf (add_street G row).
Proof.
  intros Hwf. unfold add_street.
  destruct (FR_TPOINT row), (TO_TPOINT row); try assumption.
  destruct (CAR_FLOW row =? 2)%Z; [|destruct (CAR_FLOW row =? 1)%Z];
    repeat apply add_edge_wf; assumption.
Qed.

(** The graph that [CreateDirectedMultiGraph] builds is well formed. *)
Lemma CreateDirectedMultiGraph_wf (fcStreets : list StreetRow) :
  graph_wf (CreateDirectedMultiGraph fcStreets).
Proof.
  unfold CreateDirectedMultiGraph.
  assert (Hnil : graph_wf []) by (split; constructor).
  revert Hnil. generalize ([] : MultiDiGraph) as G.
  induction fcStreets as [|row rows IH]; intros G Hwf; simpl; [assumption|].
  apply IH, add_street_wf, Hwf.
Qed.

Lemma result_bind_Ok {A B : Type} (r : result A) (k : A -> result B) (b : B) :
  r ≫= k = Ok b -> exists a, r = Ok a /\ k a = Ok b.
Proof. destruct r as [a|e]; [|discriminate]. intros H. exists a. split; [reflexivity|exact H]. Qed.

Lemma of_option_Ok {A : Type} (e : Exn) (o : option A) (a : A) :
  of_option e o = Ok a -> o = Some a.
Proof. destruct o; [|discriminate]. intros [= ->]. reflexivity. Qed.

Lemma add_total_Ok (G G' : MultiDiGraph) (u v : Node) (x : Q) :
  add_total G u v x = Ok G' ->
  exists adj kd d,
    odict_get Z.eqb u G = Some adj /\ odict_get Z.eqb v adj = Some kd /\
    odict_get Nat.eqb O kd = Some d /\
    G' = odict_set Z.eqb u
           (odict_set Z.eqb v
              (odict_set Nat.eqb O (mkEdge (link d) (cost d) (total d + x)) kd) adj) G.
Proof.
  unfold add_total. intros H.
  apply result_bind_Ok in H as (adj & Hu & H). apply of_option_Ok in Hu.
  apply result_bind_Ok in H as (kd & Hv & H). apply of_option_Ok in Hv.
  apply result_bind_Ok in H as (d & Hk & H). apply of_option_Ok in Hk.
  injection H as <-. exists adj, kd, d. auto.
Qed.

Lemma add_total_wf (G G' : MultiDiGraph) (u v : Node) (x : Q) :
  graph_wf G -> add_total G u v x = Ok G' -> graph_wf G'.
Proof.
  intros Hwf H. apply add_total_Ok in H as (adj & kd & d & Hu & Hv & Hk & ->).
  pose proof (adj_NoDup G u Hwf) as Hadj. rewrite Hu in Hadj. simpl in Hadj.
  apply graph_wf_set_adj; [assumption|]. apply odict_set_NoDup, Hadj.
Qed.

Lemma accumulates_wf (P : Q -> Prop) (G G' : MultiDiGraph) :
  accumulates P G G' -> graph_wf G -> graph_wf G'.
Proof.
  induction 1 as [|G u v x G1 G2 _ Hadd _ IH]; [auto|].
  intros Hwf. apply IH. eapply add_total_wf; eassumption.
Qed.

Lemma accumulates_trans (P : Q -> Prop) (G1 G2 G3 : MultiDiGraph) :
  accumulates P G1 G2 -> accumulates P G2 G3 -> accumulates P G1 G3.
Proof.
  induction 1 as [|G u v x Ga Gb Hx Hadd _ IH]; [auto|].
  intros H3. eapply accumulates_step; [exact Hx|exact Hadd|]. apply IH, H3.
Qed.

Lemma accumulates_impl (P P' : Q -> Prop) (G G' : MultiDiGraph) :
  (forall x, P x -> P' x) -> accumulates P G G' -> accumulates P' G G'.
Proof.
  intros HP. induction 1 as [|G u v x Ga Gb Hx Hadd _ IH]; [constructor|].
  eapply accumulates_step; [apply HP, Hx|exact Hadd|exact IH].
Qed.

(** ** Loads only grow *)

Lemma odict_rel_refl {K V : Type} (R : V -> V -> Prop) (d : list (K * V)) :
  (forall x, R x x) -> odict_rel R d d.
Proof.
  intros HR. unfold odict_rel. induction d; constructor; auto.
Qed.

Lemma odict_rel_trans {K V : Type} (R : V -> V -> Prop) (d1 d2 d3 : list (K * V)) :
  (forall x y z, R x y -> R y z -> R x z) ->
  odict_rel R d1 d2 -> odict_rel R d2 d3 -> odict_rel R d1 d3.
Proof.
  intros HR H12. revert d3. unfold odict_rel in *.
  induction H12 as [|a b d1 d2 [Hk Hv] _ IH]; intros d3 H23.
  - inversion H23. constructor.
  - inversion H23 as [|b' c d2' d3' [Hk' Hv'] H23']; subst.
    constructor; [|apply IH, H23'].
    split; [congruence|]. eapply HR; eassumption.
Qed.

Lemma odict_set_rel {K V : Type} (eqb : K -> K -> bool) (R : V -> V -> Prop) (k : K)
    (v v' : V) (d : list (K * V)) :
  (forall x, R x x) -> (forall k', eqb k k' = true -> k = k') ->
  odict_get eqb k d = Some v -> R v v' -> odict_rel R d (odict_set eqb k v' d).
Proof.
  intros HR Heqb. unfold odict_rel. induction d as [|[k' v0] d IH]; simpl; [discriminate|].
  destruct (eqb k k') eqn:E.
  - intros [= ->] Hv. apply Heqb in E as <-. constructor; [split; [reflexivity|exact Hv]|].
    apply (odict_rel_refl R d HR).
  - intros Hget Hv. constructor; [split; [reflexivity|apply HR]|]. apply IH; assumption.
Qed.

Lemma edge_le_refl (d : EdgeData) : edge_le d d.
Proof. repeat split. apply Qle_refl. Qed.

Lemma edge_le_trans (d1 d2 d3 : EdgeData) : edge_le d1 d2 -> edge_le d2 d3 -> edge_le d1 d3.
Proof.
  intros (Hl & Hc & Ht) (Hl' & Hc' & Ht'). repeat split; try congruence.
  eapply Qle_trans; eassumption.
Qed.

Lemma loads_le_refl (G : MultiDiGraph) : loads_le G G.
Proof.
  apply odict_rel_refl. intros adj. apply odict_rel_refl. intros kd.
  apply odict_rel_refl, edge_le_refl.
Qed.

Lemma loads_le_trans (G1 G2 G3 : MultiDiGraph) :
  loads_le G1 G2 -> loads_le G2 G3 -> loads_le G1 G3.
Proof.
  apply odict_rel_trans. intros a1 a2 a3. apply odict_rel_trans. intros k1 k2 k3.
  apply odict_rel_trans, edge_le_trans.
Qed.

(** An update with an increment that is not negative leaves every edge in
    place and lowers no load. *)
Lemma add_total_loads_le (G G' : MultiDiGraph) (u v : Node) (x : Q) :
  (0 <= x)%Q -> add_total G u v x = Ok G' -> loads_le G G'.
Proof.
  intros Hx H. apply add_total_Ok in H as (adj & kd & d & Hu & Hv & Hk & ->).
  eapply odict_set_rel; [| apply Zeqb_true_eq | exact Hu |].
  { intros adj'. apply odict_rel_refl. intros kd'. apply odict_rel_refl, edge_le_refl. }
  eapply odict_set_rel; [| apply Zeqb_true_eq | exact Hv |].
  { intros kd'. apply odict_rel_refl, edge_le_refl. }
  eapply odict_set_rel; [apply edge_le_refl | | exact Hk |].
  { intros k' E. symmetry. apply Nat.eqb_eq in E. symmetry. exact E. }
  split; [reflexivity|]. split; [reflexivity|]. cbn [total].
  rewrite <- (Qplus_0_r (total d)) at 1. apply Qplus_le_r, Hx.
Qed.

Lemma accumulates_loads_le (G G' : MultiDiGraph) :
  accumulates (fun x => (0 <= x)%Q) G G' -> loads_le G G'.
Proof.
  induction 1 as [|G u v x G1 G2 Hx Hadd _ IH]; [apply loads_le_refl|].
  eapply loads_le_trans; [|exact IH]. eapply add_total_loads_le; eassumption.
Qed.

(** ** Edge keys *)

Lemma odict_get_nat_None {V : Type} (k : nat) (d : list (nat * V)) :
  k ∉ map fst d -> odict_get Nat.eqb k d = None.
Proof.
  induction d as [|[k' v] d IH]; simpl; [reflexivity|].
  intros Hk. destruct (Nat.eqb_spec k k') as [->|_].
  - exfalso. apply Hk. left.
  - apply IH. intros H. apply Hk. right. exact H.
Qed.

(** In a key dict with the keys [0 .. n-1] the loop that looks for a
    free key stops at once, with [n]. *)
Lemma fresh_key_from_zero (kd : KeyDict) :
  map fst kd = seq 0 (length kd) -> fresh_key kd = length kd.
Proof.
  intros Hkeys. unfold fresh_key. simpl. unfold odict_mem.
  rewrite odict_get_nat_None; [reflexivity|].
  rewrite Hkeys. intros H. apply list_elem_of_In, in_seq in H. lia.
Qed.

Lemma keys_from_zero_adj (G : MultiDiGraph) (u : Node) :
  keys_from_zero G ->
  Forall (fun vk : Node * KeyDict =>
            snd vk <> [] /\ map fst (snd vk) = seq 0 (length (snd vk)))
         (default [] (odict_get Z.eqb u G)).
Proof.
  intros HG. destruct (odict_get Z.eqb u G) as [adj|] eqn:Hget; simpl; [|constructor].
  destruct (odict_get_Forall Z.eqb _ u adj G HG Hget) as (k' & H). exact H.
Qed.

Lemma add_node_keys (G : MultiDiGraph) (n : Node) :
  keys_from_zero G -> keys_from_zero (add_node G n).
Proof.
  intros HG. unfold add_node. destruct (has_node G n); [exact HG|].
  apply Forall_app. split; [exact HG|]. repeat constructor.
Qed.

Lemma add_edge_keys (G : MultiDiGraph) (u v : Node) (d : EdgeData) :
  keys_from_zero G -> keys_from_zero (add_edge G u v d).
Proof.
  intros HG. unfold add_edge.
  assert (HG1 : keys_from_zero (add_node (add_node G u) v)).
  { apply add_node_keys, add_node_keys, HG. }
  pose proof (keys_from_zero_adj _ u HG1) as Hadj.
  destruct (odict_get Z.eqb v _) as [kd|] eqn:Hv.
  - apply odict_set_Forall; [exact HG1|]. apply odict_set_Forall; [exact Hadj|].
    destruct (odict_get_Forall Z.eqb _ v kd _ Hadj Hv) as (k' & _ & Hkeys). simpl in Hkeys.
    simpl. split; [destruct kd; discriminate|].
    rewrite (fresh_key_from_zero kd Hkeys), map_app, Hkeys, length_app. simpl.
    rewrite Nat.add_1_r, seq_S. reflexivity.
  - apply odict_set_Forall; [exact HG1|]. apply odict_set_Forall; [exact Hadj|].
    simpl. split; [discriminate|reflexivity].
Qed.

(** In the graph that [CreateDirectedMultiGraph] builds, the parallel
    edges of every pair of nodes have the keys [0, 1, ...]; the edge of
    key 0, which [GetTLINK] and the load updates read, is there. *)
Lemma CreateDirectedMultiGraph_keys (fcStreets : list StreetRow) :
  keys_from_zero (CreateDirectedMultiGraph fcStreets).
Proof.
  unfold CreateDirectedMultiGraph.
  assert (Hnil : keys_from_zero []) by constructor.
  revert Hnil. generalize ([] : MultiDiGraph) as G.
  induction fcStreets as [|row rows IH]; intros G HG; simpl; [exact HG|].
  apply IH. unfold add_street.
  destruct (FR_TPOINT row), (TO_TPOINT row); try exact HG.
  destruct (CAR_FLOW row =? 2)%Z; [|destruct (CAR_FLOW row =? 1)%Z];
    repeat apply add_edge_keys; exact HG.
Qed.

Lemma keys_from_zero_first (G : MultiDiGraph) (u v : Node) (data : KeyDict) :
  keys_from_zero G -> get_edge_data G u v = Some data ->
  is_Some (odict_get Nat.eqb O data).
Proof.
  intros HG Hdata. unfold get_edge_data in Hdata.
  destruct (odict_get Z.eqb u G) as [adj|] eqn:Hu; simpl in Hdata; [|discriminate].
  pose proof (keys_from_zero_adj G u HG) as Hadj. rewrite Hu in Hadj. simpl in Hadj.
  destruct (odict_get_Forall Z.eqb _ v data adj Hadj Hdata) as (k' & Hne & Hkeys).
  simpl in Hne, Hkeys. destruct data as [|[k d] data]; [congruence|].
  simpl in Hkeys. injection Hkeys as -> _. simpl. eexists. reflexivity.
Qed.

(** ** The search never runs out of fuel *)

Lemma heappop_length (fringe rest : list HeapEntry) (x : HeapEntry) :
  heappop fringe = Some (x, rest) -> length fringe = S (length rest).
Proof.
  revert x rest. induction fringe as [|y fringe IH]; intros x rest; simpl; [discriminate|].
  destruct (heappop fringe) as [[m rest']|] eqn:E.
  - specialize (IH m rest' eq_refl).
    destruct (entry_lt m y); intros [= <- <-]; simpl; lia.
  - intros [= <- <-]. destruct fringe; [reflexivity|].
    simpl in E. destruct (heappop fringe) as [[? ?]|]; [|discriminate].
    destruct (entry_lt _ _); discriminate.
Qed.

Lemma discover_Ok (v u : Node) (vu_dist : Q) (s s' : Search) :
  discover v u vu_dist s = Ok s' ->
  s_dist s' = s_dist s /\ length (s_fringe s') = S (length (s_fringe s)).
Proof.
  unfold discover. intros H. apply result_bind_Ok in H as (pv & _ & H).
  injection H as <-. split; reflexivity.
Qed.

Lemma discover_fuel (v u : Node) (vu_dist : Q) (s : Search) :
  discover v u vu_dist s <> Raise OutOfFuel.
Proof.
  unfold discover. destruct (odict_get Z.eqb v (s_paths s)); discriminate.
Qed.

Lemma relax_Ok (v : Node) (d : Q) (s s' : Search) (ue : Node * KeyDict) :
  relax v d s ue = Ok s' ->
  s_dist s' = s_dist s /\ (length (s_fringe s') <= S (length (s_fringe s)))%nat.
Proof.
  unfold relax. intros H. apply result_bind_Ok in H as (w & _ & H). cbv beta zeta in H.
  destruct (odict_get Z.eqb (fst ue) (s_dist s)).
  - destruct (Qlt_bool _ _); [discriminate|]. injection H as <-. split; [reflexivity|lia].
  - destruct (odict_get Z.eqb (fst ue) (s_seen s)); [destruct (Qlt_bool _ _)|];
      try (apply discover_Ok in H as [-> ->]; split; [reflexivity|lia]).
    injection H as <-. split; [reflexivity|lia].
Qed.

Lemma relax_fuel (v : Node) (d : Q) (s : Search) (ue : Node * KeyDict) :
  relax v d s ue <> Raise OutOfFuel.
Proof.
  unfold relax, get_weight. destruct (snd ue); [discriminate|]. simpl.
  destruct (odict_get Z.eqb (fst ue) (s_dist s)).
  - destruct (Qlt_bool _ _); discriminate.
  - destruct (odict_get Z.eqb (fst ue) (s_seen s)); [destruct (Qlt_bool _ _)|];
      try apply discover_fuel. discriminate.
Qed.

Lemma relax_all (v : Node) (d : Q) (adj : AdjDict) (s : Search) :
  match for_each (relax v d) adj s with
  | Ok s' => s_dist s' = s_dist s /\
             (length (s_fringe s') <= length adj + length (s_fringe s))%nat
  | Raise e => e <> OutOfFuel
  end.
Proof.
  revert s. induction adj as [|ue adj IH]; intros s; simpl; [split; [reflexivity|lia]|].
  destruct (relax v d s ue) as [s1|e] eqn:E; simpl.
  - apply relax_Ok in E as [Hd Hf]. specialize (IH s1).
    destruct (for_each (relax v d) adj s1); [|exact IH].
    destruct IH as [Hd' Hf']. split; [congruence|lia].
  - intros ->. exact (relax_fuel v d s ue E).
Qed.

Lemma unsettled_degree_cons (G : MultiDiGraph) (dist : list (Node * Q)) (u : Node)
    (a : AdjDict) :
  unsettled_degree ((u, a) :: G) dist =
  ((if odict_mem Z.eqb u dist then O else length a) + unsettled_degree G dist)%nat.
Proof. reflexivity. Qed.

Lemma odict_mem_cons (u v : Node) (d : Q) (dist : list (Node * Q)) :
  odict_mem Z.eqb u ((v, d) :: dist) = (u =? v)%Z || odict_mem Z.eqb u dist.
Proof. unfold odict_mem. simpl. destruct (u =? v)%Z; reflexivity. Qed.

Lemma unsettled_degree_settle (G : MultiDiGraph) (dist : list (Node * Q)) (v : Node) (d : Q) :
  (unsettled_degree G ((v, d) :: dist) <= unsettled_degree G dist)%nat.
Proof.
  induction G as [|[u a] G IH]; [reflexivity|].
  rewrite !unsettled_degree_cons, odict_mem_cons.
  destruct (u =? v)%Z; destruct (odict_mem Z.eqb u dist); simpl; lia.
Qed.

Lemma unsettled_degree_adj (G : MultiDiGraph) (dist : list (Node * Q)) (v : Node) (d : Q)
    (adj : AdjDict) :
  odict_mem Z.eqb v dist = false -> odict_get Z.eqb v G = Some adj ->
  (unsettled_degree G ((v, d) :: dist) + length adj <= unsettled_degree G dist)%nat.
Proof.
  intros Hv. induction G as [|[u a] G IH]; simpl; [discriminate|].
  rewrite !unsettled_degree_cons, odict_mem_cons.
  destruct (Z.eqb_spec v u) as [<-|Hne].
  - intros [= ->]. pose proof (unsettled_degree_settle G dist v d) as Hrest.
    rewrite Z.eqb_refl, Hv. simpl. lia.
  - intros Hget. specialize (IH Hget).
    destruct (Z.eqb_spec u v) as [->|_]; [congruence|].
    destruct (odict_mem Z.eqb u dist); simpl; lia.
Qed.

Lemma dijkstra_loop_fuel (G : MultiDiGraph) (target : Node) (fuel : nat) (s : Search) :
  (length (s_fringe s) + unsettled_degree G (s_dist s) < fuel)%nat ->
  dijkstra_loop fuel G target s <> Raise OutOfFuel.
Proof.
  revert s. induction fuel as [|fuel IH]; intros s Hfuel; [lia|]. simpl.
  destruct (heappop (s_fringe s)) as [[[[d c] v] rest]|] eqn:Hpop; [|discriminate].
  apply heappop_length in Hpop. simpl.
  destruct (odict_mem Z.eqb v (s_dist s)) eqn:Hv.
  - apply IH. simpl. lia.
  - destruct (v =? target)%Z; [discriminate|].
    destruct (odict_get Z.eqb v G) as [adj|] eqn:Hadj; simpl; [|discriminate].
    pose proof (relax_all v d adj
                  (mkSearch ((v, d) :: s_dist s) (s_seen s) (s_paths s) rest (s_count s)))
      as Hrelax.
    destruct (for_each (relax v d) adj _) as [s3|e]; simpl.
    + destruct Hrelax as [Hd Hf]. simpl in Hd, Hf. apply IH. rewrite Hd.
      pose proof (unsettled_degree_adj G (s_dist s) v d adj Hv Hadj). lia.
    + congruence.
Qed.

Lemma unsettled_degree_nil (G : MultiDiGraph) :
  unsettled_degree G [] = list_sum (map (fun ua : Node * AdjDict => length (snd ua)) G).
Proof. unfold unsettled_degree. f_equal. Qed.

(** [OutOfFuel] is not a result of the search: the fuel is enough for
    every graph. *)
Lemma nx_shortest_path_fuel (G : MultiDiGraph) (source target : Node) :
  nx_shortest_path G source target <> Raise OutOfFuel.
Proof.
  unfold nx_shortest_path. destruct (source =? target)%Z; [discriminate|].
  pose proof (dijkstra_loop_fuel G target (search_fuel G)
                (mkSearch [] [(source, 0%Q)] [(source, [source])] [(0%Q, O, source)] 1)) as H.
  destruct (dijkstra_loop _ _ _ _) as [s|e]; simpl.
  - destruct (odict_get Z.eqb target (s_paths s)); discriminate.
  - intros [= ->]. apply H; [|reflexivity].
    cbn [s_fringe s_dist length]. rewrite unsettled_degree_nil.
    unfold search_fuel. lia.
Qed.

(** ** The apportionment loop *)

Lemma inject_Z_nonneg (z : Z) : (0 <= z)%Z -> (0 <= inject_Z z)%Q.
Proof. intros H. change 0%Q with (inject_Z 0). rewrite <- Zle_Qle. exact H. Qed.

Lemma inject_Z_pos (z : Z) : (0 < z)%Z -> (0 < inject_Z z)%Q.
Proof. intros H. change 0%Q with (inject_Z 0). rewrite <- Zlt_Qlt. exact H. Qed.

Lemma weighted_share_nonneg (x diff t : Z) :
  (0 <= x)%Z -> (0 <= diff)%Z -> (0 < t)%Z ->
  (0 <= inject_Z x + inject_Z diff * (inject_Z x / inject_Z t))%Q.
Proof.
  intros Hx Hd Ht.
  apply inject_Z_nonneg in Hx, Hd. apply inject_Z_pos in Ht.
  assert (Hq : (0 <= inject_Z x / inject_Z t)%Q).
  { apply Qle_shift_div_l; [exact Ht|]. rewrite Qmult_0_l. exact Hx. }
  pose proof (Qmult_le_0_compat _ _ Hd Hq) as Hm.
  rewrite <- (Qplus_0_r 0). apply Qplus_le_compat; assumption.
Qed.

(** Counts and totals that are not negative are adjusted to values that
    are not negative. *)
Lemma AdjustRidership_nonneg (ons offs total_on total_off : Z) (adjusted : Q * Q) :
  (0 <= ons)%Z -> (0 <= offs)%Z -> (0 <= total_on)%Z -> (0 <= total_off)%Z ->
  AdjustRidership ons offs total_on total_off = Ok adjusted ->
  (0 <= fst adjusted)%Q /\ (0 <= snd adjusted)%Q.
Proof.
  intros Hons Hoffs Hon Hoff. unfold AdjustRidership.
  destruct (Z.gtb_spec total_on total_off) as [Hgt|Hle].
  - destruct (Z.eqb_spec total_off 0) as [_|Hnz]; [discriminate|].
    intros [= <-]. simpl. split; [apply inject_Z_nonneg, Hons|].
    apply weighted_share_nonneg; lia.
  - destruct (Z.eqb_spec total_on 0) as [_|Hnz]; [discriminate|].
    intros [= <-]. simpl. split; [|apply inject_Z_nonneg, Hoffs].
    apply weighted_share_nonneg; lia.
Qed.

Lemma Qlt_bool_false (x y : Q) : Qlt_bool x y = false -> (y <= x)%Q.
Proof.
  unfold Qlt_bool. intros H. apply negb_false_iff in H. apply Qle_bool_iff, H.
Qed.

Lemma Qlt_bool_true (x y : Q) : Qlt_bool x y = true -> (x < y)%Q.
Proof.
  unfold Qlt_bool. intros H. apply negb_true_iff in H.
  apply Qnot_le_lt. intros Hle. apply Qle_bool_iff in Hle. congruence.
Qed.

Ltac bind_inv H x Hx :=
  apply result_bind_Ok in H as (x & Hx & H); cbv beta zeta in H.

Section Chain.
Variable shortest_path : MultiDiGraph -> Node -> Node -> result (list Node).
Variable dictRouteSegments : list (Z * list Z).
Variable dictRouteMetrics : ByDir (gmap Z StopDict).
Variable dictRouteTotals : ByDir (gmap Z Totals).
Variable dictAllNodes : NodeDict.
Variable D : Prop.

Lemma spread_accumulates (ps : list (option (Node * Node))) (x : Q)
    (G G' : MultiDiGraph) :
  nonneg_if D x -> spread ps x G = Ok G' -> accumulates (nonneg_if D) G G'.
Proof.
  intros Hx. revert G. induction ps as [|p ps IH]; intros G H; simpl in H.
  - injection H as <-. constructor.
  - bind_inv H uv Huv. bind_inv H G1 HG1.
    eapply accumulates_step; [exact Hx|exact HG1|]. apply IH, H.
Qed.

(** Looking for the path changes neither the graph nor the running
    total; it may rebind [tlinks]. *)
Lemma find_tlinks_Ok (view : MultiDiGraph) (dictRouteLinks : list Z)
    (source target : Node) (st st' : State) :
  find_tlinks shortest_path view dictRouteLinks source target st = Ok st' ->
  st' = st \/ exists tl, st' = set_tlinks tl st.
Proof.
  unfold find_tlinks.
  match goal with |- context [match ?c with _ => _ end] => destruct c as [tl|[]] end;
    intros [= <-]; eauto.
Qed.

Lemma whole_graph_fallback_Ok (dictRouteLinks : list Z) (r : Z) (dir : Direction)
    (eSource eTarget : option Z) (st st' : State) (stop : bool) :
  whole_graph_fallback shortest_path dictAllNodes dictRouteLinks r dir eSource eTarget st
    = Ok (st', stop) ->
  st_G st' = st_G st /\ st_total st' = st_total st /\
  st_dictRouteNodes st' = dictAllNodes.
Proof.
  unfold whole_graph_fallback.
  match goal with |- context [match ?c with _ => _ end] =>
    destruct c as [st2|[]] eqn:E end; intros [= <- <-]; auto.
  bind_inv E source Hs. bind_inv E target Ht.
  apply find_tlinks_Ok in E as [->|[tl ->]]; auto.
Qed.

Lemma locate_Ok (subgraph : MultiDiGraph) (dictRouteLinks : list Z) (r : Z)
    (dir : Direction) (eSource eTarget : option Z) (st st' : State) (stop : bool) :
  locate shortest_path dictAllNodes subgraph dictRouteLinks r dir eSource eTarget st
    = Ok (st', stop) ->
  st_G st' = st_G st /\ st_total st' = st_total st /\
  (st_dictRouteNodes st' = st_dictRouteNodes st \/ st_dictRouteNodes st' = dictAllNodes).
Proof.
  unfold locate.
  match goal with |- context [match ?c with _ => _ end] =>
    destruct c as [st1|[]] eqn:E end; try discriminate.
  - intros [= <- <-]. bind_inv E source Hs. bind_inv E target Ht.
    apply find_tlinks_Ok in E as [->|[tl ->]]; auto.
  - intros H. apply whole_graph_fallback_Ok in H as (? & ? & ?). auto.
  - intros H. apply whole_graph_fallback_Ok in H as (? & ? & ?). auto.
Qed.

Lemma apportion_Ok (r : Z) (dir : Direction) (total_on total_off : Z) (i : nat)
    (eSource eTarget : option Z) (ons offs : Z) (st st' : State) :
  (D -> (0 <= st_total st)%Q) ->
  (D -> (0 <= ons)%Z /\ (0 <= offs)%Z /\ (0 <= total_on)%Z /\ (0 <= total_off)%Z) ->
  apportion dictAllNodes r dir total_on total_off i eSource eTarget ons offs st = Ok st' ->
  accumulates (nonneg_if D) (st_G st) (st_G st') /\
  (D -> (0 <= st_total st')%Q) /\
  st_dictRouteNodes st' = st_dictRouteNodes st.
Proof.
  intros Htotal Hdata H. unfold apportion in H.
  bind_inv H tlinks Htl. bind_inv H adjusted Hadj. bind_inv H src Hsrc.
  bind_inv H G1 HG1. cbn [st_G st_total st_dictRouteNodes set_tlinks] in *.
  assert (Hadj' : D -> (0 <= fst adjusted)%Q /\ (0 <= snd adjusted)%Q).
  { intros HD. destruct (Hdata HD) as (? & ? & ? & ?).
    eapply AdjustRidership_nonneg; [..|exact Hadj]; assumption. }
  set (total1 := match i with
                 | O => (st_total st + fst adjusted + snd adjusted)%Q
                 | S _ => (st_total st + fst adjusted)%Q
                 end) in *.
  assert (H1 : nonneg_if D total1).
  { intros HD. destruct (Hadj' HD) as [Ha Hb]. specialize (Htotal HD).
    unfold total1. destruct i.
    - rewrite <- (Qplus_0_r 0). apply Qplus_le_compat; [|exact Hb].
      rewrite <- (Qplus_0_r 0). apply Qplus_le_compat; assumption.
    - rewrite <- (Qplus_0_r 0). apply Qplus_le_compat; assumption. }
  destruct (Qlt_bool total1 (snd adjusted)) eqn:Hbad.
  - bind_inv H G2 HG2. injection H as <-. cbn.
    assert (H2 : nonneg_if D (if (total_on >? total_off)%Z then inject_Z total_on
                              else inject_Z total_off)).
    { intros HD. destruct (Hdata HD) as (_ & _ & ? & ?).
      destruct (total_on >? total_off)%Z; apply inject_Z_nonneg; assumption. }
    split; [|split; [exact H2|reflexivity]].
    eapply accumulates_step; [exact H1|exact HG1|].
    eapply spread_accumulates; [exact H2|exact HG2].
  - bind_inv H G2 HG2. injection H as <-. cbn.
    assert (H2 : nonneg_if D (total1 - snd adjusted)).
    { intros _. apply Qlt_bool_false in Hbad.
      unfold Qminus. rewrite <- (Qplus_opp_r (snd adjusted)).
      apply Qplus_le_compat; [exact Hbad|apply Qle_refl]. }
    split; [|split; [exact H2|reflexivity]].
    eapply accumulates_step; [exact H1|exact HG1|].
    eapply spread_accumulates; [exact H2|exact HG2].
Qed.

Lemma stop_pair_Ok (subgraph : MultiDiGraph) (dictRouteLinks : list Z) (r : Z)
    (dir : Direction) (dictStops : StopDict) (lstStops : list Q)
    (total_on total_off : Z) (item : nat * Q) (st st' : State) (stop : bool) :
  (D -> (0 <= st_total st)%Q) ->
  (D -> stops_nonneg dictStops) ->
  (D -> (0 <= total_on)%Z /\ (0 <= total_off)%Z) ->
  stop_pair shortest_path dictAllNodes subgraph dictRouteLinks r dir dictStops lstStops
            total_on total_off item st = Ok (st', stop) ->
  accumulates (nonneg_if D) (st_G st) (st_G st') /\
  (D -> (0 <= st_total st')%Q) /\
  (st_dictRouteNodes st' = st_dictRouteNodes st \/ st_dictRouteNodes st' = dictAllNodes).
Proof.
  intros Htotal Hstops Htotals H. unfold stop_pair in H. destruct item as [i s].
  bind_inv H lstSourceData Hsrc. destruct lstSourceData as [[eSource ons] offs].
  bind_inv H s' Hs'. bind_inv H lstTargetData Htgt.
  destruct lstTargetData as [[eTarget ons2] offs2].
  bind_inv H located Hloc. destruct located as [st1 stop1].
  apply locate_Ok in Hloc as (HG & Ht & Hnodes).
  destruct stop1.
  - injection H as <- <-. rewrite HG, Ht.
    split; [constructor|]. split; assumption.
  - bind_inv H st2 Happ. injection H as <- <-.
    apply apportion_Ok in Happ as (Hacc & Ht2 & Hn2).
    + rewrite HG in Hacc. rewrite Hn2. split; [exact Hacc|]. split; assumption.
    + rewrite Ht. exact Htotal.
    + intros HD. destruct (Htotals HD) as [? ?].
      apply of_option_Ok in Hsrc.
      destruct (odict_get_Forall _ _ _ _ _ (Hstops HD) Hsrc) as (k' & Hons & Hoffs).
      simpl in Hons, Hoffs. auto.
Qed.

Lemma for_stops_Ok (subgraph : MultiDiGraph) (dictRouteLinks : list Z) (r : Z)
    (dir : Direction) (dictStops : StopDict) (lstStops : list Q)
    (total_on total_off : Z) (items : list (nat * Q)) (st st' : State) :
  (D -> (0 <= st_total st)%Q) ->
  (D -> stops_nonneg dictStops) ->
  (D -> (0 <= total_on)%Z /\ (0 <= total_off)%Z) ->
  for_stops (stop_pair shortest_path dictAllNodes subgraph dictRouteLinks r dir dictStops
                       lstStops total_on total_off) items st = Ok st' ->
  accumulates (nonneg_if D) (st_G st) (st_G st') /\
  (st_dictRouteNodes st' = st_dictRouteNodes st \/ st_dictRouteNodes st' = dictAllNodes).
Proof.
  intros Htotal Hstops Htotals. revert st Htotal.
  induction items as [|item items IH]; intros st Htotal H; simpl in H.
  - injection H as <-. split; [constructor|left; reflexivity].
  - bind_inv H res Hres. destruct res as [st1 stop].
    apply stop_pair_Ok in Hres as (Hacc & Ht1 & Hn1); try assumption.
    destruct stop.
    + injection H as <-. split; assumption.
    + apply IH in H as (Hacc' & Hn'); [|exact Ht1]. split.
      * eapply accumulates_trans; eassumption.
      * destruct Hn' as [-> | ->]; [exact Hn1|right; reflexivity].
Qed.

Hypothesis metrics_ok : D -> metrics_nonneg dictRouteMetrics.
Hypothesis totals_ok : D -> totals_nonneg dictRouteTotals.

Lemma direction_Ok (subgraph : MultiDiGraph) (dictRouteLinks : list Z) (r : Z)
    (st st' : State) (dir : Direction) :
  direction shortest_path dictRouteMetrics dictRouteTotals dictAllNodes subgraph
            dictRouteLinks r st dir = Ok st' ->
  accumulates (nonneg_if D) (st_G st) (st_G st') /\
  (st_dictRouteNodes st' = st_dictRouteNodes st \/ st_dictRouteNodes st' = dictAllNodes).
Proof.
  unfold direction. intros H.
  apply for_stops_Ok in H; [exact H|..].
  - intros _. apply Qle_refl.
  - intros HD. destruct (dir_get dir dictRouteMetrics !! r) as [stops|] eqn:E; simpl.
    + exact (metrics_ok HD dir r stops E).
    + constructor.
  - intros HD. destruct (dir_get dir dictRouteTotals !! r) as [t|] eqn:E; simpl.
    + exact (totals_ok HD dir r t E).
    + split; reflexivity.
Qed.

Lemma directions_Ok (subgraph : MultiDiGraph) (dictRouteLinks : list Z) (r : Z)
    (dirs : list Direction) (st st' : State) :
  for_each (direction shortest_path dictRouteMetrics dictRouteTotals dictAllNodes subgraph
                      dictRouteLinks r) dirs st = Ok st' ->
  accumulates (nonneg_if D) (st_G st) (st_G st') /\
  (st_dictRouteNodes st' = st_dictRouteNodes st \/ st_dictRouteNodes st' = dictAllNodes).
Proof.
  revert st. induction dirs as [|dir dirs IH]; intros st H; simpl in H.
  - injection H as <-. split; [constructor|left; reflexivity].
  - bind_inv H st1 H1. apply direction_Ok in H1 as (Hacc & Hn).
    apply IH in H as (Hacc' & Hn'). split.
    + eapply accumulates_trans; eassumption.
    + destruct Hn' as [-> | ->]; [exact Hn|right; reflexivity].
Qed.

Lemma route_Ok (st st' : State) (r : Z) :
  route shortest_path dictRouteSegments dictRouteMetrics dictRouteTotals dictAllNodes st r
    = Ok st' ->
  accumulates (nonneg_if D) (st_G st) (st_G st').
Proof.
  unfold route. intros H. bind_inv H created Hc.
  destruct created as [[dictRouteLinks dictRouteNodes] subgraph].
  apply directions_Ok in H as [H _]. exact H.
Qed.

Lemma routes_Ok (rs : list Z) (st st' : State) :
  for_each (route shortest_path dictRouteSegments dictRouteMetrics dictRouteTotals
                  dictAllNodes) rs st = Ok st' ->
  accumulates (nonneg_if D) (st_G st) (st_G st').
Proof.
  revert st. induction rs as [|r rs IH]; intros st H; simpl in H.
  - injection H as <-. constructor.
  - bind_inv H st1 H1. apply route_Ok in H1.
    eapply accumulates_trans; [exact H1|]. apply IH, H.
Qed.
End Chain.

(** ** RouteMetricsLoader *)

Lemma dir_get_set {A : Type} (dir dir' : Direction) (a : A) (d : ByDir A) :
  dir_get dir (dir_set dir' a d) = if decide (dir = dir') then a else dir_get dir d.
Proof. destruct dir, dir'; reflexivity. Qed.

Lemma add_metro_nonneg (acc : ByDir (gmap Z StopDict) * ByDir (gmap Z Totals))
    (row : MetroRow) :
  row_nonneg row -> metrics_nonneg (fst acc) -> totals_nonneg (snd acc) ->
  metrics_nonneg (fst (add_metro acc row)) /\ totals_nonneg (snd (add_metro acc row)).
Proof.
  intros [Hons Hoffs] Hm Ht. destruct acc as [m t]. unfold add_metro. simpl in Hm, Ht.
  destruct (default (0, 0)%Z (dir_get (m_dir row) t !! m_route row)) as [t_on t_off] eqn:Et.
  simpl. split.
  - intros dir r stops. rewrite dir_get_set. destruct (decide (dir = m_dir row)) as [->|_].
    + intros H. apply lookup_insert_Some in H as [[_ <-]|[_ H]]; [|exact (Hm _ _ _ H)].
      apply odict_set_Forall; [|split; assumption].
      destruct (dir_get (m_dir row) m !! m_route row) as [stops|] eqn:E; simpl.
      * exact (Hm _ _ _ E).
      * constructor.
    + apply Hm.
  - intros dir r tt. rewrite dir_get_set. destruct (decide (dir = m_dir row)) as [->|_].
    + intros H. apply lookup_insert_Some in H as [[_ <-]|[_ H]]; [|exact (Ht _ _ _ H)].
      assert (H0 : (0 <= t_on)%Z /\ (0 <= t_off)%Z).
      { destruct (dir_get (m_dir row) t !! m_route row) as [tt|] eqn:E; simpl in Et.
        - subst tt. exact (Ht _ _ _ E).
        - injection Et as <- <-. split; reflexivity. }
      simpl. lia.
    + apply Ht.
Qed.

(** Rows whose counts are not negative give stop data and totals that are
    not negative. *)
Lemma RouteDataLookup_nonneg (csvMetroQuery : list MetroRow) :
  Forall row_nonneg csvMetroQuery ->
  metrics_nonneg (fst (RouteDataLookup csvMetroQuery)) /\
  totals_nonneg (snd (RouteDataLookup csvMetroQuery)).
Proof.
  unfold RouteDataLookup.
  assert (H0 : metrics_nonneg (fst (mkByDir (∅ : gmap Z StopDict) ∅,
                                    mkByDir (∅ : gmap Z Totals) ∅)) /\
               totals_nonneg (snd (mkByDir (∅ : gmap Z StopDict) ∅,
                                   mkByDir (∅ : gmap Z Totals) ∅))).
  { split; intros [] r x H; simpl in H; rewrite lookup_empty in H; discriminate. }
  revert H0. generalize (mkByDir (∅ : gmap Z StopDict) ∅, mkByDir (∅ : gmap Z Totals) ∅).
  induction csvMetroQuery as [|row rows IH]; intros acc Hacc Hrows; simpl; [exact Hacc|].
  apply Forall_cons in Hrows as [Hrow Hrows].
  apply IH; [|exact Hrows]. destruct Hacc. apply add_metro_nonneg; assumption.
Qed.

Lemma or_exit_Ok {A : Type} (r : result A) (a : A) : or_exit r = Ok a -> r = Ok a.
Proof. destruct r; [intros [= ->]; reflexivity|discriminate]. Qed.

(** Every change that a completed run makes to the graph is an update
    [+= x]; when the counts of the query are not negative, so is every
    [x]. *)
Lemma RidershipAlgorithm_accumulates
    (shortest_path : MultiDiGraph -> Node -> Node -> result (list Node))
    (fcStreets : list StreetRow) (fcRoutes : list (Z * Z)) (csvMetroQuery : list MetroRow)
    (G : MultiDiGraph) (lstBadData lstMissingLink : list (Z * Direction)) :
  RidershipAlgorithm shortest_path fcStreets fcRoutes csvMetroQuery
    = Ok (G, lstBadData, lstMissingLink) ->
  accumulates (nonneg_if (Forall row_nonneg csvMetroQuery))
              (CreateDirectedMultiGraph fcStreets) G.
Proof.
  unfold RidershipAlgorithm. intros H. apply or_exit_Ok in H.
  destruct (RouteDataLookup csvMetroQuery) as [dictRouteMetrics dictRouteTotals] eqn:E.
  bind_inv H dictAllNodes Hnodes. bind_inv H st Hst. injection H as <- _ _.
  apply routes_Ok with (D := Forall row_nonneg csvMetroQuery) in Hst; [exact Hst|..].
  - intros HD. pose proof (RouteDataLookup_nonneg _ HD) as [Hm _]. rewrite E in Hm. exact Hm.
  - intros HD. pose proof (RouteDataLookup_nonneg _ HD) as [_ Ht]. rewrite E in Ht. exact Ht.
Qed.

(** ** The ledger of a completed run *)

(** The graph keeps its shape through a run. *)
Lemma RidershipAlgorithm_wf
    (shortest_path : MultiDiGraph -> Node -> Node -> result (list Node))
    (fcStreets : list StreetRow) (fcRoutes : list (Z * Z)) (csvMetroQuery : list MetroRow)
    (G : MultiDiGraph) (lstBadData lstMissingLink : list (Z * Direction)) :
  RidershipAlgorithm shortest_path fcStreets fcRoutes csvMetroQuery
    = Ok (G, lstBadData, lstMissingLink) ->
  graph_wf G.
Proof.
  intros H. apply RidershipAlgorithm_accumulates in H.
  eapply accumulates_wf; [exact H|]. apply CreateDirectedMultiGraph_wf.
Qed.

(** C1, as the code has it.  For every completed run the ledger maps each
    link id to the load of one edge: the last edge, in the order of
    [G.edges()], that carries the link id.  Of the two edges of a two-way
    street it is the load of the later one, not the sum of both. *)
Theorem ledger_last_edge
    (shortest_path : MultiDiGraph -> Node -> Node -> result (list Node))
    (fcStreets : list StreetRow) (fcRoutes : list (Z * Z)) (csvMetroQuery : list MetroRow)
    (G : MultiDiGraph) (lstBadData lstMissingLink : list (Z * Direction)) :
  RidershipAlgorithm shortest_path fcStreets fcRoutes csvMetroQuery
    = Ok (G, lstBadData, lstMissingLink) ->
  exists dd, ledger G = Ok dd /\
    forall l, dd !! l = total <$> last_with_link l (map snd (edges G)).
Proof.
  intros H. apply ledger_of_wf_graph. eapply RidershipAlgorithm_wf, H.
Qed.

Lemma ledger_last_edge_witness :
  exists G,
    RidershipAlgorithm nx_shortest_path shared_streets shared_routes shared_query
      = Ok (G, [], []) /\
    exists dd, ledger G = Ok dd /\
      forall l, dd !! l = total <$> last_with_link l (map snd (edges G)).
Proof.
  eexists. split; [vm_compute; reflexivity|].
  apply (ledger_last_edge nx_shortest_path shared_streets shared_routes shared_query _ [] []).
  vm_compute. reflexivity.
Defined.

(** C1 as stated fails on a run in which both directions of a two-way
    street are loaded.  Link 5 is the street 1 <-> 2 and link 6 the
    parallel one-way street 1 -> 2; the stops on link 6 load the edge
    1 -> 2 of key 0, which belongs to link 5, and the stop on link 5 loads
    the edge 2 -> 1.  The edges of link 5 end with loads 10 and 15; the
    ledger entry is 15, their sum is 25. *)
Lemma ledger_sum_counterexample :
  exists G lstBadData lstMissingLink dd x,
    RidershipAlgorithm nx_shortest_path shared_streets shared_routes shared_query
      = Ok (G, lstBadData, lstMissingLink) /\
    ledger G = Ok dd /\
    dd !! 5%Z = Some x /\
    (x == 15)%Q /\ (spec_link_load G 5 == 25)%Q /\ ~ (x == spec_link_load G 5)%Q.
Proof.
  eexists _, _, _, _, _.
  split; [vm_compute; reflexivity|].
  split; [vm_compute; reflexivity|].
  split; [vm_compute; reflexivity|].
  split; [reflexivity|]. split; [reflexivity|]. vm_compute. discriminate.
Qed.

(** ** End to end *)

(** C2, as the code has it.  On the path 1 -> 2 -> 3 with 10 boardings on
    link 101 and 10 alightings on link 102 there is one stop pair; its
    path ends where link 102 starts, so link 101 is loaded with 10 and
    link 102, the link of the last stop, with nothing: the ledger is
    {101: 10, 102: 0}. *)
Theorem path_fixture_ledger (dir : Direction) :
  exists dd x y,
    main nx_shortest_path path_streets path_routes (path_query dir) = Ok dd /\
    dom dd = {[101%Z; 102%Z]} /\
    dd !! 101%Z = Some x /\ (x == 10)%Q /\
    dd !! 102%Z = Some y /\ (y == 0)%Q.
Proof.
  destruct dir.
  - eexists _, _, _. split; [vm_compute; reflexivity|].
    split; [vm_compute; reflexivity|].
    split; [vm_compute; reflexivity|]. split; [reflexivity|].
    split; [vm_compute; reflexivity|]. reflexivity.
  - eexists _, _, _. split; [vm_compute; reflexivity|].
    split; [vm_compute; reflexivity|].
    split; [vm_compute; reflexivity|]. split; [reflexivity|].
    split; [vm_compute; reflexivity|]. reflexivity.
Qed.

(** C2 as stated fails: the ledger entry of link 102 is 0, not 10. *)
Lemma path_fixture_counterexample :
  exists dd,
    main nx_shortest_path path_streets path_routes (path_query inbound) = Ok dd /\
    ~ (exists x y, dd !! 101%Z = Some x /\ dd !! 102%Z = Some y /\
                   (x == 10)%Q /\ (y == 10)%Q).
Proof.
  eexists. split; [vm_compute; reflexivity|].
  intros (x & y & _ & Hy & _ & Hy10).
  vm_compute in Hy. injection Hy as <-. discriminate Hy10.
Qed.

(** ** SubgraphExtractor *)

(** C3 fails on the code.  Between nodes 1 and 2 run link 101 (key 0),
    which is on route 7, and link 202 (key 1), which is not.  The loop
    over the edges meets link 202 and calls [remove_edge(1, 2)] without a
    key; the edge of key 0 goes, and the subgraph is left with link 202
    alone. *)
Theorem CreateSubgraph_keeps_extraneous_edge :
  exists dictRouteLinks dictRouteNodes subgraph,
    CreateSubgraph (CreateDirectedMultiGraph parallel_streets) 7
                   (SubgraphDataLookup parallel_routes)
      = Ok (dictRouteLinks, dictRouteNodes, subgraph) /\
    dictRouteLinks = [101%Z] /\
    edges subgraph = [(1%Z, 2%Z, 1%nat, mkEdge 202 1 0)] /\
    exists e, e ∈ edges subgraph /\ link (snd e) ∉ dictRouteLinks.
Proof.
  eexists _, _, _. split; [vm_compute; reflexivity|].
  split; [reflexivity|]. split; [reflexivity|].
  eexists. split; [left|]. simpl. intros H.
  apply list_elem_of_singleton in H. discriminate.
Qed.

(** The defect does not hang on which entry [popitem] takes.  Whatever
    the policy, as long as it goes by the keys: of the two pairs of
    parallel edges of [mirrored_streets], one keeps its edge off the
    route. *)
Lemma CreateSubgraph_with_any_popitem (choose : list nat -> nat) :
  (choose [0; 1] < 2)%nat ->
  exists dictRouteLinks dictRouteNodes subgraph e,
    CreateSubgraph_with (pop_at choose) (CreateDirectedMultiGraph mirrored_streets) 7
                        (SubgraphDataLookup mirrored_routes)
      = Ok (dictRouteLinks, dictRouteNodes, subgraph) /\
    e ∈ edges subgraph /\ link (snd e) ∉ dictRouteLinks.
Proof.
  intros Hc.
  assert (Hnot : forall l : Z, l <> 101%Z -> l <> 102%Z -> l ∉ [101%Z; 102%Z]).
  { intros l H1 H2 H. apply elem_of_cons in H as [?|H]; [congruence|].
    apply list_elem_of_singleton in H. congruence. }
  destruct (choose [0; 1]%nat) as [|[|n]] eqn:E; [| |lia].
  - eexists _, _, _, (1%Z, 2%Z, 1%nat, mkEdge 202 1 0).
    split; [|split; [|apply Hnot; discriminate]].
    + vm_compute. rewrite !E. vm_compute. reflexivity.
    + vm_compute. left.
  - eexists _, _, _, (3%Z, 4%Z, 0%nat, mkEdge 203 1 0).
    split; [|split; [|apply Hnot; discriminate]].
    + vm_compute. rewrite !E. vm_compute. reflexivity.
    + vm_compute. right. left.
Qed.

(** ** A stop pair without a path *)

(** When [tlinks] was never bound, a stop pair whose nodes are found but
    whose path is not ends the run: the handler of [NetworkXNoPath] does
    nothing, and the next statement reads [tlinks]. *)
Lemma no_path_on_first_pair
    (shortest_path : MultiDiGraph -> Node -> Node -> result (list Node))
    (dictAllNodes : NodeDict) (subgraph : MultiDiGraph) (dictRouteLinks : list Z) (r : Z)
    (dir : Direction) (dictStops : StopDict) (lstStops : list Q) (total_on total_off : Z)
    (i : nat) (s s' : Q) (eSource eTarget : option Z) (ons offs ons' offs' : Z)
    (source target : Node * Node) (st : State) :
  odict_get Qeq_bool s dictStops = Some (eSource, ons, offs) ->
  lstStops !! (i + 1)%nat = Some s' ->
  odict_get Qeq_bool s' dictStops = Some (eTarget, ons', offs') ->
  node_tuple (st_dictRouteNodes st) eSource = Some source ->
  node_tuple (st_dictRouteNodes st) eTarget = Some target ->
  shortest_path subgraph (fst source) (fst target) = Raise NetworkXNoPath ->
  st_tlinks st = None ->
  stop_pair shortest_path dictAllNodes subgraph dictRouteLinks r dir dictStops lstStops
            total_on total_off (i, s) st = Raise UnboundLocalError.
Proof.
  intros Hs Hs' Ht Hsrc Htgt Hpath Hunbound.
  unfold stop_pair. rewrite Hs. simpl. rewrite Hs'. simpl. rewrite Ht. simpl.
  unfold locate. rewrite Hsrc, Htgt. simpl.
  unfold find_tlinks. rewrite Hpath. simpl.
  unfold apportion. rewrite Hunbound. reflexivity.
Qed.

(** C7 fails on the code.  Route 7 runs over two streets that do not
    meet; the first stop pair of the run goes from node 1 to node 3, the
    search on the subgraph raises [NetworkXNoPath], and the run ends with
    [SystemExit] instead of a ledger. *)
Theorem first_pair_without_path_aborts :
  (exists dictRouteLinks dictRouteNodes subgraph,
     CreateSubgraph (CreateDirectedMultiGraph gap_streets) 7 (SubgraphDataLookup gap_routes)
       = Ok (dictRouteLinks, dictRouteNodes, subgraph) /\
     dictRouteNodes !! 101%Z = Some (1, 2)%Z /\ dictRouteNodes !! 102%Z = Some (3, 4)%Z /\
     nx_shortest_path subgraph 1%Z 3%Z = Raise NetworkXNoPath) /\
  RidershipAlgorithm nx_shortest_path gap_streets gap_routes gap_query = Raise SystemExit /\
  main nx_shortest_path gap_streets gap_routes gap_query = Raise SystemExit.
Proof.
  split; [|split; vm_compute; reflexivity].
  eexists _, _, _. split; [vm_compute; reflexivity|].
  split; [vm_compute; reflexivity|]. split; vm_compute; reflexivity.
Qed.

(** ** Missing links *)

Lemma for_stops_passes {A : Type} (body : A -> State -> result (State * bool))
    (pre rest : list A) (st stk : State) :
  passes body pre st stk -> for_stops body (pre ++ rest) st = for_stops body rest stk.
Proof.
  induction 1 as [|x items st st1 st2 Hx _ IH]; [reflexivity|].
  simpl. rewrite Hx. simpl. exact IH.
Qed.

(** A stop link that neither index knows sends [locate] through both
    handlers: the route and direction are reported and the loop is left. *)
Lemma locate_missing
    (shortest_path : MultiDiGraph -> Node -> Node -> result (list Node))
    (dictAllNodes : NodeDict) (subgraph : MultiDiGraph) (dictRouteLinks : list Z) (r : Z)
    (dir : Direction) (eSource eTarget : option Z) (st : State) :
  absent_both (st_dictRouteNodes st) dictAllNodes eSource \/
  absent_both (st_dictRouteNodes st) dictAllNodes eTarget ->
  locate shortest_path dictAllNodes subgraph dictRouteLinks r dir eSource eTarget st
    = Ok (append_MissingLink (r, dir) (set_dictRouteNodes dictAllNodes st), true).
Proof.
  unfold absent_both, locate, whole_graph_fallback, tuple_0.
  cbn [st_dictRouteNodes set_dictRouteNodes].
  intros [[H1 H2]|[H1 H2]].
  - rewrite H1, H2. reflexivity.
  - rewrite H1, H2.
    destruct (node_tuple (st_dictRouteNodes st) eSource) as [src|];
      destruct (node_tuple dictAllNodes eSource) as [src'|]; reflexivity.
Qed.

(** ** The node index after a fallback *)

(** A stop link that the current node index does not know sends [locate]
    to the handler that works on the whole graph. *)
Lemma locate_fallback
    (shortest_path : MultiDiGraph -> Node -> Node -> result (list Node))
    (dictAllNodes : NodeDict) (subgraph : MultiDiGraph) (dictRouteLinks : list Z) (r : Z)
    (dir : Direction) (eSource eTarget : option Z) (st : State) :
  node_tuple (st_dictRouteNodes st) eSource = None \/
  node_tuple (st_dictRouteNodes st) eTarget = None ->
  locate shortest_path dictAllNodes subgraph dictRouteLinks r dir eSource eTarget st =
  whole_graph_fallback shortest_path dictAllNodes dictRouteLinks r dir eSource eTarget st.
Proof.
  unfold locate, tuple_0. intros [H|H]; rewrite H.
  - reflexivity.
  - destruct (node_tuple (st_dictRouteNodes st) eSource); reflexivity.
Qed.

(** The first update of [apportion] goes to the edge that the current
    node index gives for the source link. *)
Lemma apportion_source_edge (dictAllNodes : NodeDict) (r : Z) (dir : Direction)
    (total_on total_off : Z) (i : nat) (eSource eTarget : option Z) (ons offs : Z)
    (st st' : State) :
  apportion dictAllNodes r dir total_on total_off i eSource eTarget ons offs st = Ok st' ->
  exists src x G1,
    node_tuple (st_dictRouteNodes st) eSource = Some src /\
    add_total (st_G st) (fst src) (snd src) x = Ok G1 /\
    accumulates (fun _ => True) G1 (st_G st').
Proof.
  intros H. unfold apportion in H.
  bind_inv H tlinks Htl. bind_inv H adjusted Hadj. bind_inv H src Hsrc.
  bind_inv H G1 HG1. cbn [st_G st_total st_dictRouteNodes set_tlinks] in *.
  apply of_option_Ok in Hsrc. exists src. eexists _, G1.
  split; [exact Hsrc|]. split; [exact HG1|].
  destruct (Qlt_bool _ _); bind_inv H G2 HG2; injection H as <-; cbn;
    apply accumulates_impl with (P := nonneg_if False); auto;
    apply (spread_accumulates False) in HG2; auto; intros [].
Qed.

(** C10.  Once the lookup in the route's node index fails for a stop
    pair and the handler for the whole graph takes over, [dictRouteNodes]
    is the node index of the whole graph: at the end of that direction
    ([st1]), through every direction of the route handled after it
    ([st2]), where the update of the source edge reads its endpoints from
    the whole-graph index, and until the body of the loop over the routes
    binds it to the index of the next route's subgraph. *)
Theorem fallback_index_persists
    (shortest_path : MultiDiGraph -> Node -> Node -> result (list Node))
    (dictRouteSegments : list (Z * list Z))
    (dictRouteMetrics : ByDir (gmap Z StopDict)) (dictRouteTotals : ByDir (gmap Z Totals))
    (dictAllNodes : NodeDict) (subgraph : MultiDiGraph) (dictRouteLinks : list Z) (r : Z)
    (dir : Direction) (dictStops : StopDict) (lstStops : list Q) (total_on total_off : Z)
    (pre rest : list (nat * Q)) (i : nat) (s s' : Q)
    (eSource eTarget : option Z) (ons offs ons' offs' : Z)
    (dirs : list Direction) (st stk st1 st2 : State) :
  let body := stop_pair shortest_path dictAllNodes subgraph dictRouteLinks r dir dictStops
                        lstStops total_on total_off in
  passes body pre st stk ->
  odict_get Qeq_bool s dictStops = Some (eSource, ons, offs) ->
  lstStops !! (i + 1)%nat = Some s' ->
  odict_get Qeq_bool s' dictStops = Some (eTarget, ons', offs') ->
  node_tuple (st_dictRouteNodes stk) eSource = None \/
  node_tuple (st_dictRouteNodes stk) eTarget = None ->
  for_stops body (pre ++ (i, s) :: rest) st = Ok st1 ->
  for_each (direction shortest_path dictRouteMetrics dictRouteTotals dictAllNodes subgraph
                      dictRouteLinks r) dirs st1 = Ok st2 ->
  st_dictRouteNodes st1 = dictAllNodes /\
  st_dictRouteNodes st2 = dictAllNodes /\
  (forall total_on' total_off' j eS eT ons0 offs0 sta stb,
     st_dictRouteNodes sta = dictAllNodes ->
     apportion dictAllNodes r dir total_on' total_off' j eS eT ons0 offs0 sta = Ok stb ->
     exists src x G1,
       dictAllNodes !! default 0%Z eS = Some src /\ is_Some eS /\
       add_total (st_G sta) (fst src) (snd src) x = Ok G1) /\
  (forall r' st3,
     route shortest_path dictRouteSegments dictRouteMetrics dictRouteTotals dictAllNodes
           st2 r' = Ok st3 ->
     exists dictRouteLinks' dictRouteNodes' subgraph',
       CreateSubgraph (st_G st2) r' dictRouteSegments
         = Ok (dictRouteLinks', dictRouteNodes', subgraph') /\
       for_each (direction shortest_path dictRouteMetrics dictRouteTotals dictAllNodes
                           subgraph' dictRouteLinks' r')
                [inbound; outbound] (set_dictRouteNodes dictRouteNodes' st2) = Ok st3).
Proof.
  intros body Hpre Hs Hs' Ht Hfail Hstops Hdirs.
  assert (H1 : st_dictRouteNodes st1 = dictAllNodes).
  { rewrite (for_stops_passes body pre _ _ _ Hpre) in Hstops. simpl in Hstops.
    bind_inv Hstops res Hres. destruct res as [sta stop].
    assert (Ha : st_dictRouteNodes sta = dictAllNodes).
    { unfold body, stop_pair in Hres. rewrite Hs in Hres. simpl in Hres.
      rewrite Hs' in Hres. simpl in Hres. rewrite Ht in Hres. simpl in Hres.
      rewrite (locate_fallback _ _ _ _ _ _ _ _ _ Hfail) in Hres.
      bind_inv Hres located Hloc. destruct located as [stl stopl].
      apply whole_graph_fallback_Ok in Hloc as (_ & _ & Hn).
      destruct stopl.
      - injection Hres as <- _. exact Hn.
      - bind_inv Hres stp Happ. injection Hres as <- _.
        apply (apportion_Ok dictAllNodes False) in Happ as (_ & _ & Hn');
          [congruence|intros []..]. }
    destruct stop.
    - injection Hstops as <-. exact Ha.
    - apply (for_stops_Ok shortest_path dictAllNodes False) in Hstops as [_ [Hn|Hn]];
        [congruence|exact Hn|intros []..]. }
  split; [exact H1|]. split; [|split].
  - apply (directions_Ok shortest_path dictRouteMetrics dictRouteTotals dictAllNodes False)
      in Hdirs as [_ [Hn|Hn]]; [congruence|exact Hn|intros []..].
  - intros total_on' total_off' j eS eT ons0 offs0 sta stb Hn Happ.
    apply apportion_source_edge in Happ as (src & x & G1 & Hsrc & Hadd & _).
    rewrite Hn in Hsrc. exists src, x, G1.
    destruct eS as [k|]; [|discriminate]. simpl in *. eauto.
  - intros r' st3 Hroute. unfold route in Hroute.
    bind_inv Hroute created Hc. destruct created as [[links' nodes'] subgraph'].
    exists links', nodes', subgraph'. split; [exact Hc|exact Hroute].
Qed.

Lemma fallback_index_persists_witness :
  let G := CreateDirectedMultiGraph path_streets in
  let dictRouteSegments := SubgraphDataLookup detour_routes in
  let dictRouteMetrics := fst (RouteDataLookup detour_query) in
  let dictRouteTotals := snd (RouteDataLookup detour_query) in
  let dictStops := default [] (dir_get inbound dictRouteMetrics !! 7%Z) in
  let lstStops := sorted (map fst dictStops) in
  let totals := default (0, 0)%Z (dir_get inbound dictRouteTotals !! 7%Z) in
  exists dictAllNodes dictRouteLinks dictRouteNodes subgraph st1 st2,
    NodeLookup G = Ok dictAllNodes /\
    CreateSubgraph G 7 dictRouteSegments = Ok (dictRouteLinks, dictRouteNodes, subgraph) /\
    dictRouteNodes !! 102%Z = None /\ dictAllNodes !! 102%Z = Some (2, 3)%Z /\
    let st := set_total 0 (mkState G dictRouteNodes None 0 [] []) in
    for_stops (stop_pair nx_shortest_path dictAllNodes subgraph dictRouteLinks 7 inbound
                         dictStops lstStops (fst totals) (snd totals))
              ([] ++ (0%nat, 1%Q) :: [(1%nat, 2%Q)]) st = Ok st1 /\
    for_each (direction nx_shortest_path dictRouteMetrics dictRouteTotals dictAllNodes
                        subgraph dictRouteLinks 7) [outbound] st1 = Ok st2 /\
    st_dictRouteNodes st1 = dictAllNodes /\ st_dictRouteNodes st2 = dictAllNodes.
Proof.
  intros G dictRouteSegments dictRouteMetrics dictRouteTotals dictStops lstStops totals.
  eexists _, _, _, _, _, _.
  split; [vm_compute; reflexivity|].
  split; [vm_compute; reflexivity|].
  split; [vm_compute; reflexivity|].
  split; [vm_compute; reflexivity|].
  intros st.
  split; [vm_compute; reflexivity|].
  split; [vm_compute; reflexivity|].
  match goal with
  | |- st_dictRouteNodes ?st1 = ?an /\ st_dictRouteNodes ?st2 = _ =>
      destruct (fallback_index_persists nx_shortest_path dictRouteSegments dictRouteMetrics
                  dictRouteTotals an [(1%Z, [(2%Z, [(0%nat, mkEdge 101 1 0)])]); (2%Z, [])]
                  [101%Z] 7 inbound dictStops lstStops (fst totals) (snd totals)
                  [] [(1%nat, 2%Q)] 0%nat 1%Q 2%Q (Some 101%Z) (Some 102%Z) 10 0 0 10
                  [outbound] st st st1 st2)
        as (H1 & H2 & _)
  end.
  - constructor.
  - vm_compute. reflexivity.
  - vm_compute. reflexivity.
  - vm_compute. reflexivity.
  - right. vm_compute. reflexivity.
  - vm_compute. reflexivity.
  - vm_compute. reflexivity.
  - split; [exact H1|exact H2].
Defined.

(** * More of the script *)

(** ** The graph as built *)

(** X1.  The graph that [CreateDirectedMultiGraph] builds lists no node
    and no successor twice, numbers the parallel edges of every pair of
    nodes 0, 1, ... so that the edge of key 0 is there, and starts every
    load at 0. *)
Theorem built_graph_invariants (fcStreets : list StreetRow) :
  graph_wf (CreateDirectedMultiGraph fcStreets) /\
  keys_from_zero (CreateDirectedMultiGraph fcStreets) /\
  (forall u v data, get_edge_data (CreateDirectedMultiGraph fcStreets) u v = Some data ->
     is_Some (odict_get Nat.eqb O data)) /\
  Forall (fun e => total (snd e) = 0%Q) (edges (CreateDirectedMultiGraph fcStreets)).
Proof.
  split; [apply CreateDirectedMultiGraph_wf|].
  split; [apply CreateDirectedMultiGraph_keys|]. split.
  - intros u v data. apply keys_from_zero_first, CreateDirectedMultiGraph_keys.
  - pose proof (edges_fold_add_street fcStreets []) as Hperm. simpl in Hperm.
    fold (CreateDirectedMultiGraph fcStreets) in Hperm.
    assert (Hspec : Forall (fun t : Node * Node * EdgeData => total (snd t) = 0%Q)
                           (flat_map spec_segment_edges fcStreets)).
    { apply Forall_forall. intros t Ht.
      apply list_elem_of_In, in_flat_map in Ht as (row & _ & Ht).
      unfold spec_segment_edges in Ht.
      destruct (FR_TPOINT row), (TO_TPOINT row); try (destruct Ht).
      destruct (CAR_FLOW row =? 2)%Z; [|destruct (CAR_FLOW row =? 1)%Z];
        simpl in Ht; intuition (subst; reflexivity). }
    rewrite <- Hperm in Hspec. rewrite Forall_forall in Hspec.
    apply Forall_forall. intros e He.
    apply (Hspec (edge_triple e)). apply list_elem_of_fmap. exists e. auto.
Qed.

(** ** Only the loads change *)

Lemma odict_rel_get {K V : Type} (eqb : K -> K -> bool) (R : V -> V -> Prop) (k : K)
    (d d' : list (K * V)) :
  odict_rel R d d' ->
  match odict_get eqb k d, odict_get eqb k d' with
  | Some v, Some v' => R v v'
  | None, None => True
  | _, _ => False
  end.
Proof.
  unfold odict_rel. induction 1 as [|[k1 v1] [k2 v2] d d' [Hk Hv] _ IH]; simpl; [exact I|].
  simpl in Hk. subst k2. destruct (eqb k k1); [exact Hv|exact IH].
Qed.

Lemma same_edge_refl (d : EdgeData) : same_edge d d.
Proof. split; reflexivity. Qed.

Lemma same_edge_trans (d1 d2 d3 : EdgeData) :
  same_edge d1 d2 -> same_edge d2 d3 -> same_edge d1 d3.
Proof. intros [? ?] [? ?]. split; congruence. Qed.

Lemma same_shape_refl (G : MultiDiGraph) : same_shape G G.
Proof.
  apply odict_rel_refl. intros adj. apply odict_rel_refl. intros kd.
  apply odict_rel_refl, same_edge_refl.
Qed.

Lemma same_shape_trans (G1 G2 G3 : MultiDiGraph) :
  same_shape G1 G2 -> same_shape G2 G3 -> same_shape G1 G3.
Proof.
  apply odict_rel_trans. intros a1 a2 a3. apply odict_rel_trans. intros k1 k2 k3.
  apply odict_rel_trans, same_edge_trans.
Qed.

Lemma add_total_same_shape (G G' : MultiDiGraph) (u v : Node) (x : Q) :
  add_total G u v x = Ok G' -> same_shape G G'.
Proof.
  intros H. apply add_total_Ok in H as (adj & kd & d & Hu & Hv & Hk & ->).
  eapply odict_set_rel; [| apply Zeqb_true_eq | exact Hu |].
  { intros adj'. apply odict_rel_refl. intros kd'. apply odict_rel_refl, same_edge_refl. }
  eapply odict_set_rel; [| apply Zeqb_true_eq | exact Hv |].
  { intros kd'. apply odict_rel_refl, same_edge_refl. }
  eapply odict_set_rel; [apply same_edge_refl | | exact Hk |].
  { intros k' E. symmetry. apply Nat.eqb_eq in E. symmetry. exact E. }
  split; reflexivity.
Qed.

Lemma accumulates_same_shape (P : Q -> Prop) (G G' : MultiDiGraph) :
  accumulates P G G' -> same_shape G G'.
Proof.
  induction 1 as [|G u v x G1 G2 _ Hadd _ IH]; [apply same_shape_refl|].
  eapply same_shape_trans; [|exact IH]. eapply add_total_same_shape, Hadd.
Qed.

Lemma same_shape_edges (G G' : MultiDiGraph) :
  same_shape G G' ->
  map fst G = map fst G' /\ map edge_shape (edges G) = map edge_shape (edges G').
Proof.
  unfold same_shape, odict_rel.
  induction 1 as [|[u adj] [u' adj'] G G' [Hu Hadj] _ [IHn IHe]]; [split; reflexivity|].
  simpl in Hu, Hadj. subst u'. split; [simpl; f_equal; exact IHn|].
  unfold edges. rewrite !flat_map_cons_eq, !map_app. fold (edges G) (edges G').
  rewrite IHe. f_equal. simpl. clear -Hadj.
  induction Hadj as [|[v kd] [v' kd'] adj adj' [Hv Hkd] _ IH]; [reflexivity|].
  simpl in Hv, Hkd. subst v'. unfold adj_edges. rewrite !flat_map_cons_eq, !map_app.
  fold (adj_edges u adj) (adj_edges u adj'). rewrite IH. f_equal. simpl. clear -Hkd.
  induction Hkd as [|[k d] [k' d'] kd kd' [Hk [Hl Hc]] _ IH]; [reflexivity|].
  simpl in Hk, Hl, Hc. subst k'. simpl. rewrite IH. unfold edge_shape at 1 3. simpl.
  rewrite Hl, Hc. reflexivity.
Qed.

(** X2.  A completed run changes nothing but loads: the graph it returns
    has the nodes of the graph that was built, in the same order, and the
    same edges with the same keys, link ids and costs. *)
Theorem run_keeps_topology
    (shortest_path : MultiDiGraph -> Node -> Node -> result (list Node))
    (fcStreets : list StreetRow) (fcRoutes : list (Z * Z)) (csvMetroQuery : list MetroRow)
    (G : MultiDiGraph) (lstBadData lstMissingLink : list (Z * Direction)) :
  RidershipAlgorithm shortest_path fcStreets fcRoutes csvMetroQuery
    = Ok (G, lstBadData, lstMissingLink) ->
  map fst G = map fst (CreateDirectedMultiGraph fcStreets) /\
  map edge_shape (edges G) = map edge_shape (edges (CreateDirectedMultiGraph fcStreets)).
Proof.
  intros H. apply RidershipAlgorithm_accumulates, accumulates_same_shape in H.
  apply same_shape_edges in H as [Hn He]. split; congruence.
Qed.

Lemma run_keeps_topology_witness :
  exists G,
    RidershipAlgorithm nx_shortest_path shared_streets shared_routes shared_query
      = Ok (G, [], []) /\
    map fst G = map fst (CreateDirectedMultiGraph shared_streets) /\
    map edge_shape (edges G) = map edge_shape (edges (CreateDirectedMultiGraph shared_streets)).
Proof.
  eexists. split; [vm_compute; reflexivity|].
  apply (run_keeps_topology nx_shortest_path shared_streets shared_routes shared_query
           _ [] []).
  vm_compute. reflexivity.
Defined.

(** ** Resolved links are links of the graph *)

Lemma mapM_result_Ok {A B : Type} (f : A -> result B) (l : list A) (k : list B) :
  mapM f l = Ok k -> Forall2 (fun x y => f x = Ok y) l k.
Proof.
  revert k. induction l as [|x l IH]; intros k H; simpl in H.
  - injection H as <-. constructor.
  - apply result_bind_Ok in H as (y & Hy & H).
    apply result_bind_Ok in H as (k' & Hk' & H). injection H as <-.
    constructor; [exact Hy|apply IH, Hk'].
Qed.

Lemma pair_tlink_Ok (G : MultiDiGraph) (dictRouteLinks : list Z) (p : Node * Node)
    (tlink : Z) :
  pair_tlink G dictRouteLinks p = Ok tlink ->
  exists data kd,
    get_edge_data G (fst p) (snd p) = Some data /\ kd ∈ data /\ link (snd kd) = tlink.
Proof.
  unfold pair_tlink. intros H.
  apply result_bind_Ok in H as (data & Hdata & H). apply of_option_Ok in Hdata.
  cbv beta zeta in H. exists data.
  pose proof (route_tlink_fold dictRouteLinks data 0%Z) as Hroute.
  fold (route_tlink dictRouteLinks data) in Hroute. simpl in Hroute.
  destruct (Z.eqb_spec (route_tlink dictRouteLinks data) 0) as [Hz|Hnz].
  - apply result_bind_Ok in H as (d0 & Hd0 & H). apply of_option_Ok in Hd0.
    injection H as <-.
    destruct (cheapest_tlink_fold data (cost d0) (route_tlink dictRouteLinks data))
      as (_ & _ & [[_ Hno]|(kd & Hkd & _ & Hl)]).
    + exfalso. apply odict_get_elem_of in Hd0 as (k0 & Hin0 & _).
      apply (Hno _ Hin0), Qle_refl.
    + exists kd. auto.
  - injection H as <-. destruct Hroute as [[Ht _]|[_ (kd & Hkd & Hl)]]; [congruence|].
    exists kd. auto.
Qed.

Lemma length_consecutive_pairs {A : Type} (path : list A) :
  length (combine (removelast path) (tail path)) = (length path - 1)%nat.
Proof.
  rewrite length_combine.
  assert (H1 : length (removelast path) = (length path - 1)%nat).
  { induction path as [|x [|y path] IH]; simpl in *; lia. }
  assert (H2 : length (tail path) = (length path - 1)%nat).
  { destruct path; simpl; lia. }
  lia.
Qed.

(** X3.  When [GetTLINK] returns, it returns one link id per pair of
    consecutive nodes of the path, and each of them is the link id of an
    edge of the graph that joins the pair: no link id is made up, whatever
    the route's link list is. *)
Theorem GetTLINK_links_of_edges (G : MultiDiGraph) (path : list Node)
    (dictRouteLinks tlinks : list Z) :
  GetTLINK G path dictRouteLinks = Ok tlinks ->
  length tlinks = (length path - 1)%nat /\
  Forall2 (fun (p : Node * Node) (tlink : Z) =>
             exists data kd, get_edge_data G (fst p) (snd p) = Some data /\
                             kd ∈ data /\ link (snd kd) = tlink)
          (combine (removelast path) (tail path)) tlinks.
Proof.
  unfold GetTLINK. intros H. apply mapM_result_Ok in H.
  split.
  - rewrite <- (Forall2_length _ _ _ H). apply length_consecutive_pairs.
  - eapply Forall2_impl; [exact H|]. intros p t. apply pair_tlink_Ok.
Qed.

Lemma GetTLINK_links_of_edges_witness :
  let G := CreateDirectedMultiGraph path_streets in
  GetTLINK G [1; 2; 3]%Z [101%Z] = Ok [101; 102]%Z /\
  length [101; 102]%Z = (length [1; 2; 3]%Z - 1)%nat /\
  Forall2 (fun (p : Node * Node) (tlink : Z) =>
             exists data kd, get_edge_data G (fst p) (snd p) = Some data /\
                             kd ∈ data /\ link (snd kd) = tlink)
          (combine (removelast [1; 2; 3]%Z) (tail [1; 2; 3]%Z)) [101; 102]%Z.
Proof.
  intros G.
  assert (H : GetTLINK G [1; 2; 3]%Z [101%Z] = Ok [101; 102]%Z) by reflexivity.
  split; [exact H|]. exact (GetTLINK_links_of_edges G _ _ _ H).
Defined.

(** ** A path that is not found *)

(** X4.  A stop pair whose nodes are found but whose path is not is not
    skipped when [tlinks] is bound: the pair is apportioned along the
    links left in [tlinks] by the stop pair before it, rewritten for the
    source and target links of this pair. *)
Theorem no_path_reuses_tlinks
    (shortest_path : MultiDiGraph -> Node -> Node -> result (list Node))
    (dictAllNodes : NodeDict) (subgraph : MultiDiGraph) (dictRouteLinks : list Z) (r : Z)
    (dir : Direction) (dictStops : StopDict) (lstStops : list Q) (total_on total_off : Z)
    (i : nat) (s s' : Q) (eSource eTarget : option Z) (ons offs ons' offs' : Z)
    (source target : Node * Node) (tlinks : list (option Z)) (st : State) :
  odict_get Qeq_bool s dictStops = Some (eSource, ons, offs) ->
  lstStops !! (i + 1)%nat = Some s' ->
  odict_get Qeq_bool s' dictStops = Some (eTarget, ons', offs') ->
  node_tuple (st_dictRouteNodes st) eSource = Some source ->
  node_tuple (st_dictRouteNodes st) eTarget = Some target ->
  shortest_path subgraph (fst source) (fst target) = Raise NetworkXNoPath ->
  st_tlinks st = Some tlinks ->
  stop_pair shortest_path dictAllNodes subgraph dictRouteLinks r dir dictStops lstStops
            total_on total_off (i, s) st
  = (st' ← apportion dictAllNodes r dir total_on total_off i eSource eTarget ons offs st;
     Ok (st', false)) /\
  forall st' stop,
    stop_pair shortest_path dictAllNodes subgraph dictRouteLinks r dir dictStops lstStops
              total_on total_off (i, s) st = Ok (st', stop) ->
    stop = false /\ st_tlinks st' = Some (normalised eSource eTarget tlinks).
Proof.
  intros Hs Hs' Ht Hsrc Htgt Hpath Hbound.
  assert (Heq : stop_pair shortest_path dictAllNodes subgraph dictRouteLinks r dir dictStops
                  lstStops total_on total_off (i, s) st
                = (st' ← apportion dictAllNodes r dir total_on total_off i eSource eTarget
                           ons offs st; Ok (st', false))).
  { unfold stop_pair. rewrite Hs. simpl. rewrite Hs'. simpl. rewrite Ht. simpl.
    unfold locate. rewrite Hsrc, Htgt. simpl.
    unfold find_tlinks. rewrite Hpath. reflexivity. }
  split; [exact Heq|]. intros st' stop H. rewrite Heq in H.
  bind_inv H st2 Happ. injection H as <- <-. split; [reflexivity|].
  unfold apportion in Happ. rewrite Hbound in Happ. simpl in Happ.
  bind_inv Happ adjusted Hadj. bind_inv Happ src Hs2. bind_inv Happ G1 HG1.
  unfold normalised.
  destruct (Qlt_bool _ _); bind_inv Happ G2 HG2; injection Happ as <-; reflexivity.
Qed.

Lemma no_path_reuses_tlinks_witness :
  let G := CreateDirectedMultiGraph path_streets in
  let subgraph : MultiDiGraph := [(1%Z, [(2%Z, [(0%nat, mkEdge 101 1 0)])]); (2%Z, [])] in
  let dictStops := default [] (dir_get inbound (fst (RouteDataLookup detour_query)) !! 7%Z) in
  let lstStops := sorted (map fst dictStops) in
  exists dictAllNodes st1 st2,
    NodeLookup G = Ok dictAllNodes /\
    stop_pair nx_shortest_path dictAllNodes subgraph [101%Z] 7 inbound dictStops lstStops
              10 10 (0%nat, 1%Q)
              (mkState G {[101%Z := (1, 2)%Z]} None 0 [] []) = Ok (st1, false) /\
    st_tlinks st1 = Some [Some 101%Z] /\
    nx_shortest_path subgraph 2%Z 1%Z = Raise NetworkXNoPath /\
    stop_pair nx_shortest_path dictAllNodes subgraph [101%Z] 7 inbound dictStops lstStops
              10 10 (1%nat, 2%Q) st1 = Ok (st2, false) /\
    st_tlinks st2 = Some (normalised (Some 102%Z) (Some 101%Z) [Some 101%Z]).
Proof.
  intros G subgraph dictStops lstStops.
  eexists _, _, _.
  split; [vm_compute; reflexivity|].
  split; [vm_compute; reflexivity|].
  split; [vm_compute; reflexivity|].
  split; [vm_compute; reflexivity|].
  match goal with
  | |- stop_pair _ ?an _ _ _ _ _ _ _ _ _ ?st1 = Ok (?st2, false) /\ _ =>
      assert (Hrun : stop_pair nx_shortest_path an subgraph [101%Z] 7 inbound dictStops
                       lstStops 10 10 (1%nat, 2%Q) st1 = Ok (st2, false))
        by (vm_compute; reflexivity);
      destruct (no_path_reuses_tlinks nx_shortest_path an subgraph [101%Z] 7 inbound
                  dictStops lstStops 10 10 1%nat 2%Q 3%Q (Some 102%Z) (Some 101%Z)
                  0 10 0 0 (2, 3)%Z (1, 2)%Z [Some 101%Z] st1) as [_ Hreuse]
  end.
  - vm_compute. reflexivity.
  - vm_compute. reflexivity.
  - vm_compute. reflexivity.
  - vm_compute. reflexivity.
  - vm_compute. reflexivity.
  - vm_compute. reflexivity.
  - vm_compute. reflexivity.
  - split; [exact Hrun|]. exact (proj2 (Hreuse _ _ Hrun)).
Defined.

(** ** The lookup tables *)

Lemma odict_get_set {K V : Type} (eqb : K -> K -> bool) (k k' : K) (v : V)
    (d : list (K * V)) :
  (forall a b, eqb a b = eqb b a) ->
  (forall a b c, eqb a b = true -> eqb b c = true -> eqb a c = true) ->
  odict_get eqb k (odict_set eqb k' v d) = if eqb k k' then Some v else odict_get eqb k d.
Proof.
  intros Hsym Htrans. induction d as [|[k1 v1] d IH]; simpl; [reflexivity|].
  destruct (eqb k' k1) eqn:E1; simpl.
  - destruct (eqb k k') eqn:E; [reflexivity|].
    destruct (eqb k k1) eqn:E2; [|reflexivity].
    rewrite Hsym in E1. rewrite (Htrans k k1 k' E2 E1) in E. discriminate.
  - rewrite IH. destruct (eqb k k1) eqn:E2; [|reflexivity].
    destruct (eqb k k') eqn:E; [|reflexivity].
    rewrite Hsym in E. rewrite (Htrans k' k k1 E E2) in E1. discriminate.
Qed.

Lemma Zeqb_sym (a b : Z) : (a =? b)%Z = (b =? a)%Z.
Proof. apply Z.eqb_sym. Qed.

Lemma Zeqb_trans (a b c : Z) : (a =? b)%Z = true -> (b =? c)%Z = true -> (a =? c)%Z = true.
Proof. rewrite !Z.eqb_eq. congruence. Qed.

Lemma Qeq_bool_symm (a b : Q) : Qeq_bool a b = Qeq_bool b a.
Proof.
  destruct (Qeq_bool a b) eqn:E1, (Qeq_bool b a) eqn:E2; try reflexivity.
  - apply Qeq_bool_iff in E1. symmetry in E1. apply Qeq_bool_iff in E1. congruence.
  - apply Qeq_bool_iff in E2. symmetry in E2. apply Qeq_bool_iff in E2. congruence.
Qed.

Lemma Qeq_bool_transitive (a b c : Q) :
  Qeq_bool a b = true -> Qeq_bool b c = true -> Qeq_bool a c = true.
Proof. rewrite !Qeq_bool_iff. intros H1 H2. rewrite H1. exact H2. Qed.

Lemma SubgraphDataLookup_snoc (fcRoutes : list (Z * Z)) (route tlink : Z) :
  SubgraphDataLookup (fcRoutes ++ [(route, tlink)]) =
  odict_set Z.eqb route
    (default [] (odict_get Z.eqb route (SubgraphDataLookup fcRoutes)) ++ [tlink])
    (SubgraphDataLookup fcRoutes).
Proof. unfold SubgraphDataLookup. rewrite fold_left_app. reflexivity. Qed.

Lemma route_rows_snoc (r route tlink : Z) (fcRoutes : list (Z * Z)) :
  route_rows r (fcRoutes ++ [(route, tlink)]) =
  if (route =? r)%Z then route_rows r fcRoutes ++ [tlink] else route_rows r fcRoutes.
Proof.
  unfold route_rows. rewrite filter_app, map_app, filter_cons, filter_nil.
  destruct (decide _) as [H|H]; cbn [fst] in H; destruct (route =? r)%Z;
    try (destruct H; fail); try (exfalso; apply H; exact I; fail).
  - reflexivity.
  - simpl. apply app_nil_r.
Qed.

(** X7.  [SubgraphDataLookup] gives every route number that occurs in the
    rows one entry, with the link ids of its rows in row order, repeated
    ones included; a route number without rows has no entry, and no route
    number has two. *)
Theorem SubgraphDataLookup_collects (fcRoutes : list (Z * Z)) :
  NoDup (map fst (SubgraphDataLookup fcRoutes)) /\
  forall r,
    odict_get Z.eqb r (SubgraphDataLookup fcRoutes) =
    match route_rows r fcRoutes with
    | [] => None
    | tlinks => Some tlinks
    end.
Proof.
  induction fcRoutes as [|[route tlink] fcRoutes [IHn IHg]] using rev_ind.
  - split; [constructor|]. intros r. reflexivity.
  - rewrite SubgraphDataLookup_snoc. split; [apply odict_set_NoDup, IHn|].
    intros r. rewrite (odict_get_set Z.eqb _ _ _ _ Zeqb_sym Zeqb_trans), route_rows_snoc.
    rewrite (Z.eqb_sym r route). destruct (Z.eqb_spec route r) as [->|_].
    + rewrite IHg. destruct (route_rows r fcRoutes); reflexivity.
    + apply IHg.
Qed.

Lemma RouteDataLookup_snoc (csvMetroQuery : list MetroRow) (row : MetroRow) :
  RouteDataLookup (csvMetroQuery ++ [row]) = add_metro (RouteDataLookup csvMetroQuery) row.
Proof. unfold RouteDataLookup. rewrite fold_left_app. reflexivity. Qed.

Lemma rows_of_snoc (dir : Direction) (r : Z) (csvMetroQuery : list MetroRow)
    (row : MetroRow) :
  rows_of dir r (csvMetroQuery ++ [row]) =
  if bool_decide (m_dir row = dir) && (m_route row =? r)%Z
  then rows_of dir r csvMetroQuery ++ [row] else rows_of dir r csvMetroQuery.
Proof.
  unfold rows_of. rewrite filter_app, filter_cons, filter_nil.
  destruct (decide _) as [H|H];
    destruct (bool_decide (m_dir row = dir) && (m_route row =? r)%Z);
    try (destruct H; fail); try (exfalso; apply H; exact I; fail).
  - reflexivity.
  - apply app_nil_r.
Qed.

Lemma Zsum_snoc (l : list Z) (x : Z) : Zsum (l ++ [x]) = (Zsum l + x)%Z.
Proof. induction l as [|y l IH]; simpl; [lia|]. rewrite IH. lia. Qed.

Lemma same_key (row : MetroRow) (dir : Direction) (r : Z) :
  bool_decide (m_dir row = dir) && (m_route row =? r)%Z =
  bool_decide (dir = m_dir row /\ r = m_route row).
Proof.
  destruct (bool_decide_reflect (m_dir row = dir)) as [Hd|Hd];
    destruct (Z.eqb_spec (m_route row) r) as [Hr|Hr]; simpl; symmetry;
    [apply bool_decide_eq_true_2; auto | apply bool_decide_eq_false_2; intros [? ?];
     congruence ..].
Qed.

(** X8.  The totals of a direction and route are the sums of the
    boardings and of the alightings of all its rows, rows with a repeated
    sequence number included; a direction and route without rows has no
    totals (they read as 0). *)
Theorem RouteDataLookup_totals (csvMetroQuery : list MetroRow) (dir : Direction) (r : Z) :
  dir_get dir (snd (RouteDataLookup csvMetroQuery)) !! r =
  match rows_of dir r csvMetroQuery with
  | [] => None
  | rows => Some (Zsum (map m_ons rows), Zsum (map m_offs rows))
  end.
Proof.
  induction csvMetroQuery as [|row rows IH] using rev_ind; [destruct dir; reflexivity|].
  rewrite RouteDataLookup_snoc, rows_of_snoc, same_key.
  destruct (RouteDataLookup rows) as [m t] eqn:E. simpl in IH. unfold add_metro.
  destruct (default (0, 0)%Z (dir_get (m_dir row) t !! m_route row)) as [t_on t_off] eqn:Et.
  cbn [snd]. rewrite dir_get_set.
  destruct (decide (dir = m_dir row)) as [Hd|Hd].
  - destruct (decide (r = m_route row)) as [Hr|Hr].
    + rewrite bool_decide_eq_true_2 by auto. subst dir r.
      rewrite lookup_insert_eq. rewrite IH in Et.
      destruct (rows_of (m_dir row) (m_route row) rows) as [|row0 rows0]; simpl in Et.
      * injection Et as <- <-. simpl. f_equal. f_equal; lia.
      * injection Et as <- <-. change (row0 :: rows0 ++ [row]) with ((row0 :: rows0) ++ [row]).
        destruct ((row0 :: rows0) ++ [row]) eqn:Eapp; [destruct rows0; discriminate|].
        rewrite <- Eapp, !map_app.
        change (map m_ons [row]) with [m_ons row]. change (map m_offs [row]) with [m_offs row].
        rewrite !Zsum_snoc. reflexivity.
    + rewrite bool_decide_eq_false_2 by (intros [_ ?]; congruence).
      rewrite lookup_insert_ne by congruence. subst dir. exact IH.
  - rewrite bool_decide_eq_false_2 by (intros [? _]; congruence). exact IH.
Qed.

Lemma last_where_snoc {A : Type} (p : A -> bool) (l : list A) (x : A) :
  last_where p (l ++ [x]) = if p x then Some x else last_where p l.
Proof.
  induction l as [|y l IH]; simpl; [reflexivity|].
  rewrite IH. destruct (p x); [reflexivity|]. reflexivity.
Qed.

(** X9.  The stop that the loader keeps under a sequence number is the
    last row of the direction and route with this sequence number: a
    later row with a sequence number that was met before replaces the
    stop, and a sequence number that no row has is not a key. *)
Theorem RouteDataLookup_stops (csvMetroQuery : list MetroRow) (dir : Direction) (r : Z)
    (s : Q) :
  odict_get Qeq_bool s
    (default [] (dir_get dir (fst (RouteDataLookup csvMetroQuery)) !! r)) =
  (fun row => (m_tlink row, m_ons row, m_offs row)) <$>
    last_where (fun row => Qeq_bool s (m_seq row)) (rows_of dir r csvMetroQuery).
Proof.
  induction csvMetroQuery as [|row rows IH] using rev_ind; [destruct dir; reflexivity|].
  rewrite RouteDataLookup_snoc, rows_of_snoc, same_key.
  destruct (RouteDataLookup rows) as [m t] eqn:E. simpl in IH. unfold add_metro.
  destruct (default (0, 0)%Z (dir_get (m_dir row) t !! m_route row)) as [t_on t_off].
  cbn [fst]. rewrite dir_get_set.
  destruct (decide (dir = m_dir row)) as [Hd|Hd].
  - destruct (decide (r = m_route row)) as [Hr|Hr].
    + rewrite bool_decide_eq_true_2 by auto. subst dir r.
      rewrite lookup_insert_eq. simpl.
      rewrite (odict_get_set Qeq_bool _ _ _ _ Qeq_bool_symm Qeq_bool_transitive).
      rewrite last_where_snoc. destruct (Qeq_bool s (m_seq row)); [reflexivity|].
      exact IH.
    + rewrite bool_decide_eq_false_2 by (intros [_ ?]; congruence).
      rewrite lookup_insert_ne by congruence. subst dir. exact IH.
  - rewrite bool_decide_eq_false_2 by (intros [? _]; congruence). exact IH.
Qed.

Lemma last_where_app {A : Type} (p : A -> bool) (a b : list A) :
  last_where p (a ++ b) =
  match last_where p b with
  | Some y => Some y
  | None => last_where p a
  end.
Proof.
  induction a as [|x a IH]; simpl.
  - destruct (last_where p b); reflexivity.
  - rewrite IH. destruct (last_where p b); reflexivity.
Qed.

Lemma last_where_map {A B : Type} (p : B -> bool) (h : A -> B) (l : list A) :
  last_where p (map h l) = h <$> last_where (fun x => p (h x)) l.
Proof.
  induction l as [|x l IH]; simpl; [reflexivity|].
  rewrite IH. destruct (last_where (fun x => p (h x)) l); simpl; [reflexivity|].
  destruct (p (h x)); reflexivity.
Qed.

Lemma last_where_repeat {A B : Type} (p : B -> bool) (block : list B) (b : list A) :
  last_where p (flat_map (fun _ => block) b) =
  match b with [] => None | _ => last_where p block end.
Proof.
  induction b as [|x b IH]; [reflexivity|].
  rewrite flat_map_cons_eq, last_where_app, IH.
  destruct b; [reflexivity|]. destruct (last_where p block); reflexivity.
Qed.

Lemma last_where_blocks {A B : Type} (p : B -> bool) (g : A -> list B) (h : A -> B)
    (blocks : list (list A)) :
  Forall (fun b => Forall (fun e => g e = map h b) b) blocks ->
  last_where p (flat_map g (concat blocks)) = last_where p (map h (concat blocks)).
Proof.
  induction 1 as [|b blocks Hb _ IH]; [reflexivity|].
  simpl. rewrite flat_map_app, map_app, !last_where_app, IH.
  destruct (last_where p (map h (concat blocks))); [reflexivity|].
  assert (Hflat : flat_map g b = flat_map (fun _ => map h b) b).
  { clear -Hb. revert Hb. generalize (map h b) as block.
    induction b as [|x b IH]; intros block Hb; [reflexivity|].
    apply Forall_cons in Hb as [Hx Hb]. rewrite !flat_map_cons_eq, Hx, (IH block Hb).
    reflexivity. }
  rewrite Hflat, last_where_repeat. destruct b; reflexivity.
Qed.

Lemma seen_at_edge_block (G : MultiDiGraph) :
  graph_wf G ->
  Forall (fun b => Forall (fun e => seen_at G e = map edge_triple b) b) (edge_blocks G).
Proof.
  intros Hwf. apply Forall_forall. intros b Hb. apply Forall_forall. intros e He.
  unfold edge_blocks in Hb.
  apply list_elem_of_In, in_flat_map in Hb as ([u adj] & Hu & Hb).
  apply in_map_iff in Hb as ([v kd] & <- & Hv). simpl in *.
  apply list_elem_of_In, in_map_iff in He as ([k d] & <- & _).
  unfold seen_at. simpl.
  rewrite (get_edge_data_wf G u v adj kd Hwf); [|apply list_elem_of_In; assumption..].
  simpl. rewrite !map_map. reflexivity.
Qed.

(** Writing [d[link] = (u, v)] for a list of visited edges, under a test
    on the link, leaves for every link that passes the test the pair of
    the last visited edge that carries it. *)
Lemma index_fold_lookup (keep : Z -> bool) (visited : list (Node * Node * EdgeData))
    (acc : NodeDict) (l : Z) :
  fold_left (fun (acc : NodeDict) (e : Node * Node * EdgeData) =>
               let '(u, v, d) := e in
               if keep (link d) then <[link d := (u, v)]> acc else acc) visited acc !! l =
  match last_where (fun e : Node * Node * EdgeData => (link (snd e) =? l)%Z) visited with
  | Some e => if keep l then Some (fst e) else acc !! l
  | None => acc !! l
  end.
Proof.
  revert acc. induction visited as [|[[u v] d] visited IH]; intros acc; simpl; [reflexivity|].
  rewrite IH.
  destruct (last_where (fun e : Node * Node * EdgeData => (link (snd e) =? l)%Z) visited)
    as [e|].
  - destruct (keep l) eqn:Hl; [reflexivity|].
    destruct (keep (link d)) eqn:Hd; [|reflexivity].
    apply lookup_insert_ne. intros Heq. rewrite Heq in Hd. congruence.
  - simpl. destruct (Z.eqb_spec (link d) l) as [<-|Hne].
    + destruct (keep (link d)); [apply lookup_insert_eq|reflexivity].
    + destruct (keep (link d)); [apply lookup_insert_ne; assumption|reflexivity].
Qed.

Lemma last_where_scan (G : MultiDiGraph) (l : Z) :
  graph_wf G ->
  fst <$> last_where (fun e : Node * Node * EdgeData => (link (snd e) =? l)%Z)
            (flat_map (seen_at G) (edges G)) =
  endpoints <$> last_where (fun e => (link (snd e) =? l)%Z) (edges G).
Proof.
  intros Hwf. rewrite <- (concat_edge_blocks G).
  rewrite (last_where_blocks _ (seen_at G) edge_triple (edge_blocks G)
             (seen_at_edge_block G Hwf)).
  rewrite last_where_map.
  destruct (last_where _ (concat (edge_blocks G))); reflexivity.
Qed.

Lemma NodeLookup_of_wf_graph (G : MultiDiGraph) :
  graph_wf G ->
  exists dictAllNodes, NodeLookup G = Ok dictAllNodes /\
    forall l, dictAllNodes !! l =
      endpoints <$> last_where (fun e => (link (snd e) =? l)%Z) (edges G).
Proof.
  intros Hwf. unfold NodeLookup. rewrite (edge_data_scan_wf G Hwf). simpl.
  eexists. split; [reflexivity|]. intros l.
  rewrite <- (last_where_scan G l Hwf).
  rewrite (index_fold_lookup (fun _ => true)), lookup_empty.
  destruct (last_where _ (flat_map (seen_at G) (edges G))); reflexivity.
Qed.

(** X10.  On a graph that lists no node and no successor twice,
    [NodeLookup] does not fail, and its index maps a link id to the pair
    of nodes of the last edge, in the order of [G.edges()], that carries
    the link; a link id that no edge carries is not a key. *)
Theorem NodeLookup_last_edge (G : MultiDiGraph) :
  graph_wf G ->
  exists dictAllNodes, NodeLookup G = Ok dictAllNodes /\
    forall l, dictAllNodes !! l =
      endpoints <$> last_where (fun e => (link (snd e) =? l)%Z) (edges G).
Proof.
  intros Hwf. unfold NodeLookup. rewrite (edge_data_scan_wf G Hwf). simpl.
  eexists. split; [reflexivity|]. intros l.
  rewrite <- (last_where_scan G l Hwf).
  rewrite (index_fold_lookup (fun _ => true)), lookup_empty.
  destruct (last_where _ (flat_map (seen_at G) (edges G))); reflexivity.
Qed.

Lemma NodeLookup_last_edge_witness :
  graph_wf (CreateDirectedMultiGraph shared_streets) /\
  exists dictAllNodes,
    NodeLookup (CreateDirectedMultiGraph shared_streets) = Ok dictAllNodes /\
    dictAllNodes !! 5%Z = Some (2, 1)%Z /\ dictAllNodes !! 6%Z = Some (1, 2)%Z /\
    dictAllNodes !! 7%Z = None.
Proof.
  assert (Hwf : graph_wf (CreateDirectedMultiGraph shared_streets))
    by (apply CreateDirectedMultiGraph_wf).
  split; [exact Hwf|].
  destruct (NodeLookup_last_edge _ Hwf) as (d & Hd & Hl).
  exists d. split; [exact Hd|]. rewrite !Hl. vm_compute. auto.
Defined.

(** X11.  The index that [CreateSubgraph] returns for a route is the
    index of the whole graph cut down to the links of the route: a link
    of the route has the pair that [NodeLookup] gives it, any other link
    is not a key.  The links of a route without rows are the empty
    list. *)
Theorem CreateSubgraph_index_restricts (G : MultiDiGraph) (r : Z)
    (dictRouteSegments : list (Z * list Z)) (dictRouteLinks : list Z)
    (dictRouteNodes : NodeDict) (subgraph : MultiDiGraph) :
  CreateSubgraph G r dictRouteSegments = Ok (dictRouteLinks, dictRouteNodes, subgraph) ->
  dictRouteLinks = default [] (odict_get Z.eqb r dictRouteSegments) /\
  exists dictAllNodes, NodeLookup G = Ok dictAllNodes /\
    forall l, dictRouteNodes !! l =
      if bool_decide (l ∈ dictRouteLinks) then dictAllNodes !! l else None.
Proof.
  unfold CreateSubgraph, CreateSubgraph_with. intros H.
  apply or_exit_Ok in H. bind_inv H visited Hv. bind_inv H H' HH'.
  injection H as <- <- <-. split; [reflexivity|].
  unfold NodeLookup. rewrite Hv. simpl. eexists. split; [reflexivity|]. intros l.
  rewrite (index_fold_lookup (fun _ => true)), lookup_empty.
  pose proof (index_fold_lookup
                (fun k => bool_decide (k ∈ default [] (odict_get Z.eqb r dictRouteSegments)))
                visited ∅ l) as Hroute.
  cbv beta in Hroute. rewrite Hroute, lookup_empty.
  destruct (last_where _ visited); destruct (bool_decide _); reflexivity.
Qed.

Lemma CreateSubgraph_index_restricts_witness :
  exists dictRouteNodes subgraph dictAllNodes,
    CreateSubgraph (CreateDirectedMultiGraph path_streets) 7
                   (SubgraphDataLookup detour_routes)
      = Ok ([101%Z], dictRouteNodes, subgraph) /\
    NodeLookup (CreateDirectedMultiGraph path_streets) = Ok dictAllNodes /\
    dictRouteNodes !! 101%Z = dictAllNodes !! 101%Z /\
    dictAllNodes !! 102%Z = Some (2, 3)%Z /\ dictRouteNodes !! 102%Z = None.
Proof.
  destruct (CreateSubgraph (CreateDirectedMultiGraph path_streets) 7
              (SubgraphDataLookup detour_routes)) as [[[links nodes] H]|e] eqn:E;
    [|vm_compute in E; discriminate].
  destruct (CreateSubgraph_index_restricts _ _ _ _ _ _ E) as (Hlinks & d & Hd & Hl).
  assert (links = [101%Z]) as -> by (rewrite Hlinks; reflexivity).
  exists nodes, H, d. split; [reflexivity|]. split; [exact Hd|].
  rewrite !Hl. simpl. split; [reflexivity|]. split; [|reflexivity].
  vm_compute in Hd. injection Hd as <-. vm_compute. reflexivity.
Defined.

Lemma edges_intro (G : MultiDiGraph) (u v : Node) (k : nat) (d : EdgeData)
    (adj : AdjDict) (kd : KeyDict) :
  (u, adj) ∈ G -> (v, kd) ∈ adj -> (k, d) ∈ kd -> (u, v, k, d) ∈ edges G.
Proof.
  intros Hu Hv Hk. unfold edges, adj_edges.
  apply list_elem_of_In, in_flat_map. exists (u, adj). split; [apply list_elem_of_In, Hu|].
  apply in_flat_map. exists (v, kd). split; [apply list_elem_of_In, Hv|].
  apply in_map_iff. exists (k, d). split; [reflexivity|apply list_elem_of_In, Hk].
Qed.

Lemma elem_of_odict_set {K V : Type} (eqb : K -> K -> bool) (k : K) (v : V)
    (d : list (K * V)) (x : K * V) :
  x ∈ odict_set eqb k v d -> x = (k, v) \/ x ∈ d.
Proof.
  induction d as [|[k' v'] d IH]; simpl.
  - intros H. apply list_elem_of_singleton in H. auto.
  - destruct (eqb k k').
    + intros H. apply elem_of_cons in H as [H|H]; [auto|]. right. apply elem_of_cons. auto.
    + intros H. apply elem_of_cons in H as [H|H].
      * right. apply elem_of_cons. auto.
      * destruct (IH H) as [?|?]; [auto|]. right. apply elem_of_cons. auto.
Qed.

Lemma elem_of_odict_del {K V : Type} (eqb : K -> K -> bool) (k : K) (d : list (K * V))
    (x : K * V) :
  x ∈ odict_del eqb k d -> x ∈ d.
Proof.
  induction d as [|[k' v'] d IH]; simpl; [auto|].
  destruct (eqb k k').
  - intros H. apply elem_of_cons. auto.
  - intros H. apply elem_of_cons in H as [H|H]; apply elem_of_cons; auto.
Qed.

Lemma odict_get_elem (u : Z) {V : Type} (v : V) (d : list (Z * V)) :
  odict_get Z.eqb u d = Some v -> (u, v) ∈ d.
Proof.
  intros H. apply odict_get_elem_of in H as (k' & Hin & Hk).
  apply Zeqb_true_eq in Hk as <-. exact Hin.
Qed.

Lemma pop_at_subseteq (choose : list nat -> nat) (d : KeyDict) (x : nat * EdgeData) :
  x ∈ pop_at choose d -> x ∈ d.
Proof.
  unfold pop_at. intros H. apply elem_of_app in H as [H|H].
  - eapply subseteq_take, H.
  - eapply subseteq_drop, H.
Qed.

Lemma elem_of_edges_subgraph (G : MultiDiGraph) (nbunch : list Node)
    (e : Node * Node * nat * EdgeData) :
  e ∈ edges (subgraph G nbunch) ->
  e ∈ edges G /\ fst (endpoints e) ∈ nbunch /\ snd (endpoints e) ∈ nbunch.
Proof.
  intros He. destruct e as [[[u v] k] d].
  apply elem_of_edges in He as (adj' & kd & Hu & Hv & Hk). simpl in *.
  unfold subgraph in Hu. apply list_elem_of_fmap in Hu as ([u0 adj] & [= -> ->] & Hu).
  apply list_elem_of_filter in Hu as [Hnb Hu]. simpl in *.
  apply list_elem_of_filter in Hv as [Hnbv Hv]. simpl in *.
  apply Is_true_true, bool_decide_eq_true in Hnb.
  apply Is_true_true, bool_decide_eq_true in Hnbv.
  split; [eapply edges_intro; eassumption|]. split; assumption.
Qed.

Section Policy.
Variable pop : KeyDict -> KeyDict.
Hypothesis pop_subseteq : forall (d : KeyDict) (x : nat * EdgeData), x ∈ pop d -> x ∈ d.

Lemma remove_edge_with_edges (H H' : MultiDiGraph) (u v : Node)
    (e : Node * Node * nat * EdgeData) :
  remove_edge_with pop H u v = Ok H' -> e ∈ edges H' -> e ∈ edges H.
Proof.
  unfold remove_edge_with. intros Hr He.
  bind_inv Hr adj Hadj. bind_inv Hr d Hd. injection Hr as <-.
  apply of_option_Ok in Hadj, Hd.
  apply odict_get_elem in Hadj, Hd.
  destruct e as [[[u0 v0] k0] d0].
  apply elem_of_edges in He as (adj0 & kd0 & Hu0 & Hv0 & Hk0). simpl in *.
  apply elem_of_odict_set in Hu0 as [[= -> ->]|Hu0];
    [|eapply edges_intro; eassumption].
  destruct (pop d) as [|x d'] eqn:Epop.
  - apply elem_of_odict_del in Hv0. eapply edges_intro; eassumption.
  - apply elem_of_odict_set in Hv0 as [[= -> ->]|Hv0];
      [|eapply edges_intro; eassumption].
    eapply edges_intro; [eassumption..|]. apply pop_subseteq. rewrite Epop. exact Hk0.
Qed.

Lemma remove_extraneous_with_edges (dictRouteLinks : list Z)
    (es : list (Node * Node * nat * EdgeData)) (H H' : MultiDiGraph)
    (e : Node * Node * nat * EdgeData) :
  remove_extraneous_with pop dictRouteLinks es H = Ok H' -> e ∈ edges H' -> e ∈ edges H.
Proof.
  revert H. induction es as [|[[[u v] k] d] es IH]; intros H; simpl.
  - intros [= <-]. auto.
  - destruct (bool_decide (link d ∈ dictRouteLinks)); [apply IH|].
    intros Hr He. bind_inv Hr H1 HH1.
    eapply remove_edge_with_edges; [eassumption|]. eapply IH; eassumption.
Qed.
End Policy.

Lemma elem_of_lstNodes (dictRouteNodes : NodeDict) (n : Node) :
  n ∈ flat_map (fun kv : Z * (Node * Node) => [fst (snd kv); snd (snd kv)])
        (map_to_list dictRouteNodes) ->
  route_node dictRouteNodes n.
Proof.
  intros H. apply list_elem_of_In, in_flat_map in H as ([l uv] & Hl & Hn).
  apply list_elem_of_In, elem_of_map_to_list in Hl. simpl in Hn.
  exists l, uv. split; [exact Hl|]. destruct Hn as [<-|[<-|[]]]; auto.
Qed.

(** X12.  The subgraph that [CreateSubgraph] returns holds no edge of
    its own: each of its edges is an edge of the graph, with its key and
    its attributes, and joins two nodes that the route's index names as
    ends of links of the route.  This holds whichever edges [popitem]
    takes away. *)
Theorem CreateSubgraph_edges_of_graph (choose : list nat -> nat) (G : MultiDiGraph) (r : Z)
    (dictRouteSegments : list (Z * list Z)) (dictRouteLinks : list Z)
    (dictRouteNodes : NodeDict) (subgraph : MultiDiGraph)
    (e : Node * Node * nat * EdgeData) :
  CreateSubgraph_with (pop_at choose) G r dictRouteSegments
    = Ok (dictRouteLinks, dictRouteNodes, subgraph) ->
  e ∈ edges subgraph ->
  e ∈ edges G /\
  route_node dictRouteNodes (fst (endpoints e)) /\
  route_node dictRouteNodes (snd (endpoints e)).
Proof.
  unfold CreateSubgraph_with. intros H He.
  apply or_exit_Ok in H. bind_inv H visited Hv. bind_inv H H' HH'.
  injection H as <- <- <-.
  eapply remove_extraneous_with_edges in He; [|apply pop_at_subseteq|exact HH'].
  apply elem_of_edges_subgraph in He as (He & Hu & Hv').
  split; [exact He|]. split; apply elem_of_lstNodes; assumption.
Qed.

Lemma CreateSubgraph_edges_of_graph_witness :
  exists dictRouteLinks dictRouteNodes subgraph,
    CreateSubgraph_with (pop_at (fun _ => O)) (CreateDirectedMultiGraph parallel_streets) 7
                        (SubgraphDataLookup parallel_routes)
      = Ok (dictRouteLinks, dictRouteNodes, subgraph) /\
    (1%Z, 2%Z, 1%nat, mkEdge 202 1 0) ∈ edges subgraph /\
    (1%Z, 2%Z, 1%nat, mkEdge 202 1 0) ∈ edges (CreateDirectedMultiGraph parallel_streets) /\
    route_node dictRouteNodes 1%Z /\ route_node dictRouteNodes 2%Z.
Proof.
  destruct (CreateSubgraph_with (pop_at (fun _ => O))
              (CreateDirectedMultiGraph parallel_streets) 7
              (SubgraphDataLookup parallel_routes)) as [[[links nodes] H]|err] eqn:E;
    [|vm_compute in E; discriminate].
  assert (He : (1%Z, 2%Z, 1%nat, mkEdge 202 1 0) ∈ edges H).
  { vm_compute in E. injection E as _ _ <-. vm_compute. apply list_elem_of_here. }
  exists links, nodes, H. split; [reflexivity|]. split; [exact He|].
  exact (CreateSubgraph_edges_of_graph _ _ _ _ _ _ _ _ E He).
Defined.

Lemma odict_get_Z_None {V : Type} (k : Z) (d : list (Z * V)) :
  k ∉ map fst d -> odict_get Z.eqb k d = None.
Proof.
  induction d as [|[k' v] d IH]; simpl; [reflexivity|].
  intros Hk. destruct (Z.eqb_spec k k') as [->|_].
  - exfalso. apply Hk. apply list_elem_of_here.
  - apply IH. intros H. apply Hk. apply list_elem_of_further, H.
Qed.

Lemma odict_get_del_ne {V : Type} (k k' : Z) (d : list (Z * V)) :
  k' <> k -> odict_get Z.eqb k' (odict_del Z.eqb k d) = odict_get Z.eqb k' d.
Proof.
  intros Hne. induction d as [|[k1 v1] d IH]; simpl; [reflexivity|].
  destruct (Z.eqb_spec k k1) as [<-|Hk1].
  - destruct (Z.eqb_spec k' k); [contradiction|reflexivity].
  - simpl. rewrite IH. reflexivity.
Qed.

Lemma odict_get_set_Z {V : Type} (k k' : Z) (v : V) (d : list (Z * V)) :
  odict_get Z.eqb k (odict_set Z.eqb k' v d) =
  if (k =? k')%Z then Some v else odict_get Z.eqb k d.
Proof. apply odict_get_set; [apply Zeqb_sym|apply Zeqb_trans]. Qed.

Lemma pop_at_length (choose : list nat -> nat) (d : KeyDict) :
  picks_a_key choose -> d <> [] -> length (pop_at choose d) = pred (length d).
Proof.
  intros Hc Hd. unfold pop_at.
  assert (Hi : (choose (map fst d) < length d)%nat).
  { rewrite <- (length_map fst d). apply Hc. destruct d; [contradiction|discriminate]. }
  rewrite length_app, length_take, length_drop. lia.
Qed.

Lemma subgraph_wf (G : MultiDiGraph) (nbunch : list Node) :
  graph_wf G -> graph_wf (subgraph G nbunch).
Proof.
  intros [Hnodes Hadj]. unfold subgraph. split.
  - rewrite map_map. simpl.
    eapply sublist_NoDup; [exact Hnodes|].
    apply (fmap_sublist fst), sublist_filter.
  - apply Forall_forall. intros [u adj'] Hu.
    apply list_elem_of_fmap in Hu as ([u0 adj] & [= -> ->] & Hu).
    apply list_elem_of_filter in Hu as [_ Hu]. simpl.
    rewrite Forall_forall in Hadj. specialize (Hadj _ Hu). simpl in Hadj.
    eapply sublist_NoDup; [exact Hadj|].
    apply (fmap_sublist fst), sublist_filter.
Qed.

Lemma extraneous_between_app (dictRouteLinks : list Z) (u v : Node)
    (a b : list (Node * Node * nat * EdgeData)) :
  extraneous_between dictRouteLinks u v (a ++ b) =
  extraneous_between dictRouteLinks u v a ++ extraneous_between dictRouteLinks u v b.
Proof. apply List.filter_app. Qed.

Lemma extraneous_between_block (dictRouteLinks : list Z) (u v u' v' : Node) (kd : KeyDict) :
  (length (extraneous_between dictRouteLinks u v
             (map (fun x : nat * EdgeData => (u', v', fst x, snd x)) kd))
   <= if (u' =? u)%Z && (v' =? v)%Z then length kd else 0)%nat.
Proof.
  unfold extraneous_between. induction kd as [|x kd IH]; simpl.
  - destruct ((u' =? u)%Z && (v' =? v)%Z); lia.
  - destruct ((u' =? u)%Z && (v' =? v)%Z); simpl in *.
    + destruct (negb _); simpl; lia.
    + exact IH.
Qed.

Lemma extraneous_between_adj (dictRouteLinks : list Z) (u v u' : Node) (adj : AdjDict) :
  NoDup (map fst adj) ->
  (length (extraneous_between dictRouteLinks u v (adj_edges u' adj))
   <= if (u' =? u)%Z then length (default [] (odict_get Z.eqb v adj)) else 0)%nat.
Proof.
  induction adj as [|[v1 kd1] adj IH]; intros Hnd.
  - simpl. destruct (u' =? u)%Z; lia.
  - apply NoDup_cons in Hnd as [Hv1 Hnd]. specialize (IH Hnd).
    unfold adj_edges in *. rewrite flat_map_cons_eq, extraneous_between_app, length_app.
    pose proof (extraneous_between_block dictRouteLinks u v u' v1 kd1) as Hb.
    cbn [fst snd] in *. simpl odict_get.
    destruct (Z.eqb_spec u' u) as [->|Hu]; simpl in *; [|lia].
    destruct (Z.eqb_spec v v1) as [->|Hv].
    + rewrite Z.eqb_refl in Hb. rewrite (odict_get_Z_None v1 adj Hv1) in IH.
      simpl in *. lia.
    + destruct (Z.eqb_spec v1 v) as [->|_]; [contradiction|]. lia.
Qed.

Lemma edges_covered (dictRouteLinks : list Z) (G : MultiDiGraph) :
  graph_wf G -> covered dictRouteLinks (edges G) G.
Proof.
  intros Hwf u v. unfold multiplicity, get_edge_data.
  induction G as [|[u1 adj1] G IH].
  - simpl. lia.
  - destruct Hwf as [Hnodes Hadj]. simpl in Hnodes.
    apply NoDup_cons in Hnodes as [Hu1 Hnodes]. apply Forall_cons in Hadj as [Hadj1 Hadj].
    specialize (IH (conj Hnodes Hadj)).
    unfold edges in *. rewrite flat_map_cons_eq, extraneous_between_app, length_app.
    pose proof (extraneous_between_adj dictRouteLinks u v u1 adj1 Hadj1) as Hb.
    cbn [fst snd] in *. simpl odict_get.
    destruct (Z.eqb_spec u u1) as [->|Hu].
    + rewrite Z.eqb_refl in Hb. rewrite (odict_get_Z_None u1 G Hu1) in IH.
      simpl in *. lia.
    + destruct (Z.eqb_spec u1 u) as [->|_]; [contradiction|]. lia.
Qed.

Section Completion.
Variable pop : KeyDict -> KeyDict.
Hypothesis pop_length : forall d : KeyDict, d <> [] -> length (pop d) = pred (length d).

Lemma remove_edge_with_covered (dictRouteLinks : list Z) (u v : Node) (k : nat)
    (d : EdgeData) (es : list (Node * Node * nat * EdgeData)) (H : MultiDiGraph) :
  link d ∉ dictRouteLinks ->
  covered dictRouteLinks ((u, v, k, d) :: es) H ->
  exists H', remove_edge_with pop H u v = Ok H' /\ covered dictRouteLinks es H'.
Proof.
  intros Hd Hcov.
  assert (Hhead : forall u' v',
            length (extraneous_between dictRouteLinks u' v' ((u, v, k, d) :: es)) =
            ((if (u =? u')%Z && (v =? v')%Z then 1 else 0)
             + length (extraneous_between dictRouteLinks u' v' es))%nat).
  { intros u' v'. unfold extraneous_between. simpl.
    rewrite (bool_decide_eq_false_2 _ Hd). simpl. rewrite andb_true_r.
    destruct ((u =? u')%Z && (v =? v')%Z); reflexivity. }
  pose proof (Hcov u v) as Huv. rewrite Hhead, !Z.eqb_refl in Huv. simpl in Huv.
  unfold multiplicity, get_edge_data in Huv.
  destruct (odict_get Z.eqb u H) as [adj|] eqn:Eadj; [|simpl in Huv; lia].
  simpl in Huv.
  destruct (odict_get Z.eqb v adj) as [kd|] eqn:Ekd; [|simpl in Huv; lia].
  simpl in Huv.
  assert (Hkd : kd <> []) by (intros ->; simpl in Huv; lia).
  pose proof (pop_length kd Hkd) as Hlen.
  unfold remove_edge_with. rewrite Eadj. simpl. rewrite Ekd. simpl.
  eexists. split; [reflexivity|].
  intros u' v'. specialize (Hcov u' v'). rewrite Hhead in Hcov.
  unfold multiplicity, get_edge_data in *. rewrite odict_get_set_Z.
  destruct (Z.eqb_spec u' u) as [->|Hu].
  - rewrite Eadj in Hcov. simpl in Hcov. simpl. rewrite Z.eqb_refl in Hcov.
    destruct (Z.eqb_spec v' v) as [->|Hv].
    + rewrite Ekd, Z.eqb_refl in Hcov. simpl in Hcov.
      destruct (pop kd) as [|x kd'] eqn:Epop.
      * simpl in Hlen. lia.
      * rewrite odict_get_set_Z, Z.eqb_refl. simpl in *. lia.
    + destruct (Z.eqb_spec v v') as [->|_]; [contradiction|]. simpl in Hcov.
      destruct (pop kd) as [|x kd'] eqn:Epop.
      * rewrite odict_get_del_ne by assumption. exact Hcov.
      * rewrite odict_get_set_Z. destruct (Z.eqb_spec v' v); [contradiction|]. exact Hcov.
  - destruct (Z.eqb_spec u u') as [->|_]; [contradiction|]. exact Hcov.
Qed.

Lemma remove_extraneous_with_completes (dictRouteLinks : list Z)
    (es : list (Node * Node * nat * EdgeData)) (H : MultiDiGraph) :
  covered dictRouteLinks es H ->
  exists H', remove_extraneous_with pop dictRouteLinks es H = Ok H'.
Proof.
  revert H. induction es as [|[[[u v] k] d] es IH]; intros H Hcov; simpl.
  - eexists. reflexivity.
  - destruct (bool_decide (link d ∈ dictRouteLinks)) eqn:Hd.
    + apply IH. intros u' v'. specialize (Hcov u' v').
      unfold extraneous_between in *. simpl in Hcov. rewrite Hd in Hcov.
      simpl in Hcov. rewrite andb_false_r in Hcov. exact Hcov.
    + apply bool_decide_eq_false in Hd.
      destruct (remove_edge_with_covered dictRouteLinks u v k d es H Hd Hcov)
        as (H1 & HH1 & Hcov1).
      rewrite HH1. simpl. apply IH, Hcov1.
Qed.

Lemma CreateSubgraph_with_completes (G : MultiDiGraph) (r : Z)
    (dictRouteSegments : list (Z * list Z)) :
  graph_wf G ->
  exists dictRouteLinks dictRouteNodes subgraph,
    CreateSubgraph_with pop G r dictRouteSegments
      = Ok (dictRouteLinks, dictRouteNodes, subgraph).
Proof.
  intros Hwf. unfold CreateSubgraph_with. rewrite (edge_data_scan_wf G Hwf). simpl.
  match goal with
  | |- context [remove_extraneous_with pop ?links (edges ?H0) ?H0] =>
      destruct (remove_extraneous_with_completes links (edges H0) H0) as (H' & HH');
        [apply edges_covered, subgraph_wf, Hwf|]; rewrite HH'
  end.
  simpl. eauto.
Qed.
End Completion.

(** X13.  On a graph that lists no node and no successor twice,
    [CreateSubgraph] does not fail, whatever the route and the segment
    table are: every [remove_edge] that it calls finds an edge between
    the pair to take away, as long as [popitem] takes one edge at a
    time. *)
Theorem CreateSubgraph_completes (choose : list nat -> nat) (G : MultiDiGraph) (r : Z)
    (dictRouteSegments : list (Z * list Z)) :
  picks_a_key choose -> graph_wf G ->
  exists dictRouteLinks dictRouteNodes subgraph,
    CreateSubgraph_with (pop_at choose) G r dictRouteSegments
      = Ok (dictRouteLinks, dictRouteNodes, subgraph).
Proof.
  intros Hc Hwf. apply CreateSubgraph_with_completes; [|exact Hwf].
  intros d Hd. apply pop_at_length; assumption.
Qed.

Lemma popitem_picks_a_key : picks_a_key (fun _ => O).
Proof. intros [|k ks] Hks; [contradiction|simpl; lia]. Qed.

Lemma CreateSubgraph_completes_witness :
  picks_a_key (fun _ => O) /\ graph_wf (CreateDirectedMultiGraph mirrored_streets) /\
  exists dictRouteLinks dictRouteNodes subgraph,
    CreateSubgraph (CreateDirectedMultiGraph mirrored_streets) 7
                   (SubgraphDataLookup mirrored_routes)
      = Ok (dictRouteLinks, dictRouteNodes, subgraph).
Proof.
  split; [exact popitem_picks_a_key|]. split; [apply CreateDirectedMultiGraph_wf|].
  exact (CreateSubgraph_completes (fun _ => O) _ 7 (SubgraphDataLookup mirrored_routes)
           popitem_picks_a_key (CreateDirectedMultiGraph_wf mirrored_streets)).
Defined.

Lemma last_where_Some {A : Type} (p : A -> bool) (l : list A) (x : A) :
  last_where p l = Some x -> x ∈ l /\ p x = true.
Proof.
  induction l as [|y l IH]; simpl; [discriminate|].
  destruct (last_where p l) as [z|].
  - intros [= ->]. destruct (IH eq_refl) as [Hin Hp]. split; [|exact Hp].
    apply list_elem_of_further, Hin.
  - destruct (p y) eqn:Hy; [|discriminate]. intros [= <-].
    split; [apply list_elem_of_here|exact Hy].
Qed.

Lemma NodeLookup_pair_is_edge (G : MultiDiGraph) (dictAllNodes : NodeDict) (l : Z)
    (uv : Node * Node) :
  graph_wf G -> NodeLookup G = Ok dictAllNodes -> dictAllNodes !! l = Some uv ->
  exists e, e ∈ edges G /\ endpoints e = uv /\ link (snd e) = l.
Proof.
  intros Hwf Hd Hl. destruct (NodeLookup_of_wf_graph G Hwf) as (d & Hd' & Hlook).
  rewrite Hd in Hd'. injection Hd' as <-. rewrite Hlook in Hl.
  destruct (last_where _ (edges G)) as [e|] eqn:E; [|discriminate].
  injection Hl as <-. apply last_where_Some in E as [Hin Hp].
  exists e. split; [exact Hin|]. split; [reflexivity|]. apply Z.eqb_eq, Hp.
Qed.

Lemma add_total_of_same_shape (G0 G : MultiDiGraph) (u v : Node) (data : KeyDict) (x : Q) :
  same_shape G0 G -> get_edge_data G0 u v = Some data ->
  is_Some (odict_get Nat.eqb O data) ->
  exists G', add_total G u v x = Ok G'.
Proof.
  intros Hs Hdata [d0 Hd0]. unfold get_edge_data in Hdata.
  destruct (odict_get Z.eqb u G0) as [adj0|] eqn:Eadj0; [|discriminate]. simpl in Hdata.
  pose proof (odict_rel_get Z.eqb _ u G0 G Hs) as Hu. rewrite Eadj0 in Hu.
  destruct (odict_get Z.eqb u G) as [adj|] eqn:Eadj; [|contradiction].
  pose proof (odict_rel_get Z.eqb _ v adj0 adj Hu) as Hv. rewrite Hdata in Hv.
  destruct (odict_get Z.eqb v adj) as [kd|] eqn:Ekd; [|contradiction].
  pose proof (odict_rel_get Nat.eqb _ O data kd Hv) as Hk. rewrite Hd0 in Hk.
  destruct (odict_get Nat.eqb O kd) as [d|] eqn:Ed; [|contradiction].
  unfold add_total. rewrite Eadj. cbn -[odict_get odict_set].
  unfold KeyDict in Ekd. rewrite Ekd. cbn -[odict_get odict_set]. rewrite Ed. cbn -[odict_get odict_set].
  eexists. reflexivity.
Qed.

(** X14.  At every point of a run, the load update
    [G[u][v][0]['total'] += x] of a pair [(u, v)] that the node index
    gives for a link finds its edge: the pair is joined by an edge of key
    0 in the graph that was built, and load updates leave it there. *)
Theorem indexed_pair_updatable (P : Q -> Prop) (fcStreets : list StreetRow)
    (G : MultiDiGraph) (dictAllNodes : NodeDict) (l : Z) (uv : Node * Node) (x : Q) :
  NodeLookup (CreateDirectedMultiGraph fcStreets) = Ok dictAllNodes ->
  accumulates P (CreateDirectedMultiGraph fcStreets) G ->
  dictAllNodes !! l = Some uv ->
  exists G', add_total G (fst uv) (snd uv) x = Ok G' /\
             accumulates (fun y => P y \/ y = x) (CreateDirectedMultiGraph fcStreets) G'.
Proof.
  intros Hd Hacc Hl.
  pose proof (CreateDirectedMultiGraph_wf fcStreets) as Hwf.
  destruct (NodeLookup_pair_is_edge _ _ _ _ Hwf Hd Hl) as ([[[u v] k] d] & He & <- & _).
  apply elem_of_edges in He as (adj & kd & Hu & Hv & _). simpl in *.
  pose proof (get_edge_data_wf _ u v adj kd Hwf Hu Hv) as Hdata.
  pose proof (keys_from_zero_first _ u v kd (CreateDirectedMultiGraph_keys fcStreets) Hdata)
    as H0.
  destruct (add_total_of_same_shape _ G u v kd x (accumulates_same_shape _ _ _ Hacc)
              Hdata H0) as (G' & HG').
  exists G'. split; [exact HG'|].
  eapply accumulates_trans.
  - eapply accumulates_impl; [|exact Hacc]. intros y Hy. left. exact Hy.
  - eapply accumulates_step; [right; reflexivity|exact HG'|apply accumulates_refl].
Qed.

Lemma indexed_pair_updatable_witness :
  exists dictAllNodes G',
    NodeLookup (CreateDirectedMultiGraph shared_streets) = Ok dictAllNodes /\
    dictAllNodes !! 5%Z = Some (2, 1)%Z /\
    add_total (CreateDirectedMultiGraph shared_streets) 2%Z 1%Z 3%Q = Ok G'.
Proof.
  destruct (NodeLookup (CreateDirectedMultiGraph shared_streets)) as [d|e] eqn:E;
    [|vm_compute in E; discriminate].
  assert (Hl : d !! 5%Z = Some (2, 1)%Z).
  { vm_compute in E. injection E as <-. vm_compute. reflexivity. }
  destruct (indexed_pair_updatable (fun _ => True) shared_streets _ d 5%Z (2, 1)%Z 3%Q E
              (accumulates_refl _ _) Hl) as (G' & HG' & _).
  exists d, G'. split; [reflexivity|]. split; [exact Hl|exact HG'].
Defined.

Lemma last_with_link_is_Some (l : Z) (ds : list EdgeData) :
  is_Some (last_with_link l ds) <-> exists d, d ∈ ds /\ link d = l.
Proof.
  induction ds as [|d ds IH]; simpl.
  - split; [intros [? [=]]|intros (d & Hd & _); inversion Hd].
  - destruct (last_with_link l ds) as [d'|].
    + split; [|eauto]. intros _. destruct (proj1 IH (ltac:(eauto))) as (d1 & Hd1 & Hl).
      exists d1. split; [apply list_elem_of_further, Hd1|exact Hl].
    + destruct (Z.eqb_spec (link d) l) as [Hl|Hl].
      * split; [|eauto]. intros _. exists d. split; [apply list_elem_of_here|exact Hl].
      * split; [intros [? [=]]|]. intros (d1 & Hd1 & Hl1).
        apply elem_of_cons in Hd1 as [->|Hd1]; [contradiction|].
        apply IH. eauto.
Qed.

Lemma spec_segment_edges_links (row : StreetRow) (l : Z) :
  (exists t, t ∈ spec_segment_edges row /\ link (snd t) = l) <->
  has_endpoints row /\ TLINK_ID row = l.
Proof.
  unfold spec_segment_edges, has_endpoints.
  destruct (FR_TPOINT row) as [a|], (TO_TPOINT row) as [b|].
  - split.
    + intros (t & Ht & Hl). split; [split; eauto|].
      destruct (CAR_FLOW row =? 2)%Z; [|destruct (CAR_FLOW row =? 1)%Z];
        repeat (apply elem_of_cons in Ht as [->|Ht]; [exact Hl|]); inversion Ht.
    + intros [_ Hl].
      destruct (CAR_FLOW row =? 2)%Z; [|destruct (CAR_FLOW row =? 1)%Z];
        eexists; (split; [apply list_elem_of_here|exact Hl]).
  - split; [intros (t & Ht & _); inversion Ht|intros [[_ [? [=]]] _]].
  - split; [intros (t & Ht & _); inversion Ht|intros [[[? [=]] _] _]].
  - split; [intros (t & Ht & _); inversion Ht|intros [[[? [=]] _] _]].
Qed.

Lemma built_graph_links (fcStreets : list StreetRow) (l : Z) :
  (exists e, e ∈ edges (CreateDirectedMultiGraph fcStreets) /\ link (snd e) = l) <->
  exists row, row ∈ fcStreets /\ has_endpoints row /\ TLINK_ID row = l.
Proof.
  pose proof (edges_fold_add_street fcStreets []) as Hperm. simpl in Hperm.
  fold (CreateDirectedMultiGraph fcStreets) in Hperm.
  split.
  - intros (e & He & Hl).
    assert (Ht : edge_triple e ∈ flat_map spec_segment_edges fcStreets).
    { rewrite <- Hperm. apply list_elem_of_fmap. eauto. }
    apply list_elem_of_In, in_flat_map in Ht as (row & Hrow & Ht).
    exists row. split; [apply list_elem_of_In, Hrow|].
    apply spec_segment_edges_links. exists (edge_triple e).
    split; [apply list_elem_of_In, Ht|exact Hl].
  - intros (row & Hrow & Hends).
    apply spec_segment_edges_links in Hends as (t & Ht & Hl).
    assert (Hin : t ∈ map edge_triple (edges (CreateDirectedMultiGraph fcStreets))).
    { rewrite Hperm. apply list_elem_of_In, in_flat_map. exists row.
      split; apply list_elem_of_In; assumption. }
    apply list_elem_of_fmap in Hin as (e & -> & He). eauto.
Qed.

Lemma same_shape_links (G G' : MultiDiGraph) (l : Z) :
  same_shape G G' ->
  (exists e, e ∈ edges G /\ link (snd e) = l) <->
  (exists e, e ∈ edges G' /\ link (snd e) = l).
Proof.
  intros Hs. apply same_shape_edges in Hs as [_ Hs].
  assert (Hlinks : map (fun e => link (snd e)) (edges G) =
                   map (fun e => link (snd e)) (edges G')).
  { transitivity (map (fun s : Node * Node * nat * Z * Q => snd (fst s))
                      (map edge_shape (edges G))).
    - rewrite map_map. reflexivity.
    - rewrite Hs, map_map. reflexivity. }
  assert (Hiff : forall es : list (Node * Node * nat * EdgeData),
            (exists e, e ∈ es /\ link (snd e) = l) <->
            l ∈ map (fun e => link (snd e)) es).
  { intros es. rewrite list_elem_of_fmap. split.
    - intros (e & He & <-). eauto.
    - intros (e & -> & He). eauto. }
  rewrite !Hiff, Hlinks. reflexivity.
Qed.

(** X15.  The ledger of a completed run has an entry for a link id
    exactly when a street row with both endpoints carries it: the link of
    every such row is a key, also when no rider passed, and a link id that
    only rows with a missing endpoint carry, or no row at all, is not a
    key and gets 0 riders. *)
Theorem ledger_keys_are_street_links
    (shortest_path : MultiDiGraph -> Node -> Node -> result (list Node))
    (fcStreets : list StreetRow) (fcRoutes : list (Z * Z)) (csvMetroQuery : list MetroRow)
    (dd : gmap Z Q) :
  main shortest_path fcStreets fcRoutes csvMetroQuery = Ok dd ->
  forall l,
    (is_Some (dd !! l) <->
     exists row, row ∈ fcStreets /\ has_endpoints row /\ TLINK_ID row = l) /\
    ((forall row, row ∈ fcStreets -> has_endpoints row -> TLINK_ID row <> l) ->
     riders dd l = 0%Q).
Proof.
  unfold main. intros H l. bind_inv H run Hrun. destruct run as [[G bad] missing].
  simpl in H.
  pose proof (RidershipAlgorithm_wf _ _ _ _ _ _ _ Hrun) as Hwf.
  pose proof (accumulates_same_shape _ _ _ (RidershipAlgorithm_accumulates _ _ _ _ _ _ _ Hrun))
    as Hshape.
  destruct (ledger_of_wf_graph G Hwf) as (dd' & Hdd' & Hlook).
  rewrite H in Hdd'. injection Hdd' as <-.
  assert (Hkey : is_Some (dd !! l) <->
                 exists row, row ∈ fcStreets /\ has_endpoints row /\ TLINK_ID row = l).
  { rewrite <- built_graph_links, (same_shape_links _ _ l Hshape), Hlook.
    rewrite fmap_is_Some, last_with_link_is_Some. split.
    - intros (d & Hd & Hl). apply list_elem_of_fmap in Hd as (e & -> & He). eauto.
    - intros (e & He & Hl). exists (snd e). split; [|exact Hl].
      apply list_elem_of_fmap. eauto. }
  split; [exact Hkey|]. intros Hno. unfold riders.
  destruct (dd !! l) as [x|] eqn:E; [|reflexivity].
  exfalso. destruct (proj1 Hkey (ltac:(eauto))) as (row & Hrow & Hends & Hl).
  exact (Hno row Hrow Hends Hl).
Qed.

Lemma ledger_keys_are_street_links_witness :
  exists dd,
    main nx_shortest_path path_streets path_routes (path_query inbound) = Ok dd /\
    is_Some (dd !! 102%Z) /\ riders dd 103 = 0%Q.
Proof.
  destruct (main nx_shortest_path path_streets path_routes (path_query inbound))
    as [dd|e] eqn:E; [|vm_compute in E; discriminate].
  exists dd. split; [reflexivity|].
  destruct (ledger_keys_are_street_links _ _ _ _ _ E 102) as [Hkey _].
  destruct (ledger_keys_are_street_links _ _ _ _ _ E 103) as [_ Hzero].
  split.
  - apply Hkey. exists (mkStreet (Some 2%Z) (Some 3%Z) 102 1 1).
    split; [apply list_elem_of_further, list_elem_of_here|].
    split; [split; eauto|reflexivity].
  - apply Hzero. intros row Hrow _.
    repeat (apply elem_of_cons in Hrow as [->|Hrow]; [discriminate|]). inversion Hrow.
Defined.

Lemma SubgraphDataLookup_keys_NoDup (fcRoutes : list (Z * Z)) :
  NoDup (map fst (SubgraphDataLookup fcRoutes)).
Proof.
  induction fcRoutes as [|[route tlink] fcRoutes IH] using rev_ind; [constructor|].
  rewrite SubgraphDataLookup_snoc. apply odict_set_NoDup, IH.
Qed.

Lemma SubgraphDataLookup_keys (fcRoutes : list (Z * Z)) (r : Z) :
  r ∈ map fst (SubgraphDataLookup fcRoutes) -> r ∈ map fst fcRoutes.
Proof.
  induction fcRoutes as [|[route tlink] fcRoutes IH] using rev_ind; [auto|].
  rewrite SubgraphDataLookup_snoc, odict_set_keys, map_app. simpl.
  destruct (odict_get Z.eqb route (SubgraphDataLookup fcRoutes)).
  - intros H. apply elem_of_app. left. apply IH, H.
  - intros H. apply elem_of_app in H as [H|H]; apply elem_of_app; [left; apply IH, H|].
    right. exact H.
Qed.

Lemma insert_sorted_length (x : Q) (l : list Q) :
  length (insert_sorted x l) = S (length l).
Proof.
  induction l as [|y l IH]; simpl; [reflexivity|].
  destruct (Qle_bool x y); simpl; [reflexivity|]. rewrite IH. reflexivity.
Qed.

Lemma sorted_length (l : list Q) : length (sorted l) = length l.
Proof.
  unfold sorted. induction l as [|x l IH]; simpl; [reflexivity|].
  rewrite insert_sorted_length, IH. reflexivity.
Qed.

Lemma popitem_length (d : KeyDict) : d <> [] -> length (popitem d) = pred (length d).
Proof. intros Hd. apply pop_at_length; [apply popitem_picks_a_key|exact Hd]. Qed.

Section Quiet.
Variable shortest_path : MultiDiGraph -> Node -> Node -> result (list Node).
Variable dictRouteSegments : list (Z * list Z).
Variable dictRouteMetrics : ByDir (gmap Z StopDict).
Variable dictRouteTotals : ByDir (gmap Z Totals).
Variable dictAllNodes : NodeDict.

Lemma direction_few_stops (subgraph : MultiDiGraph) (dictRouteLinks : list Z) (r : Z)
    (st : State) (dir : Direction) :
  (length (default [] (dir_get dir dictRouteMetrics !! r)) <= 1)%nat ->
  direction shortest_path dictRouteMetrics dictRouteTotals dictAllNodes subgraph
            dictRouteLinks r st dir = Ok (set_total 0 st).
Proof.
  intros Hlen. unfold direction.
  assert (Hs : (length (sorted (map fst (default [] (dir_get dir dictRouteMetrics !! r))))
                <= 1)%nat) by (rewrite sorted_length, length_map; exact Hlen).
  destruct (sorted (map fst (default [] (dir_get dir dictRouteMetrics !! r))))
    as [|s [|s' l]]; [reflexivity..|simpl in Hs; lia].
Qed.

Lemma route_few_stops (st : State) (r : Z) :
  graph_wf (st_G st) ->
  (forall dir, (length (default [] (dir_get dir dictRouteMetrics !! r)) <= 1)%nat) ->
  exists st',
    route shortest_path dictRouteSegments dictRouteMetrics dictRouteTotals dictAllNodes
          st r = Ok st' /\
    st_G st' = st_G st /\ st_lstBadData st' = st_lstBadData st /\
    st_lstMissingLink st' = st_lstMissingLink st.
Proof.
  intros Hwf Hlen. unfold route, CreateSubgraph.
  destruct (CreateSubgraph_with_completes popitem popitem_length (st_G st) r
              dictRouteSegments Hwf) as (links & nodes & H & HH).
  rewrite HH. simpl. rewrite !direction_few_stops by apply Hlen. simpl.
  rewrite !direction_few_stops by apply Hlen. simpl.
  eexists. split; [reflexivity|]. auto.
Qed.

Lemma routes_few_stops (rs : list Z) (st : State) :
  graph_wf (st_G st) ->
  (forall r dir, r ∈ rs ->
     (length (default [] (dir_get dir dictRouteMetrics !! r)) <= 1)%nat) ->
  exists st',
    for_each (route shortest_path dictRouteSegments dictRouteMetrics dictRouteTotals
                    dictAllNodes) rs st = Ok st' /\
    st_G st' = st_G st /\ st_lstBadData st' = st_lstBadData st /\
    st_lstMissingLink st' = st_lstMissingLink st.
Proof.
  revert st. induction rs as [|r rs IH]; intros st Hwf Hlen; simpl.
  - eexists. split; [reflexivity|]. auto.
  - destruct (route_few_stops st r Hwf) as (st1 & Hst1 & HG & Hbad & Hmiss).
    { intros dir. apply Hlen, list_elem_of_here. }
    rewrite Hst1. simpl.
    destruct (IH st1) as (st2 & Hst2 & HG2 & Hbad2 & Hmiss2).
    { rewrite HG. exact Hwf. }
    { intros r' dir Hr'. apply Hlen, list_elem_of_further, Hr'. }
    exists st2. split; [exact Hst2|]. repeat split; congruence.
Qed.
End Quiet.

(** X16.  When the query gives no route of the segment table more than
    one stop in a direction, as an empty query does, the run completes
    whatever the path search is: it returns the graph that was built,
    every load still 0, and reports no route. *)
Theorem run_without_stop_pairs
    (shortest_path : MultiDiGraph -> Node -> Node -> result (list Node))
    (fcStreets : list StreetRow) (fcRoutes : list (Z * Z)) (csvMetroQuery : list MetroRow) :
  (forall r dir, r ∈ map fst fcRoutes ->
     (length (stops_of csvMetroQuery dir r) <= 1)%nat) ->
  RidershipAlgorithm shortest_path fcStreets fcRoutes csvMetroQuery
    = Ok (CreateDirectedMultiGraph fcStreets, [], []).
Proof.
  intros Hlen. unfold RidershipAlgorithm, stops_of in *.
  destruct (RouteDataLookup csvMetroQuery) as [dictRouteMetrics dictRouteTotals].
  simpl in Hlen.
  destruct (NodeLookup_of_wf_graph _ (CreateDirectedMultiGraph_wf fcStreets))
    as (dictAllNodes & Hd & _).
  rewrite Hd. simpl.
  destruct (routes_few_stops shortest_path (SubgraphDataLookup fcRoutes) dictRouteMetrics
              dictRouteTotals dictAllNodes (map fst (SubgraphDataLookup fcRoutes))
              (mkState (CreateDirectedMultiGraph fcStreets) ∅ None 0 [] []))
    as (st & Hst & HG & Hbad & Hmiss).
  { apply CreateDirectedMultiGraph_wf. }
  { intros r dir Hr. apply Hlen, SubgraphDataLookup_keys, Hr. }
  rewrite Hst. simpl in *. rewrite HG, Hbad, Hmiss. reflexivity.
Qed.

Lemma run_without_stop_pairs_witness :
  (forall r dir, r ∈ map fst path_routes ->
     (length (stops_of lone_query dir r) <= 1)%nat) /\
  RidershipAlgorithm nx_shortest_path path_streets path_routes lone_query
    = Ok (CreateDirectedMultiGraph path_streets, [], []).
Proof.
  assert (H : forall r dir, r ∈ map fst path_routes ->
            (length (stops_of lone_query dir r) <= 1)%nat).
  { intros r dir Hr. simpl in Hr.
    repeat (apply elem_of_cons in Hr as [->|Hr]; [destruct dir; vm_compute; lia|]).
    inversion Hr. }
  split; [exact H|].
  exact (run_without_stop_pairs nx_shortest_path path_streets path_routes lone_query H).
Defined.

Section Reports.
Variable shortest_path : MultiDiGraph -> Node -> Node -> result (list Node).
Variable dictRouteSegments : list (Z * list Z).
Variable dictRouteMetrics : ByDir (gmap Z StopDict).
Variable dictRouteTotals : ByDir (gmap Z Totals).
Variable dictAllNodes : NodeDict.

Lemma find_tlinks_reports (view : MultiDiGraph) (dictRouteLinks : list Z)
    (source target : Node) (st st' : State) :
  find_tlinks shortest_path view dictRouteLinks source target st = Ok st' ->
  st_lstBadData st' = st_lstBadData st /\ st_lstMissingLink st' = st_lstMissingLink st.
Proof. intros H. apply find_tlinks_Ok in H as [->|[tl ->]]; auto. Qed.

Lemma whole_graph_fallback_reports (dictRouteLinks : list Z) (r : Z) (dir : Direction)
    (eSource eTarget : option Z) (st st' : State) (stop : bool) :
  whole_graph_fallback shortest_path dictAllNodes dictRouteLinks r dir eSource eTarget st
    = Ok (st', stop) ->
  st_lstBadData st' = st_lstBadData st /\
  st_lstMissingLink st' = st_lstMissingLink st ++ (if stop then [(r, dir)] else []).
Proof.
  unfold whole_graph_fallback.
  match goal with |- context [match ?c with _ => _ end] =>
    destruct c as [st2|[]] eqn:E end; intros [= <- <-]; [|auto].
  bind_inv E source Hs. bind_inv E target Ht.
  apply find_tlinks_reports in E as [-> ->]. simpl. rewrite app_nil_r. auto.
Qed.

Lemma locate_reports (subgraph : MultiDiGraph) (dictRouteLinks : list Z) (r : Z)
    (dir : Direction) (eSource eTarget : option Z) (st st' : State) (stop : bool) :
  locate shortest_path dictAllNodes subgraph dictRouteLinks r dir eSource eTarget st
    = Ok (st', stop) ->
  st_lstBadData st' = st_lstBadData st /\
  st_lstMissingLink st' = st_lstMissingLink st ++ (if stop then [(r, dir)] else []).
Proof.
  unfold locate.
  match goal with |- context [match ?c with _ => _ end] =>
    destruct c as [st1|[]] eqn:E end; try discriminate.
  - intros [= <- <-]. bind_inv E source Hs. bind_inv E target Ht.
    apply find_tlinks_reports in E as [-> ->]. rewrite app_nil_r. auto.
  - apply whole_graph_fallback_reports.
  - apply whole_graph_fallback_reports.
Qed.

Lemma apportion_reports (r : Z) (dir : Direction) (total_on total_off : Z) (i : nat)
    (eSource eTarget : option Z) (ons offs : Z) (st st' : State) :
  apportion dictAllNodes r dir total_on total_off i eSource eTarget ons offs st = Ok st' ->
  st_lstMissingLink st' = st_lstMissingLink st /\
  exists n, st_lstBadData st' = st_lstBadData st ++ replicate n (r, dir).
Proof.
  intros H. unfold apportion in H.
  bind_inv H tlinks Htl. bind_inv H adjusted Hadj. bind_inv H src Hsrc.
  bind_inv H G1 HG1.
  match type of H with (if ?c then _ else _) = _ => destruct c end;
    bind_inv H G2 HG2; injection H as <-; cbn; (split; [reflexivity|]).
  - exists 1%nat. reflexivity.
  - exists 0%nat. rewrite app_nil_r. reflexivity.
Qed.

Lemma stop_pair_reports (subgraph : MultiDiGraph) (dictRouteLinks : list Z) (r : Z)
    (dir : Direction) (dictStops : StopDict) (lstStops : list Q)
    (total_on total_off : Z) (item : nat * Q) (st st' : State) (stop : bool) :
  stop_pair shortest_path dictAllNodes subgraph dictRouteLinks r dir dictStops lstStops
            total_on total_off item st = Ok (st', stop) ->
  st_lstMissingLink st' = st_lstMissingLink st ++ (if stop then [(r, dir)] else []) /\
  exists n, st_lstBadData st' = st_lstBadData st ++ replicate n (r, dir).
Proof.
  intros H. unfold stop_pair in H. destruct item as [i s].
  bind_inv H lstSourceData Hsrc. destruct lstSourceData as [[eSource ons] offs].
  bind_inv H s' Hs'. bind_inv H lstTargetData Htgt.
  destruct lstTargetData as [[eTarget ons2] offs2].
  bind_inv H located Hloc. destruct located as [st1 stop1].
  apply locate_reports in Hloc as [Hbad Hmiss].
  destruct stop1.
  - injection H as <- <-. split; [exact Hmiss|]. exists 0%nat.
    rewrite Hbad, app_nil_r. reflexivity.
  - bind_inv H st2 Happ. injection H as <- <-.
    apply apportion_reports in Happ as [Hmiss2 [n Hbad2]].
    rewrite Hmiss2, Hmiss. split; [reflexivity|]. exists n. rewrite Hbad2, Hbad.
    reflexivity.
Qed.

Lemma for_stops_reports (subgraph : MultiDiGraph) (dictRouteLinks : list Z) (r : Z)
    (dir : Direction) (dictStops : StopDict) (lstStops : list Q)
    (total_on total_off : Z) (items : list (nat * Q)) (st st' : State) :
  for_stops (stop_pair shortest_path dictAllNodes subgraph dictRouteLinks r dir dictStops
                       lstStops total_on total_off) items st = Ok st' ->
  (exists stop : bool,
     st_lstMissingLink st' = st_lstMissingLink st ++ (if stop then [(r, dir)] else [])) /\
  exists n, st_lstBadData st' = st_lstBadData st ++ replicate n (r, dir).
Proof.
  revert st. induction items as [|item items IH]; intros st H; simpl in H.
  - injection H as <-. split; [exists false|exists 0%nat]; rewrite app_nil_r; reflexivity.
  - bind_inv H res Hres. destruct res as [st1 stop].
    apply stop_pair_reports in Hres as [Hmiss [n Hbad]].
    destruct stop.
    + injection H as <-. split; [exists true; exact Hmiss|exists n; exact Hbad].
    + apply IH in H as [[stop Hmiss'] [n' Hbad']]. rewrite app_nil_r in Hmiss. split.
      * exists stop. rewrite Hmiss', Hmiss. reflexivity.
      * exists (n + n')%nat. rewrite Hbad', Hbad, <- app_assoc, replicate_add.
        reflexivity.
Qed.

Lemma direction_reports (subgraph : MultiDiGraph) (dictRouteLinks : list Z) (r : Z)
    (st st' : State) (dir : Direction) :
  direction shortest_path dictRouteMetrics dictRouteTotals dictAllNodes subgraph
            dictRouteLinks r st dir = Ok st' ->
  (exists stop : bool,
     st_lstMissingLink st' = st_lstMissingLink st ++ (if stop then [(r, dir)] else [])) /\
  exists n, st_lstBadData st' = st_lstBadData st ++ replicate n (r, dir).
Proof. unfold direction. intros H. apply for_stops_reports in H. exact H. Qed.

Lemma route_reports (st st' : State) (r : Z) :
  route shortest_path dictRouteSegments dictRouteMetrics dictRouteTotals dictAllNodes st r
    = Ok st' ->
  exists missing bad,
    st_lstMissingLink st' = st_lstMissingLink st ++ missing /\
    st_lstBadData st' = st_lstBadData st ++ bad /\
    NoDup missing /\ Forall (fun rd => fst rd = r) missing /\
    Forall (fun rd => fst rd = r) bad.
Proof.
  unfold route. intros H. bind_inv H created Hc.
  destruct created as [[dictRouteLinks dictRouteNodes] subgraph].
  simpl in H. bind_inv H st1 H1. bind_inv H st2 H2. injection H as <-.
  apply direction_reports in H1 as [[stop1 Hm1] [n1 Hb1]].
  apply direction_reports in H2 as [[stop2 Hm2] [n2 Hb2]].
  cbn in Hm1, Hb1.
  exists ((if stop1 then [(r, inbound)] else []) ++ (if stop2 then [(r, outbound)] else [])),
         (replicate n1 (r, inbound) ++ replicate n2 (r, outbound)).
  split; [rewrite Hm2, Hm1, <- app_assoc; reflexivity|].
  split; [rewrite Hb2, Hb1, <- app_assoc; reflexivity|].
  split; [|split].
  - destruct stop1, stop2; simpl; repeat constructor.
    + intros H. apply list_elem_of_singleton in H. discriminate.
    + intros H. inversion H.
    + intros H. inversion H.
    + intros H. inversion H.
  - destruct stop1, stop2; simpl; repeat constructor.
  - apply Forall_app. split; apply Forall_forall; intros rd Hrd;
      apply elem_of_replicate in Hrd as [-> _]; reflexivity.
Qed.

Lemma routes_reports (rs : list Z) (st st' : State) :
  NoDup rs ->
  for_each (route shortest_path dictRouteSegments dictRouteMetrics dictRouteTotals
                  dictAllNodes) rs st = Ok st' ->
  exists missing bad,
    st_lstMissingLink st' = st_lstMissingLink st ++ missing /\
    st_lstBadData st' = st_lstBadData st ++ bad /\
    NoDup missing /\ Forall (fun rd => fst rd ∈ rs) missing /\
    Forall (fun rd => fst rd ∈ rs) bad.
Proof.
  intros Hnd. revert st. induction Hnd as [|r rs Hr Hnd IH]; intros st H; simpl in H.
  - injection H as <-. exists [], []. rewrite !app_nil_r. repeat split; constructor.
  - bind_inv H st1 H1. apply route_reports in H1 as (m1 & b1 & Hm1 & Hb1 & Hn1 & Hf1 & Hg1).
    apply IH in H as (m2 & b2 & Hm2 & Hb2 & Hn2 & Hf2 & Hg2).
    exists (m1 ++ m2), (b1 ++ b2).
    split; [rewrite Hm2, Hm1, <- app_assoc; reflexivity|].
    split; [rewrite Hb2, Hb1, <- app_assoc; reflexivity|].
    split; [|split].
    + apply NoDup_app. split; [exact Hn1|]. split; [|exact Hn2].
      intros rd Hrd1 Hrd2. rewrite Forall_forall in Hf1, Hf2.
      apply Hr. rewrite <- (Hf1 rd Hrd1). apply Hf2, Hrd2.
    + apply Forall_app. split.
      * eapply Forall_impl; [exact Hf1|]. intros rd ->. apply list_elem_of_here.
      * eapply Forall_impl; [exact Hf2|]. intros rd Hrd. apply list_elem_of_further, Hrd.
    + apply Forall_app. split.
      * eapply Forall_impl; [exact Hg1|]. intros rd ->. apply list_elem_of_here.
      * eapply Forall_impl; [exact Hg2|]. intros rd Hrd. apply list_elem_of_further, Hrd.
Qed.
End Reports.

(** X17.  The two reports of a completed run name only routes of the
    segment table, and the missing-link report names no route and
    direction twice: a direction is given up at its first missing link
    and every route is visited once. *)
Theorem reports_name_routes
    (shortest_path : MultiDiGraph -> Node -> Node -> result (list Node))
    (fcStreets : list StreetRow) (fcRoutes : list (Z * Z)) (csvMetroQuery : list MetroRow)
    (G : MultiDiGraph) (lstBadData lstMissingLink : list (Z * Direction)) :
  RidershipAlgorithm shortest_path fcStreets fcRoutes csvMetroQuery
    = Ok (G, lstBadData, lstMissingLink) ->
  NoDup lstMissingLink /\
  Forall (fun rd => fst rd ∈ map fst fcRoutes) lstMissingLink /\
  Forall (fun rd => fst rd ∈ map fst fcRoutes) lstBadData.
Proof.
  unfold RidershipAlgorithm. intros H. apply or_exit_Ok in H.
  destruct (RouteDataLookup csvMetroQuery) as [dictRouteMetrics dictRouteTotals].
  bind_inv H dictAllNodes Hd. bind_inv H st Hst. injection H as _ <- <-.
  apply routes_reports in Hst as (m & b & Hm & Hb & Hn & Hf & Hg);
    [|apply SubgraphDataLookup_keys_NoDup].
  simpl in Hm, Hb. subst. split; [exact Hn|].
  split; (eapply Forall_impl; [eassumption|]); intros rd Hrd;
    apply SubgraphDataLookup_keys, Hrd.
Qed.

Lemma reports_name_routes_witness :
  exists G lstBadData,
    RidershipAlgorithm nx_shortest_path gap_streets missing_routes missing_query
      = Ok (G, lstBadData, [(7%Z, inbound)]) /\
    NoDup [(7%Z, inbound)] /\
    Forall (fun rd : Z * Direction => fst rd ∈ map fst missing_routes) [(7%Z, inbound)] /\
    Forall (fun rd : Z * Direction => fst rd ∈ map fst missing_routes) lstBadData.
Proof.
  destruct (RidershipAlgorithm nx_shortest_path gap_streets missing_routes missing_query)
    as [[[G bad] missing]|e] eqn:E; [|vm_compute in E; discriminate].
  assert (missing = [(7%Z, inbound)]) as -> by (vm_compute in E; congruence).
  exists G, bad. split; [reflexivity|].
  exact (reports_name_routes _ _ _ _ _ _ _ E).
Defined.

Lemma AdjustRidership_zero (ons offs total_on total_off : Z) :
  Z.min total_on total_off = 0%Z ->
  AdjustRidership ons offs total_on total_off = Raise ZeroDivisionError.
Proof.
  intros Hmin. unfold AdjustRidership.
  destruct (Z.gtb_spec total_on total_off) as [Hgt|Hle].
  - destruct (Z.eqb_spec total_off 0) as [_|Hnz]; [reflexivity|lia].
  - destruct (Z.eqb_spec total_on 0) as [_|Hnz]; [reflexivity|lia].
Qed.

Lemma apportion_zero (dictAllNodes : NodeDict) (r : Z) (dir : Direction)
    (total_on total_off : Z) (i : nat) (eSource eTarget : option Z) (ons offs : Z)
    (tlinks : list (option Z)) (st : State) :
  Z.min total_on total_off = 0%Z -> st_tlinks st = Some tlinks ->
  apportion dictAllNodes r dir total_on total_off i eSource eTarget ons offs st
    = Raise ZeroDivisionError.
Proof.
  intros Hmin Htl. unfold apportion. rewrite Htl. cbn [of_option mbind result_bind].
  rewrite (AdjustRidership_zero _ _ _ _ Hmin). reflexivity.
Qed.

(** X18.  A direction in which nobody boards, or nobody alights, cannot
    be apportioned: when the smaller of its two totals is 0 and its first
    two stops are found on the graph with [tlinks] bound, the division in
    [AdjustRidership] fails before any load is added, and the exception
    ends the loop over the directions. *)
Theorem zero_total_aborts
    (shortest_path : MultiDiGraph -> Node -> Node -> result (list Node))
    (dictRouteMetrics : ByDir (gmap Z StopDict)) (dictRouteTotals : ByDir (gmap Z Totals))
    (dictAllNodes : NodeDict) (subgraph : MultiDiGraph) (dictRouteLinks : list Z) (r : Z)
    (dir : Direction) (st st1 : State) (rest : list (nat * Q)) (i : nat) (s s' : Q)
    (eSource eTarget : option Z) (ons offs ons' offs' : Z) (tlinks : list (option Z)) :
  let dictStops := default [] (dir_get dir dictRouteMetrics !! r) in
  let lstStops := sorted (map fst dictStops) in
  let totals := default (0, 0)%Z (dir_get dir dictRouteTotals !! r) in
  Z.min (fst totals) (snd totals) = 0%Z ->
  enumerate (removelast lstStops) = (i, s) :: rest ->
  odict_get Qeq_bool s dictStops = Some (eSource, ons, offs) ->
  lstStops !! (i + 1)%nat = Some s' ->
  odict_get Qeq_bool s' dictStops = Some (eTarget, ons', offs') ->
  locate shortest_path dictAllNodes subgraph dictRouteLinks r dir eSource eTarget
         (set_total 0 st) = Ok (st1, false) ->
  st_tlinks st1 = Some tlinks ->
  direction shortest_path dictRouteMetrics dictRouteTotals dictAllNodes subgraph
            dictRouteLinks r st dir = Raise ZeroDivisionError /\
  forall dirs,
    for_each (direction shortest_path dictRouteMetrics dictRouteTotals dictAllNodes subgraph
                        dictRouteLinks r) (dir :: dirs) st = Raise ZeroDivisionError.
Proof.
  intros dictStops lstStops totals Hmin Hitems Hs Hs' Ht Hloc Htl.
  assert (Hdir : direction shortest_path dictRouteMetrics dictRouteTotals dictAllNodes
                   subgraph dictRouteLinks r st dir = Raise ZeroDivisionError).
  { subst dictStops lstStops totals. unfold direction. cbv zeta. unfold StopData. rewrite Hitems.
    cbn [for_stops]. unfold stop_pair, StopData. rewrite Hs. cbn [of_option mbind result_bind].
    rewrite Hs'. cbn [of_option mbind result_bind]. rewrite Ht.
    cbn [of_option mbind result_bind]. rewrite Hloc. cbn [mbind result_bind].
    rewrite (apportion_zero _ _ _ _ _ _ _ _ _ _ tlinks st1 Hmin Htl). reflexivity. }
  split; [exact Hdir|]. intros dirs. cbn [for_each]. rewrite Hdir. reflexivity.
Qed.

Lemma zero_total_aborts_witness :
  let G := CreateDirectedMultiGraph path_streets in
  let dictRouteMetrics := fst (RouteDataLookup silent_query) in
  let dictRouteTotals := snd (RouteDataLookup silent_query) in
  exists dictAllNodes dictRouteLinks dictRouteNodes subgraph st1,
    NodeLookup G = Ok dictAllNodes /\
    CreateSubgraph G 7 (SubgraphDataLookup path_routes)
      = Ok (dictRouteLinks, dictRouteNodes, subgraph) /\
    let st0 := mkState G dictRouteNodes None 0 [] [] in
    dir_get inbound dictRouteTotals !! 7%Z = Some (15, 0)%Z /\
    locate nx_shortest_path dictAllNodes subgraph dictRouteLinks 7 inbound
           (Some 101%Z) (Some 102%Z) (set_total 0 st0) = Ok (st1, false) /\
    direction nx_shortest_path dictRouteMetrics dictRouteTotals dictAllNodes subgraph
              dictRouteLinks 7 st0 inbound = Raise ZeroDivisionError /\
    RidershipAlgorithm nx_shortest_path path_streets path_routes silent_query
      = Raise SystemExit.
Proof.
  intros G dictRouteMetrics dictRouteTotals.
  eexists _, _, _, _, _.
  split; [vm_compute; reflexivity|].
  split; [vm_compute; reflexivity|].
  intros st0.
  split; [vm_compute; reflexivity|].
  split; [vm_compute; reflexivity|].
  split; [|vm_compute; reflexivity].
  match goal with
  | |- direction _ _ _ ?an ?sg ?rl _ _ _ = _ =>
      destruct (zero_total_aborts nx_shortest_path dictRouteMetrics dictRouteTotals an sg rl
                  7 inbound st0
                  (set_tlinks [Some 101%Z] (set_total 0 st0)) []
                  0%nat 1%Q 2%Q (Some 101%Z) (Some 102%Z) 10 0 5 0
                  [Some 101%Z]) as [Hdir _]
  end.
  - vm_compute. reflexivity.
  - vm_compute. reflexivity.
  - vm_compute. reflexivity.
  - vm_compute. reflexivity.
  - vm_compute. reflexivity.
  - vm_compute. reflexivity.
  - vm_compute. reflexivity.
  - exact Hdir.
Defined.

Lemma elem_of_enumerate_from {A : Type} (l : list A) (n i : nat) (x : A) :
  (i, x) ∈ combine (seq n (length l)) l -> (n <= i)%nat /\ l !! (i - n)%nat = Some x.
Proof.
  revert n. induction l as [|y l IH]; intros n H; simpl in H; [inversion H|].
  apply elem_of_cons in H as [[= -> ->]|H].
  - split; [lia|]. rewrite Nat.sub_diag. reflexivity.
  - apply IH in H as [Hle Hx]. split; [lia|].
    replace (i - n)%nat with (S (i - S n)) by lia. exact Hx.
Qed.

Lemma elem_of_enumerate {A : Type} (l : list A) (i : nat) (x : A) :
  (i, x) ∈ enumerate l -> l !! i = Some x.
Proof.
  intros H. apply elem_of_enumerate_from in H as [_ H]. rewrite Nat.sub_0_r in H. exact H.
Qed.

Lemma lookup_removelast {A : Type} (l : list A) (i : nat) (x : A) :
  removelast l !! i = Some x -> l !! i = Some x /\ is_Some (l !! (i + 1)%nat).
Proof.
  revert i. induction l as [|y l IH]; intros i H; simpl in H; [discriminate|].
  destruct l as [|z l]; [discriminate|].
  destruct i as [|i].
  - injection H as <-. split; [reflexivity|]. simpl. eauto.
  - apply (IH i) in H. exact H.
Qed.

Lemma elem_of_insert_sorted (x y : Q) (l : list Q) :
  y ∈ insert_sorted x l -> y = x \/ y ∈ l.
Proof.
  induction l as [|z l IH]; simpl.
  - intros H. apply list_elem_of_singleton in H. auto.
  - destruct (Qle_bool x z).
    + intros H. apply elem_of_cons in H as [H|H]; auto.
    + intros H. apply elem_of_cons in H as [->|H].
      * right. apply list_elem_of_here.
      * destruct (IH H) as [?|?]; [auto|]. right. apply list_elem_of_further. assumption.
Qed.

Lemma elem_of_sorted (y : Q) (l : list Q) : y ∈ sorted l -> y ∈ l.
Proof.
  unfold sorted. induction l as [|x l IH]; simpl; [auto|].
  intros H. apply elem_of_insert_sorted in H as [->|H].
  - apply list_elem_of_here.
  - apply list_elem_of_further, IH, H.
Qed.

Lemma insert_sorted_ascending (x : Q) (l : list Q) :
  ascending l -> ascending (insert_sorted x l).
Proof.
  induction l as [|y l IH]; simpl; [auto|].
  intros [Hy Hl]. destruct (Qle_bool x y) eqn:Hxy.
  - simpl. split; [apply Qle_bool_iff, Hxy|]. split; assumption.
  - assert (Hyx : (y <= x)%Q).
    { apply Qlt_le_weak, Qnot_le_lt. intros H. apply Qle_bool_iff in H. congruence. }
    specialize (IH Hl). simpl. split; [|exact IH].
    destruct l as [|z l]; simpl; [exact Hyx|].
    destruct (Qle_bool x z); [exact Hyx|exact Hy].
Qed.

Lemma sorted_ascending (l : list Q) : ascending (sorted l).
Proof.
  unfold sorted. induction l as [|x l IH]; simpl; [exact I|].
  apply insert_sorted_ascending, IH.
Qed.

Lemma ascending_lookup (l : list Q) (i : nat) (a b : Q) :
  ascending l -> l !! i = Some a -> l !! (i + 1)%nat = Some b -> (a <= b)%Q.
Proof.
  revert i. induction l as [|x l IH]; intros i Hasc Ha Hb; [discriminate|].
  destruct Hasc as [Hx Hl]. destruct i as [|i].
  - injection Ha as <-. destruct l as [|y l]; [discriminate|].
    injection Hb as <-. exact Hx.
  - exact (IH i Hl Ha Hb).
Qed.

Lemma odict_get_key (s : Q) (dictStops : StopDict) :
  s ∈ map fst dictStops -> is_Some (odict_get Qeq_bool s dictStops).
Proof.
  induction dictStops as [|[k v] d IH]; simpl; [intros H; inversion H|].
  intros H. destruct (Qeq_bool s k) eqn:E; [eauto|].
  apply elem_of_cons in H as [->|H]; [|exact (IH H)].
  rewrite (proj2 (Qeq_bool_iff k k) (Qeq_refl k)) in E. discriminate.
Qed.

(** X19.  The stop pairs that a direction loops over are the pairs of
    neighbours of the sequence numbers in ascending order, and the three
    lookups at the head of the loop body, [dictStops[s]],
    [lstStops[i + 1]] and [dictStops[lstStops[i + 1]]], find their
    entries: none of them raises. *)
Theorem stop_pair_lookups_succeed (dictStops : StopDict) (i : nat) (s : Q) :
  let lstStops := sorted (map fst dictStops) in
  (i, s) ∈ enumerate (removelast lstStops) ->
  exists s' lstSourceData lstTargetData,
    lstStops !! i = Some s /\ lstStops !! (i + 1)%nat = Some s' /\ (s <= s')%Q /\
    odict_get Qeq_bool s dictStops = Some lstSourceData /\
    odict_get Qeq_bool s' dictStops = Some lstTargetData.
Proof.
  intros lstStops H. apply elem_of_enumerate, lookup_removelast in H as [Hs [s' Hs']].
  assert (Hin : forall j x, lstStops !! j = Some x ->
                  is_Some (odict_get Qeq_bool x dictStops)).
  { intros j x Hx. apply odict_get_key, elem_of_sorted.
    eapply list_elem_of_lookup_2, Hx. }
  destruct (Hin _ _ Hs) as [src Hsrc]. destruct (Hin _ _ Hs') as [tgt Htgt].
  exists s', src, tgt. split; [exact Hs|]. split; [exact Hs'|].
  split; [|split; assumption].
  exact (ascending_lookup lstStops i s s' (sorted_ascending _) Hs Hs').
Qed.

Lemma stop_pair_lookups_succeed_witness :
  (1%nat, 2%Q) ∈ enumerate (removelast (sorted (map fst (stops_of detour_query inbound 7%Z)))) /\
  exists s' lstSourceData lstTargetData,
    sorted (map fst (stops_of detour_query inbound 7%Z)) !! 2%nat = Some s' /\
    (2 <= s')%Q /\
    odict_get Qeq_bool 2%Q (stops_of detour_query inbound 7%Z) = Some lstSourceData /\
    odict_get Qeq_bool s' (stops_of detour_query inbound 7%Z) = Some lstTargetData.
Proof.
  assert (H : (1%nat, 2%Q) ∈
              enumerate (removelast (sorted (map fst (stops_of detour_query inbound 7%Z))))).
  { vm_compute. apply list_elem_of_further, list_elem_of_here. }
  split; [exact H|].
  destruct (stop_pair_lookups_succeed (stops_of detour_query inbound 7%Z) 1%nat 2%Q H)
    as (s' & src & tgt & _ & Hs' & Hle & Hsrc & Htgt).
  exists s', src, tgt. auto.
Defined.

Lemma consecutive_pairs_snoc (p : list Node) (v u : Node) :
  last p = Some v ->
  combine (removelast (p ++ [u])) (tail (p ++ [u])) =
  combine (removelast p) (tail p) ++ [(v, u)].
Proof.
  induction p as [|x p IH]; [discriminate|].
  destruct p as [|y p].
  - intros [= ->]. reflexivity.
  - intros Hlast. specialize (IH Hlast).
    change (combine (removelast ((x :: y :: p) ++ [u])) (tail ((x :: y :: p) ++ [u])))
      with ((x, y) :: combine (removelast ((y :: p) ++ [u])) (tail ((y :: p) ++ [u]))).
    rewrite IH. reflexivity.
Qed.

Lemma is_walk_snoc (G : MultiDiGraph) (source v u : Node) (p : list Node) :
  is_walk G source v p -> joined G v u -> is_walk G source u (p ++ [u]).
Proof.
  intros (Hhead & Hlast & Hsteps) Hvu. split; [|split].
  - destruct p; [discriminate|exact Hhead].
  - apply last_snoc.
  - rewrite (consecutive_pairs_snoc p v u Hlast). apply Forall_app. split; [exact Hsteps|].
    constructor; [exact Hvu|constructor].
Qed.

Section Walks.
Variable G : MultiDiGraph.
Variable source : Node.

Lemma discover_walks (v u : Node) (vu_dist : Q) (s s' : Search) :
  paths_are_walks G source s -> joined G v u ->
  discover v u vu_dist s = Ok s' -> paths_are_walks G source s'.
Proof.
  intros Hinv Hvu H. unfold discover in H. bind_inv H pv Hpv. injection H as <-.
  apply of_option_Ok in Hpv. intros n p. cbn [s_paths].
  rewrite odict_get_set_Z. destruct (n =? u)%Z eqn:E.
  - apply Z.eqb_eq in E as ->. intros [= <-].
    eapply is_walk_snoc; [apply Hinv, Hpv|exact Hvu].
  - apply Hinv.
Qed.

Lemma relax_walks (v : Node) (d : Q) (adj : AdjDict) (ue : Node * KeyDict)
    (s s' : Search) :
  paths_are_walks G source s -> odict_get Z.eqb v G = Some adj -> ue ∈ adj ->
  relax v d s ue = Ok s' -> paths_are_walks G source s'.
Proof.
  intros Hinv Hadj Hue H. unfold relax in H. bind_inv H w Hw.
  assert (Hvu : joined G v (fst ue)).
  { destruct ue as [u kd]. destruct kd as [|[k d0] kd]; [discriminate|].
    exists k, d0. eapply edges_intro; [apply odict_get_elem, Hadj|exact Hue|].
    apply list_elem_of_here. }
  destruct (odict_get Z.eqb (fst ue) (s_dist s)) as [du|].
  - destruct (Qlt_bool (d + w) du); [discriminate|]. injection H as <-. exact Hinv.
  - destruct (odict_get Z.eqb (fst ue) (s_seen s)) as [su|].
    + destruct (Qlt_bool (d + w) su).
      * eapply discover_walks; eassumption.
      * injection H as <-. exact Hinv.
    + eapply discover_walks; eassumption.
Qed.

Lemma relax_all_walks (v : Node) (d : Q) (adj : AdjDict) (l : list (Node * KeyDict))
    (s s' : Search) :
  paths_are_walks G source s -> odict_get Z.eqb v G = Some adj ->
  Forall (fun ue => ue ∈ adj) l ->
  for_each (relax v d) l s = Ok s' -> paths_are_walks G source s'.
Proof.
  intros Hinv Hadj Hl. revert s Hinv.
  induction Hl as [|ue l Hue _ IH]; intros s Hinv H; simpl in H.
  - injection H as <-. exact Hinv.
  - bind_inv H s1 H1. eapply IH; [|exact H]. eapply relax_walks; eassumption.
Qed.

Lemma dijkstra_loop_walks (fuel : nat) (target : Node) (s s' : Search) :
  paths_are_walks G source s ->
  dijkstra_loop fuel G target s = Ok s' -> paths_are_walks G source s'.
Proof.
  revert s. induction fuel as [|fuel IH]; intros s Hinv H; simpl in H; [discriminate|].
  destruct (heappop (s_fringe s)) as [[[[d c] v] rest]|]; [|injection H as <-; exact Hinv].
  cbn [s_dist s_seen s_paths s_fringe s_count] in H.
  destruct (odict_mem Z.eqb v (s_dist s)).
  - eapply IH; [|exact H]. exact Hinv.
  - destruct (v =? target)%Z.
    + injection H as <-. exact Hinv.
    + bind_inv H adj Hadj. bind_inv H s3 Hs3. apply of_option_Ok in Hadj.
      eapply IH; [|exact H].
      eapply relax_all_walks; [|exact Hadj| |exact Hs3]; [exact Hinv|].
      apply Forall_forall. auto.
Qed.
End Walks.

Lemma nx_shortest_path_walk (G : MultiDiGraph) (source target : Node) (path : list Node) :
  nx_shortest_path G source target = Ok path -> is_walk G source target path.
Proof.
  unfold nx_shortest_path. destruct (Z.eqb_spec source target) as [<-|Hne].
  - intros [= <-]. split; [reflexivity|]. split; [reflexivity|constructor].
  - intros H. bind_inv H s Hs. apply of_option_Ok in H.
    eapply dijkstra_loop_walks in Hs; [exact (Hs target path H)|].
    intros n p. simpl. destruct (Z.eqb_spec n source) as [->|_]; [|discriminate].
    intros [= <-]. split; [reflexivity|]. split; [reflexivity|constructor].
Qed.

(** X20.  A path that the search for a shortest path returns is a walk
    in the graph that was searched: it starts at the source, ends at the
    target, and every two consecutive nodes are joined by an edge of that
    graph. *)
Theorem shortest_path_is_walk (G : MultiDiGraph) (source target : Node)
    (path : list Node) :
  nx_shortest_path G source target = Ok path -> is_walk G source target path.
Proof.
  unfold nx_shortest_path. destruct (Z.eqb_spec source target) as [<-|Hne].
  - intros [= <-]. split; [reflexivity|]. split; [reflexivity|constructor].
  - intros H. bind_inv H s Hs. apply of_option_Ok in H.
    eapply dijkstra_loop_walks in Hs; [exact (Hs target path H)|].
    intros n p. simpl. destruct (Z.eqb_spec n source) as [->|_]; [|discriminate].
    intros [= <-]. split; [reflexivity|]. split; [reflexivity|constructor].
Qed.

Lemma shortest_path_is_walk_witness :
  nx_shortest_path (CreateDirectedMultiGraph path_streets) 1%Z 3%Z = Ok [1; 2; 3]%Z /\
  is_walk (CreateDirectedMultiGraph path_streets) 1%Z 3%Z [1; 2; 3]%Z.
Proof.
  assert (H : nx_shortest_path (CreateDirectedMultiGraph path_streets) 1%Z 3%Z
              = Ok [1; 2; 3]%Z) by (vm_compute; reflexivity).
  split; [exact H|]. exact (shortest_path_is_walk _ _ _ _ H).
Defined.

Lemma odict_rel_get_l {K V : Type} (eqb : K -> K -> bool) (R : V -> V -> Prop) (k : K)
    (d d' : list (K * V)) (v : V) :
  odict_rel R d d' -> odict_get eqb k d = Some v ->
  exists v', odict_get eqb k d' = Some v' /\ R v v'.
Proof.
  intros Hrel Hv. pose proof (odict_rel_get eqb R k d d' Hrel) as H. rewrite Hv in H.
  destruct (odict_get eqb k d') as [v'|]; [eauto|contradiction].
Qed.

Lemma odict_rel_get_r {K V : Type} (eqb : K -> K -> bool) (R : V -> V -> Prop) (k : K)
    (d d' : list (K * V)) (v' : V) :
  odict_rel R d d' -> odict_get eqb k d' = Some v' ->
  exists v, odict_get eqb k d = Some v /\ R v v'.
Proof.
  intros Hrel Hv. pose proof (odict_rel_get eqb R k d d' Hrel) as H. rewrite Hv in H.
  destruct (odict_get eqb k d) as [v|]; [eauto|contradiction].
Qed.

Lemma accumulated_pair_has_key0 (P : Q -> Prop) (fcStreets : list StreetRow)
    (G : MultiDiGraph) (u v : Node) :
  accumulates P (CreateDirectedMultiGraph fcStreets) G -> joined G u v ->
  exists data, get_edge_data G u v = Some data /\ is_Some (odict_get Nat.eqb O data).
Proof.
  intros Hacc (k & d & He).
  pose proof (accumulates_wf _ _ _ Hacc (CreateDirectedMultiGraph_wf fcStreets)) as Hwf.
  pose proof (accumulates_same_shape _ _ _ Hacc) as Hs.
  apply elem_of_edges in He as (adj & kd & Hu & Hv & _). simpl in *.
  pose proof (get_edge_data_wf G u v adj kd Hwf Hu Hv) as Hdata.
  exists kd. split; [exact Hdata|].
  unfold get_edge_data in Hdata.
  destruct (odict_get Z.eqb u G) as [adj1|] eqn:Eadj; [|discriminate]. simpl in Hdata.
  destruct (odict_rel_get_r Z.eqb _ u _ G adj1 Hs Eadj) as (adj0 & Eadj0 & H1).
  destruct (odict_rel_get_r Z.eqb _ v adj0 adj1 kd H1 Hdata) as (kd0 & Ekd0 & H2).
  assert (Hdata0 : get_edge_data (CreateDirectedMultiGraph fcStreets) u v = Some kd0).
  { unfold get_edge_data. rewrite Eadj0. exact Ekd0. }
  destruct (keys_from_zero_first _ u v kd0 (CreateDirectedMultiGraph_keys fcStreets) Hdata0)
    as [d0 Hd0].
  destruct (odict_rel_get_l Nat.eqb _ O kd0 kd d0 H2 Hd0) as (d1 & Hd1 & _).
  eauto.
Qed.

(** X21.  At every point of a run, a path that the search finds on the
    graph, or on a graph that joins only nodes that the graph joins, as a
    route's subgraph does, is resolved by [GetTLINK]: every pair of
    consecutive nodes has its key dict and the edge of key 0 in it, so the
    [try] block ends with [tlinks] bound to one link id per pair. *)
Theorem found_path_resolves (P : Q -> Prop) (fcStreets : list StreetRow)
    (view : MultiDiGraph) (dictRouteLinks : list Z) (source target : Node)
    (path : list Node) (st : State) :
  accumulates P (CreateDirectedMultiGraph fcStreets) (st_G st) ->
  (forall u v, joined view u v -> joined (st_G st) u v) ->
  nx_shortest_path view source target = Ok path ->
  exists tlinks,
    GetTLINK (st_G st) path dictRouteLinks = Ok tlinks /\
    length tlinks = (length path - 1)%nat /\
    find_tlinks nx_shortest_path view dictRouteLinks source target st
      = Ok (set_tlinks (Some <$> tlinks) st).
Proof.
  intros Hacc Hview Hpath.
  destruct (nx_shortest_path_walk _ _ _ _ Hpath) as (_ & _ & Hsteps).
  assert (Hres : exists tlinks, GetTLINK (st_G st) path dictRouteLinks = Ok tlinks /\
                   Forall2 (fun _ _ => True) (combine (removelast path) (tail path)) tlinks).
  { unfold GetTLINK. apply mapM_result_Forall2.
    eapply Forall_impl; [exact Hsteps|]. intros [u v] Huv. simpl in *.
    destruct (accumulated_pair_has_key0 P fcStreets (st_G st) u v Hacc (Hview u v Huv))
      as (data & Hd & H0).
    destruct (pair_tlink_resolves (st_G st) dictRouteLinks (u, v) data Hd H0)
      as (tlink & Ht & _).
    eauto. }
  destruct Hres as (tlinks & Htl & Hlen). exists tlinks. split; [exact Htl|]. split.
  - apply Forall2_length in Hlen. rewrite <- Hlen. apply length_consecutive_pairs.
  - unfold find_tlinks. rewrite Hpath. cbn [mbind result_bind]. rewrite Htl. reflexivity.
Qed.

Lemma found_path_resolves_witness :
  let G := CreateDirectedMultiGraph path_streets in
  let st := mkState G ∅ None 0 [] [] in
  accumulates (fun _ => True) G (st_G st) /\
  (forall u v, joined G u v -> joined (st_G st) u v) /\
  nx_shortest_path G 1%Z 3%Z = Ok [1; 2; 3]%Z /\
  exists tlinks,
    GetTLINK G [1; 2; 3]%Z [101%Z] = Ok tlinks /\
    length tlinks = 2%nat /\
    find_tlinks nx_shortest_path G [101%Z] 1%Z 3%Z st = Ok (set_tlinks (Some <$> tlinks) st).
Proof.
  intros G st.
  assert (Hpath : nx_shortest_path G 1%Z 3%Z = Ok [1; 2; 3]%Z) by (vm_compute; reflexivity).
  split; [apply accumulates_refl|]. split; [auto|]. split; [exact Hpath|].
  exact (found_path_resolves (fun _ => True) path_streets G [101%Z] 1%Z 3%Z [1; 2; 3]%Z st
           (accumulates_refl _ _) (fun u v Huv => Huv) Hpath).
Defined.

Lemma entry_lt_le (a b : HeapEntry) : entry_lt a b = true -> (fst (fst a) <= fst (fst b))%Q.
Proof.
  unfold entry_lt. intros H. apply orb_true_iff in H as [H|H].
  - apply Qlt_le_weak, Qlt_bool_true, H.
  - apply andb_true_iff in H as [H _]. apply Qeq_bool_iff in H. rewrite H. apply Qle_refl.
Qed.

Lemma entry_lt_false_le (a b : HeapEntry) :
  entry_lt a b = false -> (fst (fst b) <= fst (fst a))%Q.
Proof.
  unfold entry_lt. intros H. apply orb_false_iff in H as [H _].
  apply Qlt_bool_false, H.
Qed.

(** [heappop] takes an entry of least distance out of the fringe. *)
Lemma heappop_min (fringe rest : list HeapEntry) (m : HeapEntry) :
  heappop fringe = Some (m, rest) ->
  m ∈ fringe /\ (forall e, e ∈ rest -> e ∈ fringe) /\
  (forall e, e ∈ fringe -> e = m \/ e ∈ rest) /\
  (forall e, e ∈ rest -> (fst (fst m) <= fst (fst e))%Q).
Proof.
  revert m rest. induction fringe as [|x fringe IH]; intros m rest; simpl; [discriminate|].
  destruct (heappop fringe) as [[m' rest']|] eqn:E.
  - destruct (IH m' rest' eq_refl) as (Hin & Hsub & Hall & Hmin).
    destruct (entry_lt m' x) eqn:Hlt; intros [= <- <-].
    + split; [apply list_elem_of_further, Hin|]. split; [|split].
      * intros e He. apply elem_of_cons in He as [->|He];
          [apply list_elem_of_here|apply list_elem_of_further, Hsub, He].
      * intros e He. apply elem_of_cons in He as [->|He].
        -- right. apply list_elem_of_here.
        -- destruct (Hall e He) as [?|?]; [auto|]. right. apply list_elem_of_further.
           assumption.
      * intros e He. apply elem_of_cons in He as [->|He];
          [apply entry_lt_le, Hlt|apply Hmin, He].
    + split; [apply list_elem_of_here|]. split; [|split].
      * intros e He. apply list_elem_of_further, He.
      * intros e He. apply elem_of_cons in He as [->|He]; auto.
      * intros e He. apply entry_lt_false_le in Hlt.
        destruct (Hall e He) as [->|Hr]; [exact Hlt|].
        eapply Qle_trans; [exact Hlt|apply Hmin, Hr].
  - intros [= <- <-]. split; [apply list_elem_of_here|]. split; [|split].
    + intros e He. inversion He.
    + intros e He. destruct fringe as [|y fringe].
      * apply list_elem_of_singleton in He. auto.
      * simpl in E. destruct (heappop fringe) as [[? ?]|]; [|discriminate].
        destruct (entry_lt _ _); discriminate.
    + intros e He. inversion He.
Qed.

Lemma get_weight_nonneg (data : KeyDict) :
  data <> [] -> Forall (fun x : nat * EdgeData => (0 <= cost (snd x))%Q) data ->
  exists w, get_weight data = Ok w /\ (0 <= w)%Q.
Proof.
  intros Hne Hall. destruct data as [|kd data]; [contradiction|].
  apply Forall_cons in Hall as [Hkd Hall]. simpl. eexists. split; [reflexivity|].
  clear Hne. revert Hkd. generalize (cost (snd kd)) as m.
  induction Hall as [|kd' data Hkd' _ IH]; intros m Hm; simpl; [exact Hm|].
  apply IH. destruct (Qlt_bool (cost (snd kd')) m); assumption.
Qed.

Lemma Qlt_bool_le (a b : Q) : (a <= b)%Q -> Qlt_bool b a = false.
Proof.
  intros H. unfold Qlt_bool. apply negb_false_iff, Qle_bool_iff, H.
Qed.

Lemma Qle_plus_nonneg (a d w : Q) : (a <= d)%Q -> (0 <= w)%Q -> (a <= d + w)%Q.
Proof.
  intros Had Hw. rewrite <- (Qplus_0_r a). apply Qplus_le_compat; assumption.
Qed.

Section Search.
Variable V : MultiDiGraph.

Lemma discover_settled (v u : Node) (vu_dist : Q) (s : Search) :
  settled_first s -> (forall u' du, (u', du) ∈ s_dist s -> (du <= vu_dist)%Q) ->
  match discover v u vu_dist s with
  | Ok s' => settled_first s' /\ s_dist s' = s_dist s
  | Raise e => e = KeyError
  end.
Proof.
  intros Hs Hd. unfold discover.
  destruct (odict_get Z.eqb v (s_paths s)) as [pv|]; simpl; [|reflexivity].
  split; [|reflexivity]. intros u' du e Hu He. cbn [s_dist s_fringe] in *.
  apply elem_of_cons in He as [->|He]; [apply (Hd u' du Hu)|apply (Hs u' du e Hu He)].
Qed.

Lemma relax_settled (v : Node) (d : Q) (adj : AdjDict) (ue : Node * KeyDict) (s : Search) :
  view_ok V -> (v, adj) ∈ V -> ue ∈ adj ->
  settled_first s -> (forall u du, (u, du) ∈ s_dist s -> (du <= d)%Q) ->
  match relax v d s ue with
  | Ok s' => settled_first s' /\ s_dist s' = s_dist s
  | Raise e => e = KeyError
  end.
Proof.
  intros Hok Hadj Hue Hs Hd. destruct ue as [u kd].
  destruct (Hok v adj u kd Hadj Hue) as [Hne Hcost].
  destruct (get_weight_nonneg kd Hne Hcost) as (w & Hw & Hw0).
  unfold relax. cbn [fst snd]. rewrite Hw. cbn [mbind result_bind].
  assert (Hd' : forall u' du, (u', du) ∈ s_dist s -> (du <= d + w)%Q).
  { intros u' du Hu. apply Qle_plus_nonneg; [apply (Hd u' du Hu)|exact Hw0]. }
  destruct (odict_get Z.eqb u (s_dist s)) as [du|] eqn:Edu.
  - apply odict_get_elem in Edu. rewrite (Qlt_bool_le _ _ (Hd' u du Edu)). auto.
  - destruct (odict_get Z.eqb u (s_seen s)) as [su|].
    + destruct (Qlt_bool (d + w) su); [|auto]. apply discover_settled; assumption.
    + apply discover_settled; assumption.
Qed.

Lemma relax_all_settled (v : Node) (d : Q) (adj : AdjDict) (l : list (Node * KeyDict))
    (s : Search) :
  view_ok V -> (v, adj) ∈ V -> Forall (fun ue => ue ∈ adj) l ->
  settled_first s -> (forall u du, (u, du) ∈ s_dist s -> (du <= d)%Q) ->
  match for_each (relax v d) l s with
  | Ok s' => settled_first s' /\ s_dist s' = s_dist s
  | Raise e => e = KeyError
  end.
Proof.
  intros Hok Hadj Hl. revert s. induction Hl as [|ue l Hue _ IH]; intros s Hs Hd; simpl.
  - auto.
  - pose proof (relax_settled v d adj ue s Hok Hadj Hue Hs Hd) as H.
    destruct (relax v d s ue) as [s1|e]; simpl; [|exact H].
    destruct H as [Hs1 Hd1]. specialize (IH s1 Hs1). rewrite Hd1 in IH.
    specialize (IH Hd). destruct (for_each (relax v d) l s1); [|exact IH].
    destruct IH as [? ->]. auto.
Qed.

Lemma dijkstra_loop_settled (fuel : nat) (target : Node) (s : Search) :
  view_ok V -> settled_first s ->
  match dijkstra_loop fuel V target s with
  | Ok _ => True
  | Raise e => e = KeyError \/ e = OutOfFuel
  end.
Proof.
  intros Hok. revert s. induction fuel as [|fuel IH]; intros s Hs; simpl; [auto|].
  destruct (heappop (s_fringe s)) as [[[[d c] v] rest]|] eqn:Epop; [|exact I].
  destruct (heappop_min _ _ _ Epop) as (Hin & Hsub & _ & Hmin).
  cbn [s_dist s_seen s_paths s_fringe s_count].
  destruct (odict_mem Z.eqb v (s_dist s)).
  - apply IH. intros u du e Hu He. apply (Hs u du e Hu), Hsub, He.
  - destruct (v =? target)%Z; [exact I|].
    destruct (odict_get Z.eqb v V) as [adj|] eqn:Eadj; simpl; [|auto].
    apply odict_get_elem in Eadj.
    match goal with
    | |- context [for_each (relax v d) adj ?s2] =>
        assert (H : match for_each (relax v d) adj s2 with
                    | Ok s' => settled_first s' /\ s_dist s' = s_dist s2
                    | Raise e => e = KeyError
                    end)
    end.
    { apply (relax_all_settled v d adj adj); [exact Hok|exact Eadj|..].
      - apply Forall_forall. auto.
      - intros u du e Hu He. cbn [s_dist s_fringe] in *.
        apply elem_of_cons in Hu as [[= -> ->]|Hu]; [apply (Hmin e He)|].
        apply (Hs u du e Hu), Hsub, He.
      - intros u du Hu. cbn [s_dist] in Hu.
        apply elem_of_cons in Hu as [[= -> ->]|Hu]; [apply Qle_refl|].
        apply (Hs u du (d, c, v) Hu Hin). }
    match type of H with
    | match ?c with _ => _ end => destruct c as [s3|e]
    end; simpl.
    + apply IH, H.
    + left. exact H.
Qed.

Hypothesis V_closed : closed V.

Lemma discover_known (v u : Node) (vu_dist : Q) (s : Search) :
  fringe_known V s -> is_Some (odict_get Z.eqb v (s_paths s)) ->
  is_Some (odict_get Z.eqb u V) ->
  exists s', discover v u vu_dist s = Ok s' /\ fringe_known V s' /\
             is_Some (odict_get Z.eqb v (s_paths s')).
Proof.
  intros Hs [pv Hpv] Hu. unfold discover. rewrite Hpv. simpl.
  eexists. split; [reflexivity|]. cbn [s_fringe s_paths].
  assert (Hkeep : forall n, is_Some (odict_get Z.eqb n (s_paths s)) ->
            is_Some (odict_get Z.eqb n (odict_set Z.eqb u (pv ++ [u]) (s_paths s)))).
  { intros n Hn. rewrite odict_get_set_Z. destruct (n =? u)%Z; [eauto|exact Hn]. }
  split; [|apply Hkeep; eauto].
  intros e He. cbn [s_fringe s_paths] in *. apply elem_of_cons in He as [->|He].
  - split; [exact Hu|]. cbn [snd]. rewrite odict_get_set_Z, Z.eqb_refl. eauto.
  - destruct (Hs e He) as [H1 H2]. split; [exact H1|apply Hkeep, H2].
Qed.

Lemma relax_known (v : Node) (d : Q) (adj : AdjDict) (ue : Node * KeyDict) (s : Search) :
  (v, adj) ∈ V -> ue ∈ adj ->
  fringe_known V s -> is_Some (odict_get Z.eqb v (s_paths s)) ->
  match relax v d s ue with
  | Ok s' => fringe_known V s' /\ is_Some (odict_get Z.eqb v (s_paths s'))
  | Raise e => e <> KeyError
  end.
Proof.
  intros Hadj Hue Hs Hv. destruct ue as [u kd].
  pose proof (V_closed v adj u kd Hadj Hue) as Hu.
  unfold relax. cbn [fst snd].
  destruct (get_weight kd) as [w|e] eqn:Hw; simpl.
  - destruct (odict_get Z.eqb u (s_dist s)) as [du|].
    + destruct (Qlt_bool (d + w) du); [discriminate|auto].
    + destruct (odict_get Z.eqb u (s_seen s)) as [su|].
      * destruct (Qlt_bool (d + w) su); [|auto].
        destruct (discover_known v u (d + w) s Hs Hv Hu) as (s' & -> & H); exact H.
      * destruct (discover_known v u (d + w) s Hs Hv Hu) as (s' & -> & H); exact H.
  - unfold get_weight in Hw. destruct kd; [|discriminate]. injection Hw as <-. discriminate.
Qed.

Lemma relax_all_known (v : Node) (d : Q) (adj : AdjDict) (l : list (Node * KeyDict))
    (s : Search) :
  (v, adj) ∈ V -> Forall (fun ue => ue ∈ adj) l ->
  fringe_known V s -> is_Some (odict_get Z.eqb v (s_paths s)) ->
  match for_each (relax v d) l s with
  | Ok s' => fringe_known V s'
  | Raise e => e <> KeyError
  end.
Proof.
  intros Hadj Hl. revert s. induction Hl as [|ue l Hue _ IH]; intros s Hs Hv; simpl.
  - exact Hs.
  - pose proof (relax_known v d adj ue s Hadj Hue Hs Hv) as H.
    destruct (relax v d s ue) as [s1|e]; simpl; [|exact H].
    destruct H as [Hs1 Hv1]. apply IH; assumption.
Qed.

Lemma dijkstra_loop_known (fuel : nat) (target : Node) (s : Search) :
  fringe_known V s ->
  match dijkstra_loop fuel V target s with
  | Ok _ => True
  | Raise e => e <> KeyError
  end.
Proof.
  revert s. induction fuel as [|fuel IH]; intros s Hs; simpl; [discriminate|].
  destruct (heappop (s_fringe s)) as [[[[d c] v] rest]|] eqn:Epop; [|exact I].
  destruct (heappop_min _ _ _ Epop) as (Hin & Hsub & _ & _).
  cbn [s_dist s_seen s_paths s_fringe s_count].
  destruct (Hs _ Hin) as [[adj Hadj] Hpath]. cbn [snd] in Hadj, Hpath.
  assert (Hrest : forall dist,
            fringe_known V (mkSearch dist (s_seen s) (s_paths s) rest (s_count s))).
  { intros dist e He. apply (Hs e), Hsub, He. }
  destruct (odict_mem Z.eqb v (s_dist s)); [apply IH, Hrest|].
  destruct (v =? target)%Z; [exact I|].
  rewrite Hadj. simpl. apply odict_get_elem in Hadj.
  match goal with
  | |- context [for_each (relax v d) adj ?s2] =>
      assert (H : match for_each (relax v d) adj s2 with
                  | Ok s' => fringe_known V s'
                  | Raise e => e <> KeyError
                  end)
  end.
  { apply (relax_all_known v d adj adj); [exact Hadj| |apply Hrest|exact Hpath].
    apply Forall_forall. auto. }
  match type of H with
  | match ?c with _ => _ end => destruct c as [s3|e]
  end; simpl.
  - apply IH, H.
  - exact H.
Qed.
End Search.

(** On a graph whose key dicts hold edges of costs that are not negative,
    the search raises nothing but [KeyError] and [NetworkXNoPath]; it
    does not raise [KeyError] either when the source is a node and every
    successor is a node. *)
Lemma nx_shortest_path_raises (V : MultiDiGraph) (source target : Node) (e : Exn) :
  view_ok V -> nx_shortest_path V source target = Raise e ->
  (e = KeyError \/ e = NetworkXNoPath) /\
  (closed V -> is_Some (odict_get Z.eqb source V) -> e = NetworkXNoPath).
Proof.
  intros Hok H. pose proof (nx_shortest_path_fuel V source target) as Hfuel.
  unfold nx_shortest_path in *. destruct (source =? target)%Z; [discriminate|].
  set (s0 := mkSearch [] [(source, 0%Q)] [(source, [source])] [(0%Q, O, source)] 1) in *.
  assert (H0 : settled_first s0) by (intros u du x Hu; inversion Hu).
  pose proof (dijkstra_loop_settled V (search_fuel V) target s0 Hok H0) as Hset.
  assert (Hkn : closed V -> is_Some (odict_get Z.eqb source V) ->
                match dijkstra_loop (search_fuel V) V target s0 with
                | Ok _ => True
                | Raise e => e <> KeyError
                end).
  { intros Hc Hsrc. apply dijkstra_loop_known; [exact Hc|].
    intros x Hx. apply list_elem_of_singleton in Hx as ->. cbn [snd s0 s_paths].
    split; [exact Hsrc|]. simpl. rewrite Z.eqb_refl. eauto. }
  destruct (dijkstra_loop (search_fuel V) V target s0) as [s|e'].
  - simpl in H. destruct (odict_get Z.eqb target (s_paths s)); [discriminate|].
    injection H as <-. auto.
  - simpl in *. injection H as <-. destruct Hset as [->| ->]; [|contradiction].
    split; [auto|]. intros Hc Hsrc. exfalso. exact (Hkn Hc Hsrc eq_refl).
Qed.

Lemma odict_get_is_Some {V : Type} (k : Z) (d : list (Z * V)) :
  k ∈ map fst d -> is_Some (odict_get Z.eqb k d).
Proof.
  intros Hk. destruct (odict_get Z.eqb k d) eqn:E; [eauto|].
  exfalso. exact (odict_get_None_keys k d E Hk).
Qed.

Lemma odict_get_key_elem {V : Type} (k : Z) (d : list (Z * V)) :
  is_Some (odict_get Z.eqb k d) -> k ∈ map fst d.
Proof.
  intros [v Hv]. apply odict_get_elem in Hv. apply list_elem_of_fmap. exists (k, v). auto.
Qed.

Lemma odict_set_keys_same {V : Type} (k : Z) (v : V) (d : list (Z * V)) :
  k ∈ map fst d -> map fst (odict_set Z.eqb k v d) = map fst d.
Proof.
  intros Hk. rewrite odict_set_keys. destruct (odict_get_is_Some k d Hk) as [v' ->].
  reflexivity.
Qed.

Lemma successors_in_mono (K K' : list Node) (G : MultiDiGraph) :
  (forall n, n ∈ K -> n ∈ K') -> successors_in K G -> successors_in K' G.
Proof.
  intros HK HG. eapply Forall_impl; [exact HG|]. intros ua Hua.
  eapply Forall_impl; [exact Hua|]. intros vk. apply HK.
Qed.

Lemma add_node_keys_incl (G : MultiDiGraph) (n m : Node) :
  m ∈ map fst G -> m ∈ map fst (add_node G n).
Proof.
  unfold add_node. destruct (has_node G n); [auto|].
  intros H. rewrite map_app. apply elem_of_app. auto.
Qed.

Lemma add_node_key (G : MultiDiGraph) (n : Node) : n ∈ map fst (add_node G n).
Proof.
  unfold add_node, has_node, odict_mem.
  destruct (odict_get Z.eqb n G) eqn:E.
  - apply odict_get_key_elem. eauto.
  - rewrite map_app. apply elem_of_app. right. apply list_elem_of_here.
Qed.

Lemma add_node_closed (G : MultiDiGraph) (n : Node) :
  successors_in (map fst G) G -> successors_in (map fst (add_node G n)) (add_node G n).
Proof.
  intros HG.
  assert (H1 : successors_in (map fst (add_node G n)) G).
  { eapply successors_in_mono; [|exact HG]. intros m. apply add_node_keys_incl. }
  unfold add_node in *. destruct (has_node G n); [exact H1|].
  apply Forall_app. split; [exact H1|]. repeat constructor.
Qed.

Lemma add_edge_nodes (G : MultiDiGraph) (u v : Node) (d : EdgeData) :
  map fst (add_edge G u v d) = map fst (add_node (add_node G u) v).
Proof.
  unfold add_edge.
  assert (Hu : u ∈ map fst (add_node (add_node G u) v))
    by (apply add_node_keys_incl, add_node_key).
  destruct (odict_get Z.eqb v _); apply odict_set_keys_same, Hu.
Qed.

Lemma add_edge_closed (G : MultiDiGraph) (u v : Node) (d : EdgeData) :
  successors_in (map fst G) G ->
  successors_in (map fst (add_edge G u v d)) (add_edge G u v d).
Proof.
  intros HG. rewrite add_edge_nodes. unfold add_edge.
  set (G1 := add_node (add_node G u) v).
  assert (HG1 : successors_in (map fst G1) G1) by (apply add_node_closed, add_node_closed, HG).
  assert (Hv : v ∈ map fst G1) by apply add_node_key.
  assert (Hadj : Forall (fun vk : Node * KeyDict => fst vk ∈ map fst G1)
                        (default [] (odict_get Z.eqb u G1))).
  { destruct (odict_get Z.eqb u G1) as [adj|] eqn:E; simpl; [|constructor].
    destruct (odict_get_Forall Z.eqb _ u adj G1 HG1 E) as (k' & H). exact H. }
  destruct (odict_get Z.eqb v _);
    (apply odict_set_Forall; [exact HG1|]); apply odict_set_Forall; assumption.
Qed.

Lemma CreateDirectedMultiGraph_closed (fcStreets : list StreetRow) :
  successors_in (map fst (CreateDirectedMultiGraph fcStreets))
                (CreateDirectedMultiGraph fcStreets).
Proof.
  unfold CreateDirectedMultiGraph.
  assert (Hnil : successors_in (map fst ([] : MultiDiGraph)) []) by constructor.
  revert Hnil. generalize ([] : MultiDiGraph) as G.
  induction fcStreets as [|row rows IH]; intros G HG; simpl; [exact HG|].
  apply IH. unfold add_street.
  destruct (FR_TPOINT row), (TO_TPOINT row); try exact HG.
  destruct (CAR_FLOW row =? 2)%Z; [|destruct (CAR_FLOW row =? 1)%Z];
    repeat apply add_edge_closed; exact HG.
Qed.

Lemma add_node_key_dicts (P : KeyDict -> Prop) (G : MultiDiGraph) (n : Node) :
  all_key_dicts P G -> all_key_dicts P (add_node G n).
Proof.
  intros HG. unfold add_node. destruct (has_node G n); [exact HG|].
  apply Forall_app. split; [exact HG|]. repeat constructor.
Qed.

Lemma add_edge_costs (G : MultiDiGraph) (u v : Node) (d : EdgeData) :
  (0 <= cost d)%Q -> all_key_dicts key_dict_ok G -> all_key_dicts key_dict_ok (add_edge G u v d).
Proof.
  intros Hd HG. unfold add_edge.
  set (G1 := add_node (add_node G u) v).
  assert (HG1 : all_key_dicts key_dict_ok G1) by (apply add_node_key_dicts, add_node_key_dicts, HG).
  assert (Hadj : Forall (fun vk : Node * KeyDict => key_dict_ok (snd vk))
                        (default [] (odict_get Z.eqb u G1))).
  { destruct (odict_get Z.eqb u G1) as [adj|] eqn:E; simpl; [|constructor].
    destruct (odict_get_Forall Z.eqb _ u adj G1 HG1 E) as (k' & H). exact H. }
  destruct (odict_get Z.eqb v _) as [kd|] eqn:Hv.
  - apply odict_set_Forall; [exact HG1|]. apply odict_set_Forall; [exact Hadj|].
    destruct (odict_get_Forall Z.eqb _ v kd _ Hadj Hv) as (k' & _ & Hkd). simpl in Hkd.
    simpl. split; [destruct kd; discriminate|].
    apply Forall_app. split; [exact Hkd|]. repeat constructor. exact Hd.
  - apply odict_set_Forall; [exact HG1|]. apply odict_set_Forall; [exact Hadj|].
    simpl. split; [discriminate|]. repeat constructor. exact Hd.
Qed.

Lemma CreateDirectedMultiGraph_costs (fcStreets : list StreetRow) :
  costs_nonneg fcStreets -> all_key_dicts key_dict_ok (CreateDirectedMultiGraph fcStreets).
Proof.
  unfold CreateDirectedMultiGraph.
  assert (Hnil : all_key_dicts key_dict_ok []) by constructor.
  revert Hnil. generalize ([] : MultiDiGraph) as G.
  induction fcStreets as [|row rows IH]; intros G HG Hrows; simpl; [exact HG|].
  apply Forall_cons in Hrows as [Hrow Hrows].
  apply IH; [|exact Hrows]. unfold add_street.
  destruct (FR_TPOINT row), (TO_TPOINT row); try exact HG.
  destruct (CAR_FLOW row =? 2)%Z; [|destruct (CAR_FLOW row =? 1)%Z];
    repeat apply add_edge_costs; try exact HG; exact Hrow.
Qed.

Lemma odict_rel_elem_r {K V : Type} (R : V -> V -> Prop) (d d' : list (K * V)) (k : K)
    (v' : V) :
  odict_rel R d d' -> (k, v') ∈ d' -> exists v, (k, v) ∈ d /\ R v v'.
Proof.
  induction 1 as [|[k0 v0] [k1 v1] d d' [Hk HR] _ IH]; intros Hin; [inversion Hin|].
  simpl in Hk, HR. subst k1. apply elem_of_cons in Hin as [[= -> ->]|Hin].
  - exists v0. split; [apply list_elem_of_here|exact HR].
  - destruct (IH Hin) as (v & Hv & HRv). exists v. split; [apply list_elem_of_further, Hv|].
    exact HRv.
Qed.

Lemma key_dict_ok_same (kd0 kd : KeyDict) :
  odict_rel same_edge kd0 kd -> key_dict_ok kd0 -> key_dict_ok kd.
Proof.
  intros Hrel [Hne Hcost]. split.
  - intros ->. inversion Hrel. subst. contradiction.
  - clear Hne. induction Hrel as [|a b kd0 kd [_ [_ Hc]] _ IH]; [constructor|].
    apply Forall_cons in Hcost as [Ha Hcost]. constructor; [|exact (IH Hcost)].
    rewrite <- Hc. exact Ha.
Qed.

(** What the path search needs of the graph holds at every point of a
    run over streets without negative costs. *)
Lemma accumulated_view (P : Q -> Prop) (fcStreets : list StreetRow) (G : MultiDiGraph) :
  costs_nonneg fcStreets -> accumulates P (CreateDirectedMultiGraph fcStreets) G ->
  view_ok G /\ closed G.
Proof.
  intros Hcost Hacc.
  pose proof (accumulates_same_shape _ _ _ Hacc) as Hs.
  pose proof (same_shape_edges _ _ Hs) as [Hnodes _].
  pose proof (CreateDirectedMultiGraph_costs fcStreets Hcost) as Hkd.
  pose proof (CreateDirectedMultiGraph_closed fcStreets) as Hcl.
  assert (Hback : forall u adj v kd, (u, adj) ∈ G -> (v, kd) ∈ adj ->
            exists adj0 kd0, (u, adj0) ∈ CreateDirectedMultiGraph fcStreets /\
                             (v, kd0) ∈ adj0 /\ odict_rel same_edge kd0 kd).
  { intros u adj v kd Hu Hv.
    destruct (odict_rel_elem_r _ _ _ u adj Hs Hu) as (adj0 & Hu0 & Hadj).
    destruct (odict_rel_elem_r _ _ _ v kd Hadj Hv) as (kd0 & Hv0 & Hkd0). eauto. }
  split.
  - intros u adj v kd Hu Hv. destruct (Hback u adj v kd Hu Hv) as (adj0 & kd0 & Hu0 & Hv0 & Hrel).
    unfold all_key_dicts in Hkd. rewrite Forall_forall in Hkd.
    specialize (Hkd _ Hu0). simpl in Hkd. rewrite Forall_forall in Hkd.
    exact (key_dict_ok_same kd0 kd Hrel (Hkd _ Hv0)).
  - intros u adj v kd Hu Hv. destruct (Hback u adj v kd Hu Hv) as (adj0 & kd0 & Hu0 & Hv0 & _).
    unfold successors_in in Hcl. rewrite Forall_forall in Hcl.
    specialize (Hcl _ Hu0). cbn [snd] in Hcl. rewrite Forall_forall in Hcl.
    apply odict_get_is_Some. pose proof (Hcl _ Hv0) as Hv1. cbn [fst] in Hv1.
    rewrite Hnodes in Hv1. exact Hv1.
Qed.

Lemma same_shape_joined (G G' : MultiDiGraph) (u v : Node) :
  map edge_shape (edges G) = map edge_shape (edges G') -> joined G u v -> joined G' u v.
Proof.
  intros Hs (k & d & He).
  assert (Hin : edge_shape (u, v, k, d) ∈ map edge_shape (edges G')).
  { rewrite <- Hs. apply list_elem_of_fmap. eauto. }
  apply list_elem_of_fmap in Hin as ([[[u' v'] k'] d'] & Heq & He').
  unfold edge_shape in Heq. simpl in Heq. injection Heq as -> -> -> _ _.
  exists k', d'. exact He'.
Qed.

Lemma accumulated_joined (P : Q -> Prop) (G0 G : MultiDiGraph) (u v : Node) :
  accumulates P G0 G -> (joined G0 u v <-> joined G u v).
Proof.
  intros Hacc. pose proof (same_shape_edges _ _ (accumulates_same_shape _ _ _ Hacc)) as [_ Hs].
  split; apply same_shape_joined; [exact Hs|symmetry; exact Hs].
Qed.

Lemma joined_source_node (G : MultiDiGraph) (u v : Node) :
  joined G u v -> is_Some (odict_get Z.eqb u G).
Proof.
  intros (k & d & He). apply elem_of_edges in He as (adj & kd & Hu & _). simpl in Hu.
  apply odict_get_is_Some, list_elem_of_fmap. exists (u, adj). auto.
Qed.

Lemma subgraph_view_ok (G : MultiDiGraph) (nbunch : list Node) :
  view_ok G -> view_ok (subgraph G nbunch).
Proof.
  intros HG u adj' v kd Hu Hv. unfold subgraph in Hu.
  apply list_elem_of_fmap in Hu as ([u0 adj] & [= -> ->] & Hu).
  apply list_elem_of_filter in Hu as [_ Hu]. simpl in Hv.
  apply list_elem_of_filter in Hv as [_ Hv]. exact (HG u0 adj v kd Hu Hv).
Qed.

Section ViewPolicy.
Variable pop : KeyDict -> KeyDict.
Hypothesis pop_subseteq : forall (d : KeyDict) (x : nat * EdgeData), x ∈ pop d -> x ∈ d.

Lemma remove_edge_with_view_ok (H H' : MultiDiGraph) (u v : Node) :
  view_ok H -> remove_edge_with pop H u v = Ok H' -> view_ok H'.
Proof.
  unfold remove_edge_with. intros HH Hr.
  bind_inv Hr adj Hadj. bind_inv Hr d Hd. injection Hr as <-.
  apply of_option_Ok in Hadj, Hd. apply odict_get_elem in Hadj, Hd.
  intros u0 adj0 v0 kd0 Hu0 Hv0.
  apply elem_of_odict_set in Hu0 as [[= -> ->]|Hu0]; [|exact (HH u0 adj0 v0 kd0 Hu0 Hv0)].
  destruct (pop d) as [|x d'] eqn:Epop.
  - apply elem_of_odict_del in Hv0. exact (HH u adj v0 kd0 Hadj Hv0).
  - apply elem_of_odict_set in Hv0 as [[= -> ->]|Hv0]; [|exact (HH u adj v0 kd0 Hadj Hv0)].
    split; [discriminate|]. destruct (HH u adj v d Hadj Hd) as [_ Hcost].
    rewrite Forall_forall in Hcost. apply Forall_forall. intros y Hy.
    apply Hcost, pop_subseteq. rewrite Epop. exact Hy.
Qed.

Lemma remove_extraneous_with_view_ok (dictRouteLinks : list Z)
    (es : list (Node * Node * nat * EdgeData)) (H H' : MultiDiGraph) :
  view_ok H -> remove_extraneous_with pop dictRouteLinks es H = Ok H' -> view_ok H'.
Proof.
  revert H. induction es as [|[[[u v] k] d] es IH]; intros H HH; simpl.
  - intros [= <-]. exact HH.
  - destruct (bool_decide (link d ∈ dictRouteLinks)); [apply IH, HH|].
    intros Hr. bind_inv Hr H1 HH1.
    eapply IH; [|exact Hr]. eapply remove_edge_with_view_ok; eassumption.
Qed.

Lemma CreateSubgraph_with_view (G : MultiDiGraph) (r : Z)
    (dictRouteSegments : list (Z * list Z)) (dictRouteLinks : list Z)
    (dictRouteNodes : NodeDict) (H : MultiDiGraph) :
  view_ok G ->
  CreateSubgraph_with pop G r dictRouteSegments = Ok (dictRouteLinks, dictRouteNodes, H) ->
  view_ok H /\ (forall u v, joined H u v -> joined G u v) /\
  exists dictAllNodes, NodeLookup G = Ok dictAllNodes /\
    forall l uv, dictRouteNodes !! l = Some uv -> dictAllNodes !! l = Some uv.
Proof.
  unfold CreateSubgraph_with. intros HG Hc.
  apply or_exit_Ok in Hc. bind_inv Hc visited Hv. bind_inv Hc H' HH'.
  injection Hc as <- <- <-. split; [|split].
  - eapply remove_extraneous_with_view_ok; [|exact HH']. apply subgraph_view_ok, HG.
  - intros u v (k & d & He).
    eapply remove_extraneous_with_edges in He; [|exact pop_subseteq|exact HH'].
    apply elem_of_edges_subgraph in He as (He & _). exists k, d. exact He.
  - unfold NodeLookup. rewrite Hv. simpl. eexists. split; [reflexivity|]. intros l uv.
    rewrite (index_fold_lookup (fun _ => true)), lookup_empty.
    pose proof (index_fold_lookup
                  (fun k => bool_decide (k ∈ default [] (odict_get Z.eqb r dictRouteSegments)))
                  visited ∅ l) as Hroute.
    cbv beta in Hroute. rewrite Hroute, lookup_empty.
    destruct (last_where _ visited) as [e|]; [|discriminate].
    match goal with |- context [if ?b then _ else _] => destruct b end;
      [auto|discriminate].
Qed.
End ViewPolicy.

Lemma last_where_is_Some {A : Type} (p : A -> bool) (l : list A) (x : A) :
  x ∈ l -> p x = true -> is_Some (last_where p l).
Proof.
  induction l as [|y l IH]; intros Hx Hp; [inversion Hx|]. simpl.
  apply elem_of_cons in Hx as [<-|Hx].
  - destruct (last_where p l); [eauto|]. rewrite Hp. eauto.
  - destruct (IH Hx Hp) as [z ->]. eauto.
Qed.

Lemma NodeLookup_index_of (G : MultiDiGraph) (dictAllNodes : NodeDict) :
  graph_wf G -> NodeLookup G = Ok dictAllNodes -> index_of G dictAllNodes.
Proof.
  intros Hwf Hd. split.
  - intros l uv Hl.
    destruct (NodeLookup_pair_is_edge G dictAllNodes l uv Hwf Hd Hl)
      as ([[[u v] k] d] & He & <- & _).
    exists k, d. exact He.
  - intros e He. destruct (NodeLookup_of_wf_graph G Hwf) as (d & Hd' & Hlook).
    rewrite Hd in Hd'. injection Hd' as <-. rewrite Hlook. apply fmap_is_Some.
    apply (last_where_is_Some _ _ e He). apply Z.eqb_refl.
Qed.

Lemma get_edge_data_edge (G : MultiDiGraph) (u v : Node) (data : KeyDict) (k : nat)
    (d : EdgeData) :
  get_edge_data G u v = Some data -> (k, d) ∈ data -> (u, v, k, d) ∈ edges G.
Proof.
  unfold get_edge_data. intros Hdata Hk.
  destruct (odict_get Z.eqb u G) as [adj|] eqn:Eadj; [|discriminate]. simpl in Hdata.
  eapply edges_intro; [apply odict_get_elem, Eadj|apply odict_get_elem, Hdata|exact Hk].
Qed.

Lemma GetTLINK_on_walk (P : Q -> Prop) (fcStreets : list StreetRow) (G : MultiDiGraph)
    (path : list Node) (dictRouteLinks : list Z) :
  accumulates P (CreateDirectedMultiGraph fcStreets) G ->
  Forall (fun p : Node * Node => joined G (fst p) (snd p))
         (combine (removelast path) (tail path)) ->
  exists tlinks, GetTLINK G path dictRouteLinks = Ok tlinks /\
    Forall (fun t => exists e, e ∈ edges G /\ link (snd e) = t) tlinks.
Proof.
  intros Hacc Hsteps.
  assert (Hres : exists tlinks, GetTLINK G path dictRouteLinks = Ok tlinks /\
                   Forall2 (fun (_ : Node * Node) t =>
                              exists e, e ∈ edges G /\ link (snd e) = t)
                           (combine (removelast path) (tail path)) tlinks).
  { unfold GetTLINK. apply mapM_result_Forall2.
    eapply Forall_impl; [exact Hsteps|]. intros [u v] Huv. simpl in *.
    destruct (accumulated_pair_has_key0 P fcStreets G u v Hacc Huv) as (data & Hd & H0).
    destruct (pair_tlink_resolves G dictRouteLinks (u, v) data Hd H0) as (tlink & Ht & _).
    exists tlink. split; [exact Ht|].
    apply pair_tlink_Ok in Ht as (data' & [k d] & Hd' & Hkd & Hl). simpl in *.
    exists (u, v, k, d). split; [|exact Hl]. eapply get_edge_data_edge; eassumption. }
  destruct Hres as (tlinks & Ht & Hall). exists tlinks. split; [exact Ht|].
  clear Ht Hsteps. induction Hall as [|p t ps ts Hpt _ IH]; [apply Forall_nil_2|].
  apply Forall_cons. split; assumption.
Qed.

Lemma AdjustRidership_raises (ons offs total_on total_off : Z) (e : Exn) :
  AdjustRidership ons offs total_on total_off = Raise e -> e = ZeroDivisionError.
Proof.
  unfold AdjustRidership.
  destruct (total_on >? total_off)%Z;
    [destruct (total_off =? 0)%Z|destruct (total_on =? 0)%Z]; congruence.
Qed.

Lemma Forall_removelast {A : Type} (P : A -> Prop) (l : list A) :
  Forall P l -> Forall P (removelast l).
Proof.
  induction 1 as [|x l Hx Hl IH]; [constructor|]. simpl.
  destruct l; [constructor|]. constructor; assumption.
Qed.

Lemma Forall_tail {A : Type} (P : A -> Prop) (l : list A) : Forall P l -> Forall P (tail l).
Proof. destruct 1; [constructor|assumption]. Qed.

Section Abort.
Variable fcStreets : list StreetRow.
Hypothesis streets_ok : costs_nonneg fcStreets.
Variable dictAllNodes : NodeDict.
Hypothesis index_ok : index_of (CreateDirectedMultiGraph fcStreets) dictAllNodes.
Variable dictRouteSegments : list (Z * list Z).
Variable dictRouteMetrics : ByDir (gmap Z StopDict).
Variable dictRouteTotals : ByDir (gmap Z Totals).

Lemma add_total_joined (G : MultiDiGraph) (u v : Node) (x : Q) :
  accumulates (fun _ => True) (CreateDirectedMultiGraph fcStreets) G ->
  joined (CreateDirectedMultiGraph fcStreets) u v ->
  exists G', add_total G u v x = Ok G' /\
             accumulates (fun _ => True) (CreateDirectedMultiGraph fcStreets) G'.
Proof.
  intros Hacc (k & d & He).
  pose proof (CreateDirectedMultiGraph_wf fcStreets) as Hwf.
  apply elem_of_edges in He as (adj & kd & Hu & Hv & _). simpl in *.
  pose proof (get_edge_data_wf _ u v adj kd Hwf Hu Hv) as Hdata.
  pose proof (keys_from_zero_first _ u v kd (CreateDirectedMultiGraph_keys fcStreets) Hdata)
    as H0.
  destruct (add_total_of_same_shape _ G u v kd x (accumulates_same_shape _ _ _ Hacc)
              Hdata H0) as (G' & HG').
  exists G'. split; [exact HG'|]. eapply accumulates_trans; [exact Hacc|].
  eapply accumulates_step; [exact I|exact HG'|apply accumulates_refl].
Qed.

Lemma spread_safe (ps : list (option (Node * Node))) (x : Q) (G : MultiDiGraph) :
  accumulates (fun _ => True) (CreateDirectedMultiGraph fcStreets) G ->
  Forall (fun p => exists uv, p = Some uv /\
                     joined (CreateDirectedMultiGraph fcStreets) (fst uv) (snd uv)) ps ->
  exists G', spread ps x G = Ok G' /\
             accumulates (fun _ => True) (CreateDirectedMultiGraph fcStreets) G'.
Proof.
  intros Hacc Hps. revert G Hacc.
  induction Hps as [|p ps (uv & -> & Huv) _ IH]; intros G Hacc.
  - exists G. split; [reflexivity|exact Hacc].
  - destruct (add_total_joined G (fst uv) (snd uv) x Hacc Huv) as (G1 & HG1 & Hacc1).
    destruct (IH G1 Hacc1) as (G2 & HG2 & Hacc2). exists G2. split; [|exact Hacc2].
    cbn [spread of_option mbind result_bind]. rewrite HG1. exact HG2.
Qed.

Lemma indexed_tuple (t : option Z) :
  is_Some (node_tuple dictAllNodes t) ->
  exists uv, node_tuple dictAllNodes t = Some uv /\
             joined (CreateDirectedMultiGraph fcStreets) (fst uv) (snd uv).
Proof.
  intros [uv Huv]. exists uv. split; [exact Huv|].
  destruct t as [l|]; [|discriminate]. exact (proj1 index_ok l uv Huv).
Qed.

Lemma find_tlinks_safe (view : MultiDiGraph) (dictRouteLinks : list Z)
    (source target : Node) (st : State) :
  run_state (CreateDirectedMultiGraph fcStreets) dictAllNodes st -> view_ok view ->
  (forall u v, joined view u v -> joined (CreateDirectedMultiGraph fcStreets) u v) ->
  match find_tlinks nx_shortest_path view dictRouteLinks source target st with
  | Ok st' => run_state (CreateDirectedMultiGraph fcStreets) dictAllNodes st' /\
              st_dictRouteNodes st' = st_dictRouteNodes st
  | Raise e => e = KeyError /\ ~ (closed view /\ is_Some (odict_get Z.eqb source view))
  end.
Proof.
  intros (Hacc & Hnodes & Htl) Hview Hsub. unfold find_tlinks.
  destruct (nx_shortest_path view source target) as [path|e] eqn:Epath.
  - cbn [mbind result_bind].
    destruct (nx_shortest_path_walk _ _ _ _ Epath) as (_ & _ & Hsteps).
    destruct (GetTLINK_on_walk _ fcStreets (st_G st) path dictRouteLinks Hacc)
      as (tlinks & Ht & Hlinks).
    { eapply Forall_impl; [exact Hsteps|]. intros p Hp.
      apply (accumulated_joined _ _ _ _ _ Hacc), Hsub, Hp. }
    rewrite Ht. split; [|reflexivity]. split; [exact Hacc|]. split; [exact Hnodes|].
    intros tl [= <-]. apply Forall_fmap. eapply Forall_impl; [exact Hlinks|].
    intros t Ht'. cbn.
    apply (same_shape_links _ _ t (accumulates_same_shape _ _ _ Hacc)) in Ht'
      as (e0 & He0 & <-).
    exact (proj2 index_ok e0 He0).
  - cbn [mbind result_bind].
    destruct (nx_shortest_path_raises view source target e Hview Epath) as [[->| ->] Hcl].
    + split; [reflexivity|]. intros [Hc Hs]. specialize (Hcl Hc Hs). discriminate.
    + split; [|reflexivity]. split; [exact Hacc|]. split; assumption.
Qed.

Lemma whole_graph_fallback_safe (dictRouteLinks : list Z) (r : Z) (dir : Direction)
    (eSource eTarget : option Z) (st : State) :
  run_state (CreateDirectedMultiGraph fcStreets) dictAllNodes st ->
  exists st' stop,
    whole_graph_fallback nx_shortest_path dictAllNodes dictRouteLinks r dir
                         eSource eTarget st = Ok (st', stop) /\
    run_state (CreateDirectedMultiGraph fcStreets) dictAllNodes st' /\
    (stop = false -> is_Some (node_tuple (st_dictRouteNodes st') eSource)).
Proof.
  intros (Hacc & Hnodes & Htl).
  assert (H1 : run_state (CreateDirectedMultiGraph fcStreets) dictAllNodes
                         (set_dictRouteNodes dictAllNodes st)).
  { split; [exact Hacc|]. split; [|exact Htl]. intros l uv Hl. cbn in Hl.
    split; [exact (proj1 index_ok l uv Hl)|eauto]. }
  assert (Hmiss : run_state (CreateDirectedMultiGraph fcStreets) dictAllNodes
                    (append_MissingLink (r, dir) (set_dictRouteNodes dictAllNodes st)))
    by exact H1.
  unfold whole_graph_fallback. cbn [st_dictRouteNodes set_dictRouteNodes].
  destruct (node_tuple dictAllNodes eSource) as [src|] eqn:Es;
    [|eexists _, true; split; [reflexivity|]; split; [exact Hmiss|discriminate]].
  destruct (node_tuple dictAllNodes eTarget) as [tgt|] eqn:Et;
    [|eexists _, true; split; [reflexivity|]; split; [exact Hmiss|discriminate]].
  cbn [tuple_0 fmap option_fmap option_map of_option mbind result_bind].
  destruct (accumulated_view _ fcStreets (st_G st) streets_ok Hacc) as [Hview Hclosed].
  pose proof (find_tlinks_safe (st_G st) dictRouteLinks (fst src) (fst tgt)
                (set_dictRouteNodes dictAllNodes st) H1 Hview
                (fun u v => proj2 (accumulated_joined _ _ _ u v Hacc))) as Hfind.
  change (st_G (set_dictRouteNodes dictAllNodes st)) with (st_G st).
  destruct (find_tlinks nx_shortest_path (st_G st) dictRouteLinks (fst src) (fst tgt)
              (set_dictRouteNodes dictAllNodes st)) as [st2|e].
  - destruct Hfind as [Hst2 Hn2]. exists st2, false. split; [reflexivity|].
    split; [exact Hst2|]. intros _. rewrite Hn2. cbn. rewrite Es. eauto.
  - exfalso. destruct Hfind as [_ Hno]. apply Hno. split; [exact Hclosed|].
    destruct (indexed_tuple eSource) as (uv & Huv & Hj); [rewrite Es; eauto|].
    rewrite Es in Huv. injection Huv as <-.
    apply (accumulated_joined _ _ _ _ _ Hacc) in Hj. exact (joined_source_node _ _ _ Hj).
Qed.

Lemma locate_safe (subgraph : MultiDiGraph) (dictRouteLinks : list Z) (r : Z)
    (dir : Direction) (eSource eTarget : option Z) (st : State) :
  run_state (CreateDirectedMultiGraph fcStreets) dictAllNodes st -> view_ok subgraph ->
  (forall u v, joined subgraph u v -> joined (CreateDirectedMultiGraph fcStreets) u v) ->
  exists st' stop,
    locate nx_shortest_path dictAllNodes subgraph dictRouteLinks r dir eSource eTarget st
      = Ok (st', stop) /\
    run_state (CreateDirectedMultiGraph fcStreets) dictAllNodes st' /\
    (stop = false -> is_Some (node_tuple (st_dictRouteNodes st') eSource)).
Proof.
  intros Hst Hview Hsub.
  pose proof (whole_graph_fallback_safe dictRouteLinks r dir eSource eTarget st Hst) as Hfb.
  unfold locate.
  destruct (node_tuple (st_dictRouteNodes st) eSource) as [src|] eqn:Es; [|exact Hfb].
  destruct (node_tuple (st_dictRouteNodes st) eTarget) as [tgt|] eqn:Et; [|exact Hfb].
  cbn [tuple_0 fmap option_fmap option_map of_option mbind result_bind].
  pose proof (find_tlinks_safe subgraph dictRouteLinks (fst src) (fst tgt) st Hst Hview Hsub)
    as Hfind.
  destruct (find_tlinks nx_shortest_path subgraph dictRouteLinks (fst src) (fst tgt) st)
    as [st1|e].
  - destruct Hfind as [Hst1 Hn1]. exists st1, false. split; [reflexivity|].
    split; [exact Hst1|]. intros _. rewrite Hn1, Es. eauto.
  - destruct Hfind as [-> _]. exact Hfb.
Qed.

Lemma apportion_safe (r : Z) (dir : Direction) (total_on total_off : Z) (i : nat)
    (eSource eTarget : option Z) (ons offs : Z) (st : State) :
  run_state (CreateDirectedMultiGraph fcStreets) dictAllNodes st ->
  is_Some (node_tuple (st_dictRouteNodes st) eSource) ->
  match apportion dictAllNodes r dir total_on total_off i eSource eTarget ons offs st with
  | Ok st' => run_state (CreateDirectedMultiGraph fcStreets) dictAllNodes st'
  | Raise e => abort_cause e
  end.
Proof.
  intros (Hacc & Hnodes & Htl) [src Hsrc]. unfold apportion.
  destruct (st_tlinks st) as [tl|] eqn:Etl; [|left; reflexivity].
  cbn [of_option mbind result_bind].
  destruct (AdjustRidership ons offs total_on total_off) as [adjusted|e] eqn:Eadj;
    [|right; exact (AdjustRidership_raises _ _ _ _ _ Eadj)].
  cbn [mbind result_bind st_total st_G st_dictRouteNodes set_tlinks].
  rewrite Hsrc. cbn [of_option mbind result_bind].
  assert (Hsrc' : joined (CreateDirectedMultiGraph fcStreets) (fst src) (snd src) /\
                  is_Some (node_tuple dictAllNodes eSource)).
  { destruct eSource as [l|]; [|discriminate]. exact (Hnodes l src Hsrc). }
  destruct Hsrc' as [Hjoined Hknown].
  set (tlinks1 := if bool_decide (eSource ∈ tl) then tl else eSource :: tl).
  set (tlinks2 := if bool_decide (eTarget ∈ tlinks1) then removelast tlinks1 else tlinks1).
  assert (Hall : Forall (fun t => is_Some (node_tuple dictAllNodes t)) tlinks2).
  { assert (H1 : Forall (fun t => is_Some (node_tuple dictAllNodes t)) tlinks1).
    { unfold tlinks1. destruct (bool_decide (eSource ∈ tl)); [exact (Htl tl eq_refl)|].
      constructor; [exact Hknown|exact (Htl tl eq_refl)]. }
    unfold tlinks2. destruct (bool_decide (eTarget ∈ tlinks1)); [|exact H1].
    apply Forall_removelast, H1. }
  assert (Hps : Forall (fun p => exists uv, p = Some uv /\
                          joined (CreateDirectedMultiGraph fcStreets) (fst uv) (snd uv))
                       (tail (map (node_tuple dictAllNodes) tlinks2))).
  { apply Forall_tail, Forall_fmap. eapply Forall_impl; [exact Hall|].
    intros t Ht. exact (indexed_tuple t Ht). }
  match goal with
  | |- context [add_total (st_G st) (fst src) (snd src) ?x] =>
      destruct (add_total_joined (st_G st) (fst src) (snd src) x Hacc Hjoined)
        as (G1 & HG1 & Hacc1); rewrite HG1
  end.
  cbn [mbind result_bind].
  match goal with
  | |- context [if ?c then _ else _] => destruct c
  end.
  - match goal with
    | |- context [spread ?ps ?x G1] =>
        destruct (spread_safe ps x G1 Hacc1 Hps) as (G2 & HG2 & Hacc2); rewrite HG2
    end.
    cbn [mbind result_bind]. split; [exact Hacc2|]. split; [exact Hnodes|].
    intros tl' [= <-]. exact Hall.
  - match goal with
    | |- context [spread ?ps ?x G1] =>
        destruct (spread_safe ps x G1 Hacc1 Hps) as (G2 & HG2 & Hacc2); rewrite HG2
    end.
    cbn [mbind result_bind]. split; [exact Hacc2|]. split; [exact Hnodes|].
    intros tl' [= <-]. exact Hall.
Qed.

Lemma stop_pair_safe (subgraph : MultiDiGraph) (dictRouteLinks : list Z) (r : Z)
    (dir : Direction) (dictStops : StopDict) (total_on total_off : Z) (item : nat * Q)
    (st : State) :
  run_state (CreateDirectedMultiGraph fcStreets) dictAllNodes st -> view_ok subgraph ->
  (forall u v, joined subgraph u v -> joined (CreateDirectedMultiGraph fcStreets) u v) ->
  item ∈ enumerate (removelast (sorted (map fst dictStops))) ->
  match stop_pair nx_shortest_path dictAllNodes subgraph dictRouteLinks r dir dictStops
                  (sorted (map fst dictStops)) total_on total_off item st with
  | Ok res => run_state (CreateDirectedMultiGraph fcStreets) dictAllNodes (fst res)
  | Raise e => abort_cause e
  end.
Proof.
  intros Hst Hview Hsub Hitem. destruct item as [i s].
  apply elem_of_enumerate, lookup_removelast in Hitem as [Hs [s' Hs']].
  assert (Hin : forall j x, sorted (map fst dictStops) !! j = Some x ->
                  is_Some (odict_get Qeq_bool x dictStops)).
  { intros j x Hx. apply odict_get_key, elem_of_sorted.
    eapply list_elem_of_lookup_2, Hx. }
  destruct (Hin _ _ Hs) as [[[eSource ons] offs] Hsrc].
  destruct (Hin _ _ Hs') as [[[eTarget ons'] offs'] Htgt].
  unfold stop_pair. unfold StopData in *. rewrite Hsrc. cbn [of_option mbind result_bind].
  rewrite Hs'. cbn [of_option mbind result_bind]. rewrite Htgt.
  cbn [of_option mbind result_bind].
  destruct (locate_safe subgraph dictRouteLinks r dir eSource eTarget st Hst Hview Hsub)
    as (st1 & stop & Hloc & Hst1 & Hfound).
  rewrite Hloc. cbn [mbind result_bind]. destruct stop; [exact Hst1|].
  pose proof (apportion_safe r dir total_on total_off i eSource eTarget ons offs st1 Hst1
                (Hfound eq_refl)) as Happ.
  destruct (apportion dictAllNodes r dir total_on total_off i eSource eTarget ons offs st1);
    exact Happ.
Qed.

Lemma for_stops_safe (subgraph : MultiDiGraph) (dictRouteLinks : list Z) (r : Z)
    (dir : Direction) (dictStops : StopDict) (total_on total_off : Z)
    (items : list (nat * Q)) (st : State) :
  run_state (CreateDirectedMultiGraph fcStreets) dictAllNodes st -> view_ok subgraph ->
  (forall u v, joined subgraph u v -> joined (CreateDirectedMultiGraph fcStreets) u v) ->
  Forall (fun item => item ∈ enumerate (removelast (sorted (map fst dictStops)))) items ->
  match for_stops (stop_pair nx_shortest_path dictAllNodes subgraph dictRouteLinks r dir
                             dictStops (sorted (map fst dictStops)) total_on total_off)
                  items st with
  | Ok st' => run_state (CreateDirectedMultiGraph fcStreets) dictAllNodes st'
  | Raise e => abort_cause e
  end.
Proof.
  intros Hst Hview Hsub Hitems. revert st Hst.
  induction Hitems as [|item items Hitem _ IH]; intros st Hst; [exact Hst|].
  cbn [for_stops].
  pose proof (stop_pair_safe subgraph dictRouteLinks r dir dictStops total_on total_off
                item st Hst Hview Hsub Hitem) as Hpair.
  destruct (stop_pair nx_shortest_path dictAllNodes subgraph dictRouteLinks r dir dictStops
              (sorted (map fst dictStops)) total_on total_off item st) as [[st1 stop]|e];
    [|exact Hpair].
  cbn [mbind result_bind]. destruct stop; [exact Hpair|]. apply IH, Hpair.
Qed.

Lemma direction_safe (subgraph : MultiDiGraph) (dictRouteLinks : list Z) (r : Z)
    (st : State) (dir : Direction) :
  run_state (CreateDirectedMultiGraph fcStreets) dictAllNodes st -> view_ok subgraph ->
  (forall u v, joined subgraph u v -> joined (CreateDirectedMultiGraph fcStreets) u v) ->
  match direction nx_shortest_path dictRouteMetrics dictRouteTotals dictAllNodes subgraph
                  dictRouteLinks r st dir with
  | Ok st' => run_state (CreateDirectedMultiGraph fcStreets) dictAllNodes st'
  | Raise e => abort_cause e
  end.
Proof.
  intros Hst Hview Hsub. unfold direction.
  apply for_stops_safe; [exact Hst|exact Hview|exact Hsub|].
  apply Forall_forall. auto.
Qed.

Lemma route_safe (st : State) (r : Z) :
  run_state (CreateDirectedMultiGraph fcStreets) dictAllNodes st ->
  match route nx_shortest_path dictRouteSegments dictRouteMetrics dictRouteTotals
              dictAllNodes st r with
  | Ok st' => run_state (CreateDirectedMultiGraph fcStreets) dictAllNodes st'
  | Raise e => abort_cause e
  end.
Proof.
  intros (Hacc & Hnodes & Htl).
  pose proof (accumulates_wf _ _ _ Hacc (CreateDirectedMultiGraph_wf fcStreets)) as Hwf.
  destruct (accumulated_view _ fcStreets (st_G st) streets_ok Hacc) as [Hview _].
  unfold route, CreateSubgraph.
  destruct (CreateSubgraph_with_completes popitem popitem_length (st_G st) r
              dictRouteSegments Hwf) as (links & nodes & H & HH).
  rewrite HH. cbn [mbind result_bind].
  destruct (CreateSubgraph_with_view popitem (pop_at_subseteq (fun _ => O)) (st_G st) r
              dictRouteSegments links nodes H Hview HH)
    as (HviewH & Hsub & dG & HdG & Hrestr).
  assert (Hst1 : run_state (CreateDirectedMultiGraph fcStreets) dictAllNodes
                           (set_dictRouteNodes nodes st)).
  { split; [exact Hacc|]. split; [|exact Htl]. intros l uv Hl. cbn in Hl.
    apply Hrestr in Hl.
    destruct (NodeLookup_pair_is_edge (st_G st) dG l uv Hwf HdG Hl)
      as ([[[u v] k] d] & He & <- & Hlink). simpl in Hlink. split.
    - apply (accumulated_joined _ _ _ _ _ Hacc). exists k, d. exact He.
    - assert (Hex : exists e, e ∈ edges (st_G st) /\ link (snd e) = l)
        by (exists (u, v, k, d); auto).
      apply (same_shape_links _ _ l (accumulates_same_shape _ _ _ Hacc)) in Hex
        as (e0 & He0 & <-).
      exact (proj2 index_ok e0 He0). }
  assert (HsubG0 : forall u v, joined H u v ->
                     joined (CreateDirectedMultiGraph fcStreets) u v).
  { intros u v Huv. apply (accumulated_joined _ _ _ _ _ Hacc), Hsub, Huv. }
  cbn [for_each].
  pose proof (direction_safe H links r (set_dictRouteNodes nodes st) inbound Hst1 HviewH
                HsubG0) as H1.
  destruct (direction nx_shortest_path dictRouteMetrics dictRouteTotals dictAllNodes H
              links r (set_dictRouteNodes nodes st) inbound) as [st2|e]; [|exact H1].
  cbn [mbind result_bind].
  pose proof (direction_safe H links r st2 outbound H1 HviewH HsubG0) as H2.
  destruct (direction nx_shortest_path dictRouteMetrics dictRouteTotals dictAllNodes H
              links r st2 outbound) as [st3|e]; exact H2.
Qed.

Lemma routes_safe (rs : list Z) (st : State) :
  run_state (CreateDirectedMultiGraph fcStreets) dictAllNodes st ->
  match for_each (route nx_shortest_path dictRouteSegments dictRouteMetrics dictRouteTotals
                        dictAllNodes) rs st with
  | Ok st' => run_state (CreateDirectedMultiGraph fcStreets) dictAllNodes st'
  | Raise e => abort_cause e
  end.
Proof.
  revert st. induction rs as [|r rs IH]; intros st Hst; [exact Hst|].
  cbn [for_each]. pose proof (route_safe st r Hst) as Hr.
  destruct (route nx_shortest_path dictRouteSegments dictRouteMetrics dictRouteTotals
              dictAllNodes st r) as [st1|e]; [|exact Hr].
  cbn [mbind result_bind]. apply IH, Hr.
Qed.
End Abort.

(** X22.  Over streets without negative costs the loop over the routes
    of [RidershipAlgorithm] can fail in two ways only: by reading
    [tlinks] while it is unbound, after a search without a path, and by
    the division by a zero total in [AdjustRidership].  No graph, index or
    stop lookup, no path search on the whole graph, no call of
    [CreateSubgraph] or [GetTLINK] and no load update raises. *)
Theorem apportionment_abort_causes (fcStreets : list StreetRow)
    (fcRoutes : list (Z * Z)) (csvMetroQuery : list MetroRow) (dictAllNodes : NodeDict)
    (e : Exn) :
  costs_nonneg fcStreets ->
  NodeLookup (CreateDirectedMultiGraph fcStreets) = Ok dictAllNodes ->
  for_each (route nx_shortest_path (SubgraphDataLookup fcRoutes)
                  (fst (RouteDataLookup csvMetroQuery)) (snd (RouteDataLookup csvMetroQuery))
                  dictAllNodes)
           (map fst (SubgraphDataLookup fcRoutes))
           (mkState (CreateDirectedMultiGraph fcStreets) ∅ None 0 [] []) = Raise e ->
  abort_cause e.
Proof.
  intros Hcost Hd Hrun.
  pose proof (NodeLookup_index_of _ _ (CreateDirectedMultiGraph_wf fcStreets) Hd) as Hindex.
  pose proof (routes_safe fcStreets Hcost dictAllNodes Hindex (SubgraphDataLookup fcRoutes)
                (fst (RouteDataLookup csvMetroQuery)) (snd (RouteDataLookup csvMetroQuery))
                (map fst (SubgraphDataLookup fcRoutes))
                (mkState (CreateDirectedMultiGraph fcStreets) ∅ None 0 [] [])) as Hsafe.
  rewrite Hrun in Hsafe. apply Hsafe.
  split; [apply accumulates_refl|]. split.
  - intros l uv Hl. cbn in Hl. rewrite lookup_empty in Hl. discriminate.
  - intros tl Htl. discriminate.
Qed.

Lemma apportionment_abort_causes_witness :
  costs_nonneg gap_streets /\
  exists dictAllNodes,
    NodeLookup (CreateDirectedMultiGraph gap_streets) = Ok dictAllNodes /\
    for_each (route nx_shortest_path (SubgraphDataLookup gap_routes)
                    (fst (RouteDataLookup gap_query)) (snd (RouteDataLookup gap_query))
                    dictAllNodes)
             (map fst (SubgraphDataLookup gap_routes))
             (mkState (CreateDirectedMultiGraph gap_streets) ∅ None 0 [] [])
      = Raise UnboundLocalError /\
    abort_cause UnboundLocalError.
Proof.
  assert (Hcost : costs_nonneg gap_streets).
  { repeat constructor; discriminate. }
  split; [exact Hcost|].
  destruct (NodeLookup (CreateDirectedMultiGraph gap_streets)) as [d|err] eqn:Ed;
    [|vm_compute in Ed; discriminate].
  exists d.
  assert (Hrun : for_each (route nx_shortest_path (SubgraphDataLookup gap_routes)
                             (fst (RouteDataLookup gap_query))
                             (snd (RouteDataLookup gap_query)) d)
                          (map fst (SubgraphDataLookup gap_routes))
                          (mkState (CreateDirectedMultiGraph gap_streets) ∅ None 0 [] [])
                 = Raise UnboundLocalError).
  { vm_compute in Ed. injection Ed as <-. vm_compute. reflexivity. }
  split; [reflexivity|]. split; [exact Hrun|].
  exact (apportionment_abort_causes gap_streets gap_routes gap_query d UnboundLocalError
           Hcost Ed Hrun).
Defined.

(** * Rounding to the nearest double *)

Lemma pow2_pos (e : Z) : (0 < pow2 e)%Q.
Proof. apply Qpower_0_lt. reflexivity. Qed.

Lemma pow2_plus (a b : Z) : (pow2 (a + b) == pow2 a * pow2 b)%Q.
Proof. apply Qpower_plus. discriminate. Qed.

Lemma pow2_minus (a b : Z) : (pow2 (a - b) == pow2 a / pow2 b)%Q.
Proof. apply Qpower_minus. discriminate. Qed.

Lemma pow2_le (a b : Z) : (a <= b)%Z -> (pow2 a <= pow2 b)%Q.
Proof. intros H. apply Qpower_le_compat_l; [exact H|discriminate]. Qed.

Lemma pow2_lt (a b : Z) : (a < b)%Z -> (pow2 a < pow2 b)%Q.
Proof. intros H. apply Qpower_lt_compat_l; [exact H|reflexivity]. Qed.

Lemma pow2_lt_inv (a b : Z) : (pow2 a < pow2 b)%Q -> (a < b)%Z.
Proof. intros H. apply (Qpower_lt_compat_l_inv 2); [exact H|reflexivity]. Qed.

Lemma pow2_Z (n : Z) : (0 <= n)%Z -> (pow2 n == inject_Z (2 ^ n))%Q.
Proof. intros H. unfold pow2. rewrite (Zpower_Qpower 2 n H). reflexivity. Qed.

Lemma Qdiv_Z_lt (p q a b : Z) :
  (0 < q)%Z -> (0 < b)%Z -> (p * b < a * q)%Z ->
  (inject_Z p / inject_Z q < inject_Z a / inject_Z b)%Q.
Proof.
  intros Hq Hb H.
  assert (Hq' : (0 < inject_Z q)%Q) by (apply inject_Z_pos; exact Hq).
  assert (Hb' : (0 < inject_Z b)%Q) by (apply inject_Z_pos; exact Hb).
  apply Qlt_shift_div_l; [exact Hb'|].
  assert (E : (inject_Z p / inject_Z q * inject_Z b ==
               inject_Z p * inject_Z b / inject_Z q)%Q) by (field; lra).
  rewrite E.
  apply Qlt_shift_div_r; [exact Hq'|].
  rewrite <- !inject_Z_mult, <- Zlt_Qlt. exact H.
Qed.

Lemma Qdiv_Z_le (p q a b : Z) :
  (0 < q)%Z -> (0 < b)%Z -> (p * b <= a * q)%Z ->
  (inject_Z p / inject_Z q <= inject_Z a / inject_Z b)%Q.
Proof.
  intros Hq Hb H.
  assert (Hq' : (0 < inject_Z q)%Q) by (apply inject_Z_pos; exact Hq).
  assert (Hb' : (0 < inject_Z b)%Q) by (apply inject_Z_pos; exact Hb).
  apply Qle_shift_div_l; [exact Hb'|].
  assert (E : (inject_Z p / inject_Z q * inject_Z b ==
               inject_Z p * inject_Z b / inject_Z q)%Q) by (field; lra).
  rewrite E.
  apply Qle_shift_div_r; [exact Hq'|].
  rewrite <- !inject_Z_mult, <- Zle_Qle. exact H.
Qed.

Lemma ilog2_spec (x : Q) :
  (0 < x)%Q -> (pow2 (ilog2 x) <= x)%Q /\ (x < pow2 (ilog2 x + 1))%Q.
Proof.
  intros Hx. destruct x as [p q].
  assert (Hp : (0 < p)%Z) by (unfold Qlt in Hx; simpl in Hx; lia).
  pose proof (Z.log2_spec p Hp) as [Hp1 Hp2].
  pose proof (Z.log2_spec (Zpos q) (Pos2Z.is_pos q)) as [Hq1 Hq2].
  pose proof (Z.log2_nonneg p) as Ha. pose proof (Z.log2_nonneg (Zpos q)) as Hb.
  assert (Hx' : (p # q == inject_Z p / inject_Z (Zpos q))%Q) by apply Qmake_Qdiv.
  unfold ilog2. cbn [Qnum Qden].
  set (a := Z.log2 p) in *. set (b := Z.log2 (Zpos q)) in *.
  assert (H2a : (0 < 2 ^ a)%Z) by (apply Z.pow_pos_nonneg; lia).
  assert (H2b : (0 < 2 ^ b)%Z) by (apply Z.pow_pos_nonneg; lia).
  destruct (Qle_bool (pow2 (a - b)) (p # q)) eqn:E.
  - apply Qle_bool_iff in E. split; [exact E|].
    replace (a - b + 1)%Z with (Z.succ a - b)%Z by lia.
    rewrite pow2_minus, (pow2_Z (Z.succ a)), (pow2_Z b), Hx' by lia.
    apply Qdiv_Z_lt; [lia | lia | nia].
  - assert (E' : (p # q < pow2 (a - b))%Q).
    { apply Qnot_le_lt. intros H. apply Qle_bool_iff in H. congruence. }
    split.
    + replace (a - b - 1)%Z with (a - Z.succ b)%Z by lia.
      rewrite pow2_minus, (pow2_Z a), (pow2_Z (Z.succ b)), Hx' by lia.
      apply Qdiv_Z_le; [apply Z.pow_pos_nonneg; lia | lia | nia].
    + replace (a - b - 1 + 1)%Z with (a - b)%Z by lia. exact E'.
Qed.

Lemma ilog2_unique (x : Q) (k : Z) :
  (pow2 k <= x)%Q -> (x < pow2 (k + 1))%Q -> ilog2 x = k.
Proof.
  intros H1 H2.
  assert (Hx : (0 < x)%Q) by (pose proof (pow2_pos k); lra).
  destruct (ilog2_spec x Hx) as [H3 H4].
  assert (k < ilog2 x + 1)%Z by (apply pow2_lt_inv; lra).
  assert (ilog2 x < k + 1)%Z by (apply pow2_lt_inv; lra).
  lia.
Qed.

Lemma ilog2_comp (x y : Q) : (0 < x)%Q -> (x == y)%Q -> ilog2 x = ilog2 y.
Proof.
  intros Hx Hxy. destruct (ilog2_spec x Hx) as [H1 H2].
  symmetry. apply ilog2_unique; rewrite <- Hxy; assumption.
Qed.

Lemma ilog2_mono (x y : Q) : (0 < x)%Q -> (x <= y)%Q -> (ilog2 x <= ilog2 y)%Z.
Proof.
  intros Hx Hxy. destruct (ilog2_spec x Hx) as [H1 _].
  destruct (ilog2_spec y) as [_ H2]; [lra|].
  assert (ilog2 x < ilog2 y + 1)%Z by (apply pow2_lt_inv; lra). lia.
Qed.

Lemma round_half_even_bounds (y : Q) :
  (Qfloor y <= round_half_even y <= Qfloor y + 1)%Z.
Proof.
  unfold round_half_even.
  destruct (y - inject_Z (Qfloor y) ?= 1 # 2)%Q; [destruct (Z.even _)| |]; lia.
Qed.

Lemma round_half_even_comp (y1 y2 : Q) :
  (y1 == y2)%Q -> round_half_even y1 = round_half_even y2.
Proof.
  intros H. unfold round_half_even. rewrite (Qfloor_comp _ _ H).
  assert (E : (y1 - inject_Z (Qfloor y2) ?= 1 # 2)%Q = (y2 - inject_Z (Qfloor y2) ?= 1 # 2)%Q).
  { apply Qcompare_comp; [rewrite H|]; reflexivity. }
  rewrite E. reflexivity.
Qed.

Lemma round_half_even_Z (n : Z) : round_half_even (inject_Z n) = n.
Proof.
  unfold round_half_even. rewrite Qfloor_Z.
  assert (E : (inject_Z n - inject_Z n ?= 1 # 2)%Q = Lt).
  { apply Qlt_alt. assert (E0 : (inject_Z n - inject_Z n == 0)%Q) by ring.
    rewrite E0. reflexivity. }
  rewrite E. reflexivity.
Qed.

Lemma round_half_even_mono (y1 y2 : Q) :
  (y1 <= y2)%Q -> (round_half_even y1 <= round_half_even y2)%Z.
Proof.
  intros H. pose proof (Qfloor_resp_le _ _ H) as Hf.
  destruct (Z.eq_dec (Qfloor y1) (Qfloor y2)) as [Heq|Hne].
  - unfold round_half_even. rewrite Heq.
    destruct (Qcompare_spec (y1 - inject_Z (Qfloor y2)) (1 # 2)) as [E1|E1|E1];
      destruct (Qcompare_spec (y2 - inject_Z (Qfloor y2)) (1 # 2)) as [E2|E2|E2];
      try (destruct (Z.even (Qfloor y2))); try lia; exfalso; lra.
  - pose proof (round_half_even_bounds y1). pose proof (round_half_even_bounds y2). lia.
Qed.

Lemma ulp_exp_comp (x y : Q) : (0 < x)%Q -> (x == y)%Q -> ulp_exp x = ulp_exp y.
Proof. intros Hx Hxy. unfold ulp_exp. rewrite (ilog2_comp x y Hx Hxy). reflexivity. Qed.

Lemma ulp_exp_mono (x y : Q) : (0 < x)%Q -> (x <= y)%Q -> (ulp_exp x <= ulp_exp y)%Z.
Proof. intros Hx Hxy. unfold ulp_exp. pose proof (ilog2_mono x y Hx Hxy). lia. Qed.

Lemma Qdiv_le_compat (x y c : Q) : (0 < c)%Q -> (x <= y)%Q -> (x / c <= y / c)%Q.
Proof.
  intros Hc Hxy. unfold Qdiv. apply Qmult_le_compat_r; [exact Hxy|].
  apply Qlt_le_weak, Qinv_lt_0_compat, Hc.
Qed.

Lemma scaled_lt (x : Q) : (0 < x)%Q -> (x / pow2 (ulp_exp x) < inject_Z (2 ^ 53))%Q.
Proof.
  intros Hx. destruct (ilog2_spec x Hx) as [_ H].
  apply Qlt_shift_div_r; [apply pow2_pos|].
  rewrite <- (pow2_Z 53), <- pow2_plus by lia.
  eapply Qlt_le_trans; [exact H|]. apply pow2_le. unfold ulp_exp. lia.
Qed.

Lemma scaled_ge (x : Q) :
  (0 < x)%Q -> ulp_exp x = (ilog2 x - 52)%Z ->
  (inject_Z (2 ^ 52) <= x / pow2 (ulp_exp x))%Q.
Proof.
  intros Hx He. destruct (ilog2_spec x Hx) as [H _].
  apply Qle_shift_div_l; [apply pow2_pos|].
  rewrite <- (pow2_Z 52), <- pow2_plus by lia.
  eapply Qle_trans; [|exact H]. apply pow2_le. lia.
Qed.

Lemma round_pos_comp (x y : Q) : (0 < x)%Q -> (x == y)%Q -> (round_pos x == round_pos y)%Q.
Proof.
  intros Hx Hxy. unfold round_pos. rewrite (ulp_exp_comp x y Hx Hxy).
  rewrite (round_half_even_comp (x / pow2 (ulp_exp y)) (y / pow2 (ulp_exp y)));
    [reflexivity|]. rewrite Hxy. reflexivity.
Qed.

Lemma scaled_nonneg (x : Q) : (0 < x)%Q -> (0 <= round_half_even (x / pow2 (ulp_exp x)))%Z.
Proof.
  intros Hx. rewrite <- (round_half_even_Z 0). apply round_half_even_mono.
  apply Qle_shift_div_l; [apply pow2_pos|].
  change (inject_Z 0) with 0%Q. rewrite Qmult_0_l. apply Qlt_le_weak, Hx.
Qed.

Lemma scaled_le (x : Q) :
  (0 < x)%Q -> (round_half_even (x / pow2 (ulp_exp x)) <= 2 ^ 53)%Z.
Proof.
  intros Hx. rewrite <- (round_half_even_Z (2 ^ 53)). apply round_half_even_mono.
  apply Qlt_le_weak, scaled_lt, Hx.
Qed.

Lemma round_pos_nonneg (x : Q) : (0 < x)%Q -> (0 <= round_pos x)%Q.
Proof.
  intros Hx. unfold round_pos. apply Qmult_le_0_compat.
  - change (inject_Z 0 <= inject_Z (round_half_even (x / pow2 (ulp_exp x))))%Q.
    rewrite <- Zle_Qle. apply scaled_nonneg, Hx.
  - apply Qlt_le_weak, pow2_pos.
Qed.

Lemma round_pos_le (x : Q) : (0 < x)%Q -> (round_pos x <= pow2 (ulp_exp x + 53))%Q.
Proof.
  intros Hx. unfold round_pos. rewrite pow2_plus, (pow2_Z 53) by lia.
  rewrite (Qmult_comm (pow2 (ulp_exp x))).
  apply Qmult_le_compat_r; [|apply Qlt_le_weak, pow2_pos].
  rewrite <- Zle_Qle. apply scaled_le, Hx.
Qed.

Lemma round_pos_ge (x : Q) :
  (0 < x)%Q -> ulp_exp x = (ilog2 x - 52)%Z -> (pow2 (ulp_exp x + 52) <= round_pos x)%Q.
Proof.
  intros Hx He. unfold round_pos. rewrite pow2_plus, (pow2_Z 52) by lia.
  rewrite (Qmult_comm (pow2 (ulp_exp x))).
  apply Qmult_le_compat_r; [|apply Qlt_le_weak, pow2_pos].
  rewrite <- Zle_Qle. rewrite <- (round_half_even_Z (2 ^ 52)) at 1.
  apply round_half_even_mono, scaled_ge; assumption.
Qed.

Lemma round_pos_mono (x y : Q) : (0 < x)%Q -> (x <= y)%Q -> (round_pos x <= round_pos y)%Q.
Proof.
  intros Hx Hxy. assert (Hy : (0 < y)%Q) by lra.
  pose proof (ulp_exp_mono x y Hx Hxy) as He.
  destruct (Z.eq_dec (ulp_exp x) (ulp_exp y)) as [Heq|Hne].
  - unfold round_pos. rewrite Heq.
    apply Qmult_le_compat_r; [|apply Qlt_le_weak, pow2_pos].
    rewrite <- Zle_Qle. apply round_half_even_mono, Qdiv_le_compat; [apply pow2_pos|exact Hxy].
  - eapply Qle_trans; [apply round_pos_le, Hx|].
    eapply Qle_trans; [|apply round_pos_ge; [exact Hy|]].
    + apply pow2_le. lia.
    + unfold ulp_exp in *. lia.
Qed.

(** A number on the grid of its own last place is a double. *)
Lemma round_pos_grid (r : Q) (n : Z) :
  (r == inject_Z n * pow2 (ulp_exp r))%Q -> (round_pos r == r)%Q.
Proof.
  intros H. unfold round_pos.
  assert (E : (r / pow2 (ulp_exp r) == inject_Z n)%Q).
  { pose proof (pow2_pos (ulp_exp r)) as Hp. rewrite H at 1. field. lra. }
  rewrite (round_half_even_comp _ _ E), round_half_even_Z. symmetry. exact H.
Qed.

Lemma inject_Z_pow2 (m k e : Z) :
  (0 <= k)%Z -> (inject_Z (m * 2 ^ k) * pow2 e == inject_Z m * pow2 (e + k))%Q.
Proof.
  intros Hk. rewrite inject_Z_mult, <- (pow2_Z k Hk), pow2_plus. ring.
Qed.

(** A number of at most 53 bits at an exponent of at least -1074 is a
    double. *)
Lemma round_pos_fixed (m e : Z) :
  (0 < m <= 2 ^ 53)%Z -> (-1074 <= e)%Z ->
  (round_pos (inject_Z m * pow2 e) == inject_Z m * pow2 e)%Q.
Proof.
  intros [Hm1 Hm2] He. set (r := (inject_Z m * pow2 e)%Q).
  pose proof (Z.log2_spec m Hm1) as [Hk1 Hk2]. pose proof (Z.log2_nonneg m) as Hk0.
  set (k := Z.log2 m) in *.
  assert (Hk53 : (k <= 53)%Z).
  { apply Z.lt_succ_r, (Z.pow_lt_mono_r_iff 2); lia. }
  assert (Hlog : ilog2 r = (k + e)%Z).
  { apply ilog2_unique; unfold r.
    - rewrite pow2_plus, (pow2_Z k Hk0).
      apply Qmult_le_compat_r; [|apply Qlt_le_weak, pow2_pos].
      rewrite <- Zle_Qle. exact Hk1.
    - replace (k + e + 1)%Z with (Z.succ k + e)%Z by lia.
      rewrite pow2_plus, (pow2_Z (Z.succ k)) by lia.
      apply Qmult_lt_compat_r; [apply pow2_pos|].
      rewrite <- Zlt_Qlt. exact Hk2. }
  destruct (Z.eq_dec k 53%Z) as [H53|H53].
  - assert (Hm : m = (2 ^ 53)%Z) by (subst k; rewrite H53 in Hk1; lia).
    apply (round_pos_grid r (2 ^ 52)%Z).
    unfold ulp_exp. rewrite Hlog, H53.
    replace (Z.max (53 + e - 52) (-1074)) with (e + 1)%Z by lia.
    unfold r. rewrite Hm. change (2 ^ 53)%Z with (2 ^ 52 * 2 ^ 1)%Z.
    rewrite (inject_Z_pow2 (2 ^ 52)%Z 1%Z e) by lia. reflexivity.
  - apply (round_pos_grid r (m * 2 ^ (e - ulp_exp r))%Z).
    assert (Hu : (ulp_exp r <= e)%Z) by (unfold ulp_exp; rewrite Hlog; lia).
    rewrite inject_Z_pow2 by lia.
    replace (ulp_exp r + (e - ulp_exp r))%Z with e by lia. reflexivity.
Qed.

Lemma binary64_pos (x : Q) : (0 < x)%Q -> binary64 x = round_pos x.
Proof.
  intros H. unfold binary64.
  destruct (Qcompare_spec x 0) as [E|E|E]; [exfalso; lra|exfalso; lra|reflexivity].
Qed.

Lemma binary64_neg (x : Q) : (x < 0)%Q -> binary64 x = (- round_pos (- x))%Q.
Proof.
  intros H. unfold binary64.
  destruct (Qcompare_spec x 0) as [E|E|E]; [exfalso; lra|reflexivity|exfalso; lra].
Qed.

Lemma binary64_zero (x : Q) : (x == 0)%Q -> binary64 x = 0%Q.
Proof.
  intros H. unfold binary64.
  destruct (Qcompare_spec x 0) as [E|E|E]; [reflexivity|exfalso; lra|exfalso; lra].
Qed.

Lemma binary64_comp (x y : Q) : (x == y)%Q -> (binary64 x == binary64 y)%Q.
Proof.
  intros H. destruct (Qcompare_spec x 0) as [Hx|Hx|Hx].
  - rewrite (binary64_zero x Hx), (binary64_zero y) by (rewrite <- H; exact Hx). reflexivity.
  - rewrite (binary64_neg x Hx), (binary64_neg y) by (rewrite <- H; exact Hx).
    apply Qopp_comp, round_pos_comp; [lra|]. rewrite H. reflexivity.
  - rewrite (binary64_pos x Hx), (binary64_pos y) by (rewrite <- H; exact Hx).
    apply round_pos_comp; assumption.
Qed.

#[global] Instance binary64_proper : Proper (Qeq ==> Qeq) binary64.
Proof. intros x y H. apply binary64_comp, H. Qed.

Lemma binary64_nonneg (x : Q) : (0 <= x)%Q -> (0 <= binary64 x)%Q.
Proof.
  intros H. destruct (Qcompare_spec x 0) as [Hx|Hx|Hx]; [|lra|].
  - rewrite (binary64_zero x Hx). lra.
  - rewrite (binary64_pos x Hx). apply round_pos_nonneg, Hx.
Qed.

Lemma binary64_mono (x y : Q) : (x <= y)%Q -> (binary64 x <= binary64 y)%Q.
Proof.
  intros H. destruct (Qcompare_spec x 0) as [Hx|Hx|Hx].
  - rewrite (binary64_zero x Hx). apply binary64_nonneg. lra.
  - rewrite (binary64_neg x Hx).
    pose proof (round_pos_nonneg (- x)) as Hnx.
    destruct (Qcompare_spec y 0) as [Hy|Hy|Hy].
    + rewrite (binary64_zero y Hy). lra.
    + rewrite (binary64_neg y Hy).
      pose proof (round_pos_mono (- y) (- x)). lra.
    + pose proof (binary64_nonneg y). lra.
  - rewrite (binary64_pos x Hx), (binary64_pos y) by lra.
    apply round_pos_mono; assumption.
Qed.

Lemma round_pos_idem (x : Q) :
  (0 < x)%Q ->
  (round_pos x == 0)%Q \/ ((0 < round_pos x)%Q /\ (round_pos (round_pos x) == round_pos x)%Q).
Proof.
  intros Hx. pose proof (scaled_nonneg x Hx) as H0. pose proof (scaled_le x Hx) as H1.
  unfold round_pos at 1 2 4. set (m := round_half_even (x / pow2 (ulp_exp x))) in *.
  destruct (Z.eq_dec m 0%Z) as [Hm|Hm].
  - left. rewrite Hm. ring.
  - right. split.
    + apply Qmult_lt_0_compat; [apply inject_Z_pos; lia|apply pow2_pos].
    + apply round_pos_fixed; [lia|]. unfold ulp_exp. lia.
Qed.

Lemma binary64_idem (x : Q) : (binary64 (binary64 x) == binary64 x)%Q.
Proof.
  destruct (Qcompare_spec x 0) as [Hx|Hx|Hx].
  - rewrite (binary64_zero x Hx). reflexivity.
  - rewrite (binary64_neg x Hx).
    destruct (round_pos_idem (- x)) as [H0|[Hp Hr]]; [lra| |].
    + rewrite (binary64_zero (- round_pos (- x))) by lra. lra.
    + rewrite (binary64_neg (- round_pos (- x))) by lra.
      apply Qopp_comp. rewrite <- Hr at 2. apply round_pos_comp; [lra|ring].
  - rewrite (binary64_pos x Hx).
    destruct (round_pos_idem x Hx) as [H0|[Hp Hr]].
    + rewrite (binary64_zero _ H0). symmetry. exact H0.
    + rewrite (binary64_pos _ Hp). exact Hr.
Qed.

Lemma Qopp_pos (x : Q) : (x < 0)%Q -> (0 < - x)%Q.
Proof. intros H. lra. Qed.

(** An integer of at most 53 bits is a double. *)
Lemma binary64_Z (n : Z) :
  (- 2 ^ 53 <= n <= 2 ^ 53)%Z -> (binary64 (inject_Z n) == inject_Z n)%Q.
Proof.
  intros Hn. destruct (Z.lt_trichotomy n 0%Z) as [Hneg|[H0|Hpos]].
  - assert (Hx : (inject_Z n < 0)%Q).
    { change (inject_Z n < inject_Z 0)%Q. rewrite <- Zlt_Qlt. exact Hneg. }
    rewrite (binary64_neg _ Hx).
    assert (E : (- inject_Z n == inject_Z (- n) * pow2 0)%Q).
    { rewrite inject_Z_opp. unfold pow2. simpl. ring. }
    rewrite (round_pos_comp _ _ (Qopp_pos _ Hx) E), round_pos_fixed by lia.
    rewrite inject_Z_opp. unfold pow2. simpl. ring.
  - subst n. reflexivity.
  - assert (Hx : (0 < inject_Z n)%Q) by (apply inject_Z_pos, Hpos).
    rewrite (binary64_pos _ Hx).
    assert (E : (inject_Z n == inject_Z n * pow2 0)%Q) by (unfold pow2; simpl; ring).
    rewrite (round_pos_comp _ _ Hx E), round_pos_fixed by lia.
    unfold pow2. simpl. ring.
Qed.

Lemma binary64_rounding : rounding binary64.
Proof.
  split; [apply binary64_mono|reflexivity|apply binary64_idem].
Qed.

Lemma exact_rounding : rounding (fun x : Q => x).
Proof. split; [auto|reflexivity|reflexivity]. Qed.

(** With the identity for the rounding, the definitions of [Rounded] are
    the definitions in exact arithmetic. *)
Lemma exact_arithmetic :
  Rounded.AdjustRidership (fun x => x) = AdjustRidership /\
  Rounded.RidershipAlgorithm (fun x => x) = RidershipAlgorithm.
Proof. split; reflexivity. Qed.

(** ** The error of one rounding *)

Lemma round_half_even_near (y : Q) :
  (y - (1 # 2) <= inject_Z (round_half_even y) <= y + (1 # 2))%Q.
Proof.
  pose proof (Qfloor_le y) as H1. pose proof (Qlt_floor y) as H2.
  rewrite inject_Z_plus in H2. change (inject_Z 1) with 1%Q in H2.
  unfold round_half_even.
  destruct (Qcompare_spec (y - inject_Z (Qfloor y)) (1 # 2)) as [E|E|E];
    [destruct (Z.even (Qfloor y))| |];
    rewrite ?inject_Z_plus; change (inject_Z 1) with 1%Q;
    generalize dependent (inject_Z (Qfloor y)); intros f; intros; lra.
Qed.

Lemma round_pos_near (x : Q) :
  (0 < x)%Q ->
  (x - pow2 (ulp_exp x) * (1 # 2) <= round_pos x <= x + pow2 (ulp_exp x) * (1 # 2))%Q.
Proof.
  intros Hx. unfold round_pos. pose proof (pow2_pos (ulp_exp x)) as Hp.
  pose proof (round_half_even_near (x / pow2 (ulp_exp x))) as [H1 H2].
  set (m := inject_Z (round_half_even (x / pow2 (ulp_exp x)))) in *.
  assert (E : (x == x / pow2 (ulp_exp x) * pow2 (ulp_exp x))%Q) by (field; lra).
  set (y := (x / pow2 (ulp_exp x))%Q) in *. set (p := pow2 (ulp_exp x)) in *.
  split.
  - apply Qle_trans with ((y - (1 # 2)) * p)%Q; [rewrite E at 1; lra|].
    apply Qmult_le_compat_r; lra.
  - apply Qle_trans with ((y + (1 # 2)) * p)%Q; [|rewrite E at 1; lra].
    apply Qmult_le_compat_r; lra.
Qed.

(** In the range of the normal doubles the rounding changes a number by
    at most 2^-53 of it. *)
Lemma binary64_relative (x : Q) :
  (pow2 (-1022) <= x)%Q ->
  (x * (1 - pow2 (-53)) <= binary64 x <= x * (1 + pow2 (-53)))%Q.
Proof.
  intros Hn. assert (Hx : (0 < x)%Q) by (pose proof (pow2_pos (-1022)); lra).
  rewrite (binary64_pos x Hx).
  destruct (ilog2_spec x Hx) as [Hlo _].
  assert (Hlog : (-1022 <= ilog2 x)%Z).
  { rewrite <- (ilog2_unique (pow2 (-1022)) (-1022)).
    - apply ilog2_mono; [apply pow2_pos|exact Hn].
    - apply Qle_refl.
    - apply pow2_lt. lia. }
  assert (He : ulp_exp x = (ilog2 x - 52)%Z) by (unfold ulp_exp; lia).
  pose proof (round_pos_near x Hx) as [H1 H2]. rewrite He in H1, H2.
  assert (Hu : (pow2 (ilog2 x - 52) * (1 # 2) <= x * pow2 (-53))%Q).
  { replace (ilog2 x - 52)%Z with (ilog2 x + -53 + 1)%Z by lia.
    rewrite !pow2_plus. change (pow2 1) with 2%Q.
    pose proof (pow2_pos (-53)) as Hp.
    apply Qle_trans with (pow2 (ilog2 x) * pow2 (-53))%Q; [apply Qle_lteq; right; ring|].
    apply Qmult_le_compat_r; lra. }
  split; lra.
Qed.

(** Three roundings in a row, each with a relative error of at most [u],
    on numbers that are not negative. *)
Lemma three_roundings (a u q p s r d : Q) :
  (0 <= a)%Q -> (0 <= d)%Q -> (0 <= r)%Q -> (0 <= u)%Q -> (u <= 1 # 4)%Q ->
  (r * (1 - u) <= q <= r * (1 + u))%Q ->
  (d * q * (1 - u) <= p <= d * q * (1 + u))%Q ->
  ((a + p) * (1 - u) <= s <= (a + p) * (1 + u))%Q ->
  ((a + d * r) * (1 - 4 * u) <= s <= (a + d * r) * (1 + 4 * u))%Q.
Proof.
  intros Ha Hd Hr Hu0 Hu1 [Hq1 Hq2] [Hp1 Hp2] [Hs1 Hs2].
  assert (Hdr : (0 <= d * r)%Q) by (apply Qmult_le_0_compat; assumption).
  assert (Hq0 : (0 <= q)%Q) by nra.
  assert (Hdq1 : (d * r * (1 - u) <= d * q)%Q) by nra.
  assert (Hdq2 : (d * q <= d * r * (1 + u))%Q) by nra.
  assert (Hdq0 : (0 <= d * q)%Q) by nra.
  set (x := (d * r)%Q) in *. set (y := (d * q)%Q) in *.
  set (c1 := ((1 - u) * (1 - u))%Q). set (c2 := ((1 + u) * (1 + u))%Q).
  assert (Hc1 : (0 <= c1 <= 1)%Q) by (unfold c1; split; nra).
  assert (Hc2 : (1 <= c2)%Q) by (unfold c2; nra).
  assert (Hp1' : (x * c1 <= p)%Q) by (unfold c1; nra).
  assert (Hp2' : (p <= x * c2)%Q) by (unfold c2; nra).
  assert (Hp0 : (0 <= p)%Q) by nra.
  assert (Ha1 : (a * c1 <= a)%Q) by nra.
  assert (Ha2 : (a <= a * c2)%Q) by nra.
  assert (Hap1 : ((a + x) * c1 <= a + p)%Q) by lra.
  assert (Hap2 : (a + p <= (a + x) * c2)%Q) by lra.
  assert (He : (0 <= a + x)%Q) by lra.
  set (e := (a + x)%Q) in *. set (t := (a + p)%Q) in *.
  assert (Ht0 : (0 <= t)%Q) by (unfold t; lra).
  assert (Hs1' : (e * c1 * (1 - u) <= s)%Q) by nra.
  assert (Hs2' : (s <= e * c2 * (1 + u))%Q) by nra.
  assert (Hd1 : (1 - 4 * u <= c1 * (1 - u))%Q) by (unfold c1; nra).
  assert (Hd2 : (c2 * (1 + u) <= 1 + 4 * u)%Q) by (unfold c2; nra).
  set (k1 := (c1 * (1 - u))%Q) in *. set (k2 := (c2 * (1 + u))%Q) in *.
  assert (Hs1'' : (e * k1 <= s)%Q) by (unfold k1; lra).
  assert (Hs2'' : (s <= e * k2)%Q) by (unfold k2; lra).
  split; nra.
Qed.

(** * The loads during a run *)

Lemma for_each_app {A S : Type} (body : S -> A -> result S) (l1 l2 : list A) (s : S) :
  for_each body (l1 ++ l2) s = s' ← for_each body l1 s; for_each body l2 s'.
Proof.
  revert s. induction l1 as [|x l1 IH]; intros s; simpl; [reflexivity|].
  destruct (body s x) as [s1|e]; simpl; [apply IH|reflexivity].
Qed.

Lemma result_bind_Ok_l {A B : Type} (a : A) (k : A -> result B) : Ok a ≫= k = k a.
Proof. reflexivity. Qed.

Section RoundedArithmetic.
Variable fl : Q -> Q.
Hypothesis Hfl : rounding fl.

Lemma fl_comp (x y : Q) : (x == y)%Q -> (fl x == fl y)%Q.
Proof.
  intros H. apply Qle_antisym; apply (rounding_mono fl Hfl); rewrite H; apply Qle_refl.
Qed.

Lemma fl_nonneg (x : Q) : (0 <= x)%Q -> (0 <= fl x)%Q.
Proof.
  intros H. rewrite <- (rounding_zero fl Hfl). apply (rounding_mono fl Hfl), H.
Qed.

Lemma rounded_add_nonneg (x y : Q) :
  (0 <= x)%Q -> (0 <= y)%Q -> (0 <= Rounded.add fl x y)%Q.
Proof.
  intros Hx Hy. apply fl_nonneg. apply fl_nonneg in Hx, Hy. lra.
Qed.

Lemma rounded_mul_nonneg (x y : Q) :
  (0 <= x)%Q -> (0 <= y)%Q -> (0 <= Rounded.mul fl x y)%Q.
Proof.
  intros Hx Hy. apply fl_nonneg. apply fl_nonneg in Hx, Hy.
  apply Qmult_le_0_compat; assumption.
Qed.

Lemma Qdiv_nonneg (x y : Q) : (0 <= x)%Q -> (0 <= y)%Q -> (0 <= x / y)%Q.
Proof.
  intros Hx Hy. unfold Qdiv. apply Qmult_le_0_compat; [exact Hx|].
  apply Qinv_le_0_compat, Hy.
Qed.

Lemma rounded_div_nonneg (x y : Q) :
  (0 <= x)%Q -> (0 <= y)%Q -> (0 <= Rounded.div fl x y)%Q.
Proof.
  intros Hx Hy. apply fl_nonneg. apply fl_nonneg in Hx, Hy.
  apply Qdiv_nonneg; assumption.
Qed.

Lemma rounded_sub_nonneg (x y : Q) : (y <= x)%Q -> (0 <= Rounded.sub fl x y)%Q.
Proof.
  intros H. apply fl_nonneg. apply (rounding_mono fl Hfl) in H. lra.
Qed.

(** Adding an increment that is not negative to a number that the
    rounding leaves as it is gives no less. *)
Lemma rounded_add_ge (t x : Q) :
  (fl t == t)%Q -> (0 <= x)%Q -> (t <= Rounded.add fl t x)%Q.
Proof.
  intros Ht Hx. unfold Rounded.add. apply fl_nonneg in Hx.
  apply Qle_trans with (fl (fl t)).
  - rewrite (rounding_idem fl Hfl t), Ht. apply Qle_refl.
  - apply (rounding_mono fl Hfl). lra.
Qed.

Lemma rounded_share_nonneg (x diff t : Z) :
  (0 <= x)%Z -> (0 <= diff)%Z -> (0 <= t)%Z ->
  (0 <= Rounded.add fl (inject_Z x)
          (Rounded.mul fl (inject_Z diff) (Rounded.div fl (fl (inject_Z x)) (inject_Z t))))%Q.
Proof.
  intros Hx Hd Ht. apply inject_Z_nonneg in Hx, Hd, Ht.
  apply rounded_add_nonneg; [exact Hx|].
  apply rounded_mul_nonneg; [exact Hd|].
  apply rounded_div_nonneg; [apply fl_nonneg, Hx|exact Ht].
Qed.

Lemma rounded_AdjustRidership_nonneg (ons offs total_on total_off : Z) (adjusted : Q * Q) :
  (0 <= ons)%Z -> (0 <= offs)%Z -> (0 <= total_on)%Z -> (0 <= total_off)%Z ->
  Rounded.AdjustRidership fl ons offs total_on total_off = Ok adjusted ->
  (0 <= fst adjusted)%Q /\ (0 <= snd adjusted)%Q.
Proof.
  intros Hons Hoffs Hon Hoff. unfold Rounded.AdjustRidership.
  destruct (Z.gtb_spec total_on total_off) as [Hgt|Hle].
  - destruct (Z.eqb_spec total_off 0) as [_|Hnz]; [discriminate|].
    intros [= <-]. simpl. split; [apply inject_Z_nonneg, Hons|].
    apply rounded_share_nonneg; lia.
  - destruct (Z.eqb_spec total_on 0) as [_|Hnz]; [discriminate|].
    intros [= <-]. simpl. split; [|apply inject_Z_nonneg, Hoffs].
    apply rounded_share_nonneg; lia.
Qed.

Lemma rounded_add_total_Ok (G G' : MultiDiGraph) (u v : Node) (x : Q) :
  Rounded.add_total fl G u v x = Ok G' ->
  exists adj kd d,
    odict_get Z.eqb u G = Some adj /\ odict_get Z.eqb v adj = Some kd /\
    odict_get Nat.eqb O kd = Some d /\
    G' = odict_set Z.eqb u
           (odict_set Z.eqb v
              (odict_set Nat.eqb O (mkEdge (link d) (cost d) (Rounded.add fl (total d) x)) kd)
              adj) G.
Proof.
  unfold Rounded.add_total. intros H.
  apply result_bind_Ok in H as (adj & Hu & H). apply of_option_Ok in Hu.
  apply result_bind_Ok in H as (kd & Hv & H). apply of_option_Ok in Hv.
  apply result_bind_Ok in H as (d & Hk & H). apply of_option_Ok in Hk.
  injection H as <-. exists adj, kd, d. auto.
Qed.

(** One update: every edge stays in place, the load of no edge goes
    down when the increment is not negative, and every load is a result
    of the rounding again. *)
Lemma rounded_add_total_loads (G G' : MultiDiGraph) (u v : Node) (x : Q) :
  loads_rounded fl G -> Rounded.add_total fl G u v x = Ok G' ->
  loads_rounded fl G' /\ ((0 <= x)%Q -> loads_le G G').
Proof.
  intros HG H. apply rounded_add_total_Ok in H as (adj & kd & d & Hu & Hv & Hk & ->).
  unfold loads_rounded, all_key_dicts in HG.
  destruct (odict_get_Forall Z.eqb _ u adj G HG Hu) as (u' & Hadj). simpl in Hadj.
  destruct (odict_get_Forall Z.eqb _ v kd adj Hadj Hv) as (v' & Hkd). simpl in Hkd.
  destruct (odict_get_Forall Nat.eqb _ O d kd Hkd Hk) as (k' & Hd). simpl in Hd.
  split.
  - apply odict_set_Forall; [exact HG|]. apply odict_set_Forall; [exact Hadj|].
    apply odict_set_Forall; [exact Hkd|]. simpl. apply (rounding_idem fl Hfl).
  - intros Hx.
    eapply odict_set_rel; [| apply Zeqb_true_eq | exact Hu |].
    { intros adj'. apply odict_rel_refl. intros kd'. apply odict_rel_refl, edge_le_refl. }
    eapply odict_set_rel; [| apply Zeqb_true_eq | exact Hv |].
    { intros kd'. apply odict_rel_refl, edge_le_refl. }
    eapply odict_set_rel; [apply edge_le_refl | | exact Hk |].
    { intros k0 E. symmetry. apply Nat.eqb_eq in E. symmetry. exact E. }
    split; [reflexivity|]. split; [reflexivity|]. cbn [total].
    apply rounded_add_ge; assumption.
Qed.

Lemma apply_all_loads (ups : list Rounded.Update) (G G' : MultiDiGraph) :
  loads_rounded fl G -> for_each (Rounded.apply_update fl) ups G = Ok G' ->
  loads_rounded fl G' /\
  (Forall (fun up => (0 <= Rounded.increment up)%Q) ups -> loads_le G G').
Proof.
  revert G. induction ups as [|up ups IH]; intros G HG H; simpl in H.
  - injection H as <-. split; [exact HG|]. intros _. apply loads_le_refl.
  - apply result_bind_Ok in H as (G1 & H1 & H).
    destruct (rounded_add_total_loads _ _ _ _ _ HG H1) as [HG1 Hle1].
    destruct (IH G1 HG1 H) as [HG' Hle]. split; [exact HG'|].
    intros Hups. apply Forall_cons in Hups as [Hup Hups].
    eapply loads_le_trans; [apply Hle1, Hup|apply Hle, Hups].
Qed.

Lemma apply_update_cons (u v : Node) (x : Q) (ups : list Rounded.Update)
    (G : MultiDiGraph) :
  for_each (Rounded.apply_update fl) ((u, v, x) :: ups) G =
  G1 ← Rounded.add_total fl G u v x; for_each (Rounded.apply_update fl) ups G1.
Proof. reflexivity. Qed.

Lemma spread_applies (ps : list (option (Node * Node))) (x : Q) (G G' : MultiDiGraph) :
  Rounded.spread fl ps x G = Ok G' ->
  for_each (Rounded.apply_update fl) (Rounded.spread_updates ps x) G = Ok G'.
Proof.
  revert G. induction ps as [|p ps IH]; intros G H; simpl in H; [exact H|].
  apply result_bind_Ok in H as (uv & Huv & H). apply of_option_Ok in Huv. subst p.
  apply result_bind_Ok in H as (G1 & HG1 & H).
  cbn [Rounded.spread_updates]. rewrite apply_update_cons, HG1, result_bind_Ok_l.
  apply IH, H.
Qed.

Lemma spread_updates_nonneg (ps : list (option (Node * Node))) (x : Q) :
  (0 <= x)%Q -> Forall (fun up => (0 <= Rounded.increment up)%Q) (Rounded.spread_updates ps x).
Proof.
  intros Hx. induction ps as [|[uv|] ps IH]; simpl; constructor; assumption.
Qed.

Section Run.
Variable shortest_path : MultiDiGraph -> Node -> Node -> result (list Node).
Variable dictRouteSegments : list (Z * list Z).
Variable dictRouteMetrics : ByDir (gmap Z StopDict).
Variable dictRouteTotals : ByDir (gmap Z Totals).
Variable dictAllNodes : NodeDict.

(** The two increments of a stop pair. *)
Lemma increments_nonneg (total_on total_off : Z) (i : nat) (ons offs : Z) (t : Q)
    (adjusted : Q * Q) :
  (0 <= t)%Q -> (0 <= ons)%Z -> (0 <= offs)%Z -> (0 <= total_on)%Z -> (0 <= total_off)%Z ->
  Rounded.AdjustRidership fl ons offs total_on total_off = Ok adjusted ->
  let total := match i with
               | O => Rounded.add fl (Rounded.add fl t (fst adjusted)) (snd adjusted)
               | S _ => Rounded.add fl t (fst adjusted)
               end in
  (0 <= total)%Q /\
  (0 <= (if Qlt_bool total (snd adjusted)
         then if (total_on >? total_off)%Z then inject_Z total_on else inject_Z total_off
         else Rounded.sub fl total (snd adjusted)))%Q.
Proof.
  intros Ht Hons Hoffs Hon Hoff Hadj total.
  destruct (rounded_AdjustRidership_nonneg _ _ _ _ _ Hons Hoffs Hon Hoff Hadj) as [Ha Hb].
  assert (H1 : (0 <= total)%Q).
  { unfold total. destruct i; repeat apply rounded_add_nonneg; assumption. }
  split; [exact H1|].
  destruct (Qlt_bool total (snd adjusted)) eqn:Hbad.
  - destruct (total_on >? total_off)%Z; apply inject_Z_nonneg; assumption.
  - apply rounded_sub_nonneg, Qlt_bool_false, Hbad.
Qed.

Lemma apportion_updates_nonneg (total_on total_off : Z) (i : nat)
    (eSource eTarget : option Z) (ons offs : Z) (st : State) :
  (0 <= st_total st)%Q ->
  (0 <= ons)%Z -> (0 <= offs)%Z -> (0 <= total_on)%Z -> (0 <= total_off)%Z ->
  Forall (fun up => (0 <= Rounded.increment up)%Q)
         (Rounded.apportion_updates fl dictAllNodes total_on total_off i eSource eTarget
                                    ons offs st).
Proof.
  intros Ht Hons Hoffs Hon Hoff. unfold Rounded.apportion_updates.
  destruct (st_tlinks st) as [tlinks|]; [|constructor].
  destruct (Rounded.AdjustRidership fl ons offs total_on total_off) as [adjusted|] eqn:Hadj;
    [|constructor].
  destruct (node_tuple (st_dictRouteNodes st) eSource) as [src|]; [|constructor].
  destruct (increments_nonneg total_on total_off i ons offs (st_total st) adjusted
              Ht Hons Hoffs Hon Hoff Hadj) as [H1 H2].
  cbv zeta. constructor; [exact H1|]. apply spread_updates_nonneg, H2.
Qed.

(** The graph after [apportion] is the graph before it with the updates
    of the stop pair applied, and the running total is not negative
    again. *)
Lemma apportion_applies (r : Z) (dir : Direction) (total_on total_off : Z) (i : nat)
    (eSource eTarget : option Z) (ons offs : Z) (st st' : State) :
  (0 <= st_total st)%Q ->
  (0 <= ons)%Z -> (0 <= offs)%Z -> (0 <= total_on)%Z -> (0 <= total_off)%Z ->
  Rounded.apportion fl dictAllNodes r dir total_on total_off i eSource eTarget ons offs st
    = Ok st' ->
  for_each (Rounded.apply_update fl)
    (Rounded.apportion_updates fl dictAllNodes total_on total_off i eSource eTarget ons offs st)
    (st_G st) = Ok (st_G st') /\
  (0 <= st_total st')%Q.
Proof.
  intros Ht Hons Hoffs Hon Hoff H. unfold Rounded.apportion in H.
  unfold Rounded.apportion_updates.
  bind_inv H tlinks Htl. apply of_option_Ok in Htl. rewrite Htl.
  bind_inv H adjusted Hadj. rewrite Hadj.
  bind_inv H src Hsrc. apply of_option_Ok in Hsrc.
  cbn [st_G st_total st_dictRouteNodes set_tlinks] in *. rewrite Hsrc.
  destruct (increments_nonneg total_on total_off i ons offs (st_total st) adjusted
              Ht Hons Hoffs Hon Hoff Hadj) as [H1 H2].
  cbv zeta in H1, H2.
  bind_inv H G1 HG1. cbv zeta. rewrite apply_update_cons, HG1, result_bind_Ok_l.
  destruct (Qlt_bool _ (snd adjusted)) eqn:Hbad.
  - bind_inv H G2 HG2. injection H as <-. cbn. split; [apply spread_applies, HG2|exact H2].
  - bind_inv H G2 HG2. injection H as <-. cbn. split; [apply spread_applies, HG2|exact H2].
Qed.

Lemma stop_pair_updates_nonneg (subgraph : MultiDiGraph) (dictRouteLinks : list Z) (r : Z)
    (dir : Direction) (dictStops : StopDict) (lstStops : list Q)
    (total_on total_off : Z) (item : nat * Q) (st : State) :
  (0 <= st_total st)%Q -> stops_nonneg dictStops ->
  (0 <= total_on)%Z -> (0 <= total_off)%Z ->
  Forall (fun up => (0 <= Rounded.increment up)%Q)
         (Rounded.stop_pair_updates fl shortest_path dictAllNodes subgraph dictRouteLinks r dir
            dictStops lstStops total_on total_off item st).
Proof.
  intros Ht Hstops Hon Hoff. unfold Rounded.stop_pair_updates. destruct item as [i s].
  destruct (odict_get Qeq_bool s dictStops) as [[[eSource ons] offs]|] eqn:Hsrc;
    [|constructor].
  destruct (lstStops !! (i + 1)%nat) as [s'|]; [|constructor].
  destruct (odict_get Qeq_bool s' dictStops) as [[[eTarget ons'] offs']|]; [|constructor].
  destruct (locate _ _ _ _ _ _ _ _ _) as [[st1 [|]]|] eqn:Hloc; try constructor.
  apply locate_Ok in Hloc as (_ & Ht1 & _).
  destruct (odict_get_Forall _ _ _ _ _ Hstops Hsrc) as (k' & Hons & Hoffs).
  simpl in Hons, Hoffs.
  apply apportion_updates_nonneg; try assumption. rewrite Ht1. exact Ht.
Qed.

Lemma stop_pair_applies (subgraph : MultiDiGraph) (dictRouteLinks : list Z) (r : Z)
    (dir : Direction) (dictStops : StopDict) (lstStops : list Q)
    (total_on total_off : Z) (item : nat * Q) (st st' : State) (stop : bool) :
  (0 <= st_total st)%Q -> stops_nonneg dictStops ->
  (0 <= total_on)%Z -> (0 <= total_off)%Z ->
  Rounded.stop_pair fl shortest_path dictAllNodes subgraph dictRouteLinks r dir dictStops
                    lstStops total_on total_off item st = Ok (st', stop) ->
  for_each (Rounded.apply_update fl)
    (Rounded.stop_pair_updates fl shortest_path dictAllNodes subgraph dictRouteLinks r dir
       dictStops lstStops total_on total_off item st)
    (st_G st) = Ok (st_G st') /\
  (0 <= st_total st')%Q.
Proof.
  intros Ht Hstops Hon Hoff H. unfold Rounded.stop_pair in H.
  unfold Rounded.stop_pair_updates. destruct item as [i s].
  bind_inv H lstSourceData Hsrc. apply of_option_Ok in Hsrc. rewrite Hsrc.
  destruct lstSourceData as [[eSource ons] offs].
  bind_inv H s' Hs'. apply of_option_Ok in Hs'. rewrite Hs'.
  bind_inv H lstTargetData Htgt. apply of_option_Ok in Htgt. rewrite Htgt.
  destruct lstTargetData as [[eTarget ons2] offs2].
  bind_inv H located Hloc. destruct located as [st1 stop1]. rewrite Hloc.
  apply locate_Ok in Hloc as (HG & Ht1 & _).
  destruct stop1.
  - injection H as <- <-. simpl. rewrite HG, Ht1. split; [reflexivity|exact Ht].
  - bind_inv H st2 Happ. injection H as <- <-.
    destruct (odict_get_Forall _ _ _ _ _ Hstops Hsrc) as (k' & Hons & Hoffs).
    simpl in Hons, Hoffs. rewrite <- HG.
    eapply apportion_applies; [| | | | |exact Happ]; try assumption.
    rewrite Ht1. exact Ht.
Qed.

Lemma for_stops_updates_nonneg (subgraph : MultiDiGraph) (dictRouteLinks : list Z) (r : Z)
    (dir : Direction) (dictStops : StopDict) (lstStops : list Q)
    (total_on total_off : Z) (items : list (nat * Q)) (st : State) :
  (0 <= st_total st)%Q -> stops_nonneg dictStops ->
  (0 <= total_on)%Z -> (0 <= total_off)%Z ->
  Forall (fun up => (0 <= Rounded.increment up)%Q)
    (Rounded.for_stops_updates
       (Rounded.stop_pair fl shortest_path dictAllNodes subgraph dictRouteLinks r dir
          dictStops lstStops total_on total_off)
       (Rounded.stop_pair_updates fl shortest_path dictAllNodes subgraph dictRouteLinks r dir
          dictStops lstStops total_on total_off)
       items st).
Proof.
  intros Ht Hstops Hon Hoff. revert st Ht.
  induction items as [|item items IH]; intros st Ht; simpl; [constructor|].
  apply Forall_app. split; [apply stop_pair_updates_nonneg; assumption|].
  destruct (Rounded.stop_pair _ _ _ _ _ _ _ _ _ _ _ _ _) as [[st1 [|]]|] eqn:E;
    try constructor.
  apply IH. eapply stop_pair_applies; [| | | |exact E]; assumption.
Qed.

Lemma for_stops_applies (subgraph : MultiDiGraph) (dictRouteLinks : list Z) (r : Z)
    (dir : Direction) (dictStops : StopDict) (lstStops : list Q)
    (total_on total_off : Z) (items : list (nat * Q)) (st st' : State) :
  (0 <= st_total st)%Q -> stops_nonneg dictStops ->
  (0 <= total_on)%Z -> (0 <= total_off)%Z ->
  for_stops
    (Rounded.stop_pair fl shortest_path dictAllNodes subgraph dictRouteLinks r dir
       dictStops lstStops total_on total_off) items st = Ok st' ->
  for_each (Rounded.apply_update fl)
    (Rounded.for_stops_updates
       (Rounded.stop_pair fl shortest_path dictAllNodes subgraph dictRouteLinks r dir
          dictStops lstStops total_on total_off)
       (Rounded.stop_pair_updates fl shortest_path dictAllNodes subgraph dictRouteLinks r dir
          dictStops lstStops total_on total_off)
       items st)
    (st_G st) = Ok (st_G st').
Proof.
  intros Ht Hstops Hon Hoff. revert st Ht.
  induction items as [|item items IH]; intros st Ht H; simpl in H |- *.
  - injection H as <-. reflexivity.
  - bind_inv H res Hres. destruct res as [st1 stop]. rewrite Hres.
    destruct (stop_pair_applies _ _ _ _ _ _ _ _ _ _ _ _ Ht Hstops Hon Hoff Hres)
      as [Happ Ht1].
    rewrite for_each_app, Happ. simpl. destruct stop.
    + injection H as <-. reflexivity.
    + apply IH; assumption.
Qed.

Hypothesis metrics_ok : metrics_nonneg dictRouteMetrics.
Hypothesis totals_ok : totals_nonneg dictRouteTotals.

Lemma stops_ok (dir : Direction) (r : Z) :
  stops_nonneg (default [] (dir_get dir dictRouteMetrics !! r)).
Proof.
  destruct (dir_get dir dictRouteMetrics !! r) as [stops|] eqn:E; simpl.
  - exact (metrics_ok dir r stops E).
  - constructor.
Qed.

Lemma totals_of_ok (dir : Direction) (r : Z) :
  (0 <= fst (default (0, 0)%Z (dir_get dir dictRouteTotals !! r)))%Z /\
  (0 <= snd (default (0, 0)%Z (dir_get dir dictRouteTotals !! r)))%Z.
Proof.
  destruct (dir_get dir dictRouteTotals !! r) as [t|] eqn:E; simpl.
  - exact (totals_ok dir r t E).
  - split; reflexivity.
Qed.

Lemma direction_updates_nonneg (subgraph : MultiDiGraph) (dictRouteLinks : list Z) (r : Z)
    (st : State) (dir : Direction) :
  Forall (fun up => (0 <= Rounded.increment up)%Q)
    (Rounded.direction_updates fl shortest_path dictRouteMetrics dictRouteTotals dictAllNodes
       subgraph dictRouteLinks r st dir).
Proof.
  unfold Rounded.direction_updates. destruct (totals_of_ok dir r) as [Hon Hoff].
  apply for_stops_updates_nonneg; [apply Qle_refl|apply stops_ok|assumption..].
Qed.

Lemma direction_applies (subgraph : MultiDiGraph) (dictRouteLinks : list Z) (r : Z)
    (st st' : State) (dir : Direction) :
  Rounded.direction fl shortest_path dictRouteMetrics dictRouteTotals dictAllNodes subgraph
                    dictRouteLinks r st dir = Ok st' ->
  for_each (Rounded.apply_update fl)
    (Rounded.direction_updates fl shortest_path dictRouteMetrics dictRouteTotals dictAllNodes
       subgraph dictRouteLinks r st dir)
    (st_G st) = Ok (st_G st').
Proof.
  unfold Rounded.direction, Rounded.direction_updates. intros H.
  destruct (totals_of_ok dir r) as [Hon Hoff].
  apply for_stops_applies in H; [exact H|apply Qle_refl|apply stops_ok|assumption..].
Qed.

Lemma for_each_updates_nonneg {A : Type} (body : State -> A -> result State)
    (ups : State -> A -> list Rounded.Update) (l : list A) (st : State) :
  (forall st x, Forall (fun up => (0 <= Rounded.increment up)%Q) (ups st x)) ->
  Forall (fun up => (0 <= Rounded.increment up)%Q) (Rounded.for_each_updates body ups l st).
Proof.
  intros Hups. revert st. induction l as [|x l IH]; intros st; simpl; [constructor|].
  apply Forall_app. split; [apply Hups|].
  destruct (body st x); [apply IH|constructor].
Qed.

Lemma for_each_applies {A : Type} (body : State -> A -> result State)
    (ups : State -> A -> list Rounded.Update) (l : list A) (st st' : State) :
  (forall st st' x, body st x = Ok st' ->
     for_each (Rounded.apply_update fl) (ups st x) (st_G st) = Ok (st_G st')) ->
  for_each body l st = Ok st' ->
  for_each (Rounded.apply_update fl) (Rounded.for_each_updates body ups l st) (st_G st)
    = Ok (st_G st').
Proof.
  intros Hbody. revert st. induction l as [|x l IH]; intros st H; simpl in H |- *.
  - injection H as <-. reflexivity.
  - bind_inv H st1 H1. rewrite H1, for_each_app, (Hbody _ _ _ H1). simpl. apply IH, H.
Qed.

Lemma route_updates_nonneg (st : State) (r : Z) :
  Forall (fun up => (0 <= Rounded.increment up)%Q)
    (Rounded.route_updates fl shortest_path dictRouteSegments dictRouteMetrics
       dictRouteTotals dictAllNodes st r).
Proof.
  unfold Rounded.route_updates.
  destruct (CreateSubgraph _ _ _) as [[[dictRouteLinks dictRouteNodes] subgraph]|];
    [|constructor].
  apply for_each_updates_nonneg. intros st0 dir. apply direction_updates_nonneg.
Qed.

Lemma route_applies (st st' : State) (r : Z) :
  Rounded.route fl shortest_path dictRouteSegments dictRouteMetrics dictRouteTotals
                dictAllNodes st r = Ok st' ->
  for_each (Rounded.apply_update fl)
    (Rounded.route_updates fl shortest_path dictRouteSegments dictRouteMetrics
       dictRouteTotals dictAllNodes st r)
    (st_G st) = Ok (st_G st').
Proof.
  unfold Rounded.route, Rounded.route_updates. intros H.
  bind_inv H created Hc. rewrite Hc.
  destruct created as [[dictRouteLinks dictRouteNodes] subgraph].
  apply (for_each_applies _ _ _ _ _ (direction_applies subgraph dictRouteLinks r)) in H.
  exact H.
Qed.
End Run.
End RoundedArithmetic.

Lemma add_edge_loads_rounded (fl : Q -> Q) (G : MultiDiGraph) (u v : Node) (d : EdgeData) :
  (fl (total d) == total d)%Q -> loads_rounded fl G -> loads_rounded fl (add_edge G u v d).
Proof.
  intros Hd HG. unfold loads_rounded in *. unfold add_edge.
  set (P := Forall (fun kd : nat * EdgeData => (fl (total (snd kd)) == total (snd kd))%Q)).
  set (G1 := add_node (add_node G u) v).
  assert (HG1 : all_key_dicts P G1) by (apply add_node_key_dicts, add_node_key_dicts, HG).
  assert (Hadj : Forall (fun vk : Node * KeyDict => P (snd vk))
                        (default [] (odict_get Z.eqb u G1))).
  { destruct (odict_get Z.eqb u G1) as [adj|] eqn:E; simpl; [|constructor].
    destruct (odict_get_Forall Z.eqb _ u adj G1 HG1 E) as (k' & H). exact H. }
  destruct (odict_get Z.eqb v _) as [kd|] eqn:Hv.
  - apply odict_set_Forall; [exact HG1|]. apply odict_set_Forall; [exact Hadj|].
    destruct (odict_get_Forall Z.eqb _ v kd _ Hadj Hv) as (k' & Hkd). simpl in Hkd.
    simpl. apply Forall_app. split; [exact Hkd|]. repeat constructor. exact Hd.
  - apply odict_set_Forall; [exact HG1|]. apply odict_set_Forall; [exact Hadj|].
    simpl. repeat constructor. exact Hd.
Qed.

(** The loads of the graph as built are 0, which the rounding leaves as
    it is. *)
Lemma built_loads_rounded (fl : Q -> Q) (fcStreets : list StreetRow) :
  (fl 0 == 0)%Q -> loads_rounded fl (CreateDirectedMultiGraph fcStreets).
Proof.
  intros H0. unfold CreateDirectedMultiGraph.
  assert (Hnil : loads_rounded fl []) by constructor.
  revert Hnil. generalize ([] : MultiDiGraph) as G.
  induction fcStreets as [|row rows IH]; intros G HG; simpl; [exact HG|].
  apply IH. unfold add_street.
  destruct (FR_TPOINT row), (TO_TPOINT row); try exact HG.
  destruct (CAR_FLOW row =? 2)%Z; [|destruct (CAR_FLOW row =? 1)%Z];
    repeat apply add_edge_loads_rounded; try exact HG; exact H0.
Qed.

(** C9.  The list [Rounded.updates] holds every update
    [G[u][v][0]['total'] += x] of a run, in order.  In a run over stop
    records whose boardings and alightings are not negative, whatever the
    rounding of the float operations ([binary64] for the script, the
    identity for exact arithmetic): the increment of every update is not
    negative, the clamp of a bad total included, which replaces the
    running total by the larger total of the direction before it is
    added to the edges of the path; every single update, applied to the
    graph that the updates before it have left, lowers the load of no
    edge; and the graph of a completed run is the graph as built with
    exactly these updates applied.  (A total of zero, where the adjustment
    would divide by it, ends the run before the update of that stop
    pair.) *)
Theorem updates_never_decrease_loads (fl : Q -> Q)
    (shortest_path : MultiDiGraph -> Node -> Node -> result (list Node))
    (fcStreets : list StreetRow) (fcRoutes : list (Z * Z)) (csvMetroQuery : list MetroRow) :
  rounding fl -> Forall row_nonneg csvMetroQuery ->
  let G0 := CreateDirectedMultiGraph fcStreets in
  let ups := Rounded.updates fl shortest_path fcStreets fcRoutes csvMetroQuery in
  Forall (fun up => (0 <= Rounded.increment up)%Q) ups /\
  (forall ups1 up ups2 Ga Gb,
     ups = ups1 ++ up :: ups2 ->
     for_each (Rounded.apply_update fl) ups1 G0 = Ok Ga ->
     Rounded.apply_update fl Ga up = Ok Gb ->
     loads_le Ga Gb) /\
  (forall G lstBadData lstMissingLink,
     Rounded.RidershipAlgorithm fl shortest_path fcStreets fcRoutes csvMetroQuery
       = Ok (G, lstBadData, lstMissingLink) ->
     for_each (Rounded.apply_update fl) ups G0 = Ok G /\ loads_le G0 G).
Proof.
  intros Hfl Hrows G0 ups.
  pose proof (built_loads_rounded fl fcStreets (rounding_zero fl Hfl)) as HG0.
  fold G0 in HG0.
  destruct (RouteDataLookup_nonneg _ Hrows) as [Hm Ht].
  assert (Hnn : Forall (fun up => (0 <= Rounded.increment up)%Q) ups).
  { unfold ups, Rounded.updates.
    destruct (RouteDataLookup csvMetroQuery) as [dictRouteMetrics dictRouteTotals].
    destruct (NodeLookup _) as [dictAllNodes|]; [|constructor].
    apply for_each_updates_nonneg. intros st r.
    apply route_updates_nonneg; assumption. }
  split; [exact Hnn|]. split.
  - intros ups1 up ups2 Ga Gb Hups H1 Hup.
    destruct (apply_all_loads fl Hfl ups1 G0 Ga HG0 H1) as [HGa _].
    apply (rounded_add_total_loads fl Hfl _ _ _ _ _ HGa Hup).
    rewrite Hups in Hnn. apply Forall_app in Hnn as [_ Hnn].
    apply Forall_cons in Hnn as [Hnn _]. exact Hnn.
  - intros G lstBadData lstMissingLink H.
    assert (Happ : for_each (Rounded.apply_update fl) ups G0 = Ok G).
    { unfold ups, Rounded.updates. unfold Rounded.RidershipAlgorithm in H.
      apply or_exit_Ok in H.
      destruct (RouteDataLookup csvMetroQuery) as [dictRouteMetrics dictRouteTotals].
      bind_inv H dictAllNodes Hnodes. rewrite Hnodes.
      bind_inv H st Hst. injection H as <- _ _.
      apply (for_each_applies fl _ _ _ _ _
               (route_applies fl Hfl shortest_path (SubgraphDataLookup fcRoutes)
                  dictRouteMetrics dictRouteTotals dictAllNodes Hm Ht)) in Hst.
      exact Hst. }
    split; [exact Happ|].
    apply (apply_all_loads fl Hfl ups G0 G HG0 Happ), Hnn.
Qed.

(** In doubles the adjusted boardings of the second stop bring the
    running total to 3.9999999999999996, below the 4 alightings: the
    pair is reported as bad data and the larger total, 8, goes to the
    path.  The four updates are 2.333333333333333 on 1 -> 2,
    1.333333333333333 on 2 -> 3, 3.9999999999999996 on 3 -> 4 and 8 on
    4 -> 5. *)
Lemma updates_never_decrease_loads_witness :
  rounding binary64 /\ Forall row_nonneg thirds_query /\
  exists G,
    Rounded.RidershipAlgorithm binary64 nx_shortest_path thirds_streets thirds_routes
        thirds_query = Ok (G, [(7%Z, inbound)], []) /\
    map fst (Rounded.updates binary64 nx_shortest_path thirds_streets thirds_routes
               thirds_query) = [(1, 2); (2, 3); (3, 4); (4, 5)]%Z /\
    Forall2 Qeq
      (map Rounded.increment
         (Rounded.updates binary64 nx_shortest_path thirds_streets thirds_routes
            thirds_query))
      [5254199565265578 # 2251799813685248; 6004799503160660 # 4503599627370496;
       9007199254740991 # 2251799813685248; 8]%Q /\
    Forall (fun up => (0 <= Rounded.increment up)%Q)
      (Rounded.updates binary64 nx_shortest_path thirds_streets thirds_routes
         thirds_query) /\
    for_each (Rounded.apply_update binary64)
      (Rounded.updates binary64 nx_shortest_path thirds_streets thirds_routes thirds_query)
      (CreateDirectedMultiGraph thirds_streets) = Ok G /\
    loads_le (CreateDirectedMultiGraph thirds_streets) G.
Proof.
  assert (Hrows : Forall row_nonneg thirds_query).
  { repeat constructor; simpl; lia. }
  split; [exact binary64_rounding|]. split; [exact Hrows|].
  eexists. split; [vm_compute; reflexivity|]. split; [vm_compute; reflexivity|].
  split; [vm_compute; repeat constructor|].
  destruct (updates_never_decrease_loads binary64 nx_shortest_path thirds_streets
              thirds_routes thirds_query binary64_rounding Hrows) as (Hnn & _ & Hrun).
  split; [exact Hnn|].
  apply (Hrun _ [(7%Z, inbound)] []). vm_compute. reflexivity.
Defined.

(** The same query in exact arithmetic: the running total is 4, the pair
    is not reported, and nothing goes to the path. *)
Lemma rounding_decides_bad_data :
  (exists G, RidershipAlgorithm nx_shortest_path thirds_streets thirds_routes thirds_query
               = Ok (G, [], [])) /\
  (exists G, Rounded.RidershipAlgorithm binary64 nx_shortest_path thirds_streets
               thirds_routes thirds_query = Ok (G, [(7%Z, inbound)], [])).
Proof. split; eexists; vm_compute; reflexivity. Qed.

(** * AdjustRidership in the arithmetic of the doubles *)

Section Share.
Variable fl : Q -> Q.
Hypothesis Hfl : rounding fl.

#[local] Instance fl_proper : Proper (Qeq ==> Qeq) fl.
Proof. intros x y H. apply (fl_comp fl Hfl), H. Qed.

(** The conversions that the operations repeat change nothing. *)
Lemma rounded_share (x diff t : Q) :
  (Rounded.add fl x (Rounded.mul fl diff (Rounded.div fl (fl x) t)) ==
   fl (fl x + fl (fl diff * fl (fl x / fl t))))%Q.
Proof.
  unfold Rounded.add, Rounded.mul, Rounded.div.
  rewrite !(rounding_idem fl Hfl). reflexivity.
Qed.
End Share.

Lemma double_share_zero (diff t : Z) : (double_share 0 diff t == 0)%Q.
Proof.
  unfold double_share. change (inject_Z 0) with 0%Q.
  change (binary64 0) with 0%Q.
  assert (E : (0 / binary64 (inject_Z t) == 0)%Q) by (unfold Qdiv; ring).
  rewrite E. change (binary64 0) with 0%Q.
  assert (E' : (binary64 (inject_Z diff) * 0 == 0)%Q) by ring.
  rewrite E'. reflexivity.
Qed.

Lemma pow2_m53 : (pow2 (-53) == 1 # 9007199254740992)%Q.
Proof. reflexivity. Qed.

(** For counts and totals that are doubles, the value that the script
    computes is the value of the formula up to three roundings. *)
Lemma double_share_close (x diff t : Z) :
  (0 <= x <= 2 ^ 53)%Z -> (0 <= diff <= 2 ^ 53)%Z -> (0 < t <= 2 ^ 53)%Z ->
  within_rounding (exact_share x diff t) (double_share x diff t).
Proof.
  intros Hx Hd Ht. unfold within_rounding, exact_share, double_share.
  rewrite (binary64_Z x), (binary64_Z diff), (binary64_Z t) by lia.
  assert (Hx0 : (0 <= inject_Z x)%Q) by (apply inject_Z_nonneg; lia).
  assert (Hd0 : (0 <= inject_Z diff)%Q) by (apply inject_Z_nonneg; lia).
  assert (Ht0 : (0 < inject_Z t)%Q) by (apply inject_Z_pos; lia).
  assert (Hr0 : (0 <= inject_Z x / inject_Z t)%Q) by (apply Qdiv_nonneg; lra).
  pose proof pow2_m53 as Hu.
  assert (H4u : (1 # 2251799813685248 == 4 * pow2 (-53))%Q) by reflexivity.
  rewrite H4u.
  assert (Hlow : (pow2 (-1022) <= pow2 (-54))%Q) by (apply pow2_le; lia).
  assert (H54 : (pow2 (-54) == 1 # 18014398509481984)%Q) by reflexivity.
  destruct (Z.eq_dec x 0%Z) as [->|Hx1].
  { change (inject_Z 0) with 0%Q in *.
    assert (E : (0 / inject_Z t == 0)%Q) by (unfold Qdiv; ring).
    rewrite E. change (binary64 0) with 0%Q.
    assert (E' : (inject_Z diff * 0 == 0)%Q) by ring.
    rewrite E'. change (binary64 0) with 0%Q.
    assert (E'' : (0 + 0 == 0)%Q) by ring. rewrite E''. change (binary64 0) with 0%Q.
    split; lra. }
  destruct (Z.eq_dec diff 0%Z) as [->|Hd1].
  { change (inject_Z 0) with 0%Q in *.
    assert (E' : (0 * binary64 (inject_Z x / inject_Z t) == 0)%Q) by ring.
    rewrite E'. change (binary64 0) with 0%Q.
    assert (E'' : (inject_Z x + 0 == inject_Z x)%Q) by ring.
    rewrite E'', (binary64_Z x) by lia.
    assert (E3 : (inject_Z x + 0 * (inject_Z x / inject_Z t) == inject_Z x)%Q) by ring.
    rewrite E3. split; nra. }
  assert (Hx1' : (1 <= inject_Z x)%Q).
  { change 1%Q with (inject_Z 1). rewrite <- Zle_Qle. lia. }
  assert (Hd1' : (1 <= inject_Z diff)%Q).
  { change 1%Q with (inject_Z 1). rewrite <- Zle_Qle. lia. }
  assert (Ht1 : (inject_Z t <= 9007199254740992)%Q).
  { change 9007199254740992%Q with (inject_Z (2 ^ 53)). rewrite <- Zle_Qle. lia. }
  assert (Hr1 : (pow2 (-53) <= inject_Z x / inject_Z t)%Q).
  { rewrite Hu. apply Qle_shift_div_l; [exact Ht0|]. lra. }
  set (r := (inject_Z x / inject_Z t)%Q) in *.
  pose proof (binary64_relative r) as Hq.
  set (q := binary64 r) in *.
  assert (Hq' : (r * (1 - pow2 (-53)) <= q <= r * (1 + pow2 (-53)))%Q).
  { apply Hq. apply Qle_trans with (pow2 (-54)); [exact Hlow|]. rewrite H54. lra. }
  pose proof (binary64_relative (inject_Z diff * q)) as Hp.
  set (p := binary64 (inject_Z diff * q)) in *.
  assert (Hq54 : (pow2 (-54) <= q)%Q) by (rewrite H54; nra).
  assert (Hp' : (inject_Z diff * q * (1 - pow2 (-53)) <= p
                 <= inject_Z diff * q * (1 + pow2 (-53)))%Q).
  { apply Hp. apply Qle_trans with (pow2 (-54)); [exact Hlow|]. nra. }
  pose proof (binary64_relative (inject_Z x + p)) as Hs.
  assert (Hp0 : (0 <= p)%Q) by (rewrite H54 in Hq54; nra).
  assert (Hs' : ((inject_Z x + p) * (1 - pow2 (-53)) <= binary64 (inject_Z x + p)
                 <= (inject_Z x + p) * (1 + pow2 (-53)))%Q).
  { apply Hs. apply Qle_trans with (pow2 (-54)); [exact Hlow|]. rewrite H54. lra. }
  apply (three_roundings (inject_Z x) (pow2 (-53)) q p _ r (inject_Z diff));
    try assumption; rewrite ?Hu; lra.
Qed.

(** What [AdjustRidership] returns, by the order of the totals. *)
Lemma AdjustRidership_shares (ons offs total_on total_off : Z) (adjusted : Q * Q) :
  Rounded.AdjustRidership binary64 ons offs total_on total_off = Ok adjusted ->
  if (total_on >? total_off)%Z
  then total_off <> 0%Z /\ fst adjusted = inject_Z ons /\
       (snd adjusted == double_share offs (total_on - total_off) total_off)%Q
  else total_on <> 0%Z /\
       (fst adjusted == double_share ons (total_off - total_on) total_on)%Q /\
       snd adjusted = inject_Z offs.
Proof.
  unfold Rounded.AdjustRidership. destruct (total_on >? total_off)%Z.
  - destruct (Z.eqb_spec total_off 0) as [|Hnz]; [discriminate|].
    intros [= <-]. split; [exact Hnz|]. split; [reflexivity|].
    apply (rounded_share binary64 binary64_rounding).
  - destruct (Z.eqb_spec total_on 0) as [|Hnz]; [discriminate|].
    intros [= <-]. split; [exact Hnz|]. split; [|reflexivity].
    apply (rounded_share binary64 binary64_rounding).
Qed.

(** On the samples the value is the one that the operations of IEEE 754,
    as the Standard Library specifies them, give. *)
Lemma double_share_is_IEEE :
  forallb (fun p : Z * Z * Z =>
             match SF2Q (SF_share (fst (fst p)) (snd (fst p)) (snd p)) with
             | Some q => Qeq_bool (double_share (fst (fst p)) (snd (fst p)) (snd p)) q
             | None => false
             end) share_samples = true.
Proof. vm_compute. reflexivity. Qed.

(** C5, as the code has it.  With a nonzero divisor, [AdjustRidership]
    returns one count as it is and the other as the value, in the
    arithmetic of the doubles, of the formula
    [x + diff * (float(x) / total)]: the quotient, the product and the sum
    are each rounded to the nearest double.  (Counts and totals below
    2^511 keep every intermediate result in the range of the doubles.)
    For counts and totals up to 2^53 this value is the exact value of the
    formula up to a relative error of 2^-51; it need not be the exact
    value ([AdjustRidership_exact_counterexample]).  For totals 100 and 80
    and counts 10 and 8 the result is 10 and 10. *)
Theorem AdjustRidership_in_doubles (ons offs total_on total_off : Z) :
  (0 <= ons < 2 ^ 511)%Z -> (0 <= offs < 2 ^ 511)%Z ->
  (Z.abs total_on < 2 ^ 511)%Z -> (Z.abs total_off < 2 ^ 511)%Z ->
  (if (total_on >? total_off)%Z then total_off else total_on) <> 0%Z ->
  (exists adjusted_ons adjusted_offs,
     Rounded.AdjustRidership binary64 ons offs total_on total_off
       = Ok (adjusted_ons, adjusted_offs) /\
     (if (total_on >? total_off)%Z
      then adjusted_ons = inject_Z ons /\
           (adjusted_offs == double_share offs (total_on - total_off) total_off)%Q
      else (adjusted_ons == double_share ons (total_off - total_on) total_on)%Q /\
           adjusted_offs = inject_Z offs) /\
     ((ons <= 2 ^ 53)%Z -> (offs <= 2 ^ 53)%Z ->
      (0 <= total_on <= 2 ^ 53)%Z -> (0 <= total_off <= 2 ^ 53)%Z ->
      if (total_on >? total_off)%Z
      then within_rounding (exact_share offs (total_on - total_off) total_off) adjusted_offs
      else within_rounding (exact_share ons (total_off - total_on) total_on) adjusted_ons))
  /\ exists adjusted_ons adjusted_offs,
       Rounded.AdjustRidership binary64 10 8 100 80 = Ok (adjusted_ons, adjusted_offs) /\
       (adjusted_ons == 10)%Q /\ (adjusted_offs == 10)%Q.
Proof.
  intros Hons Hoffs _ _ Hdiv. split.
  - unfold Rounded.AdjustRidership.
    destruct (Z.gtb_spec total_on total_off) as [Hgt|Hle].
    + apply Z.eqb_neq in Hdiv. rewrite Hdiv. apply Z.eqb_neq in Hdiv.
      eexists _, _. split; [reflexivity|].
      pose proof (rounded_share binary64 binary64_rounding (inject_Z offs)
                    (inject_Z (total_on - total_off)) (inject_Z total_off)) as E.
      split; [split; [reflexivity|exact E]|].
      intros _ B1 B2 B3. unfold within_rounding. rewrite E.
      apply double_share_close; lia.
    + apply Z.eqb_neq in Hdiv. rewrite Hdiv. apply Z.eqb_neq in Hdiv.
      eexists _, _. split; [reflexivity|].
      pose proof (rounded_share binary64 binary64_rounding (inject_Z ons)
                    (inject_Z (total_off - total_on)) (inject_Z total_on)) as E.
      split; [split; [exact E|reflexivity]|].
      intros B0 _ B2 B3. unfold within_rounding. rewrite E.
      apply double_share_close; lia.
  - eexists _, _. split; [reflexivity|]. split; vm_compute; reflexivity.
Qed.

Lemma AdjustRidership_in_doubles_witness :
  (0 <= 1 < 2 ^ 511)%Z /\ (Z.abs 4 < 2 ^ 511)%Z /\ (Z.abs 3 < 2 ^ 511)%Z /\
  (if (4 >? 3)%Z then 3%Z else 4%Z) <> 0%Z /\
  exists adjusted_offs,
    Rounded.AdjustRidership binary64 1 1 4 3 = Ok (inject_Z 1, adjusted_offs) /\
    (adjusted_offs == double_share 1 1 3)%Q /\
    within_rounding (exact_share 1 1 3) adjusted_offs.
Proof.
  assert (H1 : (0 <= 1 < 2 ^ 511)%Z) by (split; [lia|reflexivity]).
  assert (B4 : (Z.abs 4 < 2 ^ 511)%Z) by reflexivity.
  assert (B3 : (Z.abs 3 < 2 ^ 511)%Z) by reflexivity.
  assert (H3 : (if (4 >? 3)%Z then 3%Z else 4%Z) <> 0%Z) by (simpl; discriminate).
  split; [exact H1|]. split; [exact B4|]. split; [exact B3|]. split; [exact H3|].
  destruct (AdjustRidership_in_doubles 1 1 4 3 H1 H1 B4 B3 H3)
    as [(a & b & Hab & Hval & Hnear) _].
  simpl in Hval, Hnear. destruct Hval as [-> Hb]. exists b.
  split; [exact Hab|]. split; [exact Hb|].
  apply Hnear; lia.
Defined.

(** C5 as stated, with the formula read in exact arithmetic, fails: for
    one boarding and one alighting at a stop of a direction with 4
    boardings and 3 alightings in all, the formula gives 4/3 and the
    script returns the double next to it,
    6004799503160661 / 4503599627370496 (1.3333333333333333). *)
Lemma AdjustRidership_exact_counterexample :
  (0 <= 1)%Z /\ (0 <= 1)%Z /\ (if (4 >? 3)%Z then 3%Z else 4%Z) <> 0%Z /\
  exists adjusted_ons adjusted_offs,
    Rounded.AdjustRidership binary64 1 1 4 3 = Ok (adjusted_ons, adjusted_offs) /\
    (adjusted_ons == 1)%Q /\
    (adjusted_offs == 6004799503160661 # 4503599627370496)%Q /\
    (inject_Z 1 + inject_Z (4 - 3) * (inject_Z 1 / inject_Z 3) == 4 # 3)%Q /\
    ~ (adjusted_offs == inject_Z 1 + inject_Z (4 - 3) * (inject_Z 1 / inject_Z 3))%Q.
Proof.
  split; [lia|]. split; [lia|]. split; [simpl; discriminate|].
  eexists _, _. split; [reflexivity|].
  split; [reflexivity|]. split; [vm_compute; reflexivity|].
  split; [reflexivity|]. vm_compute. discriminate.
Qed.

(** ** What the adjustment does to a count *)

(** X5.  On counts and totals that are not negative, and counts that the
    rounding leaves as they are (for the doubles these are the counts up
    to 2^53, [binary64_Z]), [AdjustRidership] lowers neither count and
    changes at most one of them; when boardings and alightings of the
    direction are equal, both counts come back as they are.  (A count
    beyond 2^53 can come back lower: [AdjustRidership_beyond_2_53].) *)
Theorem AdjustRidership_lowers_no_count (fl : Q -> Q) (ons offs total_on total_off : Z)
    (adjusted_ons adjusted_offs : Q) :
  rounding fl ->
  (fl (inject_Z ons) == inject_Z ons)%Q -> (fl (inject_Z offs) == inject_Z offs)%Q ->
  (0 <= ons)%Z -> (0 <= offs)%Z -> (0 <= total_on)%Z -> (0 <= total_off)%Z ->
  Rounded.AdjustRidership fl ons offs total_on total_off = Ok (adjusted_ons, adjusted_offs) ->
  (inject_Z ons <= adjusted_ons)%Q /\ (inject_Z offs <= adjusted_offs)%Q /\
  (adjusted_ons = inject_Z ons \/ adjusted_offs = inject_Z offs) /\
  (total_on = total_off ->
   (adjusted_ons == inject_Z ons)%Q /\ (adjusted_offs == inject_Z offs)%Q).
Proof.
  intros Hfl Fons Foffs Hons Hoffs Hon Hoff. unfold Rounded.AdjustRidership.
  assert (Hextra : forall x diff t : Z, (0 <= x)%Z -> (0 <= diff)%Z -> (0 <= t)%Z ->
            (0 <= Rounded.mul fl (inject_Z diff)
                    (Rounded.div fl (fl (inject_Z x)) (inject_Z t)))%Q).
  { intros x diff t Hx Hd Ht. apply inject_Z_nonneg in Hx, Hd, Ht.
    apply (rounded_mul_nonneg fl Hfl); [exact Hd|].
    apply (rounded_div_nonneg fl Hfl); [apply (fl_nonneg fl Hfl), Hx|exact Ht]. }
  destruct (Z.gtb_spec total_on total_off) as [Hgt|Hle].
  - destruct (Z.eqb_spec total_off 0) as [_|Hnz]; [discriminate|].
    intros [= <- <-]. split; [apply Qle_refl|]. split.
    + apply (rounded_add_ge fl Hfl); [exact Foffs|]. apply Hextra; lia.
    + split; [left; reflexivity|]. intros ->. lia.
  - destruct (Z.eqb_spec total_on 0) as [_|Hnz]; [discriminate|].
    intros [= <- <-]. split; [|split; [apply Qle_refl|]].
    + apply (rounded_add_ge fl Hfl); [exact Fons|]. apply Hextra; lia.
    + split; [right; reflexivity|]. intros ->. rewrite Z.sub_diag.
      split; [|reflexivity]. unfold Rounded.add, Rounded.mul.
      change (inject_Z 0) with 0%Q.
      assert (E1 : (fl 0 * fl (Rounded.div fl (fl (inject_Z ons)) (inject_Z total_off))
                    == 0)%Q).
      { rewrite (rounding_zero fl Hfl). ring. }
      assert (E2 : (fl (fl 0 * fl (Rounded.div fl (fl (inject_Z ons)) (inject_Z total_off)))
                    == 0)%Q).
      { rewrite (fl_comp fl Hfl _ _ E1). apply (rounding_zero fl Hfl). }
      assert (E3 : (fl (fl (fl 0 * fl (Rounded.div fl (fl (inject_Z ons))
                                         (inject_Z total_off)))) == 0)%Q).
      { rewrite (fl_comp fl Hfl _ _ E2). apply (rounding_zero fl Hfl). }
      assert (E4 : (fl (inject_Z ons)
                    + fl (fl (fl 0 * fl (Rounded.div fl (fl (inject_Z ons))
                                           (inject_Z total_off)))) == inject_Z ons)%Q).
      { rewrite E3, Fons. ring. }
      rewrite (fl_comp fl Hfl _ _ E4). exact Fons.
Qed.

Lemma AdjustRidership_lowers_no_count_witness :
  rounding binary64 /\
  (binary64 (inject_Z 1) == inject_Z 1)%Q /\
  (0 <= 1)%Z /\ (0 <= 4)%Z /\ (0 <= 3)%Z /\
  exists adjusted_offs,
    Rounded.AdjustRidership binary64 1 1 4 3 = Ok (inject_Z 1, adjusted_offs) /\
    (inject_Z 1 <= adjusted_offs)%Q.
Proof.
  assert (H1 : (0 <= 1)%Z) by lia. assert (H4 : (0 <= 4)%Z) by lia.
  assert (H3 : (0 <= 3)%Z) by lia.
  assert (F1 : (binary64 (inject_Z 1) == inject_Z 1)%Q) by (apply binary64_Z; lia).
  split; [exact binary64_rounding|]. split; [exact F1|].
  split; [exact H1|]. split; [exact H4|]. split; [exact H3|].
  eexists. split; [reflexivity|].
  exact (proj1 (proj2 (AdjustRidership_lowers_no_count binary64 1 1 4 3 _ _
                         binary64_rounding F1 F1 H1 H1 H4 H3 eq_refl))).
Defined.

(** The count 2^53 + 1 is no double: with equal totals, where nothing is
    added to it, it comes back as 2^53. *)
Lemma AdjustRidership_beyond_2_53 :
  exists adjusted_ons adjusted_offs,
    Rounded.AdjustRidership binary64 (2 ^ 53 + 1) 0 7 7 = Ok (adjusted_ons, adjusted_offs) /\
    (adjusted_ons == inject_Z (2 ^ 53))%Q /\ (adjusted_ons < inject_Z (2 ^ 53 + 1))%Q.
Proof.
  eexists _, _. split; [reflexivity|]. split; vm_compute; reflexivity.
Qed.

(** ** What the adjustment does to a direction *)

Lemma inject_Z_Zsum (zs : list Z) :
  (inject_Z (Zsum zs) == Qsum (map inject_Z zs))%Q.
Proof.
  induction zs as [|z zs IH]; simpl; [reflexivity|].
  rewrite inject_Z_plus, IH. reflexivity.
Qed.

Lemma Qsum_exact_share (diff t : Z) (zs : list Z) :
  (Qsum (map (fun z => exact_share z diff t) zs) == exact_share (Zsum zs) diff t)%Q.
Proof.
  unfold exact_share. induction zs as [|z zs IH]; simpl.
  - unfold Qdiv. change (inject_Z 0) with 0%Q. ring.
  - rewrite IH, inject_Z_plus. unfold Qdiv. ring.
Qed.

(** The parts make up the larger total when they are weighted with the
    difference of the totals. *)
Lemma exact_share_total (large small : Z) :
  small <> 0%Z -> (exact_share small (large - small) small == inject_Z large)%Q.
Proof.
  intros Hnz. unfold exact_share, Z.sub. rewrite inject_Z_plus, inject_Z_opp.
  assert (Hq : ~ (inject_Z small == 0)%Q).
  { change 0%Q with (inject_Z 0). rewrite inject_Z_injective. exact Hnz. }
  field. exact Hq.
Qed.

Lemma within_rounding_refl (e : Q) : (0 <= e)%Q -> within_rounding e e.
Proof. intros H. unfold within_rounding. split; nra. Qed.

Lemma within_rounding_comp (e e' v v' : Q) :
  (e == e')%Q -> (v == v')%Q -> within_rounding e v -> within_rounding e' v'.
Proof. intros He Hv. unfold within_rounding. rewrite He, Hv. auto. Qed.

Lemma within_rounding_sum (es vs : list Q) :
  Forall2 within_rounding es vs -> within_rounding (Qsum es) (Qsum vs).
Proof.
  induction 1 as [|e v es vs [H1 H2] _ [IH1 IH2]]; simpl.
  - unfold within_rounding. split; lra.
  - unfold within_rounding in *. split; lra.
Qed.

Lemma Zsum_bounds (zs : list Z) :
  Forall (fun z => (0 <= z)%Z) zs -> Forall (fun z => (0 <= z <= Zsum zs)%Z) zs.
Proof.
  induction 1 as [|z zs Hz Hzs IH]; simpl; constructor.
  - assert (0 <= Zsum zs)%Z; [|lia].
    clear IH. induction Hzs as [|y ys Hy _ IHy]; simpl; lia.
  - eapply Forall_impl; [exact IH|]. intros y Hy. simpl in Hy. lia.
Qed.

Lemma adjusted_offs_close (total_on total_off : Z) (stops : list (Z * Z))
    (adjusted : list (Q * Q)) :
  (total_on >? total_off)%Z = true ->
  (0 < total_off)%Z -> (total_on <= 2 ^ 53)%Z ->
  Forall (fun s : Z * Z => (0 <= snd s <= total_off)%Z) stops ->
  Forall2 (fun s a => Rounded.AdjustRidership binary64 (fst s) (snd s) total_on total_off
                      = Ok a) stops adjusted ->
  map fst adjusted = map inject_Z (map fst stops) /\
  Forall2 within_rounding
    (map (fun z => exact_share z (total_on - total_off) total_off) (map snd stops))
    (map snd adjusted).
Proof.
  intros Eg Hpos Bon Hoffs H.
  assert (Hgt : (total_off < total_on)%Z) by (apply Z.gtb_lt, Eg).
  induction H as [|s a l k Ha _ IH]; [split; constructor|].
  apply Forall_cons in Hoffs as [Hs Hoffs]. destruct (IH Hoffs) as [IH1 IH2].
  apply AdjustRidership_shares in Ha. rewrite Eg in Ha. destruct Ha as (_ & Ha1 & Ha2).
  split; simpl; [congruence|]. constructor; [|exact IH2].
  eapply within_rounding_comp; [reflexivity|symmetry; exact Ha2|].
  apply double_share_close; lia.
Qed.

Lemma adjusted_ons_close (total_on total_off : Z) (stops : list (Z * Z))
    (adjusted : list (Q * Q)) :
  (total_on >? total_off)%Z = false ->
  (0 < total_on)%Z -> (total_off <= 2 ^ 53)%Z ->
  Forall (fun s : Z * Z => (0 <= fst s <= total_on)%Z) stops ->
  Forall2 (fun s a => Rounded.AdjustRidership binary64 (fst s) (snd s) total_on total_off
                      = Ok a) stops adjusted ->
  Forall2 within_rounding
    (map (fun z => exact_share z (total_off - total_on) total_on) (map fst stops))
    (map fst adjusted) /\
  map snd adjusted = map inject_Z (map snd stops).
Proof.
  intros Eg Hpos Boff Hons H.
  assert (Hle : (total_on <= total_off)%Z).
  { rewrite Z.gtb_ltb in Eg. apply Z.ltb_ge, Eg. }
  induction H as [|s a l k Ha _ IH]; [split; constructor|].
  apply Forall_cons in Hons as [Hs Hons]. destruct (IH Hons) as [IH1 IH2].
  apply AdjustRidership_shares in Ha. rewrite Eg in Ha. destruct Ha as (_ & Ha1 & Ha2).
  split; simpl; [|congruence]. constructor; [|exact IH1].
  eapply within_rounding_comp; [reflexivity|symmetry; exact Ha1|].
  apply double_share_close; lia.
Qed.

(** X6.  Adjusting every stop of a direction with the direction's own
    totals makes boardings and alightings balance up to the rounding:
    for counts that are not negative and totals up to 2^53, the adjusted
    boardings and the adjusted alightings, each added up exactly, are
    the larger of the two totals up to a relative error of 2^-51.  (In
    exact arithmetic both sums are the larger total; the sums of the
    doubles need not be: [adjusted_thirds].) *)
Theorem AdjustRidership_nearly_balances (stops : list (Z * Z)) (adjusted : list (Q * Q)) :
  let total_on := Zsum (map fst stops) in
  let total_off := Zsum (map snd stops) in
  Forall (fun s : Z * Z => (0 <= fst s)%Z /\ (0 <= snd s)%Z) stops ->
  (total_on <= 2 ^ 53)%Z -> (total_off <= 2 ^ 53)%Z ->
  mapM (fun s : Z * Z => Rounded.AdjustRidership binary64 (fst s) (snd s) total_on total_off)
       stops = Ok adjusted ->
  within_rounding (inject_Z (Z.max total_on total_off)) (Qsum (map fst adjusted)) /\
  within_rounding (inject_Z (Z.max total_on total_off)) (Qsum (map snd adjusted)).
Proof.
  intros total_on total_off Hnn Bon Boff H. apply mapM_result_Ok in H.
  assert (Hons : Forall (fun z => (0 <= z <= total_on)%Z) (map fst stops)).
  { apply Zsum_bounds, Forall_fmap. eapply Forall_impl; [exact Hnn|]. intros s [? _]. assumption. }
  assert (Hoffs : Forall (fun z => (0 <= z <= total_off)%Z) (map snd stops)).
  { apply Zsum_bounds, Forall_fmap. eapply Forall_impl; [exact Hnn|]. intros s [_ ?]. assumption. }
  rewrite Forall_fmap in Hons, Hoffs.
  assert (Etn : total_on = Zsum (map fst stops)) by reflexivity.
  assert (Etf : total_off = Zsum (map snd stops)) by reflexivity.
  clearbody total_on total_off.
  destruct stops as [|s0 stops].
  { inversion H; subst. simpl. split; apply within_rounding_refl; apply Qle_refl. }
  assert (H0 : exists a0,
            Rounded.AdjustRidership binary64 (fst s0) (snd s0) total_on total_off = Ok a0).
  { inversion H; subst. eauto. }
  destruct H0 as [a0 H0]. apply AdjustRidership_shares in H0.
  assert (Hon0 : (0 <= total_on)%Z).
  { apply Forall_cons in Hons as [? _]. simpl in *. lia. }
  assert (Hoff0 : (0 <= total_off)%Z).
  { apply Forall_cons in Hoffs as [? _]. simpl in *. lia. }
  destruct (total_on >? total_off)%Z eqn:Eg.
  - assert (Hgt : (total_off < total_on)%Z) by (apply Z.gtb_lt, Eg).
    destruct H0 as (Hnz & _). rewrite Z.max_l by lia.
    destruct (adjusted_offs_close _ _ _ _ Eg ltac:(lia) Bon Hoffs H) as [E HF].
    split.
    + rewrite E. refine (within_rounding_comp _ _ _ _ (Qeq_refl _) (inject_Z_Zsum _) _).
      rewrite <- Etn. apply within_rounding_refl, inject_Z_nonneg, Hon0.
    + refine (within_rounding_comp _ _ _ _ _ (Qeq_refl _) (within_rounding_sum _ _ HF)).
      rewrite Qsum_exact_share, <- Etf. apply exact_share_total, Hnz.
  - assert (Hle : (total_on <= total_off)%Z).
    { rewrite Z.gtb_ltb in Eg. apply Z.ltb_ge, Eg. }
    destruct H0 as (Hnz & _). rewrite Z.max_r by lia.
    destruct (adjusted_ons_close _ _ _ _ Eg ltac:(lia) Boff Hons H) as [HF E].
    split.
    + refine (within_rounding_comp _ _ _ _ _ (Qeq_refl _) (within_rounding_sum _ _ HF)).
      rewrite Qsum_exact_share, <- Etn. apply exact_share_total, Hnz.
    + rewrite E. refine (within_rounding_comp _ _ _ _ (Qeq_refl _) (inject_Z_Zsum _) _).
      rewrite <- Etf. apply within_rounding_refl, inject_Z_nonneg, Hoff0.
Qed.

Lemma AdjustRidership_nearly_balances_witness :
  Forall (fun s : Z * Z => (0 <= fst s)%Z /\ (0 <= snd s)%Z) [(1, 1); (2, 4); (3, 3)]%Z /\
  (6 <= 2 ^ 53)%Z /\ (8 <= 2 ^ 53)%Z /\
  exists adjusted,
    mapM (fun s : Z * Z => Rounded.AdjustRidership binary64 (fst s) (snd s) 6 8)
         [(1, 1); (2, 4); (3, 3)]%Z = Ok adjusted /\
    within_rounding (inject_Z 8) (Qsum (map fst adjusted)) /\
    within_rounding (inject_Z 8) (Qsum (map snd adjusted)).
Proof.
  assert (Hnn : Forall (fun s : Z * Z => (0 <= fst s)%Z /\ (0 <= snd s)%Z)
                       [(1, 1); (2, 4); (3, 3)]%Z).
  { repeat constructor; simpl; lia. }
  assert (B6 : (6 <= 2 ^ 53)%Z) by lia. assert (B8 : (8 <= 2 ^ 53)%Z) by lia.
  split; [exact Hnn|]. split; [exact B6|]. split; [exact B8|].
  eexists. split; [reflexivity|].
  exact (AdjustRidership_nearly_balances [(1, 1); (2, 4); (3, 3)]%Z _ Hnn B6 B8 eq_refl).
Defined.

(** The adjusted boardings of the three stops are 1.3333333333333333,
    2.6666666666666665 and 4: their sum is below 8 by 2^-52. *)
Lemma adjusted_thirds :
  exists adjusted,
    mapM (fun s : Z * Z => Rounded.AdjustRidership binary64 (fst s) (snd s) 6 8)
         [(1, 1); (2, 4); (3, 3)]%Z = Ok adjusted /\
    (Qsum (map fst adjusted) == 8 - (1 # 4503599627370496))%Q /\
    (Qsum (map snd adjusted) == 8)%Q.
Proof. eexists. split; [reflexivity|]. split; vm_compute; reflexivity. Qed.

(** * A stop on a link that no street carries *)

Lemma directions_missing_grow
    (shortest_path : MultiDiGraph -> Node -> Node -> result (list Node))
    (dictRouteMetrics : ByDir (gmap Z StopDict)) (dictRouteTotals : ByDir (gmap Z Totals))
    (dictAllNodes : NodeDict) (subgraph : MultiDiGraph) (dictRouteLinks : list Z) (r : Z)
    (dirs : list Direction) (st st' : State) :
  for_each (direction shortest_path dictRouteMetrics dictRouteTotals dictAllNodes subgraph
                      dictRouteLinks r) dirs st = Ok st' ->
  exists missing, st_lstMissingLink st' = st_lstMissingLink st ++ missing.
Proof.
  revert st. induction dirs as [|dir dirs IH]; intros st H; simpl in H.
  - injection H as <-. exists []. rewrite app_nil_r. reflexivity.
  - bind_inv H st1 H1. apply direction_reports in H1 as [[stop Hm] _].
    apply IH in H as [missing Hm']. eexists. rewrite Hm', Hm, <- app_assoc. reflexivity.
Qed.

Lemma routes_missing_grow
    (shortest_path : MultiDiGraph -> Node -> Node -> result (list Node))
    (dictRouteSegments : list (Z * list Z))
    (dictRouteMetrics : ByDir (gmap Z StopDict)) (dictRouteTotals : ByDir (gmap Z Totals))
    (dictAllNodes : NodeDict) (rs : list Z) (st st' : State) :
  for_each (route shortest_path dictRouteSegments dictRouteMetrics dictRouteTotals
                  dictAllNodes) rs st = Ok st' ->
  exists missing, st_lstMissingLink st' = st_lstMissingLink st ++ missing.
Proof.
  revert st. induction rs as [|r rs IH]; intros st H; simpl in H.
  - injection H as <-. exists []. rewrite app_nil_r. reflexivity.
  - bind_inv H st1 H1. apply route_reports in H1 as (m1 & _ & Hm & _).
    apply IH in H as [missing Hm']. eexists. rewrite Hm', Hm, <- app_assoc. reflexivity.
Qed.

Lemma route_eq
    (shortest_path : MultiDiGraph -> Node -> Node -> result (list Node))
    (dictRouteSegments : list (Z * list Z))
    (dictRouteMetrics : ByDir (gmap Z StopDict)) (dictRouteTotals : ByDir (gmap Z Totals))
    (dictAllNodes : NodeDict) (st : State) (r : Z) :
  route shortest_path dictRouteSegments dictRouteMetrics dictRouteTotals dictAllNodes st r =
  created ← CreateSubgraph (st_G st) r dictRouteSegments;
  for_each (direction shortest_path dictRouteMetrics dictRouteTotals dictAllNodes
                      (snd created) (fst (fst created)) r)
           [inbound; outbound] (set_dictRouteNodes (snd (fst created)) st).
Proof.
  unfold route. destruct (CreateSubgraph _ _ _) as [[[? ?] ?]|]; reflexivity.
Qed.

(** The pass of the loop that meets the missing link leaves the loop,
    whatever stops follow. *)
Lemma missing_pair_leaves_loop
    (shortest_path : MultiDiGraph -> Node -> Node -> result (list Node))
    (dictAllNodes : NodeDict) (subgraph : MultiDiGraph) (dictRouteLinks : list Z) (r : Z)
    (dir : Direction) (dictStops : StopDict) (lstStops : list Q) (total_on total_off : Z)
    (st stk : State) (pre rest : list (nat * Q)) (i : nat) (s s' : Q)
    (eSource eTarget : option Z) (ons offs ons' offs' : Z) :
  let body := stop_pair shortest_path dictAllNodes subgraph dictRouteLinks r dir dictStops
                        lstStops total_on total_off in
  passes body pre st stk ->
  odict_get Qeq_bool s dictStops = Some (eSource, ons, offs) ->
  lstStops !! (i + 1)%nat = Some s' ->
  odict_get Qeq_bool s' dictStops = Some (eTarget, ons', offs') ->
  absent_both (st_dictRouteNodes stk) dictAllNodes eSource \/
  absent_both (st_dictRouteNodes stk) dictAllNodes eTarget ->
  for_stops body (pre ++ (i, s) :: rest) st
    = Ok (append_MissingLink (r, dir) (set_dictRouteNodes dictAllNodes stk)).
Proof.
  intros body Hpre Hs Hs' Ht Habsent.
  rewrite (for_stops_passes body pre _ _ _ Hpre). simpl.
  unfold body at 1. unfold stop_pair. rewrite Hs. simpl. rewrite Hs'. simpl.
  rewrite Ht. simpl. rewrite (locate_missing _ _ _ _ _ _ _ _ _ Habsent). reflexivity.
Qed.

(** C8.  A run comes to the route [r] (after the routes [rs1]) and in it
    to the direction [dir] (after the directions [dirs1]); the stop pairs
    [pre] of the direction are handled, and the link of the source or of
    the target stop of the next pair is in neither the route's node index
    nor the node index of the whole graph.  Then: the direction ends with
    [(r, dir)] appended to the missing-link report and with the graph as
    the pairs [pre] have left it, whatever stops follow in the direction;
    the run goes on with the remaining directions [dirs2] of the route and
    the remaining routes [rs2] from this state; and when it completes,
    [(r, dir)] is in its missing-link report, its graph is the graph that
    the pairs [pre] have left with the updates of the remaining directions
    and routes applied (no load is lower when the counts of the query are
    not negative), and [main] builds the ledger from this graph. *)
Theorem missing_link_run_continues
    (shortest_path : MultiDiGraph -> Node -> Node -> result (list Node))
    (fcStreets : list StreetRow) (fcRoutes : list (Z * Z)) (csvMetroQuery : list MetroRow)
    (dictAllNodes : NodeDict) (rs1 rs2 : list Z) (r : Z) (st_r : State)
    (dictRouteLinks : list Z) (dictRouteNodes : NodeDict) (subgraph : MultiDiGraph)
    (dirs1 dirs2 : list Direction) (dir : Direction) (st0 stk : State)
    (pre rest : list (nat * Q)) (i : nat) (s s' : Q)
    (eSource eTarget : option Z) (ons offs ons' offs' : Z) :
  let G0 := CreateDirectedMultiGraph fcStreets in
  let dictRouteSegments := SubgraphDataLookup fcRoutes in
  let dictRouteMetrics := fst (RouteDataLookup csvMetroQuery) in
  let dictRouteTotals := snd (RouteDataLookup csvMetroQuery) in
  let dictStops := default [] (dir_get dir dictRouteMetrics !! r) in
  let lstStops := sorted (map fst dictStops) in
  let totals := default (0, 0)%Z (dir_get dir dictRouteTotals !! r) in
  let body := stop_pair shortest_path dictAllNodes subgraph dictRouteLinks r dir dictStops
                        lstStops (fst totals) (snd totals) in
  let run_dir := direction shortest_path dictRouteMetrics dictRouteTotals dictAllNodes
                           subgraph dictRouteLinks r in
  let run_route := route shortest_path dictRouteSegments dictRouteMetrics dictRouteTotals
                         dictAllNodes in
  let st' := append_MissingLink (r, dir) (set_dictRouteNodes dictAllNodes stk) in
  NodeLookup G0 = Ok dictAllNodes ->
  map fst dictRouteSegments = rs1 ++ r :: rs2 ->
  for_each run_route rs1 (mkState G0 ∅ None 0 [] []) = Ok st_r ->
  CreateSubgraph (st_G st_r) r dictRouteSegments
    = Ok (dictRouteLinks, dictRouteNodes, subgraph) ->
  [inbound; outbound] = dirs1 ++ dir :: dirs2 ->
  for_each run_dir dirs1 (set_dictRouteNodes dictRouteNodes st_r) = Ok st0 ->
  enumerate (removelast lstStops) = pre ++ (i, s) :: rest ->
  passes body pre (set_total 0 st0) stk ->
  odict_get Qeq_bool s dictStops = Some (eSource, ons, offs) ->
  lstStops !! (i + 1)%nat = Some s' ->
  odict_get Qeq_bool s' dictStops = Some (eTarget, ons', offs') ->
  absent_both (st_dictRouteNodes stk) dictAllNodes eSource \/
  absent_both (st_dictRouteNodes stk) dictAllNodes eTarget ->
  run_dir st0 dir = Ok st' /\
  (forall rest', for_stops body (pre ++ (i, s) :: rest') (set_total 0 st0) = Ok st') /\
  RidershipAlgorithm shortest_path fcStreets fcRoutes csvMetroQuery =
    or_exit (st2 ← (st1 ← for_each run_dir dirs2 st'; for_each run_route rs2 st1);
             Ok (st_G st2, st_lstBadData st2, st_lstMissingLink st2)) /\
  forall G lstBadData lstMissingLink,
    RidershipAlgorithm shortest_path fcStreets fcRoutes csvMetroQuery
      = Ok (G, lstBadData, lstMissingLink) ->
    (r, dir) ∈ lstMissingLink /\
    accumulates (fun _ => True) (st_G stk) G /\
    (Forall row_nonneg csvMetroQuery -> loads_le (st_G stk) G) /\
    exists dd, main shortest_path fcStreets fcRoutes csvMetroQuery = Ok dd /\
      forall l, dd !! l = total <$> last_with_link l (map snd (edges G)).
Proof.
  intros G0 dictRouteSegments dictRouteMetrics dictRouteTotals dictStops lstStops totals
         body run_dir run_route st' Hnodes Hrs Hbefore Hcreate Hdirs Hdirs1 Hitems Hpre
         Hs Hs' Ht Habsent.
  assert (Hleave : forall rest',
            for_stops body (pre ++ (i, s) :: rest') (set_total 0 st0) = Ok st').
  { intros rest'. eapply missing_pair_leaves_loop; eassumption. }
  assert (Hdir : run_dir st0 dir = Ok st').
  { unfold run_dir, direction. fold dictStops. fold lstStops. fold totals. fold body.
    rewrite Hitems. apply Hleave. }
  assert (Hrun : RidershipAlgorithm shortest_path fcStreets fcRoutes csvMetroQuery =
            or_exit (st2 ← (st1 ← for_each run_dir dirs2 st'; for_each run_route rs2 st1);
                     Ok (st_G st2, st_lstBadData st2, st_lstMissingLink st2))).
  { unfold RidershipAlgorithm. fold G0. fold dictRouteSegments.
    unfold run_route, run_dir, dictRouteMetrics, dictRouteTotals in *.
    destruct (RouteDataLookup csvMetroQuery) as [metrics totals0]. cbn [fst snd] in *.
    rewrite Hnodes, result_bind_Ok_l, Hrs, for_each_app, Hbefore, result_bind_Ok_l.
    cbn [for_each]. rewrite route_eq, Hcreate, result_bind_Ok_l. cbn [fst snd].
    rewrite Hdirs, for_each_app, Hdirs1, result_bind_Ok_l.
    cbn [for_each]. rewrite Hdir, result_bind_Ok_l. reflexivity. }
  split; [exact Hdir|]. split; [exact Hleave|]. split; [exact Hrun|].
  intros G lstBadData lstMissingLink Hok.
  pose proof (RidershipAlgorithm_wf _ _ _ _ _ _ _ Hok) as Hwf.
  assert (Hmain : main shortest_path fcStreets fcRoutes csvMetroQuery = ledger G).
  { unfold main. rewrite Hok. reflexivity. }
  rewrite Hrun in Hok. apply or_exit_Ok in Hok.
  bind_inv Hok st2 H2. injection Hok as <- _ <-.
  bind_inv H2 st1 H1.
  pose proof (directions_missing_grow _ _ _ _ _ _ _ _ _ _ H1) as [m1 Hm1].
  pose proof (routes_missing_grow _ _ _ _ _ _ _ _ H2) as [m2 Hm2].
  assert (Hacc : forall D : Prop,
            (D -> metrics_nonneg dictRouteMetrics) -> (D -> totals_nonneg dictRouteTotals) ->
            accumulates (nonneg_if D) (st_G stk) (st_G st2)).
  { intros D HDm HDt.
    apply (directions_Ok shortest_path dictRouteMetrics dictRouteTotals dictAllNodes D
             HDm HDt) in H1 as [H1 _].
    apply (routes_Ok shortest_path dictRouteSegments dictRouteMetrics dictRouteTotals
             dictAllNodes D HDm HDt) in H2.
    eapply accumulates_trans; [exact H1|exact H2]. }
  split; [|split; [|split]].
  - rewrite Hm2, Hm1. cbn [st_lstMissingLink st' append_MissingLink].
    apply elem_of_app. left. apply elem_of_app. left. apply elem_of_app. right.
    apply list_elem_of_here.
  - eapply accumulates_impl; [|apply (Hacc False); intros []]. intros x _. exact I.
  - intros Hrows. apply accumulates_loads_le.
    eapply accumulates_impl;
      [|apply (Hacc (Forall row_nonneg csvMetroQuery));
        intros HD; apply (RouteDataLookup_nonneg _ HD)].
    intros x Hx. exact (Hx Hrows).
  - rewrite Hmain. apply ledger_of_wf_graph, Hwf.
Qed.

(** Route 7 gives up its inbound direction at the stop on link 999, after
    the first stop pair has put 10 riders on link 101; route 8 is handled
    after it and puts its 4 riders on link 102. *)
Lemma missing_link_run_continues_witness :
  let G0 := CreateDirectedMultiGraph gap_streets in
  let dictRouteSegments := SubgraphDataLookup missing_routes in
  let dictRouteMetrics := fst (RouteDataLookup missing_query) in
  let dictRouteTotals := snd (RouteDataLookup missing_query) in
  exists dictAllNodes dictRouteLinks dictRouteNodes subgraph stk G dd,
    NodeLookup G0 = Ok dictAllNodes /\
    CreateSubgraph G0 7 dictRouteSegments = Ok (dictRouteLinks, dictRouteNodes, subgraph) /\
    passes (stop_pair nx_shortest_path dictAllNodes subgraph dictRouteLinks 7 inbound
              (default [] (dir_get inbound dictRouteMetrics !! 7%Z))
              (sorted (map fst (default [] (dir_get inbound dictRouteMetrics !! 7%Z))))
              (fst (default (0, 0)%Z (dir_get inbound dictRouteTotals !! 7%Z)))
              (snd (default (0, 0)%Z (dir_get inbound dictRouteTotals !! 7%Z))))
           [(0%nat, 1%Q)] (set_total 0 (mkState G0 dictRouteNodes None 0 [] [])) stk /\
    absent_both (st_dictRouteNodes stk) dictAllNodes (Some 999%Z) /\
    RidershipAlgorithm nx_shortest_path gap_streets missing_routes missing_query
      = Ok (G, [], [(7%Z, inbound)]) /\
    (7%Z, inbound) ∈ [(7%Z, inbound)] /\
    loads_le (st_G stk) G /\
    main nx_shortest_path gap_streets missing_routes missing_query = Ok dd /\
    (exists x, dd !! 101%Z = Some x /\ (x == 10)%Q) /\
    (exists y, dd !! 102%Z = Some y /\ (y == 4)%Q).
Proof.
  intros G0 dictRouteSegments dictRouteMetrics dictRouteTotals.
  eexists _, _, _, _, _, _, _.
  split; [vm_compute; reflexivity|].
  split; [vm_compute; reflexivity|].
  split; [econstructor; [vm_compute; reflexivity|constructor]|].
  split; [split; vm_compute; reflexivity|].
  split; [vm_compute; reflexivity|].
  match goal with
  | |- _ ∈ _ /\ loads_le (st_G ?stk) ?G /\ _ =>
      destruct (missing_link_run_continues nx_shortest_path gap_streets missing_routes
                  missing_query
                  ltac:(let v := eval vm_compute in (NodeLookup G0) in
                        match v with Ok ?a => exact a end)
                  [] [8%Z] 7 (mkState G0 ∅ None 0 [] [])
                  ltac:(let v := eval vm_compute in
                                   (CreateSubgraph G0 7 dictRouteSegments) in
                        match v with Ok (?a, _, _) => exact a end)
                  ltac:(let v := eval vm_compute in
                                   (CreateSubgraph G0 7 dictRouteSegments) in
                        match v with Ok (_, ?a, _) => exact a end)
                  ltac:(let v := eval vm_compute in
                                   (CreateSubgraph G0 7 dictRouteSegments) in
                        match v with Ok (_, _, ?a) => exact a end)
                  [] [outbound] inbound
                  (set_dictRouteNodes
                     ltac:(let v := eval vm_compute in
                                      (CreateSubgraph G0 7 dictRouteSegments) in
                           match v with Ok (_, ?a, _) => exact a end)
                     (mkState G0 ∅ None 0 [] []))
                  stk [(0%nat, 1%Q)] [(2%nat, 3%Q)]
                  1%nat 2%Q 3%Q (Some 101%Z) (Some 999%Z) 0 5 0 5)
        as (_ & _ & _ & Hend)
  end.
  - vm_compute. reflexivity.
  - vm_compute. reflexivity.
  - vm_compute. reflexivity.
  - vm_compute. reflexivity.
  - reflexivity.
  - vm_compute. reflexivity.
  - vm_compute. reflexivity.
  - econstructor; [vm_compute; reflexivity|constructor].
  - vm_compute. reflexivity.
  - vm_compute. reflexivity.
  - vm_compute. reflexivity.
  - right. split; vm_compute; reflexivity.
  - match goal with
    | |- _ /\ loads_le _ ?G /\ _ =>
        destruct (Hend G [] [(7%Z, inbound)]) as (Hin & _ & Hle & _);
          [vm_compute; reflexivity|]
    end.
    split; [exact Hin|]. split.
    + apply Hle. repeat constructor; simpl; lia.
    + split; [vm_compute; reflexivity|].
      split; eexists; (split; [vm_compute; reflexivity|vm_compute; reflexivity]).
Defined.
